(** * AI resume analyser: retry loops, storage facade, OAuth callback,
      trial display and database scripts

    A shallow embedding of the TypeScript and JavaScript sources:
    - [app/lib/storage.ts]      (module [Storage])
    - the PDF to image helper   (module [Pdf2Img])
    - [app/components/TrialTracker.tsx] (module [Trial])
    - the OAuth callback handler (module [OAuthCallback])
    - [scripts/run-migrations.mjs], from the text of a file to its
      statements (module [MigrationText])
    - [scripts/seed-data.mjs], [scripts/run-migrations.mjs] and the SQL
      migrations (module [Scripts]),
    over the JavaScript values, strings and numbers they use (module [Js],
    with facts about them in modules [Text] and [Numbers]), an effect monad
    with state, thrown values and a trace (module [Eff]) and the shape of a
    retry trace (module [Retry]).

    More of the code comes after these modules: the rest of the storage
    facade (modules [StorageFacts] and [Facade]), facts about the PDF helper
    and the OAuth handler (modules [Pdf2ImgFacts] and [OAuthFacts]) and
    about the scripts (module [ScriptsFacts]), and the loader of
    [app/routes/resume.tsx] (module [ResumeRoute]). The properties of the
    specification are the theorems at the end.

    A string is the sequence of the bytes of its UTF-8 encoding, a lone
    surrogate being the three bytes that encode its code unit; its UTF-16
    code units are counted from the bytes, and the white space of [trim]
    and of [\s] is that of Unicode.

    Counters are integers ([Z]); [maxRetries] in particular is an integer,
    and a loop over [attempt = 1 .. maxRetries] takes fuel
    [Z.to_nat maxRetries], which is shown to be enough. What the code
    computes by a division or reads with [parseInt] is a double
    ([Js.Number], the binary64 values of the Standard Library's
    [SpecFloat]).

    Asynchronous functions are sequential here: every [await] is a plain
    call, a rejected promise is a thrown value. A thrown value is an
    [Error] or another value known by its text ([Js.Thrown]); in the PDF
    helper, which reads the message of whatever it catches, it is an
    [Error] or a value of the platform's, whose message and text the
    platform gives ([Pdf2Img.Raised]).  Calls into the platform (cloud
    storage, pdf.js, the DOM, the OAuth helpers, the database driver) are
    fields of an interface record over an abstract world, so that every
    theorem holds for every behaviour of the platform. *)

From Stdlib Require Import ZArith List String Ascii Bool Lia.
From Stdlib Require Import DecimalString.
From Stdlib Require DecimalPos.
From Stdlib Require SpecFloat.
Import ListNotations.

Set Warnings "-notation-for-abbreviation,-register-all".

Open Scope string_scope.
Open Scope list_scope.
Open Scope Z_scope.

Infix "+++" := String.append (right associativity, at level 60).

(** ** JavaScript values, strings and completions *)

Module Js.

(** An [Error] object: [name] and [message]. *)
Record JsErr := mkErr { err_name : string; err_message : string }.

(** [new Error(msg)] *)
Definition newError (msg : string) : JsErr := mkErr "Error" msg.

(** What a [throw] or a rejected promise carries: an [Error] object, or any
    other value, kept as its [String(v)] conversion. *)
Inductive Thrown :=
| ThrowErr (e : JsErr)
| ThrowOther (repr : string).

(** [error instanceof Error ? error : new Error(String(error))] *)
Definition toError (error : Thrown) : JsErr :=
  match error with
  | ThrowErr e => e
  | ThrowOther repr => newError repr
  end.

(** [err?.message]: [undefined] on a value that is no [Error]. *)
Definition messageOf (err : Thrown) : option string :=
  match err with
  | ThrowErr e => Some (err_message e)
  | ThrowOther _ => None
  end.

(** [String(err)]: [Error.prototype.toString] on an [Error]. *)
Definition StringOf (err : Thrown) : string :=
  match err with
  | ThrowErr e =>
      if String.eqb (err_name e) "" then err_message e
      else if String.eqb (err_message e) "" then err_name e
      else err_name e +++ ": " +++ err_message e
  | ThrowOther repr => repr
  end.

(** The line feed of a string literal. *)
Definition LF : string := String (ascii_of_nat 10) "".

(** Truthiness of a string: the empty string is falsy. *)
Definition truthy (s : string) : bool := negb (String.eqb s "").

(** Truthiness of an optional string ([undefined] is falsy). *)
Definition truthyOpt (o : option string) : bool :=
  match o with Some s => truthy s | None => false end.

(** [a || b] on optional strings. *)
Definition orElse (o : option string) (dflt : string) : string :=
  match o with
  | Some s => if truthy s then s else dflt
  | None => dflt
  end.

(** A template literal hole holding a possibly undefined string. *)
Definition interpolate (o : option string) : string :=
  match o with Some s => s | None => "undefined" end.

(** [String(n)] for an integer number. *)
Definition showZ (n : Z) : string := NilZero.string_of_int (Z.to_int n).

(** [s.startsWith(p)] *)
Definition startsWith (s p : string) : bool := String.prefix p s.

(** [s.includes(sub)] *)
Fixpoint includes (s sub : string) : bool :=
  if String.prefix sub s then true
  else match s with
       | EmptyString => false
       | String _ rest => includes rest sub
       end.

(** [s.endsWith(p)] *)
Fixpoint endsWith (s p : string) : bool :=
  if String.eqb s p then true
  else match s with
       | EmptyString => false
       | String _ rest => endsWith rest p
       end.

Definition lowerChar (c : ascii) : ascii :=
  let n := nat_of_ascii c in
  if (Nat.leb 65 n && Nat.leb n 90)%bool then ascii_of_nat (n + 32) else c.

(** [s.toLowerCase()] on the ASCII range. *)
Fixpoint toLowerCase (s : string) : string :=
  match s with
  | EmptyString => EmptyString
  | String c rest => String (lowerChar c) (toLowerCase rest)
  end.

(** [s.split(sep)] for a one character separator. *)
Fixpoint split (sep : ascii) (s : string) : list string :=
  match s with
  | EmptyString => [EmptyString]
  | String c rest =>
      if Ascii.eqb c sep then EmptyString :: split sep rest
      else match split sep rest with
           | seg :: segs => String c seg :: segs
           | [] => [String c EmptyString]
           end
  end.

(** [arr.join(sep)] *)
Fixpoint join (sep : string) (l : list string) : string :=
  match l with
  | [] => ""
  | [s] => s
  | s :: rest => s +++ sep +++ join sep rest
  end.

Definition isDigit (c : ascii) : bool :=
  let n := nat_of_ascii c in (Nat.leb 48 n && Nat.leb n 57)%bool.

Definition isAlpha (c : ascii) : bool :=
  let n := nat_of_ascii c in
  ((Nat.leb 65 n && Nat.leb n 90) || (Nat.leb 97 n && Nat.leb n 122))%bool.

Fixpoint mapString (f : ascii -> ascii) (s : string) : string :=
  match s with
  | EmptyString => EmptyString
  | String c rest => String (f c) (mapString f rest)
  end.

Fixpoint dropChars (n : nat) (s : string) : string :=
  match n, s with
  | S k, String _ rest => dropChars k rest
  | _, _ => s
  end.

(** *** Text in UTF-8

    A string holds its text in UTF-8, a lone surrogate as the three bytes
    of its generalized encoding ([ED A0..BF 80..BF]). What JavaScript does
    per UTF-16 code unit or per code point is written over these bytes. *)

Definition between (lo hi : nat) (c : ascii) : bool :=
  let n := nat_of_ascii c in (Nat.leb lo n && Nat.leb n hi)%bool.

Definition isByte (k : nat) (c : ascii) : bool := Nat.eqb (nat_of_ascii c) k.

(** The bytes after the first one of a character. *)
Definition isContinuation (c : ascii) : bool := between 128 191 c.

(** The second byte of a character of three or four bytes, by its first:
    no overlong form, no surrogate, nothing beyond U+10FFFF. *)
Definition second3 (a b : ascii) : bool :=
  if isByte 224 a then between 160 191 b
  else if isByte 237 a then between 128 159 b
  else isContinuation b.

Definition second4 (a b : ascii) : bool :=
  if isByte 240 a then between 144 191 b
  else if isByte 244 a then between 128 143 b
  else isContinuation b.

(** Whether a text is well formed: it holds no lone surrogate (the bytes
    are UTF-8). *)
Fixpoint wellFormed (s : string) : bool :=
  match s with
  | EmptyString => true
  | String a r1 =>
      if between 0 127 a then wellFormed r1
      else
        match r1 with
        | EmptyString => false
        | String b r2 =>
            if between 194 223 a then (isContinuation b && wellFormed r2)%bool
            else
              match r2 with
              | EmptyString => false
              | String c r3 =>
                  if between 224 239 a then
                    (second3 a b && isContinuation c && wellFormed r3)%bool
                  else
                    match r3 with
                    | EmptyString => false
                    | String d r4 =>
                        (between 240 244 a && second4 a b && isContinuation c
                         && isContinuation d && wellFormed r4)%bool
                    end
              end
        end
  end.

(** The UTF-16 code units that begin at a byte: none at a continuation
    byte, two at the first byte of a character beyond U+FFFF, else one. *)
Definition codeUnitsAt (c : ascii) : nat :=
  if isContinuation c then 0%nat
  else if between 240 255 c then 2%nat
  else 1%nat.

(** [s.length]: the number of UTF-16 code units. *)
Fixpoint codeUnits (s : string) : nat :=
  match s with
  | EmptyString => 0%nat
  | String c rest => (codeUnitsAt c + codeUnits rest)%nat
  end.

(** *** White space

    The white space of [trim], of [parseInt] and of [\s]: the characters
    U+0009 to U+000D and U+0020, and U+00A0, U+1680, U+2000 to U+200A,
    U+2028, U+2029, U+202F, U+205F, U+3000 and U+FEFF. *)

Definition isSpace (c : ascii) : bool :=
  let n := nat_of_ascii c in
  ((Nat.eqb n 32) || (Nat.leb 9 n && Nat.leb n 13))%bool.

(** U+00A0 *)
Definition space2 (a b : ascii) : bool := (isByte 194 a && isByte 160 b)%bool.

(** U+1680; U+2000 to U+200A, U+2028, U+2029 and U+202F; U+205F; U+3000;
    U+FEFF. *)
Definition space3 (a b c : ascii) : bool :=
  ((isByte 225 a && isByte 154 b && isByte 128 c)
   || (isByte 226 a && isByte 128 b
       && (between 128 138 c || isByte 168 c || isByte 169 c || isByte 175 c))
   || (isByte 226 a && isByte 129 b && isByte 159 c)
   || (isByte 227 a && isByte 128 b && isByte 128 c)
   || (isByte 239 a && isByte 187 b && isByte 191 c))%bool.

(** The bytes of the white space character at the head of a text, 0 when
    there is none. *)
Definition spaceWidth (s : string) : nat :=
  match s with
  | EmptyString => 0%nat
  | String a r1 =>
      if isSpace a then 1%nat
      else
        match r1 with
        | EmptyString => 0%nat
        | String b r2 =>
            if space2 a b then 2%nat
            else
              match r2 with
              | EmptyString => 0%nat
              | String c _ => if space3 a b c then 3%nat else 0%nat
              end
        end
  end.

(** The text without the white space at its head; every step drops a
    character, so that the length of the text is fuel enough. *)
Fixpoint skipSpacesFuel (fuel : nat) (s : string) : string :=
  match fuel with
  | O => s
  | S fuel' =>
      match spaceWidth s with
      | O => s
      | w => skipSpacesFuel fuel' (dropChars w s)
      end
  end.

Definition skipSpaces (s : string) : string := skipSpacesFuel (String.length s) s.

(** Whether a text is white space only. *)
Definition blank (s : string) : bool := String.eqb (skipSpaces s) "".

(** The text without the white space at its end. *)
Fixpoint trimEnd (s : string) : string :=
  match s with
  | EmptyString => EmptyString
  | String c rest => if blank s then EmptyString else String c (trimEnd rest)
  end.

(** [s.trim()] *)
Definition trim (s : string) : string := trimEnd (skipSpaces s).

(** *** Numbers

    A number is a double: a binary64 value of IEEE 754, with the operations
    that the Standard Library specifies for it. *)

Definition Number : Type := SpecFloat.spec_float.

Definition NaN : Number := SpecFloat.S754_nan.

(** The double nearest to an integer, ties to even; [+0] for 0. *)
Definition ofZ (n : Z) : Number := SpecFloat.binary_normalize 53 1024 n 0 false.

(** [a / b] and [a * b] *)
Definition numDiv (a b : Number) : Number := SpecFloat.SFdiv 53 1024 a b.

Definition numMul (a b : Number) : Number := SpecFloat.SFmul 53 1024 a b.

(** [a <= b] and [a < b]; false when either is [NaN]. *)
Definition numLeb (a b : Number) : bool := SpecFloat.SFleb a b.

Definition numLtb (a b : Number) : bool := SpecFloat.SFltb a b.

Definition isNaN (a : Number) : bool :=
  match a with SpecFloat.S754_nan => true | _ => false end.

Definition isFinite (a : Number) : bool :=
  match a with
  | SpecFloat.S754_zero _ | SpecFloat.S754_finite _ _ _ => true
  | _ => false
  end.

(** [Math.max(a, b)]: [NaN] if either is; [+0] is the larger zero. *)
Definition mathMax (a b : Number) : Number :=
  match SpecFloat.SFcompare a b with
  | None => NaN
  | Some Lt => b
  | Some Gt => a
  | Some Eq => match a with SpecFloat.S754_zero true => b | _ => a end
  end.

(** [Math.min(a, b)]: [NaN] if either is; [-0] is the smaller zero. *)
Definition mathMin (a b : Number) : Number :=
  match SpecFloat.SFcompare a b with
  | None => NaN
  | Some Lt => a
  | Some Gt => b
  | Some Eq => match a with SpecFloat.S754_zero false => b | _ => a end
  end.

(** [Math.floor(x)] *)
Definition mathFloor (x : Number) : Number :=
  match x with
  | SpecFloat.S754_finite s m e =>
      if 0 <=? e then x
      else
        let q := Z.shiftr (Z.pos m) (- e) in
        let whole := Z.eqb (Z.shiftl q (- e)) (Z.pos m) in
        let z := if s then (if whole then - q else - (q + 1)) else q in
        SpecFloat.binary_normalize 53 1024 z 0 s
  | _ => x
  end.

(** The value of a digit, in a radix up to 36. *)
Definition digitValue (c : ascii) : option Z :=
  if between 48 57 c then Some (Z.of_nat (nat_of_ascii c - 48))
  else if between 97 122 c then Some (Z.of_nat (nat_of_ascii c - 87))
  else if between 65 90 c then Some (Z.of_nat (nat_of_ascii c - 55))
  else None.

(** The value of the digits of a radix at the head of a text, read after
    [acc]; [None] when there is no digit. *)
Fixpoint parseDigits (radix : Z) (s : string) (acc : option Z) : option Z :=
  match s with
  | EmptyString => acc
  | String c rest =>
      match digitValue c with
      | Some d =>
          if d <? radix then
            parseDigits radix rest
              (Some (radix * match acc with Some a => a | None => 0 end + d))
          else acc
      | None => acc
      end
  end.

(** [parseInt(s)] without a radix: leading white space, an optional sign,
    [0x] or [0X] for hexadecimal digits, then the digits up to the first
    other character. The result is the double nearest to the integer read,
    [NaN] when there is no digit, and a zero with the sign read. *)
Definition parseInt (s : string) : Number :=
  let t := skipSpaces s in
  let '(negative, body) :=
    match t with
    | String "-" rest => (true, rest)
    | String "+" rest => (false, rest)
    | _ => (false, t)
    end in
  let '(radix, digits) :=
    match body with
    | String "0" (String x rest) =>
        if (Ascii.eqb x "x" || Ascii.eqb x "X")%bool then (16, rest) else (10, body)
    | _ => (10, body)
    end in
  match parseDigits radix digits None with
  | None => NaN
  | Some 0 => SpecFloat.S754_zero negative
  | Some v => ofZ (if negative then - v else v)
  end.

(** The completion of a call: a value, or a thrown value of type [T]. Where
    nothing else is said, thrown values are those of [Thrown]. *)
Inductive CompletionOf (T A : Type) :=
| Normal (a : A)
| Throw (t : T).
Arguments Normal {T A} a.
Arguments Throw {T A} t.

Notation Completion := (CompletionOf Thrown).

Lemma prefix_append (p s : string) : String.prefix p (p +++ s) = true.
Proof.
  induction p as [|a p IH]; simpl.
  - now destruct s.
  - destruct (ascii_dec a a); [exact IH|congruence].
Qed.

Lemma includes_prefix (s sub : string) : String.prefix sub s = true -> includes s sub = true.
Proof. intros H. destruct s; cbn [includes]; now rewrite H. Qed.

Lemma append_assoc (a b c : string) : (a +++ b) +++ c = a +++ b +++ c.
Proof. induction a as [|x a IH]; simpl; [reflexivity|now rewrite IH]. Qed.

(** A string includes each of the parts it was concatenated from. *)
Lemma includes_append (a b c : string) : includes (a +++ b +++ c) b = true.
Proof.
  induction a as [|x a IH].
  - cbn [String.append]. apply includes_prefix, prefix_append.
  - cbn [String.append includes].
    destruct (String.prefix b (String x (a +++ b +++ c))); [reflexivity|exact IH].
Qed.

Lemma includes_append_end (a b : string) : includes (a +++ b) b = true.
Proof.
  induction a as [|x a IH].
  - cbn [String.append]. apply includes_prefix. induction b as [|y b IHb]; simpl; [reflexivity|].
    destruct (ascii_dec y y); [exact IHb|congruence].
  - cbn [String.append includes].
    destruct (String.prefix b (String x (a +++ b))); [reflexivity|exact IH].
Qed.

End Js.
Import Js.

(** ** Text: characters of a string, [String(n)] and [parseInt] *)

Module Text.

(** Every character of a string passes a test. *)
Fixpoint allChars (p : ascii -> bool) (s : string) : bool :=
  match s with
  | EmptyString => true
  | String c rest => (p c && allChars p rest)%bool
  end.

Lemma append_length (a b : string) :
  String.length (a +++ b) = (String.length a + String.length b)%nat.
Proof. induction a as [|c a IH]; [reflexivity|]. cbn. now rewrite IH. Qed.

Lemma toLowerCase_length (s : string) : String.length (toLowerCase s) = String.length s.
Proof. induction s as [|c rest IH]; [reflexivity|]. cbn. now rewrite IH. Qed.

(** *** White space at the head and at the end of a text *)

Lemma string_length_ind (P : string -> Prop) :
  (forall s, (forall t, (String.length t < String.length s)%nat -> P t) -> P s) ->
  forall s, P s.
Proof.
  intros H s. remember (String.length s) as n eqn:En. revert s En.
  induction n as [n IH] using lt_wf_ind. intros s ->.
  apply H. intros t Ht. exact (IH _ Ht t eq_refl).
Qed.

Lemma dropChars_length (n : nat) (s : string) :
  String.length (dropChars n s) = (String.length s - n)%nat.
Proof.
  revert s. induction n as [|n IH]; intros [|c rest]; cbn; try reflexivity.
  apply IH.
Qed.

Lemma dropChars_append (n : nat) (x y : string) :
  (n <= String.length x)%nat -> dropChars n (x +++ y) = dropChars n x +++ y.
Proof.
  revert x. induction n as [|n IH]; intros [|c rest] H; cbn in *; try reflexivity; try lia.
  apply IH. lia.
Qed.

Lemma spaceWidth_le (s : string) : (spaceWidth s <= String.length s)%nat.
Proof.
  destruct s as [|a [|b [|c rest]]]; cbn; [lia| | |].
  - destruct (isSpace a); lia.
  - destruct (isSpace a); [lia|]. destruct (space2 a b); lia.
  - destruct (isSpace a); [lia|]. destruct (space2 a b); [lia|].
    destruct (space3 a b c); lia.
Qed.

(** White space at the head of a text is there whatever follows. *)
Lemma spaceWidth_append (x y : string) :
  spaceWidth x <> 0%nat -> spaceWidth (x +++ y) = spaceWidth x.
Proof.
  destruct x as [|a [|b [|c rest]]]; cbn; [congruence| | |].
  - destruct (isSpace a); [reflexivity|congruence].
  - destruct (isSpace a); [reflexivity|]. destruct (space2 a b); [|congruence].
    now destruct y.
  - destruct (isSpace a); [reflexivity|]. destruct (space2 a b); reflexivity.
Qed.

Lemma skipSpacesFuel_enough (f1 : nat) :
  forall f2 s, (String.length s <= f1)%nat -> (String.length s <= f2)%nat ->
  skipSpacesFuel f1 s = skipSpacesFuel f2 s.
Proof.
  induction f1 as [|f1 IH]; intros f2 s H1 H2.
  - destruct s; [|cbn in H1; lia]. now destruct f2.
  - destruct f2 as [|f2].
    + destruct s; [reflexivity|cbn in H2; lia].
    + cbn [skipSpacesFuel]. pose proof (spaceWidth_le s) as Hw.
      destruct (spaceWidth s) as [|w] eqn:Ew; [reflexivity|].
      apply IH; rewrite dropChars_length; lia.
Qed.

(** The equation of [skipSpaces]. *)
Lemma skipSpaces_step (s : string) :
  skipSpaces s = match spaceWidth s with
                 | O => s
                 | w => skipSpaces (dropChars w s)
                 end.
Proof.
  unfold skipSpaces. destruct s as [|a rest]; [reflexivity|].
  cbn [String.length skipSpacesFuel].
  pose proof (spaceWidth_le (String a rest)) as Hw.
  destruct (spaceWidth (String a rest)) as [|w] eqn:Ew; [reflexivity|].
  apply skipSpacesFuel_enough; rewrite ?dropChars_length; cbn [String.length] in *; lia.
Qed.

Lemma skipSpaces_fixed (s : string) : spaceWidth s = 0%nat -> skipSpaces s = s.
Proof. intros H. now rewrite skipSpaces_step, H. Qed.

(** What [skipSpaces] leaves does not start with white space. *)
Lemma skipSpaces_head (s : string) : spaceWidth (skipSpaces s) = 0%nat.
Proof.
  induction s as [s IH] using string_length_ind.
  rewrite skipSpaces_step. pose proof (spaceWidth_le s) as Hw.
  destruct (spaceWidth s) as [|w] eqn:Ew; [exact Ew|].
  apply IH. rewrite dropChars_length. lia.
Qed.

Lemma blank_empty (s : string) : blank s = true <-> skipSpaces s = "".
Proof. unfold blank. split; [apply String.eqb_eq|intros ->; reflexivity]. Qed.

(** White space before a text is skipped with that of the text. *)
Lemma skipSpaces_blank_append (x : string) :
  forall y, blank x = true -> skipSpaces (x +++ y) = skipSpaces y.
Proof.
  induction x as [x IH] using string_length_ind. intros y Hx.
  apply blank_empty in Hx. pose proof (spaceWidth_le x) as Hw.
  rewrite skipSpaces_step in Hx.
  destruct (spaceWidth x) as [|w] eqn:Ew.
  - subst x. reflexivity.
  - rewrite (skipSpaces_step (x +++ y)), spaceWidth_append, Ew by congruence.
    rewrite dropChars_append by lia.
    apply IH; [rewrite dropChars_length; lia|now apply blank_empty].
Qed.

Lemma blank_append (x y : string) :
  blank x = true -> blank y = true -> blank (x +++ y) = true.
Proof.
  intros Hx Hy. apply blank_empty. rewrite (skipSpaces_blank_append x y Hx).
  now apply blank_empty.
Qed.

(** A text is what [trimEnd] leaves of it, followed by white space. *)
Lemma trimEnd_split (s : string) :
  exists q, s = trimEnd s +++ q /\ blank q = true.
Proof.
  induction s as [|c rest (q & Hq & Hb)]; [now exists ""|].
  cbn [trimEnd]. destruct (blank (String c rest)) eqn:E.
  - now exists (String c rest).
  - exists q. cbn [String.append]. split; [now rewrite <- Hq|exact Hb].
Qed.

(** What [trimEnd] leaves does not end with white space. *)
Lemma trimEnd_trimmed (s : string) : trimEnd (trimEnd s) = trimEnd s.
Proof.
  induction s as [|c rest IH]; [reflexivity|].
  cbn [trimEnd]. destruct (blank (String c rest)) eqn:E; [reflexivity|].
  cbn [trimEnd]. rewrite IH.
  destruct (blank (String c (trimEnd rest))) eqn:E'; [|reflexivity].
  destruct (trimEnd_split rest) as (q & Hq & Hb).
  rewrite Hq in E at 1.
  change (String c (trimEnd rest +++ q)) with (String c (trimEnd rest) +++ q) in E.
  rewrite (blank_append _ _ E' Hb) in E. discriminate.
Qed.

Lemma trimEnd_head (s : string) :
  spaceWidth s = 0%nat -> spaceWidth (trimEnd s) = 0%nat.
Proof.
  intros H. destruct (trimEnd_split s) as (q & Hq & _).
  destruct (spaceWidth (trimEnd s)) as [|w] eqn:Ew; [reflexivity|].
  rewrite Hq, spaceWidth_append in H by congruence. congruence.
Qed.

(** What [trim] leaves has no white space at its head and none at its end,
    and trimming it again changes nothing. *)
Lemma trim_trimmed (s : string) :
  spaceWidth (trim s) = 0%nat /\ trimEnd (trim s) = trim s /\ trim (trim s) = trim s.
Proof.
  unfold trim.
  assert (Hh : spaceWidth (trimEnd (skipSpaces s)) = 0%nat)
    by apply trimEnd_head, skipSpaces_head.
  split; [exact Hh|]. split; [apply trimEnd_trimmed|].
  rewrite (skipSpaces_fixed _ Hh). apply trimEnd_trimmed.
Qed.

(** A text that starts with a printable character of ASCII does not start
    with white space. *)
Lemma spaceWidth_printable (c : ascii) (rest : string) :
  between 33 126 c = true -> spaceWidth (String c rest) = 0%nat.
Proof.
  intros H. destruct c as [[] [] [] [] [] [] [] []]; try discriminate H;
    destruct rest as [|b [|d r]]; reflexivity.
Qed.

(** *** [String(n)] and [parseInt] *)

(** The value of a run of decimal digits read after [acc]. *)
Fixpoint digitsZ (d : Decimal.uint) (acc : Z) : Z :=
  match d with
  | Decimal.Nil => acc
  | Decimal.D0 l => digitsZ l (10 * acc)
  | Decimal.D1 l => digitsZ l (10 * acc + 1)
  | Decimal.D2 l => digitsZ l (10 * acc + 2)
  | Decimal.D3 l => digitsZ l (10 * acc + 3)
  | Decimal.D4 l => digitsZ l (10 * acc + 4)
  | Decimal.D5 l => digitsZ l (10 * acc + 5)
  | Decimal.D6 l => digitsZ l (10 * acc + 6)
  | Decimal.D7 l => digitsZ l (10 * acc + 7)
  | Decimal.D8 l => digitsZ l (10 * acc + 8)
  | Decimal.D9 l => digitsZ l (10 * acc + 9)
  end.

Ltac read_digit :=
  match goal with
  | |- context [digitValue ?c] =>
      let v := eval vm_compute in (digitValue c) in
      change (digitValue c) with v; cbv iota beta;
      match goal with
      | |- context [?k <? 10] => change (k <? 10) with true; cbv iota beta
      end
  end.

Lemma parseDigits_digits (d : Decimal.uint) :
  forall a, parseDigits 10 (NilEmpty.string_of_uint d) (Some a) = Some (digitsZ d a).
Proof.
  induction d; intros a; cbn [NilEmpty.string_of_uint parseDigits digitsZ];
    try reflexivity;
    read_digit; rewrite <- IHd; f_equal; f_equal; lia.
Qed.

Lemma digitsZ_pos (d : Decimal.uint) :
  forall p, digitsZ d (Z.pos p) = Z.pos (Pos.of_uint_acc d p).
Proof.
  induction d; intros p; cbn [digitsZ Pos.of_uint_acc]; try reflexivity;
    rewrite <- IHd; f_equal; lia.
Qed.

Lemma digitsZ_zero (d : Decimal.uint) : digitsZ d 0 = Z.of_N (Pos.of_uint d).
Proof.
  induction d; cbn [digitsZ Pos.of_uint]; try reflexivity;
    try (exact IHd);
    change (10 * 0 + ?k) with k; rewrite digitsZ_pos; reflexivity.
Qed.

(** The decimal digits of a positive number: they are read back as the
    number, and the first of them is a digit. *)
Lemma parseInt_uint (p : positive) :
  parseDigits 10 (NilZero.string_of_uint (Pos.to_uint p)) None = Some (Z.pos p)
  /\ exists c rest, NilZero.string_of_uint (Pos.to_uint p) = String c rest
                    /\ isDigit c = true.
Proof.
  assert (Hv : Z.of_N (Pos.of_uint (Pos.to_uint p)) = Z.pos p)
    by now rewrite DecimalPos.Unsigned.of_to.
  rewrite <- digitsZ_zero in Hv.
  destruct (Pos.to_uint p) as [|d|d|d|d|d|d|d|d|d|d] eqn:Ed;
    [discriminate| | | | | | | | | |];
    (split; [|eexists; eexists; split; [reflexivity|reflexivity]]);
    cbn [NilZero.string_of_uint NilEmpty.string_of_uint parseDigits];
    read_digit;
    rewrite parseDigits_digits; f_equal; rewrite <- Hv; cbn [digitsZ]; f_equal.
Qed.

Lemma showZ_nonempty (n : Z) : showZ n <> "".
Proof.
  unfold showZ. destruct n as [|p|p]; [discriminate| |discriminate].
  cbn [Z.to_int NilZero.string_of_int].
  destruct (parseInt_uint p) as (_ & c & rest & -> & _). discriminate.
Qed.

(** Reading back what [String(n)] wrote gives the double nearest to [n]. *)
Lemma parseInt_showZ (n : Z) : parseInt (showZ n) = ofZ n.
Proof.
  unfold showZ. destruct n as [|p|p]; [reflexivity| |].
  - cbn [Z.to_int NilZero.string_of_int].
    destruct (parseInt_uint p) as (Hv & c & rest & Hs & Hc).
    unfold parseInt. rewrite Hs in *.
    rewrite skipSpaces_fixed.
    2:{ apply spaceWidth_printable.
        destruct c as [[] [] [] [] [] [] [] []]; try discriminate Hc; reflexivity. }
    assert (Hbody : (let '(negative, body) :=
                       match String c rest with
                       | String "-" r => (true, r)
                       | String "+" r => (false, r)
                       | _ => (false, String c rest)
                       end in
                     let '(radix, digits) :=
                       match body with
                       | String "0" (String x r) =>
                           if (Ascii.eqb x "x" || Ascii.eqb x "X")%bool
                           then (16, r) else (10, body)
                       | _ => (10, body)
                       end in
                     (negative, radix, digits)) = (false, 10, String c rest)).
    { destruct c as [[] [] [] [] [] [] [] []]; try discriminate Hc; try reflexivity.
      destruct rest as [|x r]; [reflexivity|].
      destruct (Ascii.eqb x "x" || Ascii.eqb x "X")%bool eqn:Ex; [|reflexivity].
      exfalso. cbn [parseDigits] in Hv. revert Hv. read_digit.
      assert (Hx : digitValue x = Some 33).
      { apply orb_prop in Ex as [E|E]; apply Ascii.eqb_eq in E; subst x; reflexivity. }
      rewrite Hx. change (33 <? 10) with false. cbv iota. discriminate. }
    revert Hbody.
    destruct (match String c rest with
              | String "-" r => (true, r)
              | String "+" r => (false, r)
              | _ => (false, String c rest)
              end) as [negative body].
    destruct (match body with
              | String "0" (String x r) =>
                  if (Ascii.eqb x "x" || Ascii.eqb x "X")%bool then (16, r) else (10, body)
              | _ => (10, body)
              end) as [radix digits].
    intros [= -> -> ->]. rewrite Hv. reflexivity.
  - cbn [Z.to_int NilZero.string_of_int].
    destruct (parseInt_uint p) as (Hv & c & rest & Hs & Hc).
    unfold parseInt. rewrite Hs in *.
    rewrite skipSpaces_fixed by (now apply spaceWidth_printable).
    assert (Hbody : (let '(radix, digits) :=
                       match String c rest with
                       | String "0" (String x r) =>
                           if (Ascii.eqb x "x" || Ascii.eqb x "X")%bool
                           then (16, r) else (10, String c rest)
                       | _ => (10, String c rest)
                       end in
                     (radix, digits)) = (10, String c rest)).
    { destruct c as [[] [] [] [] [] [] [] []]; try discriminate Hc; try reflexivity.
      destruct rest as [|x r]; [reflexivity|].
      destruct (Ascii.eqb x "x" || Ascii.eqb x "X")%bool eqn:Ex; [|reflexivity].
      exfalso. cbn [parseDigits] in Hv. revert Hv. read_digit.
      assert (Hx : digitValue x = Some 33).
      { apply orb_prop in Ex as [E|E]; apply Ascii.eqb_eq in E; subst x; reflexivity. }
      rewrite Hx. change (33 <? 10) with false. cbv iota. discriminate. }
    cbv iota beta. revert Hbody.
    destruct (match String c rest with
              | String "0" (String x r) =>
                  if (Ascii.eqb x "x" || Ascii.eqb x "X")%bool
                  then (16, r) else (10, String c rest)
              | _ => (10, String c rest)
              end) as [radix digits].
    intros [= -> ->]. rewrite Hv. reflexivity.
Qed.

(** No segment of [s.split(sep)] holds the separator. *)
Lemma split_segments (sep : ascii) (s : string) :
  split sep s <> []
  /\ Forall (fun seg => includes seg (String sep "") = false) (split sep s).
Proof.
  induction s as [|c rest [IHne IH]]; [split; [discriminate|repeat constructor]|].
  cbn [split]. destruct (Ascii.eqb_spec c sep) as [->|Hc].
  - split; [discriminate|]. constructor; [reflexivity|exact IH].
  - destruct (split sep rest) as [|seg segs]; [congruence|].
    split; [discriminate|].
    inversion IH as [|x l Hseg Hsegs]; subst. constructor; [|exact Hsegs].
    cbn [includes String.prefix].
    destruct (ascii_dec sep c) as [E|_]; [congruence|exact Hseg].
Qed.

Lemma last_In {A} (l : list A) (d : A) : l <> [] -> In (List.last l d) l.
Proof.
  induction l as [|x l IH]; [congruence|]. intros _.
  destruct l as [|y l]; [now left|]. right. apply IH. discriminate.
Qed.

(** A text without the separator is one segment. *)
Lemma split_no_separator (sep : ascii) (s : string) :
  includes s (String sep "") = false -> split sep s = [s].
Proof.
  induction s as [|c rest IH]; [reflexivity|].
  cbn [includes String.prefix split].
  destruct (ascii_dec sep c) as [->|Hc].
  - destruct rest; discriminate.
  - intros H. destruct (Ascii.eqb_spec c sep) as [E|_]; [congruence|].
    now rewrite (IH H).
Qed.

Lemma split_app_separator (sep : ascii) (x rest : string) :
  includes x (String sep "") = false ->
  split sep (x +++ String sep rest) = x :: split sep rest.
Proof.
  induction x as [|c x IH].
  - intros _. cbn [String.append split]. now rewrite Ascii.eqb_refl.
  - cbn [includes String.prefix String.append split].
    destruct (ascii_dec sep c) as [->|Hc].
    + destruct x; discriminate.
    + intros H. destruct (Ascii.eqb_spec c sep) as [E|_]; [congruence|].
      now rewrite (IH H).
Qed.

(** Splitting what was joined gives the parts back, when no part holds the
    separator. *)
Lemma split_join (sep : ascii) (l : list string) :
  l <> [] ->
  Forall (fun seg => includes seg (String sep "") = false) l ->
  split sep (join (String sep "") l) = l.
Proof.
  induction l as [|x l IH]; [congruence|]. intros _ Hall.
  inversion Hall as [|y l' Hx Hl]; subst.
  destruct l as [|y l].
  - simpl. now apply split_no_separator.
  - change (join (String sep "") (x :: y :: l))
      with (x +++ String sep "" +++ join (String sep "") (y :: l)).
    cbn [String.append]. rewrite (split_app_separator sep x _ Hx).
    f_equal. apply IH; [discriminate|exact Hl].
Qed.

End Text.
Import Text.

(** ** Facts about doubles *)

Module Numbers.
Import SpecFloat.

Lemma iter_pos_invariant {A} (P : A -> Prop) (f : A -> A) :
  (forall x, P x -> P (f x)) -> forall n x, P x -> P (iter_pos f n x).
Proof.
  intros Hf. induction n as [n IH|n IH|]; intros x Hx; simpl; auto.
Qed.

Lemma shr_1_nonneg (mrs : shr_record) : 0 <= shr_m mrs -> 0 <= shr_m (shr_1 mrs).
Proof.
  destruct mrs as [m r s]. simpl. destruct m as [|[p|p|]|[p|p|]]; simpl; lia.
Qed.

Lemma shr_nonneg (mrs : shr_record) (e n : Z) :
  0 <= shr_m mrs -> 0 <= shr_m (fst (shr mrs e n)).
Proof.
  intros H. unfold shr. destruct n as [|p|p]; simpl; [exact H| |exact H].
  apply (iter_pos_invariant (fun x => 0 <= shr_m x)); [apply shr_1_nonneg|exact H].
Qed.

Lemma shr_fexp_nonneg (prec emax m e : Z) (l : location) :
  0 <= m -> 0 <= shr_m (fst (shr_fexp prec emax m e l)).
Proof.
  intros H. unfold shr_fexp. apply shr_nonneg. now destruct l as [|[]].
Qed.

Lemma round_nearest_even_nonneg (m : Z) (l : location) :
  0 <= m -> 0 <= round_nearest_even m l.
Proof.
  intros H. unfold round_nearest_even. destruct l as [|[]]; try lia.
  destruct (Z.even m); lia.
Qed.

(** Rounding a mantissa that is not negative never gives [NaN]. *)
Lemma binary_round_aux_number (prec emax : Z) (sx : bool) (mx ex : Z) (lx : location) :
  0 <= mx -> isNaN (binary_round_aux prec emax sx mx ex lx) = false.
Proof.
  intros H. unfold binary_round_aux.
  pose proof (shr_fexp_nonneg prec emax mx ex lx H) as H1.
  destruct (shr_fexp prec emax mx ex lx) as [mrs' e']. simpl in H1.
  pose proof (shr_fexp_nonneg prec emax
                (round_nearest_even (shr_m mrs') (loc_of_shr_record mrs')) e' loc_Exact
                (round_nearest_even_nonneg _ _ H1)) as H2.
  destruct (shr_fexp prec emax _ e' loc_Exact) as [mrs'' e'']. simpl in H2.
  destruct (shr_m mrs'') as [|m|m]; [reflexivity| |lia].
  now destruct (e'' <=? emax - prec).
Qed.

Lemma div_core_nonneg (prec emax : Z) (m1 m2 : positive) (e1 e2 : Z) :
  0 <= fst (fst (SFdiv_core_binary prec emax (Z.pos m1) e1 (Z.pos m2) e2)).
Proof.
  unfold SFdiv_core_binary. cbv zeta.
  set (sh := (e1 - e2 - Z.min _ _)).
  set (m' := match sh with Z0 => Z.pos m1 | Z.pos _ => Z.shiftl (Z.pos m1) sh | Z.neg _ => 0 end).
  assert (Hm : 0 <= m').
  { unfold m'. destruct sh; try lia. apply Z.shiftl_nonneg. lia. }
  pose proof (Z.div_pos m' (Z.pos m2) Hm ltac:(lia)) as Hq.
  unfold Z.div in Hq. destruct (Z.div_eucl m' (Z.pos m2)) as [q r]. exact Hq.
Qed.

(** A quotient is [NaN] only when an operand is, or both are zero, or both
    infinite. *)
Lemma numDiv_nan (a b : Number) :
  isNaN (numDiv a b)
  = match a, b with
    | S754_nan, _ | _, S754_nan => true
    | S754_zero _, S754_zero _ => true
    | S754_infinity _, S754_infinity _ => true
    | _, _ => false
    end.
Proof.
  unfold numDiv. destruct a as [sa|sa| |sa ma ea], b as [sb|sb| |sb mb eb]; try reflexivity.
  unfold SFdiv.
  pose proof (div_core_nonneg 53 1024 ma mb ea eb) as H.
  destruct (SFdiv_core_binary 53 1024 (Z.pos ma) ea (Z.pos mb) eb) as [[mz ez] lz].
  simpl in H. now apply binary_round_aux_number.
Qed.

Lemma compare_antisym (a b : Number) (c : comparison) :
  SFcompare a b = Some c -> SFcompare b a = Some (CompOpp c).
Proof.
  destruct a as [sa|sa| |sa ma ea], b as [sb|sb| |sb mb eb]; simpl;
    try discriminate;
    try (intros H; injection H as <-);
    try (destruct sa; reflexivity); try (destruct sb; reflexivity);
    try (destruct sa, sb; reflexivity).
  destruct sa, sb; try reflexivity.
  - rewrite (Z.compare_antisym ea eb). destruct (ea ?= eb); simpl; try reflexivity.
    change (Pos.compare_cont Eq mb ma) with (Pos.compare_cont (CompOpp Eq) mb ma).
    now rewrite <- Pos.compare_cont_antisym.
  - rewrite (Z.compare_antisym ea eb). destruct (ea ?= eb); simpl; try reflexivity.
    change (Pos.compare_cont Eq mb ma) with (Pos.compare_cont (CompOpp Eq) mb ma).
    now rewrite <- Pos.compare_cont_antisym.
Qed.

Lemma compare_defined (a b : Number) :
  isNaN a = false -> isNaN b = false -> exists c, SFcompare a b = Some c.
Proof.
  destruct a, b; simpl; try discriminate; intros _ _; eexists; reflexivity.
Qed.

Lemma numLeb_refl (a : Number) : isNaN a = false -> numLeb a a = true.
Proof.
  unfold numLeb, SFleb. destruct a as [s|s| |s m e]; try discriminate; intros _.
  - reflexivity.
  - now destruct s.
  - simpl. destruct s; rewrite Z.compare_refl.
    + change (Pos.compare_cont Eq m m) with (Pos.compare m m). now rewrite Pos.compare_refl.
    + change (Pos.compare_cont Eq m m) with (Pos.compare m m). now rewrite Pos.compare_refl.
Qed.

(** [Math.max] and [Math.min] of numbers that are not [NaN]: one of the two,
    and a bound of both. *)
Lemma mathMax_spec (a b : Number) :
  isNaN a = false -> isNaN b = false ->
  (mathMax a b = a \/ mathMax a b = b)
  /\ numLeb a (mathMax a b) = true /\ numLeb b (mathMax a b) = true.
Proof.
  intros Ha Hb. destruct (compare_defined a b Ha Hb) as [c Hc].
  pose proof (compare_antisym a b c Hc) as Hc'.
  unfold mathMax. rewrite Hc. destruct c.
  - assert (Hab : numLeb a b = true) by (unfold numLeb, SFleb; now rewrite Hc).
    assert (Hba : numLeb b a = true) by (unfold numLeb, SFleb; now rewrite Hc').
    destruct a as [[]|sa| |sa ma ea];
      auto using numLeb_refl.
  - split; [now right|]. split; [unfold numLeb, SFleb; now rewrite Hc|now apply numLeb_refl].
  - split; [now left|]. split; [now apply numLeb_refl|unfold numLeb, SFleb; now rewrite Hc'].
Qed.

Lemma mathMin_spec (a b : Number) :
  isNaN a = false -> isNaN b = false ->
  (mathMin a b = a \/ mathMin a b = b)
  /\ numLeb (mathMin a b) a = true /\ numLeb (mathMin a b) b = true.
Proof.
  intros Ha Hb. destruct (compare_defined a b Ha Hb) as [c Hc].
  pose proof (compare_antisym a b c Hc) as Hc'.
  unfold mathMin. rewrite Hc. destruct c.
  - assert (Hab : numLeb a b = true) by (unfold numLeb, SFleb; now rewrite Hc).
    assert (Hba : numLeb b a = true) by (unfold numLeb, SFleb; now rewrite Hc').
    destruct a as [[]|sa| |sa ma ea];
      auto using numLeb_refl.
  - split; [now left|]. split; [now apply numLeb_refl|unfold numLeb, SFleb; now rewrite Hc].
  - split; [now right|]. split; [unfold numLeb, SFleb; now rewrite Hc'|now apply numLeb_refl].
Qed.

Lemma mathMax_nan (a b : Number) :
  isNaN (mathMax a b) = (isNaN a || isNaN b)%bool.
Proof.
  destruct (isNaN a) eqn:Ha; [destruct a; try discriminate; reflexivity|].
  destruct (isNaN b) eqn:Hb; [destruct b; try discriminate; destruct a; reflexivity|].
  destruct (mathMax_spec a b Ha Hb) as [[-> | ->] _]; simpl; congruence.
Qed.

Lemma mathMin_nan (a b : Number) :
  isNaN (mathMin a b) = (isNaN a || isNaN b)%bool.
Proof.
  destruct (isNaN a) eqn:Ha; [destruct a; try discriminate; reflexivity|].
  destruct (isNaN b) eqn:Hb; [destruct b; try discriminate; destruct a; reflexivity|].
  destruct (mathMin_spec a b Ha Hb) as [[-> | ->] _]; simpl; congruence.
Qed.

(** A quotient by zero is not finite, and neither is a multiple of it. *)
Lemma numDiv_zero (a : Number) (s : bool) :
  isFinite (numDiv a (S754_zero s)) = false.
Proof. now destruct a. Qed.

Lemma numMul_not_finite (a b : Number) : isFinite a = false -> isFinite (numMul a b) = false.
Proof. destruct a; try discriminate; intros _; now destruct b. Qed.

End Numbers.
Import Numbers.

(** ** The effect monad: state, thrown values and an event trace *)

Module Eff.

Section Monad.
Context {T E S : Type}.

(** One run: how it completed, the state it left, the events it emitted
    (calls into the platform, timers, console output), oldest first. *)
Record RunOf (A : Type) := mkRun {
  outcome : CompletionOf T A;
  final : S;
  emitted : list E
}.
Arguments mkRun {A}.
Arguments outcome {A}.
Arguments final {A}.
Arguments emitted {A}.

Definition MOf (A : Type) := S -> RunOf A.

Definition ret {A} (a : A) : MOf A := fun s => mkRun (Normal a) s [].

Definition throw {A} (t : T) : MOf A := fun s => mkRun (Throw t) s [].

Definition bind {A B} (m : MOf A) (k : A -> MOf B) : MOf B := fun s =>
  match m s with
  | mkRun (Normal a) s1 e1 =>
      match k a s1 with
      | mkRun o s2 e2 => mkRun o s2 (e1 ++ e2)
      end
  | mkRun (Throw t) s1 e1 => mkRun (Throw t) s1 e1
  end.

(** [try { body } catch (error) { handler error }] *)
Definition tryCatch {A} (body : MOf A) (handler : T -> MOf A) : MOf A := fun s =>
  match body s with
  | mkRun (Normal a) s1 e1 => mkRun (Normal a) s1 e1
  | mkRun (Throw t) s1 e1 =>
      match handler t s1 with
      | mkRun o s2 e2 => mkRun o s2 (e1 ++ e2)
      end
  end.

Definition emit (e : E) : MOf unit := fun s => mkRun (Normal tt) s [e].

Definition get : MOf S := fun s => mkRun (Normal s) s [].

Definition put (s : S) : MOf unit := fun _ => mkRun (Normal tt) s [].

(** A platform call: it completes and moves the state. *)
Definition call {A} (f : S -> CompletionOf T A * S) : MOf A := fun s =>
  match f s with
  | (c, s1) => mkRun c s1 []
  end.

End Monad.

Arguments RunOf : clear implicits.
Arguments MOf : clear implicits.
Arguments mkRun {T E S A}.
Arguments outcome {T E S A}.
Arguments final {T E S A}.
Arguments emitted {T E S A}.

(** Runs and computations that throw the values of [Thrown]. *)
Notation Run := (RunOf Thrown).
Notation M := (MOf Thrown).

Lemma bind_outcome {T E S A B} (m : MOf T E S A) (k : A -> MOf T E S B) (s : S) :
  outcome (bind m k s) =
  match outcome (m s) with
  | Normal a => outcome (k a (final (m s)))
  | Throw t => Throw t
  end.
Proof.
  unfold bind. destruct (m s) as [[a|t] s1 e1]; simpl; [|reflexivity].
  now destruct (k a s1).
Qed.

Lemma bind_emitted {T E S A B} (m : MOf T E S A) (k : A -> MOf T E S B) (s : S) :
  emitted (bind m k s) =
  emitted (m s) ++ match outcome (m s) with
                   | Normal a => emitted (k a (final (m s)))
                   | Throw _ => []
                   end.
Proof.
  unfold bind. destruct (m s) as [[a|t] s1 e1]; simpl; [|now rewrite app_nil_r].
  now destruct (k a s1).
Qed.

Lemma bind_final {T E S A B} (m : MOf T E S A) (k : A -> MOf T E S B) (s : S) :
  final (bind m k s) =
  match outcome (m s) with
  | Normal a => final (k a (final (m s)))
  | Throw _ => final (m s)
  end.
Proof.
  unfold bind. destruct (m s) as [[a|t] s1 e1]; simpl; [|reflexivity].
  now destruct (k a s1).
Qed.

Lemma tryCatch_outcome {T E S A} (m : MOf T E S A) (h : T -> MOf T E S A) (s : S) :
  outcome (tryCatch m h s) =
  match outcome (m s) with
  | Normal a => Normal a
  | Throw t => outcome (h t (final (m s)))
  end.
Proof.
  unfold tryCatch. destruct (m s) as [[a|t] s1 e1]; simpl; [reflexivity|].
  now destruct (h t s1).
Qed.

Lemma tryCatch_emitted {T E S A} (m : MOf T E S A) (h : T -> MOf T E S A) (s : S) :
  emitted (tryCatch m h s) =
  emitted (m s) ++ match outcome (m s) with
                   | Normal _ => []
                   | Throw t => emitted (h t (final (m s)))
                   end.
Proof.
  unfold tryCatch. destruct (m s) as [[a|t] s1 e1]; simpl; [now rewrite app_nil_r|].
  now destruct (h t s1).
Qed.

Lemma tryCatch_final {T E S A} (m : MOf T E S A) (h : T -> MOf T E S A) (s : S) :
  final (tryCatch m h s) =
  match outcome (m s) with
  | Normal _ => final (m s)
  | Throw t => final (h t (final (m s)))
  end.
Proof.
  unfold tryCatch. destruct (m s) as [[a|t] s1 e1]; simpl; [reflexivity|].
  now destruct (h t s1).
Qed.

(** *** Two program logics in miniature: runs that emit no event, and what a
    run that returns normally returns *)

Definition silent {T E S A} (m : MOf T E S A) : Prop := forall s, emitted (m s) = [].

Definition ensures {T E S A} (P : A -> Prop) (m : MOf T E S A) : Prop :=
  forall s, match outcome (m s) with Normal a => P a | Throw _ => True end.

Definition total {T E S A} (m : MOf T E S A) : Prop :=
  forall s, exists a, outcome (m s) = Normal a.

Lemma silent_ret {T E S A} (a : A) : silent (T := T) (E := E) (S := S) (ret a).
Proof. now intro. Qed.

Lemma silent_throw {T E S A} (t : T) : silent (T := T) (E := E) (S := S) (A := A) (throw t).
Proof. now intro. Qed.

Lemma silent_get {T E S} : silent (T := T) (E := E) (S := S) get.
Proof. now intro. Qed.

Lemma silent_put {T E S} (s : S) : silent (T := T) (E := E) (put s).
Proof. now intro. Qed.

Lemma silent_call {T E S A} (f : S -> CompletionOf T A * S) : silent (T := T) (E := E) (call f).
Proof. intro s. unfold call. now destruct (f s). Qed.

Lemma silent_bind {T E S A B} (m : MOf T E S A) (k : A -> MOf T E S B) :
  silent m -> (forall a, silent (k a)) -> silent (bind m k).
Proof.
  intros Hm Hk s. rewrite bind_emitted, Hm. simpl.
  destruct (outcome (m s)); [apply Hk|reflexivity].
Qed.

Lemma silent_tryCatch {T E S A} (m : MOf T E S A) (h : T -> MOf T E S A) :
  silent m -> (forall t, silent (h t)) -> silent (tryCatch m h).
Proof.
  intros Hm Hh s. rewrite tryCatch_emitted, Hm. simpl.
  destruct (outcome (m s)); [reflexivity|apply Hh].
Qed.

Lemma ensures_ret {T E S A} (P : A -> Prop) (a : A) :
  P a -> ensures (T := T) (E := E) (S := S) P (ret a).
Proof. now intros H s. Qed.

Lemma ensures_throw {T E S A} (P : A -> Prop) (t : T) :
  ensures (T := T) (E := E) (S := S) P (throw t).
Proof. now intros s. Qed.

Lemma ensures_bind {T E S A B} (Q : A -> Prop) (P : B -> Prop)
    (m : MOf T E S A) (k : A -> MOf T E S B) :
  ensures Q m -> (forall a, Q a -> ensures P (k a)) -> ensures P (bind m k).
Proof.
  intros Hm Hk s. rewrite bind_outcome. specialize (Hm s).
  destruct (outcome (m s)); [now apply Hk|exact I].
Qed.

Lemma ensures_tryCatch {T E S A} (P : A -> Prop) (m : MOf T E S A) (h : T -> MOf T E S A) :
  ensures P m -> (forall t, ensures P (h t)) -> ensures P (tryCatch m h).
Proof.
  intros Hm Hh s. rewrite tryCatch_outcome. specialize (Hm s).
  destruct (outcome (m s)); [exact Hm|apply Hh].
Qed.

Lemma ensures_any {T E S A} (m : MOf T E S A) : ensures (fun _ => True) m.
Proof. intro s. now destruct (outcome (m s)). Qed.

Lemma total_tryCatch {T E S A} (m : MOf T E S A) (h : T -> MOf T E S A) :
  (forall t, total (h t)) -> total (tryCatch m h).
Proof.
  intros Hh s. rewrite tryCatch_outcome.
  destruct (outcome (m s)) as [a|t]; [now exists a|apply Hh].
Qed.

Lemma total_ret {T E S A} (a : A) : total (T := T) (E := E) (S := S) (ret a).
Proof. intro s. now exists a. Qed.

(** *** Runs that are sure to return, and runs that are sure to throw *)

Definition returns {T E S A} (P : A -> Prop) (m : MOf T E S A) : Prop :=
  forall s, exists a, outcome (m s) = Normal a /\ P a.

Definition raises {T E S A} (Q : T -> Prop) (m : MOf T E S A) : Prop :=
  forall s, exists t, outcome (m s) = Throw t /\ Q t.

Lemma returns_ret {T E S A} (P : A -> Prop) (a : A) :
  P a -> returns (T := T) (E := E) (S := S) P (ret a).
Proof. intros H s. now exists a. Qed.

Lemma returns_get {T E S} : returns (T := T) (E := E) (S := S) (fun _ => True) get.
Proof. intro s. now exists s. Qed.

Lemma returns_put {T E S} (s : S) : returns (T := T) (E := E) (fun _ => True) (put s).
Proof. intro s0. now exists tt. Qed.

Lemma returns_emit {T E S} (e : E) : returns (T := T) (S := S) (fun _ => True) (emit e).
Proof. intro s. now exists tt. Qed.

Lemma returns_bind {T E S A B} (Q : A -> Prop) (P : B -> Prop)
    (m : MOf T E S A) (k : A -> MOf T E S B) :
  returns Q m -> (forall a, Q a -> returns P (k a)) -> returns P (bind m k).
Proof.
  intros Hm Hk s. rewrite bind_outcome. destruct (Hm s) as (a & -> & Ha).
  now apply Hk.
Qed.

Lemma returns_tryCatch {T E S A} (P : A -> Prop) (m : MOf T E S A) (h : T -> MOf T E S A) :
  returns P m -> returns P (tryCatch m h).
Proof.
  intros Hm s. rewrite tryCatch_outcome. destruct (Hm s) as (a & -> & Ha).
  now exists a.
Qed.

Lemma returns_caught {T E S A} (Q : T -> Prop) (P : A -> Prop)
    (m : MOf T E S A) (h : T -> MOf T E S A) :
  raises Q m -> (forall t, Q t -> returns P (h t)) -> returns P (tryCatch m h).
Proof.
  intros Hm Hh s. rewrite tryCatch_outcome. destruct (Hm s) as (t & -> & Ht).
  now apply Hh.
Qed.

Lemma returns_handled {T E S A} (P : A -> Prop) (m : MOf T E S A) (h : T -> MOf T E S A) :
  ensures P m -> (forall t, returns P (h t)) -> returns P (tryCatch m h).
Proof.
  intros Hm Hh s. rewrite tryCatch_outcome. specialize (Hm s).
  destruct (outcome (m s)) as [a|t]; [now exists a|apply Hh].
Qed.

Lemma returns_weaken {T E S A} (P Q : A -> Prop) (m : MOf T E S A) :
  (forall a, P a -> Q a) -> returns P m -> returns Q m.
Proof. intros H Hm s. destruct (Hm s) as (a & Ho & Ha). exists a. auto. Qed.

Lemma returns_ensures {T E S A} (P Q : A -> Prop) (m : MOf T E S A) :
  returns P m -> ensures Q m -> returns (fun a => P a /\ Q a) m.
Proof.
  intros Hm He s. destruct (Hm s) as (a & Ho & Ha). specialize (He s).
  rewrite Ho in He. now exists a.
Qed.

Lemma raises_throw {T E S A} (Q : T -> Prop) (t : T) :
  Q t -> raises (E := E) (S := S) (A := A) Q (throw t).
Proof. intros H s. now exists t. Qed.

Lemma raises_bind {T E S A B} (Q : T -> Prop) (m : MOf T E S A) (k : A -> MOf T E S B) :
  raises Q m -> raises Q (bind m k).
Proof.
  intros Hm s. rewrite bind_outcome. destruct (Hm s) as (t & -> & Ht). now exists t.
Qed.

Lemma raises_after {T E S A B} (P : A -> Prop) (Q : T -> Prop)
    (m : MOf T E S A) (k : A -> MOf T E S B) :
  returns P m -> (forall a, P a -> raises Q (k a)) -> raises Q (bind m k).
Proof.
  intros Hm Hk s. rewrite bind_outcome. destruct (Hm s) as (a & -> & Ha).
  now apply Hk.
Qed.

(** *** Runs that leave a part of the state as it was *)

Definition preserves {T E S A X} (part : S -> X) (m : MOf T E S A) : Prop :=
  forall s, part (final (m s)) = part s.

Lemma preserves_ret {T E S A X} (part : S -> X) (a : A) :
  preserves (T := T) (E := E) part (ret a).
Proof. now intro. Qed.

Lemma preserves_throw {T E S A X} (part : S -> X) (t : T) :
  preserves (T := T) (E := E) (A := A) part (throw t).
Proof. now intro. Qed.

Lemma preserves_emit {T E S X} (part : S -> X) (e : E) :
  preserves (T := T) part (emit e).
Proof. now intro. Qed.

Lemma preserves_call {T E S A X} (part : S -> X) (f : S -> CompletionOf T A * S) :
  (forall s, part (snd (f s)) = part s) -> preserves (T := T) (E := E) part (call f).
Proof. intros H s. unfold call. specialize (H s). now destruct (f s). Qed.

Lemma preserves_bind {T E S A B X} (part : S -> X) (m : MOf T E S A) (k : A -> MOf T E S B) :
  preserves part m -> (forall a, preserves part (k a)) -> preserves part (bind m k).
Proof.
  intros Hm Hk s. rewrite bind_final. specialize (Hm s).
  destruct (outcome (m s)); [now rewrite Hk|exact Hm].
Qed.

Lemma preserves_tryCatch {T E S A X} (part : S -> X) (m : MOf T E S A) (h : T -> MOf T E S A) :
  preserves part m -> (forall t, preserves part (h t)) -> preserves part (tryCatch m h).
Proof.
  intros Hm Hh s. rewrite tryCatch_final. specialize (Hm s).
  destruct (outcome (m s)); [exact Hm|now rewrite Hh].
Qed.

End Eff.
Import Eff.

Notation "x <- m ;; k" := (bind m (fun x => k))
  (at level 61, m at next level, right associativity).
Notation "m ;;; k" := (bind m (fun _ => k))
  (at level 61, right associativity).

(** Console output. *)
Inductive Level := LLog | LWarn | LError.

Inductive LogArg :=
| LStr (s : string)
| LVal (t : Thrown).

(** ** Retry schedules *)

Module Retry.

(** The retry skeleton of a trace: where an attempt starts and where a timer
    is awaited. *)
Inductive Mark :=
| Attempt
| Delay (ms : Z).

(** [n] attempts numbered from [first], with the delay [backoff i] between
    attempt [i] and attempt [i + 1], and nothing after the last attempt. *)
Fixpoint schedule (backoff : Z -> Z) (first : Z) (n : nat) : list Mark :=
  match n with
  | O => []
  | S O => [Attempt]
  | S n' => Attempt :: Delay (backoff first) :: schedule backoff (first + 1) n'
  end.

(** The last element of a list, if any. *)
Definition lastOpt {A} (l : list A) : option A :=
  match rev l with
  | x :: _ => Some x
  | [] => None
  end.

Lemma lastOpt_app_cons {A} (l : list A) (x : A) (l' : list A) :
  lastOpt (l ++ x :: l') = lastOpt (x :: l').
Proof.
  unfold lastOpt. rewrite rev_app_distr. simpl.
  destruct (rev l' ++ [x]) eqn:E; [now destruct (rev l') | reflexivity].
Qed.

Lemma lastOpt_cons_cons {A} (x y : A) (l : list A) : lastOpt (x :: y :: l) = lastOpt (y :: l).
Proof. apply (lastOpt_app_cons [x] y l). Qed.

Lemma lastOpt_In {A} (l : list A) (x : A) : lastOpt l = Some x -> In x l.
Proof.
  unfold lastOpt. intros H. apply in_rev.
  destruct (rev l) as [|y l']; [discriminate|]. injection H as ->. now left.
Qed.

Lemma lastOpt_cons {A} (x : A) (l : list A) : exists y, lastOpt (x :: l) = Some y.
Proof.
  unfold lastOpt. simpl. destruct (rev l ++ [x]) as [|y r] eqn:E.
  - now destruct (rev l).
  - now exists y.
Qed.

Lemma schedule_S backoff first n :
  schedule backoff first (S (S n)) =
  Attempt :: Delay (backoff first) :: schedule backoff (first + 1) (S n).
Proof. reflexivity. Qed.

(** A schedule never ends with a delay. *)
Lemma schedule_last backoff (n : nat) :
  forall first, n <> 0%nat -> lastOpt (schedule backoff first n) = Some Attempt.
Proof.
  induction n as [|n IH]; intros first Hn; [congruence|].
  destruct n as [|n]; [reflexivity|].
  rewrite schedule_S, lastOpt_cons_cons.
  destruct (schedule backoff (first + 1) (S n)) as [|m l] eqn:E.
  - destruct n; discriminate.
  - rewrite lastOpt_cons_cons, <- E. now apply IH.
Qed.

(** The delays of a schedule, in order. *)
Definition delaysOf (l : list Mark) : list Z :=
  flat_map (fun m => match m with Delay ms => [ms] | Attempt => [] end) l.

(** The delays of [n] attempts numbered from [first] are
    [backoff first], ..., [backoff (first + n - 2)]. *)
Lemma schedule_delays backoff (n : nat) :
  forall first,
  delaysOf (schedule backoff first n) =
  map (fun i => backoff (first + Z.of_nat i)) (seq 0 (Nat.pred n)).
Proof.
  induction n as [|n IH]; intros first; [reflexivity|].
  destruct n as [|n]; [reflexivity|].
  rewrite schedule_S. cbn [delaysOf flat_map app Nat.pred].
  change (flat_map _ (schedule backoff (first + 1) (S n)))
    with (delaysOf (schedule backoff (first + 1) (S n))).
  rewrite IH. cbn [Nat.pred seq map]. f_equal; [f_equal; lia|].
  rewrite <- seq_shift, map_map. apply map_ext. intro i. f_equal. lia.
Qed.

End Retry.
Import Retry.

(** ** app/lib/storage.ts *)

Module Storage.

(** [Buffer | Uint8Array] *)
Definition Buffer := list Byte.byte.

(** The environment variables read when the module loads
    ([process.env.X || ''] for the first two). *)
Record Env := mkEnv {
  GCS_BUCKET_NAME : string;
  GCP_PROJECT_ID : string;
  GOOGLE_APPLICATION_CREDENTIALS : option string
}.

(** The options of [new Storage({...})]. *)
Record StorageOptions := mkStorageOptions {
  projectId : string;
  credentials : option string;
  keyFilename : option string
}.

(** The options of [gcsFile.save]. *)
Record SaveOptions := mkSaveOptions {
  so_contentType : string;
  so_resumable : bool;
  so_validation : string;
  so_originalName : string;
  so_fileId : string;
  so_userId : string
}.

(** What [getMetadata] answers, as far as the module reads it. *)
Record GcsMetadata := mkGcsMetadata {
  md_size : option string;
  md_contentType : option string;
  md_timeCreated : string;
  md_updated : string
}.

(** [new Date(s)] *)
Inductive JsDate := NewDate (s : string).

(** [interface FileMetadata] *)
Record FileMetadata := mkFileMetadata {
  fm_id : string;
  fm_name : string;
  fm_path : string;
  fm_size : Number;
  fm_contentType : string;
  fm_url : string;
  fm_created : JsDate;
  fm_updated : JsDate
}.

(** The calls on the bucket and its files. *)
Inductive SdkOp :=
| OpFile | OpSave | OpGetMetadata | OpExists | OpDownload | OpDelete | OpCopy.

(** How a call ended, as the trace keeps it. *)
Inductive Outcome :=
| Done
| Answer (b : bool)
| Failed (t : Thrown).

Inductive Event :=
| EvCall (op : SdkOp) (path : string) (o : Outcome)
| EvSetTimeout (ms : Z)
| EvConsole (lvl : Level) (args : list LogArg).

(** The cloud storage client, [JSON.parse], [uuid] and the timer: every call
    may throw and may change the world. [sleep ms] is the world after a
    timer of [ms] milliseconds has fired. *)
Record Sdk := mkSdk {
  World : Type;
  JSON_parse : string -> Completion string;
  new_Storage : StorageOptions -> Completion unit;
  bucket_file : string -> World -> Completion unit * World;
  file_save : string -> Buffer -> SaveOptions -> World -> Completion unit * World;
  file_getMetadata : string -> World -> Completion GcsMetadata * World;
  file_exists : string -> World -> Completion bool * World;
  file_download : string -> World -> Completion Buffer * World;
  file_delete : string -> World -> Completion unit * World;
  file_copy : string -> string -> World -> Completion unit * World;
  uuidv4 : World -> string * World;
  sleep : Z -> World -> World
}.

(** The module variables [storage], [bucket], [initializationError], and the
    world outside. *)
Record State (sdk : Sdk) := mkState {
  storage : option StorageOptions;
  bucket : option string;
  initializationError : option JsErr;
  world : World sdk
}.
Arguments mkState {sdk}.
Arguments storage {sdk}.
Arguments bucket {sdk}.
Arguments initializationError {sdk}.
Arguments world {sdk}.

Section Code.
Variable sdk : Sdk.
Variable env : Env.

Local Notation St := (State sdk) (only parsing).
Local Notation Op := (M Event (State sdk)) (only parsing).

Definition setWorld (s : St) (w : World sdk) : St :=
  mkState (storage s) (bucket s) (initializationError s) w.

(** A call into the SDK: run it on the world and record how it ended. *)
Definition sdkCall {A} (op : SdkOp) (path : string) (describe : A -> Outcome)
    (f : World sdk -> Completion A * World sdk) : Op A := fun s =>
  match f (world s) with
  | (Normal a, w) => mkRun (Normal a) (setWorld s w) [EvCall op path (describe a)]
  | (Throw t, w) => mkRun (Throw t) (setWorld s w) [EvCall op path (Failed t)]
  end.

(** A pure call that may throw. *)
Definition liftC {A} (c : Completion A) : Op A := fun s => mkRun c s [].

(** [await new Promise(resolve => setTimeout(resolve, ms))] *)
Definition setTimeout (ms : Z) : Op unit := fun s =>
  mkRun (Normal tt) (setWorld s (sleep sdk ms (world s))) [EvSetTimeout ms].

Definition console (lvl : Level) (args : list LogArg) : Op unit :=
  emit (EvConsole lvl args).

Definition initializeStorage : Op unit :=
  s <- get ;;
  match storage s with
  | Some _ => ret tt
  | None =>
      tryCatch
        (opts <- match GOOGLE_APPLICATION_CREDENTIALS env with
                 | Some c =>
                     if (truthy c && startsWith c "{")%bool then
                       parsed <- liftC (JSON_parse sdk c) ;;
                       ret (mkStorageOptions (GCP_PROJECT_ID env) (Some parsed) None)
                     else ret (mkStorageOptions (GCP_PROJECT_ID env) None (Some c))
                 | None => ret (mkStorageOptions (GCP_PROJECT_ID env) None None)
                 end ;;
         liftC (new_Storage sdk opts) ;;;
         s1 <- get ;;
         put (mkState (Some opts) (bucket s1) (initializationError s1) (world s1)) ;;;
         (if truthy (GCS_BUCKET_NAME env) then
            s2 <- get ;;
            put (mkState (storage s2) (Some (GCS_BUCKET_NAME env))
                   (initializationError s2) (world s2))
          else ret tt) ;;;
         console LLog [LStr "✅ Google Cloud Storage initialized"])
        (fun error =>
           console LError [LStr "❌ Failed to initialize Google Cloud Storage:"; LVal error] ;;;
           s1 <- get ;;
           put (mkState (storage s1) (bucket s1)
                  (Some (match error with
                         | ThrowErr e => e
                         | ThrowOther _ => newError "Unknown initialization error"
                         end))
                  (world s1)))
  end.

Definition ensureInitialized : Op unit :=
  s <- get ;;
  (match storage s with
   | None => initializeStorage
   | Some _ => ret tt
   end) ;;;
  s1 <- get ;;
  match initializationError s1 with
  | Some e => throw (ThrowErr e)
  | None => ret tt
  end.

(** A character of [[a-zA-Z0-9._-]]. *)
Definition safeChar (c : ascii) : bool :=
  (isAlpha c || isDigit c || Ascii.eqb c "." || Ascii.eqb c "_" || Ascii.eqb c "-")%bool.

Definition sanitizeChar (c : ascii) : ascii := if safeChar c then c else "_"%char.

Fixpoint underscores (n : nat) : string :=
  match n with
  | O => EmptyString
  | S k => String "_" (underscores k)
  end.

(** [fileName.replace(/[^a-zA-Z0-9._-]/g, '_')]: every UTF-16 code unit
    that is none of these characters becomes one underscore, so that a
    character of several bytes becomes one underscore, or two when it lies
    beyond U+FFFF. *)
Fixpoint sanitizeName (s : string) : string :=
  match s with
  | EmptyString => EmptyString
  | String c rest =>
      if between 0 127 c then String (sanitizeChar c) (sanitizeName rest)
      else underscores (codeUnitsAt c) +++ sanitizeName rest
  end.

(** [500 * Math.pow(2, attempt - 1)] *)
Definition uploadBackoff (attempt : Z) : Z := 500 * 2 ^ (attempt - 1).

(** The body of the [try] block of one upload attempt. *)
Definition uploadAttempt (file : Buffer) (fileName contentType : string)
    (userId : option string) (fileId sanitizedName filePath : string)
    : Op FileMetadata :=
  sdkCall OpFile filePath (fun _ => Done) (bucket_file sdk filePath) ;;;
  sdkCall OpSave filePath (fun _ => Done)
    (file_save sdk filePath file
       (mkSaveOptions contentType false "crc32c" fileName fileId
          (orElse userId "anonymous"))) ;;;
  metadata <- sdkCall OpGetMetadata filePath (fun _ => Done)
                (file_getMetadata sdk filePath) ;;
  ret (mkFileMetadata fileId sanitizedName filePath
         (parseInt (orElse (md_size metadata) "0"))
         (orElse (md_contentType metadata) contentType)
         ("gs://" +++ GCS_BUCKET_NAME env +++ "/" +++ filePath)
         (NewDate (md_timeCreated metadata))
         (NewDate (md_updated metadata))).

(** The [for (let attempt = 1; attempt <= maxRetries; attempt++)] loop of
    [uploadFile], from [attempt] on: [inl] when an attempt returned,
    [inr lastError] when the loop ran to its end. [fuel] bounds the number
    of iterations; [Z.to_nat maxRetries] is enough from attempt 1. *)
Fixpoint uploadLoop (file : Buffer) (fileName contentType : string)
    (userId : option string) (fileId sanitizedName filePath : string)
    (maxRetries : Z) (fuel : nat) (attempt : Z) (lastError : option JsErr)
    : Op (FileMetadata + option JsErr) :=
  match fuel with
  | O => ret (inr lastError)
  | S fuel' =>
      if attempt <=? maxRetries then
        r <- tryCatch
               (m <- uploadAttempt file fileName contentType userId fileId
                       sanitizedName filePath ;;
                ret (inl m))
               (fun error =>
                  let lastError := toError error in
                  console LError
                    [LStr ("Upload attempt " +++ showZ attempt +++ "/"
                           +++ showZ maxRetries +++ " failed:");
                     LStr (err_message lastError)] ;;;
                  (if attempt <? maxRetries
                   then setTimeout (uploadBackoff attempt)
                   else ret tt) ;;;
                  ret (inr lastError)) ;;
        match r with
        | inl m => ret (inl m)
        | inr e =>
            uploadLoop file fileName contentType userId fileId sanitizedName
              filePath maxRetries fuel' (attempt + 1) (Some e)
        end
      else ret (inr lastError)
  end.

Definition uploadFile (file : Buffer) (fileName contentType : string)
    (userId folder : option string) (maxRetries : Z) : Op FileMetadata :=
  ensureInitialized ;;;
  s <- get ;;
  match bucket s with
  | None =>
      throw (ThrowErr (newError
        "GCS bucket not initialized. Check GCS_BUCKET_NAME environment variable."))
  | Some _ =>
      if Nat.eqb (List.length file) 0 then
        throw (ThrowErr (newError "File data is empty or invalid"))
      else if negb (truthy fileName) then
        throw (ThrowErr (newError "File name is required"))
      else
        fileId <- call (fun s => match uuidv4 sdk (world s) with
                                 | (id, w) => (Normal id, setWorld s w)
                                 end) ;;
        let extension :=
          let last := List.last (split "." fileName) "" in
          if truthy last then last else "bin" in
        let sanitizedName := sanitizeName fileName in
        let userFolder :=
          match userId with
          | Some u => if truthy u then "users/" +++ u else "public"
          | None => "public"
          end in
        let folderPath :=
          match folder with
          | Some f => if truthy f then f +++ "/" else ""
          | None => ""
          end in
        let filePath := userFolder +++ "/" +++ folderPath +++ fileId +++ "." +++ extension in
        r <- uploadLoop file fileName contentType userId fileId sanitizedName
               filePath maxRetries (Z.to_nat maxRetries) 1 None ;;
        match r with
        | inl m => ret m
        | inr lastError =>
            throw (ThrowErr (newError
              ("Failed to upload file after " +++ showZ maxRetries
               +++ " attempts: "
               +++ interpolate (option_map err_message lastError))))
        end
  end.

(** [300 * attempt] *)
Definition readBackoff (attempt : Z) : Z := 300 * attempt.

(** The body of the [try] block of one read attempt. *)
Definition readAttempt (filePath : string) : Op Buffer :=
  sdkCall OpFile filePath (fun _ => Done) (bucket_file sdk filePath) ;;;
  exists_ <- sdkCall OpExists filePath Answer (file_exists sdk filePath) ;;
  if negb exists_ then
    throw (ThrowErr (newError ("File not found: " +++ filePath)))
  else
    sdkCall OpDownload filePath (fun _ => Done) (file_download sdk filePath).

(** The loop of [readFile]: [inl] when an attempt returned; a "not found"
    error leaves the loop as a thrown value. *)
Fixpoint readLoop (filePath : string) (maxRetries : Z) (fuel : nat)
    (attempt : Z) (lastError : option JsErr) : Op (Buffer + option JsErr) :=
  match fuel with
  | O => ret (inr lastError)
  | S fuel' =>
      if attempt <=? maxRetries then
        r <- tryCatch
               (contents <- readAttempt filePath ;; ret (inl contents))
               (fun error =>
                  let lastError := toError error in
                  if includes (err_message lastError) "not found" then
                    throw (ThrowErr lastError)
                  else
                    console LWarn
                      [LStr ("Read attempt " +++ showZ attempt +++ "/"
                             +++ showZ maxRetries +++ " failed:");
                       LStr (err_message lastError)] ;;;
                    (if attempt <? maxRetries
                     then setTimeout (readBackoff attempt)
                     else ret tt) ;;;
                    ret (inr lastError)) ;;
        match r with
        | inl contents => ret (inl contents)
        | inr e => readLoop filePath maxRetries fuel' (attempt + 1) (Some e)
        end
      else ret (inr lastError)
  end.

Definition readFile (filePath : string) (maxRetries : Z) : Op Buffer :=
  ensureInitialized ;;;
  s <- get ;;
  match bucket s with
  | None =>
      console LError [LStr "❌ GCS bucket not initialized"] ;;;
      throw (ThrowErr (newError
        "GCS bucket not initialized. Check GCS_BUCKET_NAME environment variable."))
  | Some _ =>
      if negb (truthy filePath) then
        throw (ThrowErr (newError "File path is required"))
      else
        r <- readLoop filePath maxRetries (Z.to_nat maxRetries) 1 None ;;
        match r with
        | inl contents => ret contents
        | inr (Some lastError) => throw (ThrowErr lastError)
        | inr None =>
            throw (ThrowErr (newError
              ("Failed to read file after " +++ showZ maxRetries +++ " attempts")))
        end
  end.

Definition deleteFile (filePath : string) : Op unit :=
  ensureInitialized ;;;
  s <- get ;;
  match bucket s with
  | None => throw (ThrowErr (newError "GCS bucket not initialized"))
  | Some _ =>
      tryCatch
        (sdkCall OpFile filePath (fun _ => Done) (bucket_file sdk filePath) ;;;
         exists_ <- sdkCall OpExists filePath Answer (file_exists sdk filePath) ;;
         if exists_ then
           sdkCall OpDelete filePath (fun _ => Done) (file_delete sdk filePath)
         else ret tt)
        (fun error => console LError [LStr "Error deleting file:"; LVal error])
  end.

Definition copyFile (sourcePath destinationPath : string) : Op unit :=
  ensureInitialized ;;;
  s <- get ;;
  match bucket s with
  | None => throw (ThrowErr (newError "GCS bucket not initialized"))
  | Some _ =>
      sdkCall OpFile sourcePath (fun _ => Done) (bucket_file sdk sourcePath) ;;;
      exists_ <- sdkCall OpExists sourcePath Answer (file_exists sdk sourcePath) ;;
      if negb exists_ then
        throw (ThrowErr (newError "Source file not found"))
      else
        sdkCall OpFile destinationPath (fun _ => Done)
          (bucket_file sdk destinationPath) ;;;
        sdkCall OpCopy sourcePath (fun _ => Done)
          (file_copy sdk sourcePath destinationPath)
  end.

Definition moveFile (sourcePath destinationPath : string) : Op unit :=
  copyFile sourcePath destinationPath ;;;
  deleteFile sourcePath.

End Code.

(** The storage layer is initialized: [ensureInitialized] passes (at once, or
    through a lazy initialization that succeeds) and a bucket is configured. *)
Definition storageReady (sdk : Sdk) (env : Env) (s : State sdk) : Prop :=
  outcome (ensureInitialized sdk env s) = Normal tt
  /\ bucket (final (ensureInitialized sdk env s)) <> None.

(** The module variables of an initialized module. *)
Definition initialized {sdk : Sdk} (s : State sdk) : Prop :=
  storage s <> None /\ initializationError s = None /\ bucket s <> None.

(** *** Reading a trace *)

(** The number of calls of [op] in a trace. *)
Definition isCall (op : SdkOp) (e : Event) : bool :=
  match e with
  | EvCall op' _ _ =>
      match op, op' with
      | OpFile, OpFile | OpSave, OpSave | OpGetMetadata, OpGetMetadata
      | OpExists, OpExists | OpDownload, OpDownload | OpDelete, OpDelete
      | OpCopy, OpCopy => true
      | _, _ => false
      end
  | _ => false
  end.

Definition countOp (op : SdkOp) (evs : list Event) : nat :=
  List.length (filter (isCall op) evs).

(** The retry skeleton of a storage trace: each attempt of the storage loops
    opens with [bucket.file(filePath)]. *)
Definition markOf (e : Event) : list Mark :=
  match e with
  | EvCall OpFile _ _ => [Attempt]
  | EvSetTimeout ms => [Delay ms]
  | _ => []
  end.

Definition skeleton (evs : list Event) : list Mark := flat_map markOf evs.

(** The values thrown by the calls of a trace, oldest first. *)
Definition failureOf (e : Event) : list Thrown :=
  match e with
  | EvCall _ _ (Failed t) => [t]
  | _ => []
  end.

Definition failures (evs : list Event) : list Thrown := flat_map failureOf evs.

(** A failure that [readFile] does not retry: a call that threw a value
    whose message contains "not found", or a file that does not exist. *)
Definition notFoundError (e : Event) : option JsErr :=
  match e with
  | EvCall _ _ (Failed t) =>
      if includes (err_message (toError t)) "not found" then Some (toError t) else None
  | EvCall OpExists path (Answer false) => Some (newError ("File not found: " +++ path))
  | _ => None
  end.

(** A trace and its outcome short-circuit on "not found": an event that
    [readFile] does not retry is the last event of the trace, and its error
    is what the call throws. *)
Definition shortCircuits {A} (evs : list Event) (o : Completion A) : Prop :=
  forall pre e post err,
    evs = pre ++ e :: post -> notFoundError e = Some err ->
    post = [] /\ o = Throw (ThrowErr err).

(** *** An in-memory bucket with scripted faults

    A concrete platform to run the module on: the objects of the bucket, a
    script of faults (each call on the bucket or a file takes the head of
    the script: [Some msg] makes the call throw [Error(msg)], [None] or an
    empty script lets it act on the objects), and a counter for [uuid]. *)

Record MemWorld := mkMemWorld {
  objects : list (string * Buffer);
  faults : list (option string);
  counter : nat
}.

Definition lookupObject (path : string) (w : MemWorld) : option Buffer :=
  option_map snd (find (fun o => String.eqb (fst o) path) (objects w)).

Definition removeObject (path : string) (l : list (string * Buffer)) :=
  filter (fun o => negb (String.eqb (fst o) path)) l.

(** Take the next fault of the script, then act. *)
Definition scripted {A} (act : MemWorld -> Completion A * MemWorld)
    (w : MemWorld) : Completion A * MemWorld :=
  match faults w with
  | Some msg :: rest =>
      (Throw (ThrowErr (newError msg)), mkMemWorld (objects w) rest (counter w))
  | None :: rest => act (mkMemWorld (objects w) rest (counter w))
  | [] => act w
  end.

Definition memSdk : Sdk := {|
  World := MemWorld;
  JSON_parse := fun s => Normal s;
  new_Storage := fun _ => Normal tt;
  bucket_file := fun _ => scripted (fun w => (Normal tt, w));
  file_save := fun path data _ => scripted (fun w =>
    (Normal tt,
     mkMemWorld ((path, data) :: removeObject path (objects w)) (faults w) (counter w)));
  file_getMetadata := fun path => scripted (fun w =>
    match lookupObject path w with
    | Some data =>
        (Normal (mkGcsMetadata (Some (showZ (Z.of_nat (List.length data))))
                   None "2025-01-01T00:00:00.000Z" "2025-01-01T00:00:00.000Z"), w)
    | None => (Throw (ThrowErr (newError ("No such object: " +++ path))), w)
    end);
  file_exists := fun path => scripted (fun w =>
    (Normal (match lookupObject path w with Some _ => true | None => false end), w));
  file_download := fun path => scripted (fun w =>
    match lookupObject path w with
    | Some data => (Normal data, w)
    | None => (Throw (ThrowErr (newError ("No such object: " +++ path))), w)
    end);
  file_delete := fun path => scripted (fun w =>
    match lookupObject path w with
    | Some _ => (Normal tt, mkMemWorld (removeObject path (objects w)) (faults w) (counter w))
    | None => (Throw (ThrowErr (newError ("No such object: " +++ path))), w)
    end);
  file_copy := fun src dst => scripted (fun w =>
    match lookupObject src w with
    | Some data =>
        (Normal tt,
         mkMemWorld ((dst, data) :: removeObject dst (objects w)) (faults w) (counter w))
    | None => (Throw (ThrowErr (newError ("No such object: " +++ src))), w)
    end);
  uuidv4 := fun w =>
    ("uuid-" +++ showZ (Z.of_nat (counter w)),
     mkMemWorld (objects w) (faults w) (S (counter w)));
  sleep := fun _ w => w
|}.

Definition memEnv : Env := mkEnv "resumes" "demo-project" None.

(** The module as loaded, before any call, over the given bucket. *)
Definition memStart (objs : list (string * Buffer)) (script : list (option string))
    : State memSdk :=
  @mkState memSdk None None None (mkMemWorld objs script 0).

(** *** Facts about traces *)

Lemma countOp_app op (a b : list Event) :
  countOp op (a ++ b) = (countOp op a + countOp op b)%nat.
Proof. unfold countOp. now rewrite filter_app, length_app. Qed.

Lemma skeleton_app (a b : list Event) : skeleton (a ++ b) = skeleton a ++ skeleton b.
Proof. apply flat_map_app. Qed.

Lemma failures_app (a b : list Event) : failures (a ++ b) = failures a ++ failures b.
Proof. apply flat_map_app. Qed.

Lemma shortCircuits_none {A} (evs : list Event) (o : Completion A) :
  Forall (fun e => notFoundError e = None) evs -> shortCircuits evs o.
Proof.
  intros Hall pre e post err Heq He. subst evs.
  apply Forall_app in Hall as [_ Hall]. inversion Hall; congruence.
Qed.

Lemma shortCircuits_app {A} (a b : list Event) (o : Completion A) :
  Forall (fun e => notFoundError e = None) a ->
  shortCircuits b o -> shortCircuits (a ++ b) o.
Proof.
  induction 1 as [|x a Hx _ IH]; intros Hb; [exact Hb|].
  intros pre e post err Heq He. destruct pre as [|y pre]; simpl in Heq.
  - injection Heq as -> _. congruence.
  - injection Heq as _ Heq. exact (IH Hb pre e post err Heq He).
Qed.

Lemma shortCircuits_last {A} (pre : list Event) (e : Event) (err : JsErr) :
  Forall (fun e => notFoundError e = None) pre ->
  notFoundError e = Some err ->
  shortCircuits (A := A) (pre ++ [e]) (Throw (ThrowErr err)).
Proof.
  intros Hpre He. apply shortCircuits_app; [exact Hpre|].
  intros pre' e' post err' Heq He'. destruct pre' as [|y pre']; simpl in Heq.
  - injection Heq as -> <-. split; congruence.
  - injection Heq as _ Heq. now destruct pre'.
Qed.

Lemma shortCircuits_outcome {A B} (evs : list Event) (o : Completion A) (o' : Completion B) :
  shortCircuits evs o ->
  (forall err, o = Throw (ThrowErr err) -> o' = Throw (ThrowErr err)) ->
  shortCircuits evs o'.
Proof.
  intros H Ho pre e post err Heq He. destruct (H pre e post err Heq He). auto.
Qed.

(** *** Facts about the storage module *)

Section Facts.
Variable sdk : Sdk.
Variable env : Env.

(** [ensureInitialized] only writes to the console. *)
Definition consoleOnly (evs : list Event) : Prop :=
  Forall (fun e => match e with EvConsole _ _ => True | _ => False end) evs.

Lemma consoleOnly_facts evs :
  consoleOnly evs ->
  skeleton evs = [] /\ failures evs = [] /\ (forall op, countOp op evs = 0%nat)
  /\ Forall (fun e => notFoundError e = None) evs.
Proof.
  induction 1 as [|e evs He _ IH]; [now repeat split|].
  destruct IH as (IH1 & IH2 & IH3 & IH4). destruct e; try contradiction.
  repeat split; simpl; auto.
Qed.

Lemma consoleOnly_bind {A B} (m : M Event (State sdk) A) (k : A -> M Event (State sdk) B) s :
  consoleOnly (emitted (m s)) ->
  (forall a s', consoleOnly (emitted (k a s'))) ->
  consoleOnly (emitted (bind m k s)).
Proof.
  intros Hm Hk. rewrite bind_emitted. apply Forall_app. split; [exact Hm|].
  destruct (outcome (m s)); [apply Hk|constructor].
Qed.

Lemma consoleOnly_tryCatch {A} (m : M Event (State sdk) A) (h : Thrown -> M Event (State sdk) A) s :
  consoleOnly (emitted (m s)) ->
  (forall t s', consoleOnly (emitted (h t s'))) ->
  consoleOnly (emitted (tryCatch m h s)).
Proof.
  intros Hm Hh. rewrite tryCatch_emitted. apply Forall_app. split; [exact Hm|].
  destruct (outcome (m s)); [constructor|apply Hh].
Qed.

Lemma consoleOnly_console lvl args (s : State sdk) :
  consoleOnly (emitted (console sdk lvl args s)).
Proof. repeat constructor. Qed.

Ltac console_only :=
  repeat first
    [ apply consoleOnly_console
    | apply consoleOnly_bind; [|intros ? ?]
    | apply consoleOnly_tryCatch; [|intros ? ?]
    | match goal with
      | |- consoleOnly (emitted (match ?x with _ => _ end _)) => destruct x
      | |- consoleOnly (emitted ((if ?x then _ else _) _)) => destruct x
      end
    | constructor ].

Lemma initializeStorage_console (s : State sdk) :
  consoleOnly (emitted (initializeStorage sdk env s)).
Proof. unfold initializeStorage. console_only. Qed.

Lemma ensureInitialized_console (s : State sdk) :
  consoleOnly (emitted (ensureInitialized sdk env s)).
Proof.
  unfold ensureInitialized. console_only.
Qed.

(** **** The upload loop *)

Section UploadLoop.
Variables (file : Buffer) (fileName contentType : string) (userId : option string).
Variables (fileId sanitizedName filePath : string) (maxRetries : Z).

Local Notation attemptRun :=
  (uploadAttempt sdk env file fileName contentType userId fileId sanitizedName filePath)
  (only parsing).
Local Notation loopRun :=
  (uploadLoop sdk env file fileName contentType userId fileId sanitizedName filePath
     maxRetries) (only parsing).

(** One attempt starts once, saves at most once, and throws exactly what its
    failed call threw. *)
Lemma uploadAttempt_facts (s : State sdk) :
  let r := attemptRun s in
  skeleton (emitted r) = [Attempt]
  /\ countOp OpFile (emitted r) = 1%nat
  /\ (countOp OpSave (emitted r) <= 1)%nat
  /\ failures (emitted r) = match outcome r with Throw t => [t] | Normal _ => [] end.
Proof.
  unfold uploadAttempt, bind, sdkCall, ret; simpl.
  destruct (bucket_file sdk filePath (world s)) as [[[]|t] w]; simpl; [|repeat split; auto].
  destruct (file_save sdk filePath file _ w) as [[[]|t] w1]; simpl; [|repeat split; auto].
  destruct (file_getMetadata sdk filePath w1) as [[m|t] w2]; simpl; repeat split; auto.
Qed.

Lemma uploadLoop_step (fuel : nat) (attempt : Z) (lastError : option JsErr) (s : State sdk) :
  attempt <= maxRetries ->
  loopRun (S fuel) attempt lastError s =
  match attemptRun s with
  | mkRun (Normal m) s1 e1 => mkRun (Normal (inl m)) s1 e1
  | mkRun (Throw t) s1 e1 =>
      match loopRun fuel (attempt + 1) (Some (toError t))
              (if attempt <? maxRetries
               then setWorld sdk s1 (sleep sdk (uploadBackoff attempt) (world s1))
               else s1)
      with
      | mkRun o s2 e2 =>
          mkRun o s2
            (e1 ++ EvConsole LError
                     [LStr ("Upload attempt " +++ showZ attempt +++ "/"
                            +++ showZ maxRetries +++ " failed:");
                      LStr (err_message (toError t))]
                :: (if attempt <? maxRetries
                    then [EvSetTimeout (uploadBackoff attempt)] else [])
                ++ e2)
      end
  end.
Proof.
  intros Hle. cbn [uploadLoop].
  apply Z.leb_le in Hle. rewrite Hle.
  unfold bind, tryCatch.
  destruct (attemptRun s) as [[m|t] s1 e1]; simpl.
  - now rewrite !app_nil_r.
  - destruct (attempt <? maxRetries); simpl;
      destruct (uploadLoop _ _ _ _ _ _ _ _ _ _ _ _ _ _) as [o s2 e2]; simpl;
      f_equal; rewrite <- !app_assoc; reflexivity.
Qed.

(** What a run of the loop with exactly the fuel it needs looks like. *)
Lemma uploadLoop_summary (fuel : nat) :
  forall (attempt : Z) (lastError : option JsErr) (s : State sdk),
  fuel = Z.to_nat (maxRetries + 1 - attempt) ->
  let l := loopRun fuel attempt lastError s in
  (exists k, (k <= fuel)%nat /\ (fuel <> 0%nat -> k <> 0%nat)
             /\ skeleton (emitted l) = schedule uploadBackoff attempt k
             /\ countOp OpFile (emitted l) = k)
  /\ (countOp OpSave (emitted l) <= fuel)%nat
  /\ (List.length (failures (emitted l)) <= fuel)%nat
  /\ (List.length (failures (emitted l)) = fuel ->
      outcome l = Normal (inr (match lastOpt (failures (emitted l)) with
                               | Some t => Some (toError t)
                               | None => lastError
                               end)))
  /\ (exists r, outcome l = Normal r).
Proof.
  induction fuel as [|fuel IH]; intros attempt lastError s Hfuel.
  - simpl. repeat split; auto; try (exists 0%nat; repeat split; auto; lia); eauto.
  - assert (Hle : attempt <= maxRetries) by lia.
    assert (Hfuel' : fuel = Z.to_nat (maxRetries + 1 - (attempt + 1))) by lia.
    rewrite (uploadLoop_step fuel attempt lastError s Hle).
    pose proof (uploadAttempt_facts s) as Hf. cbn zeta in Hf.
    destruct (attemptRun s) as [[m|t] s1 e1]; simpl in Hf;
      destruct Hf as (Hsk & Hfile & Hsave & Hfail).
    + simpl. rewrite Hsk, Hfile, Hfail.
      repeat split; simpl; try lia; eauto.
      exists 1%nat. repeat split; auto; lia.
    + match goal with
      | |- context [uploadLoop _ _ _ _ _ _ _ _ _ _ _ _ _ ?st] =>
          specialize (IH (attempt + 1) (Some (toError t)) st Hfuel');
          destruct (uploadLoop sdk env file fileName contentType userId fileId
                      sanitizedName filePath maxRetries fuel (attempt + 1)
                      (Some (toError t)) st) as [o s2 e2]
      end.
      cbn zeta in IH. simpl in IH. simpl.
      destruct IH as ((k & Hk & Hk0 & Hks & Hkf) & IHsave & IHlen & IHlast & IHnorm).
      change (EvConsole ?l ?a :: ?x) with ([EvConsole l a] ++ x).
      rewrite !skeleton_app, !countOp_app, !failures_app, Hsk, Hfile, Hfail.
      assert (Hmid : skeleton (if attempt <? maxRetries
                               then [EvSetTimeout (uploadBackoff attempt)] else [])
                     = (if attempt <? maxRetries then [Delay (uploadBackoff attempt)] else [])
                     /\ failures (if attempt <? maxRetries
                                  then [EvSetTimeout (uploadBackoff attempt)] else []) = []
                     /\ forall op, countOp op (if attempt <? maxRetries
                                  then [EvSetTimeout (uploadBackoff attempt)] else []) = 0%nat)
        by (destruct (attempt <? maxRetries); repeat split; reflexivity).
      destruct Hmid as (Hm1 & Hm2 & Hm3). rewrite Hm1, Hm2, !Hm3.
      simpl. repeat split.
      * exists (S k). repeat split; try lia.
        destruct (attempt <? maxRetries) eqn:Elt.
        -- apply Z.ltb_lt in Elt.
           destruct k as [|k']; [exfalso; apply Hk0; [lia|reflexivity]|].
           rewrite Hks. reflexivity.
        -- apply Z.ltb_ge in Elt. assert (Hz : k = 0%nat) by lia.
           rewrite Hks, Hz. reflexivity.
      * lia.
      * lia.
      * intro Hlen. injection Hlen as Hlen. rewrite (IHlast Hlen).
        destruct (failures e2) as [|t' fl] eqn:Efl.
        -- reflexivity.
        -- rewrite lastOpt_cons_cons.
           destruct (lastOpt_cons t' fl) as [y ->]. reflexivity.
      * exact IHnorm.
Qed.

(** The fuel handed to the loop is enough: more fuel changes nothing. *)
Lemma uploadLoop_fuel (fuel : nat) :
  forall (attempt : Z) (lastError : option JsErr) (s : State sdk),
  (Z.to_nat (maxRetries + 1 - attempt) <= fuel)%nat ->
  loopRun fuel attempt lastError s
  = loopRun (Z.to_nat (maxRetries + 1 - attempt)) attempt lastError s.
Proof.
  induction fuel as [|fuel IH]; intros attempt lastError s Hfuel.
  - now replace (Z.to_nat (maxRetries + 1 - attempt)) with 0%nat by lia.
  - destruct (Z.leb_spec attempt maxRetries) as [Hle|Hgt].
    + replace (Z.to_nat (maxRetries + 1 - attempt))
        with (S (Z.to_nat (maxRetries + 1 - (attempt + 1)))) by lia.
      rewrite !(uploadLoop_step _ attempt lastError s Hle).
      destruct (attemptRun s) as [[m|t] s1 e1]; [reflexivity|].
      rewrite IH by lia. reflexivity.
    + replace (Z.to_nat (maxRetries + 1 - attempt)) with 0%nat by lia.
      cbn [uploadLoop]. apply Z.leb_gt in Hgt. now rewrite Hgt.
Qed.

End UploadLoop.

(** **** The read loop *)

Section ReadLoop.
Variables (filePath : string) (maxRetries : Z).

Local Notation attemptRun := (readAttempt sdk filePath) (only parsing).
Local Notation loopRun := (readLoop sdk filePath maxRetries) (only parsing).

Ltac head_facts :=
  split; [reflexivity|split; [reflexivity|split; [unfold countOp; simpl; lia|]]].

Lemma readAttempt_facts (s : State sdk) :
  let r := attemptRun s in
  skeleton (emitted r) = [Attempt]
  /\ countOp OpFile (emitted r) = 1%nat
  /\ (countOp OpDownload (emitted r) <= 1)%nat
  /\ match outcome r with
     | Normal _ => Forall (fun e => notFoundError e = None) (emitted r)
     | Throw t =>
         exists pre e,
           emitted r = pre ++ [e]
           /\ Forall (fun e => notFoundError e = None) pre
           /\ notFoundError e =
              (if includes (err_message (toError t)) "not found"
               then Some (toError t) else None)
     end.
Proof.
  unfold readAttempt, bind, sdkCall, ret, throw; simpl.
  destruct (bucket_file sdk filePath (world s)) as [[[]|t] w]; simpl.
  2:{ head_facts.
      exists [], (EvCall OpFile filePath (Failed t)). now repeat split. }
  destruct (file_exists sdk filePath w) as [[[]|t] w1]; simpl.
  - destruct (file_download sdk filePath w1) as [[c|t] w2]; simpl.
    + head_facts. repeat constructor.
    + head_facts.
      exists [EvCall OpFile filePath Done; EvCall OpExists filePath (Answer true)],
             (EvCall OpDownload filePath (Failed t)).
      split; [reflexivity|]. split; [repeat constructor|reflexivity].
  - head_facts.
    exists [EvCall OpFile filePath Done], (EvCall OpExists filePath (Answer false)).
    split; [reflexivity|]. split; [repeat constructor|reflexivity].
  - head_facts.
    exists [EvCall OpFile filePath Done], (EvCall OpExists filePath (Failed t)).
    split; [reflexivity|]. split; [repeat constructor|reflexivity].
Qed.

Lemma readLoop_step (fuel : nat) (attempt : Z) (lastError : option JsErr) (s : State sdk) :
  attempt <= maxRetries ->
  loopRun (S fuel) attempt lastError s =
  match attemptRun s with
  | mkRun (Normal c) s1 e1 => mkRun (Normal (inl c)) s1 e1
  | mkRun (Throw t) s1 e1 =>
      if includes (err_message (toError t)) "not found" then
        mkRun (Throw (ThrowErr (toError t))) s1 e1
      else
        match loopRun fuel (attempt + 1) (Some (toError t))
                (if attempt <? maxRetries
                 then setWorld sdk s1 (sleep sdk (readBackoff attempt) (world s1))
                 else s1)
        with
        | mkRun o s2 e2 =>
            mkRun o s2
              (e1 ++ EvConsole LWarn
                       [LStr ("Read attempt " +++ showZ attempt +++ "/"
                              +++ showZ maxRetries +++ " failed:");
                        LStr (err_message (toError t))]
                  :: (if attempt <? maxRetries
                      then [EvSetTimeout (readBackoff attempt)] else [])
                  ++ e2)
        end
  end.
Proof.
  intros Hle. cbn [readLoop].
  apply Z.leb_le in Hle. rewrite Hle.
  unfold bind, tryCatch.
  destruct (attemptRun s) as [[c|t] s1 e1]; simpl.
  - now rewrite !app_nil_r.
  - destruct (includes (err_message (toError t)) "not found"); simpl.
    + now rewrite !app_nil_r.
    + destruct (attempt <? maxRetries); simpl;
        destruct (readLoop _ _ _ _ _ _ _) as [o s2 e2]; simpl;
        f_equal; rewrite <- !app_assoc; reflexivity.
Qed.

Lemma readLoop_summary (fuel : nat) :
  forall (attempt : Z) (lastError : option JsErr) (s : State sdk),
  fuel = Z.to_nat (maxRetries + 1 - attempt) ->
  let l := loopRun fuel attempt lastError s in
  (exists k, (k <= fuel)%nat /\ (fuel <> 0%nat -> k <> 0%nat)
             /\ skeleton (emitted l) = schedule readBackoff attempt k
             /\ countOp OpFile (emitted l) = k)
  /\ (countOp OpDownload (emitted l) <= fuel)%nat
  /\ shortCircuits (emitted l) (outcome l).
Proof.
  induction fuel as [|fuel IH]; intros attempt lastError s Hfuel.
  - simpl. split; [|split; [unfold countOp; simpl; lia|]].
    + exists 0%nat. repeat split; auto.
    + apply shortCircuits_none. constructor.
  - assert (Hle : attempt <= maxRetries) by lia.
    assert (Hfuel' : fuel = Z.to_nat (maxRetries + 1 - (attempt + 1))) by lia.
    rewrite (readLoop_step fuel attempt lastError s Hle).
    pose proof (readAttempt_facts s) as Hf. cbn zeta in Hf.
    destruct (attemptRun s) as [[c|t] s1 e1]; simpl in Hf;
      destruct Hf as (Hsk & Hfile & Hdown & Hnf).
    + simpl. rewrite Hsk, Hfile.
      split; [|split; [lia|]].
      * exists 1%nat. repeat split; auto; lia.
      * now apply shortCircuits_none.
    + destruct Hnf as (pre & e & Hev & Hpre & He).
      destruct (includes (err_message (toError t)) "not found") eqn:Enf.
      * simpl. rewrite Hsk, Hfile.
        split; [|split; [lia|]].
        -- exists 1%nat. repeat split; auto; lia.
        -- rewrite Hev. now apply shortCircuits_last.
      * match goal with
        | |- context [readLoop _ _ _ _ _ _ ?st] =>
            specialize (IH (attempt + 1) (Some (toError t)) st Hfuel');
            destruct (readLoop sdk filePath maxRetries fuel (attempt + 1)
                        (Some (toError t)) st) as [o s2 e2]
        end.
        cbn zeta in IH. simpl in IH. simpl.
        destruct IH as ((k & Hk & Hk0 & Hks & Hkf) & IHdown & IHsc).
        change (EvConsole ?l ?a :: ?x) with ([EvConsole l a] ++ x).
        rewrite !skeleton_app, !countOp_app, Hsk, Hfile.
        assert (Hmid : skeleton (if attempt <? maxRetries
                                 then [EvSetTimeout (readBackoff attempt)] else [])
                       = (if attempt <? maxRetries then [Delay (readBackoff attempt)] else [])
                       /\ Forall (fun e => notFoundError e = None)
                            (if attempt <? maxRetries
                             then [EvSetTimeout (readBackoff attempt)] else [])
                       /\ forall op, countOp op (if attempt <? maxRetries
                                    then [EvSetTimeout (readBackoff attempt)] else []) = 0%nat)
          by (destruct (attempt <? maxRetries); repeat split; repeat constructor).
        destruct Hmid as (Hm1 & Hm2 & Hm3). rewrite Hm1, !Hm3.
        simpl. split; [|split].
        -- exists (S k). repeat split; try lia.
           destruct (attempt <? maxRetries) eqn:Elt.
           ++ apply Z.ltb_lt in Elt.
              destruct k as [|k']; [exfalso; apply Hk0; [lia|reflexivity]|].
              rewrite Hks. reflexivity.
           ++ apply Z.ltb_ge in Elt. assert (Hz : k = 0%nat) by lia.
              rewrite Hks, Hz. reflexivity.
        -- lia.
        -- apply shortCircuits_app.
           { rewrite Hev. apply Forall_app. split; [exact Hpre|].
             constructor; [exact He|constructor]. }
           apply (shortCircuits_app [_]); [repeat constructor|].
           apply shortCircuits_app; [exact Hm2|exact IHsc].
Qed.

(** The fuel handed to the loop is enough: more fuel changes nothing. *)
Lemma readLoop_fuel (fuel : nat) :
  forall (attempt : Z) (lastError : option JsErr) (s : State sdk),
  (Z.to_nat (maxRetries + 1 - attempt) <= fuel)%nat ->
  loopRun fuel attempt lastError s
  = loopRun (Z.to_nat (maxRetries + 1 - attempt)) attempt lastError s.
Proof.
  induction fuel as [|fuel IH]; intros attempt lastError s Hfuel.
  - now replace (Z.to_nat (maxRetries + 1 - attempt)) with 0%nat by lia.
  - destruct (Z.leb_spec attempt maxRetries) as [Hle|Hgt].
    + replace (Z.to_nat (maxRetries + 1 - attempt))
        with (S (Z.to_nat (maxRetries + 1 - (attempt + 1)))) by lia.
      rewrite !(readLoop_step _ attempt lastError s Hle).
      destruct (attemptRun s) as [[c|t] s1 e1]; [reflexivity|].
      destruct (includes (err_message (toError t)) "not found"); [reflexivity|].
      rewrite IH by lia. reflexivity.
    + replace (Z.to_nat (maxRetries + 1 - attempt)) with 0%nat by lia.
      cbn [readLoop]. apply Z.leb_gt in Hgt. now rewrite Hgt.
Qed.

End ReadLoop.

(** **** [uploadFile] and [readFile] as a whole *)

(** What every run of [uploadFile] satisfies. *)
Definition uploadRunOk (maxRetries : Z) (evs : list Event)
    (o : Completion FileMetadata) : Prop :=
  (exists k, (k <= Z.to_nat maxRetries)%nat
             /\ skeleton evs = schedule uploadBackoff 1 k
             /\ countOp OpFile evs = k)
  /\ (countOp OpSave evs <= Z.to_nat maxRetries)%nat
  /\ (List.length (failures evs) <= Z.to_nat maxRetries)%nat
  /\ (1 <= maxRetries ->
      List.length (failures evs) = Z.to_nat maxRetries ->
      exists t, lastOpt (failures evs) = Some t
        /\ o = Throw (ThrowErr (newError
             ("Failed to upload file after " +++ showZ maxRetries
              +++ " attempts: " +++ err_message (toError t))))).

Lemma uploadRunOk_quiet maxRetries evs o :
  consoleOnly evs -> uploadRunOk maxRetries evs o.
Proof.
  intros Hc. apply consoleOnly_facts in Hc as (Hc1 & Hc2 & Hc3 & _).
  unfold uploadRunOk. rewrite Hc1, Hc2, !Hc3. simpl.
  split; [exists 0%nat; repeat split; lia|].
  split; [lia|]. split; [lia|]. intros H1 H2. lia.
Qed.

Lemma uploadFile_summary (file : Buffer) (fileName contentType : string)
    (userId folder : option string) (maxRetries : Z) (s : State sdk) :
  let r := uploadFile sdk env file fileName contentType userId folder maxRetries s in
  uploadRunOk maxRetries (emitted r) (outcome r).
Proof.
  cbn zeta. pose proof (ensureInitialized_console s) as Hc.
  unfold uploadFile, bind, get, throw, call, ret.
  destruct (ensureInitialized sdk env s) as [[[]|t0] s0 e0]; simpl in Hc |- *;
    [|now apply uploadRunOk_quiet].
  destruct (bucket s0); simpl;
    [|apply uploadRunOk_quiet; now rewrite app_nil_r].
  destruct (Nat.eqb (List.length file) 0); simpl;
    [apply uploadRunOk_quiet; now rewrite app_nil_r|].
  destruct (negb (truthy fileName)); simpl;
    [apply uploadRunOk_quiet; now rewrite app_nil_r|].
  destruct (uuidv4 sdk (world s0)) as [fileId w1]; simpl.
  match goal with
  | |- context [uploadLoop sdk env ?a ?b ?c ?d ?e ?f ?g ?h ?fuel 1 None ?st] =>
      pose proof (uploadLoop_summary a b c d e f g h fuel 1 None st
                    ltac:(f_equal; lia)) as Hs;
      destruct (uploadLoop sdk env a b c d e f g h fuel 1 None st) as [o s2 e2]
  end.
  cbn zeta in Hs. simpl in Hs.
  destruct Hs as ((k & Hk & _ & Hks & Hkf) & Hsave & Hlen & Hlast & (res & ->)).
  apply consoleOnly_facts in Hc as (Hc1 & Hc2 & Hc3 & _).
  assert (Hev : forall x : list Event, e0 ++ [] ++ [] ++ e2 ++ x = e0 ++ e2 ++ x)
    by reflexivity.
  unfold uploadRunOk.
  destruct res as [m|lastError]; simpl; rewrite ?app_nil_r;
    rewrite !skeleton_app, !countOp_app, !failures_app, Hc1, Hc2, !Hc3; simpl.
  - split; [exists k; repeat split; auto|]. split; [lia|]. split; [lia|].
    intros Hm Hl. specialize (Hlast Hl). discriminate.
  - split; [exists k; repeat split; auto|]. split; [lia|]. split; [lia|].
    intros Hm Hl. specialize (Hlast Hl). injection Hlast as ->.
    destruct (failures e2) as [|t fl] eqn:Efl; [simpl in Hl; lia|].
    destruct (lastOpt_cons t fl) as [y Hy]. rewrite Hy.
    exists y. split; reflexivity.
Qed.

(** What every run of [readFile] satisfies. *)
Definition readRunOk (maxRetries : Z) (evs : list Event)
    (o : Completion Buffer) : Prop :=
  (exists k, (k <= Z.to_nat maxRetries)%nat
             /\ skeleton evs = schedule readBackoff 1 k
             /\ countOp OpFile evs = k)
  /\ (countOp OpDownload evs <= Z.to_nat maxRetries)%nat
  /\ shortCircuits evs o.

Lemma readRunOk_quiet maxRetries evs o :
  consoleOnly evs -> readRunOk maxRetries evs o.
Proof.
  intros Hc. apply consoleOnly_facts in Hc as (Hc1 & Hc2 & Hc3 & Hc4).
  unfold readRunOk. rewrite Hc1, !Hc3. simpl.
  split; [exists 0%nat; repeat split; lia|].
  split; [lia|]. now apply shortCircuits_none.
Qed.

Lemma readFile_summary (filePath : string) (maxRetries : Z) (s : State sdk) :
  let r := readFile sdk env filePath maxRetries s in
  readRunOk maxRetries (emitted r) (outcome r).
Proof.
  cbn zeta. pose proof (ensureInitialized_console s) as Hc.
  unfold readFile, bind, get, throw, ret, console, emit.
  destruct (ensureInitialized sdk env s) as [[[]|t0] s0 e0]; simpl in Hc |- *;
    [|now apply readRunOk_quiet].
  destruct (bucket s0); simpl.
  2:{ apply readRunOk_quiet. apply Forall_app. split; [exact Hc|repeat constructor]. }
  destruct (negb (truthy filePath)); simpl;
    [apply readRunOk_quiet; now rewrite app_nil_r|].
  pose proof (readLoop_summary filePath maxRetries (Z.to_nat maxRetries) 1 None s0
                ltac:(f_equal; lia)) as Hs.
  destruct (readLoop sdk filePath maxRetries (Z.to_nat maxRetries) 1 None s0)
    as [o s2 e2].
  cbn zeta in Hs. simpl in Hs.
  destruct Hs as ((k & Hk & _ & Hks & Hkf) & Hdown & Hsc).
  apply consoleOnly_facts in Hc as (Hc1 & Hc2 & Hc3 & Hc4).
  assert (Hgoal : forall o' : Completion Buffer,
            (forall err, o = Throw (ThrowErr err) -> o' = Throw (ThrowErr err)) ->
            readRunOk maxRetries (e0 ++ e2) o').
  { intros o' Ho'. unfold readRunOk.
    rewrite !skeleton_app, !countOp_app, Hc1, !Hc3. simpl.
    split; [exists k; repeat split; auto|]. split; [lia|].
    apply shortCircuits_app; [exact Hc4|].
    eapply shortCircuits_outcome; [exact Hsc|exact Ho']. }
  destruct o as [[c|[e|]]|t]; simpl; rewrite ?app_nil_r;
    apply Hgoal; intros err Herr; try discriminate; congruence.
Qed.

(** **** Initialization, [deleteFile], [copyFile] and [moveFile] *)

Lemma ensureInitialized_ready (s : State sdk) :
  storageReady sdk env s -> initialized (final (ensureInitialized sdk env s)).
Proof.
  unfold storageReady, initialized, ensureInitialized, initializeStorage.
  unfold bind, tryCatch, get, put, liftC, console, emit, ret, throw.
  destruct s as [[o|] b [e|] w]; simpl; try (intros [Ho Hb]; discriminate).
  - intros [_ Hb]. repeat split; congruence.
  - destruct (GOOGLE_APPLICATION_CREDENTIALS env) as [c|]; simpl;
      [destruct (truthy c && startsWith c "{")%bool; simpl;
       [destruct (JSON_parse sdk c); simpl|]|];
      try destruct (new_Storage sdk _); simpl;
      try destruct (truthy (GCS_BUCKET_NAME env)); simpl;
      intros [Ho Hb]; try discriminate; repeat split; congruence.
  - destruct (GOOGLE_APPLICATION_CREDENTIALS env) as [c|]; simpl;
      [destruct (truthy c && startsWith c "{")%bool; simpl;
       [destruct (JSON_parse sdk c); simpl|]|];
      try destruct (new_Storage sdk _); simpl;
      try destruct (truthy (GCS_BUCKET_NAME env)); simpl;
      intros [Ho Hb]; try discriminate; repeat split; congruence.
Qed.

Lemma ensureInitialized_initialized (s : State sdk) :
  initialized s -> ensureInitialized sdk env s = mkRun (Normal tt) s [].
Proof.
  intros (Hs & Hi & _). unfold ensureInitialized, bind, get, ret, throw. simpl.
  destruct (storage s); [|congruence]. simpl. now rewrite Hi.
Qed.

(** [deleteFile] after its call of [ensureInitialized]. *)
Definition deleteGuarded (filePath : string) : M Event (State sdk) unit :=
  s <- get ;;
  match bucket s with
  | None => throw (ThrowErr (newError "GCS bucket not initialized"))
  | Some _ =>
      tryCatch
        (sdkCall sdk OpFile filePath (fun _ => Done) (bucket_file sdk filePath) ;;;
         exists_ <- sdkCall sdk OpExists filePath Answer (file_exists sdk filePath) ;;
         if exists_ then
           sdkCall sdk OpDelete filePath (fun _ => Done) (file_delete sdk filePath)
         else ret tt)
        (fun error => console sdk LError [LStr "Error deleting file:"; LVal error])
  end.

Lemma deleteFile_eq (filePath : string) :
  deleteFile sdk env filePath =
  bind (ensureInitialized sdk env) (fun _ => deleteGuarded filePath).
Proof. reflexivity. Qed.

(** On an initialized module the guarded part resolves, stays initialized,
    and logs whatever a call threw. *)
Lemma deleteGuarded_initialized (filePath : string) (s : State sdk) :
  initialized s ->
  let r := deleteGuarded filePath s in
  outcome r = Normal tt
  /\ initialized (final r)
  /\ forall t, In t (failures (emitted r)) ->
       In (EvConsole LError [LStr "Error deleting file:"; LVal t]) (emitted r).
Proof.
  intros Hinit. cbn zeta.
  unfold deleteGuarded, bind, get, tryCatch, sdkCall, console, emit, ret, throw.
  destruct s as [st [b|] ie w0]; [|now destruct Hinit as (_ & _ & Hb)]. simpl.
  destruct (bucket_file sdk filePath w0) as [[[]|t] w]; simpl.
  2:{ split; [reflexivity|split; [exact Hinit|]]. intros t' [<-|[]]. auto. }
  destruct (file_exists sdk filePath w) as [[[]|t] w1]; simpl.
  - destruct (file_delete sdk filePath w1) as [[[]|t] w2]; simpl.
    + split; [reflexivity|split; [exact Hinit|]]. intros t' [].
    + split; [reflexivity|split; [exact Hinit|]]. intros t' [<-|[]]. auto 10.
  - split; [reflexivity|split; [exact Hinit|]]. intros t' [].
  - split; [reflexivity|split; [exact Hinit|]]. intros t' [<-|[]]. auto 10.
Qed.

Lemma deleteFile_initialized (filePath : string) (s : State sdk) :
  initialized s ->
  outcome (deleteFile sdk env filePath s) = Normal tt.
Proof.
  intros Hinit. rewrite deleteFile_eq, bind_outcome.
  rewrite (ensureInitialized_initialized s Hinit). simpl.
  apply (deleteGuarded_initialized filePath s Hinit).
Qed.

Lemma deleteFile_ready (filePath : string) (s : State sdk) :
  storageReady sdk env s ->
  let r := deleteFile sdk env filePath s in
  outcome r = Normal tt
  /\ forall t, In t (failures (emitted r)) ->
       In (EvConsole LError [LStr "Error deleting file:"; LVal t]) (emitted r).
Proof.
  intros Hready. pose proof (ensureInitialized_ready s Hready) as Hinit.
  pose proof (ensureInitialized_console s) as Hc.
  apply consoleOnly_facts in Hc as (_ & Hc2 & _).
  pose proof (deleteGuarded_initialized filePath _ Hinit) as (Ho & _ & Hlog).
  destruct Hready as [Hok _]. cbn zeta.
  rewrite deleteFile_eq, bind_outcome, bind_emitted, Hok.
  split; [exact Ho|].
  intros t Ht. rewrite failures_app, Hc2 in Ht. apply in_or_app. right. auto.
Qed.

Lemma copyFile_initialized (sourcePath destinationPath : string) (s : State sdk) :
  match copyFile sdk env sourcePath destinationPath s with
  | mkRun (Normal _) s' _ => initialized s'
  | mkRun (Throw _) _ _ => True
  end.
Proof.
  unfold copyFile, bind, get, sdkCall, throw, ret.
  pose proof (ensureInitialized_ready s) as Hready. unfold storageReady in Hready.
  destruct (ensureInitialized sdk env s) as [[[]|t0] s0 e0]; simpl in *; [|exact I].
  destruct s0 as [st [b|] ie w0]; simpl in *; [|exact I].
  assert (Hinit : initialized (mkState st (Some b) ie w0))
    by (apply Hready; split; congruence).
  destruct (bucket_file sdk sourcePath w0) as [[[]|t] w]; simpl; [|exact I].
  destruct (file_exists sdk sourcePath w) as [[[]|t] w1]; simpl; try exact I.
  destruct (bucket_file sdk destinationPath w1) as [[[]|t] w2]; simpl; [|exact I].
  destruct (file_copy sdk sourcePath destinationPath w2) as [[[]|t] w3]; simpl;
    [exact Hinit|exact I].
Qed.

Lemma moveFile_resolves (sourcePath destinationPath : string) (s : State sdk) :
  outcome (copyFile sdk env sourcePath destinationPath s) = Normal tt ->
  outcome (moveFile sdk env sourcePath destinationPath s) = Normal tt.
Proof.
  intros Hcopy. pose proof (copyFile_initialized sourcePath destinationPath s) as Hinit.
  unfold moveFile. rewrite bind_outcome.
  destruct (copyFile sdk env sourcePath destinationPath s) as [[[]|t] s' e'];
    simpl in *; [|discriminate].
  apply (deleteFile_initialized sourcePath _ Hinit).
Qed.

End Facts.

End Storage.

(** ** The PDF to image helper (pdf.js in the browser) *)

Module Pdf2Img.

(** The [File] handed in: what the helper reads of it. [file_key] stands for
    the identity of the object, for the platform to know its contents. *)
Record FileObj := mkFileObj {
  file_name : string;
  file_type : string;
  file_size : Z;
  file_key : nat
}.

Record Blob := mkBlob {
  blob_type : string;
  blob_data : list Byte.byte
}.

(** [new File([blob], name, { type })] *)
Record ImageFile := mkImageFile {
  img_name : string;
  img_type : string;
  img_blob : Blob
}.

(** [interface PdfConversionResult] *)
Record PdfConversionResult := mkResult {
  imageUrl : string;
  file : option ImageFile;
  error : option string
}.

(** [{ imageUrl: "", file: null, error }] *)
Definition failure (msg : string) : PdfConversionResult := mkResult "" None (Some msg).

(** The worker settings of the pdf.js module object. *)
Record LibConfig := mkLibConfig {
  workerSrc : option string;
  disableWorker : bool
}.

Record PdfDoc := mkPdfDoc { numPages : Z; doc_key : nat }.

Record Viewport := mkViewport { vp_width : Number; vp_height : Number }.

(** What a [throw] or a rejected promise carries here: an [Error] object,
    or a value of the platform's (any object, a primitive, [null]). What
    reading the message of such a value gives and what text it converts to
    are the platform's to say; either may throw, and may change from one
    read to the next. *)
Inductive Raised (V : Type) :=
| OfError (e : JsErr)
| Foreign (v : V).
Arguments OfError {V} e.
Arguments Foreign {V} v.

(** What [e?.message] evaluates to: a primitive value other than a symbol
    ([undefined], [null], a string, a number, a boolean), known by whether
    it is truthy and by the text it converts to; a symbol; or an object of
    the platform's. *)
Inductive Message (V : Type) :=
| Primitive (isTruthy : bool) (text : string)
| Symbolic (description : string)
| Object (v : V).
Arguments Primitive {V} isTruthy text.
Arguments Symbolic {V} description.
Arguments Object {V} v.

(** The browser and pdf.js. Scales and sizes are doubles. *)
Record Platform := mkPlatform {
  World : Type;
  Page : Type;
  Value : Type;
  hasWindow : bool;
  hasDocument : bool;
  workerUrl : option string;
  fallbackWorkerSrc : CompletionOf (Raised Value) string;
  importPdfJs : World -> CompletionOf (Raised Value) unit * World;
  arrayBuffer : FileObj -> World -> CompletionOf (Raised Value) (list Byte.byte) * World;
  getDocument : LibConfig -> list Byte.byte -> World
                -> CompletionOf (Raised Value) (option PdfDoc) * World;
  getPage : PdfDoc -> Z -> World -> CompletionOf (Raised Value) Page * World;
  getViewport : Page -> Number -> CompletionOf (Raised Value) Viewport;
  getContext2d : World -> CompletionOf (Raised Value) bool * World;
  render : Page -> Viewport -> Number * Number -> World
           -> CompletionOf (Raised Value) unit * World;
  canvasHasToBlob : bool;
  toBlob : World -> CompletionOf (Raised Value) (option Blob) * World;
  toDataURL : World -> CompletionOf (Raised Value) string * World;
  decodeDataUrl : string -> CompletionOf (Raised Value) Blob;
  createObjectURL : Blob -> World -> CompletionOf (Raised Value) string * World;
  readMessage : Value -> World -> CompletionOf (Raised Value) (Message Value) * World;
  toText : Value -> World -> CompletionOf (Raised Value) string * World;
  sleep : Z -> World -> World
}.

(** The module variables: [pdfjsLib] and [loadPromise] (set or not; a set
    promise is settled with the module object), the settings of the module
    object, and the world outside. *)
Record State (pf : Platform) := mkState {
  pdfjsLib : bool;
  loadPromise : bool;
  lib : LibConfig;
  world : World pf
}.
Arguments mkState {pf}.
Arguments pdfjsLib {pf}.
Arguments loadPromise {pf}.
Arguments lib {pf}.
Arguments world {pf}.

Inductive Event (V : Type) :=
| EvAttempt (o : CompletionOf (Raised V) PdfConversionResult)
| EvDelay (ms : Z)
| EvWarn (msg : string).
Arguments EvAttempt {V} o.
Arguments EvDelay {V} ms.
Arguments EvWarn {V} msg.

(** The values thrown on a platform, the way a call ends there, and the
    computations of the helper. *)
Definition Thrown (pf : Platform) : Type := Raised (Value pf).

Definition Outcome (pf : Platform) (A : Type) : Type := CompletionOf (Thrown pf) A.

Definition Op (pf : Platform) (A : Type) : Type :=
  MOf (Thrown pf) (Event (Value pf)) (State pf) A.

(** What a template literal throws on a symbol. *)
Definition symbolError : JsErr :=
  mkErr "TypeError" "Cannot convert a Symbol value to a string".

Section Code.
Variable pf : Platform.

(** A call into the platform. *)
Definition platformCall {A} (f : World pf -> Outcome pf A * World pf) : Op pf A :=
  call (fun s => match f (world s) with
                 | (c, w) => (c, mkState (pdfjsLib s) (loadPromise s) (lib s) w)
                 end).

Definition liftC {A} (c : Outcome pf A) : Op pf A := fun s => mkRun c s [].

Definition setLib (cfg : LibConfig) : Op pf unit := fun s =>
  mkRun (Normal tt) (mkState (pdfjsLib s) (loadPromise s) cfg (world s)) [].

(** [const delay = (ms) => new Promise(resolve => setTimeout(resolve, ms))] *)
Definition delay (ms : Z) : Op pf unit := fun s =>
  mkRun (Normal tt)
    (mkState (pdfjsLib s) (loadPromise s) (lib s) (sleep pf ms (world s)))
    [EvDelay ms].

Definition console_warn (msg : string) : Op pf unit := emit (EvWarn msg).

Definition resolveWorkerSrc : Outcome pf string :=
  match workerUrl pf with
  | Some u => if truthy u then Normal u else fallbackWorkerSrc pf
  | None => fallbackWorkerSrc pf
  end.

(** Turn the worker off: [workerSrc = undefined; disableWorker = true]. *)
Definition withoutWorker : Op pf unit := setLib (mkLibConfig None true).

Definition loadPdfJs : Op pf unit :=
  s <- get ;;
  if pdfjsLib s then ret tt
  else if loadPromise s then ret tt
  else if negb (hasWindow pf) then
    throw (OfError (newError "PDF rendering is only available in the browser"))
  else
    put (mkState (pdfjsLib s) true (lib s) (world s)) ;;;
    tryCatch
      (platformCall (importPdfJs pf) ;;;
       tryCatch
         (src <- liftC resolveWorkerSrc ;;
          s1 <- get ;;
          setLib (mkLibConfig (Some src) (disableWorker (lib s1))))
         (fun _ => withoutWorker) ;;;
       s2 <- get ;;
       put (mkState true (loadPromise s2) (lib s2) (world s2)))
      (fun err =>
         s3 <- get ;;
         put (mkState (pdfjsLib s3) false (lib s3) (world s3)) ;;;
         throw err).

(** [/(worker|postmessage|detached|transfer)/i.test(msg)] *)
Definition workerTrouble (msg : string) : bool :=
  let m := toLowerCase msg in
  (includes m "worker" || includes m "postmessage"
   || includes m "detached" || includes m "transfer")%bool.

(** [e?.message]: the message of an [Error] is the string it holds; the
    platform reads the message of any other value. *)
Definition getMessage (e : Thrown pf) : Op pf (Message (Value pf)) :=
  match e with
  | OfError err => ret (Primitive (truthy (err_message err)) (err_message err))
  | Foreign v => platformCall (readMessage pf v)
  end.

(** [String(e)]: [Error.prototype.toString] on an [Error]. *)
Definition textOf (e : Thrown pf) : Op pf string :=
  match e with
  | OfError err => ret (StringOf (ThrowErr err))
  | Foreign v => platformCall (toText pf v)
  end.

Definition truthyMessage (m : Message (Value pf)) : bool :=
  match m with
  | Primitive isTruthy _ => isTruthy
  | Symbolic _ => true
  | Object _ => true
  end.

(** A template literal hole holding [m]: a symbol makes it throw. *)
Definition hole (m : Message (Value pf)) : Op pf string :=
  match m with
  | Primitive _ text => ret text
  | Symbolic _ => throw (OfError symbolError)
  | Object v => platformCall (toText pf v)
  end.

(** [String(m)] *)
Definition textOfMessage (m : Message (Value pf)) : Op pf string :=
  match m with
  | Primitive _ text => ret text
  | Symbolic description => ret ("Symbol(" +++ description +++ ")")
  | Object v => platformCall (toText pf v)
  end.

(** The hole [${e?.message || String(e)}] of a template literal. *)
Definition describe (e : Thrown pf) : Op pf string :=
  m <- getMessage e ;;
  if truthyMessage m then hole m else textOf e.

(** [String(e?.message || e)] *)
Definition parseTrouble (e : Thrown pf) : Op pf string :=
  m <- getMessage e ;;
  if truthyMessage m then textOfMessage m else textOf e.

(** The hole [${err?.message}]. *)
Definition messageText (err : Thrown pf) : Op pf string :=
  m <- getMessage err ;; hole m.

(** The hole [${lastError?.message || "Unknown error"}]. *)
Definition lastMessage (lastError : option (Thrown pf)) : Op pf string :=
  match lastError with
  | None => ret "Unknown error"
  | Some e =>
      m <- getMessage e ;;
      if truthyMessage m then hole m else ret "Unknown error"
  end.

(** [Math.min(4, Math.max(1, targetWidth / baseViewport.width))] *)
Definition renderScale (baseWidth : Number) : Number :=
  mathMin (ofZ 4) (mathMax (ofZ 1) (numDiv (ofZ 2000) baseWidth)).

(** [file.name.replace(/\.pdf$/i, "")] *)
Fixpoint stripPdfSuffix (name : string) : string :=
  if String.eqb (toLowerCase name) ".pdf" then ""
  else match name with
       | EmptyString => EmptyString
       | String c rest => String c (stripPdfSuffix rest)
       end.

(** A step of the body that may end the function with a result ([inl]) or go
    on with a value ([inr]): [try { m } catch (e) { return { imageUrl: "",
    file: null, error: `<prefix>${e?.message || String(e)}` } }]. *)
Definition orReturn {A} (m : Op pf A) (prefix : string)
    : Op pf (PdfConversionResult + A) :=
  tryCatch (a <- m ;; ret (inr a))
    (fun e => msg <- describe e ;; ret (inl (failure (prefix +++ msg)))).

(** [pdf = await lib.getDocument({ data }).promise], and what its [catch]
    does: a second try without the worker when the message tells of worker
    trouble. *)
Definition parseDocument (buffer : list Byte.byte)
    : Op pf (PdfConversionResult + option PdfDoc) :=
  tryCatch
    (s <- get ;;
     pdf <- platformCall (getDocument pf (lib s) buffer) ;;
     ret (inr pdf))
    (fun e =>
       msg <- parseTrouble e ;;
       if workerTrouble msg then
         withoutWorker ;;;
         orReturn (s <- get ;; platformCall (getDocument pf (lib s) buffer))
           "PDF parsing failed: "
       else ret (inl (failure ("PDF parsing failed: " +++ msg)))).

(** The blob of the canvas: [toBlob] where the canvas has it, and the data
    URL decoded when that gave no blob. *)
Definition createBlob : Op pf (PdfConversionResult + Blob) :=
  blob <- (if canvasHasToBlob pf then platformCall (toBlob pf) else ret None) ;;
  match blob with
  | Some b => ret (inr b)
  | None =>
      tryCatch
        (dataUrl <- platformCall (toDataURL pf) ;;
         finalBlob <- liftC (decodeDataUrl pf dataUrl) ;;
         ret (inr finalBlob))
        (fun _ => ret (inl (failure "Failed to create image blob")))
  end.

(** From the parsed document to the result. *)
Definition renderFirstPage (f : FileObj) (pdf : PdfDoc) : Op pf PdfConversionResult :=
  page <- platformCall (getPage pf pdf 1) ;;
  baseViewport <- liftC (getViewport pf page (ofZ 1)) ;;
  let scale := renderScale (vp_width baseViewport) in
  viewport <- liftC (getViewport pf page scale) ;;
  context <- platformCall (getContext2d pf) ;;
  if negb context then ret (failure "Could not get 2D canvas context")
  else
    platformCall
      (render pf page viewport
         (mathFloor (vp_width viewport), mathFloor (vp_height viewport))) ;;;
    final <- createBlob ;;
    match final with
    | inl r => ret r
    | inr finalBlob =>
        let originalName := stripPdfSuffix (file_name f) in
        let imageFile := mkImageFile (originalName +++ ".png") "image/png" finalBlob in
        url <- platformCall (createObjectURL pf finalBlob) ;;
        ret (mkResult url (Some imageFile) None)
    end.

(** The body of the outer [try] of [attemptPdfConversion]. *)
Definition conversionBody (file : option FileObj) : Op pf PdfConversionResult :=
  if (negb (hasWindow pf) || negb (hasDocument pf))%bool then
    ret (failure "Not running in a browser context")
  else
    match file with
    | None => ret (failure "Invalid or empty file")
    | Some f =>
        if file_size f =? 0 then ret (failure "Invalid or empty file")
        else if (negb (includes (file_type f) "pdf")
                 && negb (endsWith (toLowerCase (file_name f)) ".pdf"))%bool then
          ret (failure "File is not a PDF")
        else
          loadPdfJs ;;;
          read <- orReturn (platformCall (arrayBuffer pf f)) "Failed to read file: " ;;
          match read with
          | inl r => ret r
          | inr buffer =>
              if Nat.eqb (List.length buffer) 0 then ret (failure "File is empty")
              else
                parsed <- parseDocument buffer ;;
                match parsed with
                | inl r => ret r
                | inr None => ret (failure "PDF has no pages")
                | inr (Some pdf) =>
                    if numPages pdf =? 0 then ret (failure "PDF has no pages")
                    else renderFirstPage f pdf
                end
          end
    end.

(** The outer [catch] describes what the body threw; what the description
    throws, the function throws. *)
Definition attemptPdfConversion (file : option FileObj) : Op pf PdfConversionResult :=
  tryCatch (conversionBody file)
    (fun err =>
       msg <- describe err ;;
       ret (failure ("Failed to convert PDF: " +++ msg))).

(** The call of [attemptPdfConversion] inside the loop, recorded in the trace
    with the way it ended. *)
Definition attemptLogged (file : option FileObj) : Op pf PdfConversionResult := fun s =>
  match attemptPdfConversion file s with
  | mkRun o s1 e1 => mkRun o s1 (e1 ++ [EvAttempt o])
  end.

(** [500 * attempt] *)
Definition convertBackoff (attempt : Z) : Z := 500 * attempt.

(** The [catch] block of the loop. *)
Definition onThrown (maxRetries attempt : Z) (err : Thrown pf) : Op pf unit :=
  text <- messageText err ;;
  console_warn ("PDF conversion attempt " +++ showZ attempt
                +++ " threw error: " +++ text +++ ". Retrying...") ;;;
  if attempt <? maxRetries then delay (convertBackoff attempt) else ret tt.

(** The loop of [convertPdfToImage] from [attempt] on: [inl] when an
    iteration returned, [inr lastError] when the loop ran to its end. *)
Fixpoint convertLoop (file : option FileObj) (maxRetries : Z) (fuel : nat)
    (attempt : Z) (lastError : option (Thrown pf))
    : Op pf (PdfConversionResult + option (Thrown pf)) :=
  match fuel with
  | O => ret (inr lastError)
  | S fuel' =>
      if attempt <=? maxRetries then
        r <- tryCatch
               (result <- attemptLogged file ;;
                if (truthyOpt (error result) && (attempt <? maxRetries))%bool then
                  console_warn ("PDF conversion attempt " +++ showZ attempt
                                +++ " failed: " +++ interpolate (error result)
                                +++ ". Retrying...") ;;;
                  delay (convertBackoff attempt) ;;;
                  ret (inr lastError)
                else ret (inl result))
               (fun err =>
                  onThrown maxRetries attempt err ;;;
                  ret (inr (Some err))) ;;
        match r with
        | inl result => ret (inl result)
        | inr e => convertLoop file maxRetries fuel' (attempt + 1) e
        end
      else ret (inr lastError)
  end.

Definition convertPdfToImage (file : option FileObj) (maxRetries : Z)
    : Op pf PdfConversionResult :=
  r <- convertLoop file maxRetries (Z.to_nat maxRetries) 1 None ;;
  match r with
  | inl result => ret result
  | inr lastError =>
      msg <- lastMessage lastError ;;
      ret (failure ("Failed after " +++ showZ maxRetries +++ " attempts: " +++ msg))
  end.

End Code.

(** *** Reading a trace *)

Section Trace.
Context {V : Type}.

Definition isAttempt (e : Event V) : bool :=
  match e with EvAttempt _ => true | _ => false end.

(** The number of calls of [attemptPdfConversion]. *)
Definition countAttempts (evs : list (Event V)) : nat :=
  List.length (filter isAttempt evs).

Definition markOf (e : Event V) : list Mark :=
  match e with
  | EvAttempt _ => [Attempt]
  | EvDelay ms => [Delay ms]
  | EvWarn _ => []
  end.

Definition skeleton (evs : list (Event V)) : list Mark := flat_map markOf evs.

(** The ways the attempts ended, oldest first. *)
Definition attemptOf (e : Event V) : list (CompletionOf (Raised V) PdfConversionResult) :=
  match e with
  | EvAttempt o => [o]
  | _ => []
  end.

Definition attempts (evs : list (Event V))
    : list (CompletionOf (Raised V) PdfConversionResult) :=
  flat_map attemptOf evs.

(** The results of the attempts that completed, oldest first. *)
Definition resultOf (e : Event V) : list PdfConversionResult :=
  match e with
  | EvAttempt (Normal r) => [r]
  | _ => []
  end.

Definition results (evs : list (Event V)) : list PdfConversionResult :=
  flat_map resultOf evs.

End Trace.

(** A result that reports a failure, and one that reports success. *)
Definition isFailure (r : PdfConversionResult) : Prop :=
  imageUrl r = "" /\ file r = None /\ exists msg, error r = Some msg /\ msg <> "".

Definition isSuccess (r : PdfConversionResult) : Prop :=
  error r = None /\ file r <> None.

(** A value whose description returns, wherever it is asked for. *)
Definition readable (pf : Platform) (e : Thrown pf) : Prop :=
  total (describe pf e) /\ total (parseTrouble pf e).

(** A platform on which every message can be read and every value converts
    to text: no read of a message throws or gives a symbol, and no
    conversion throws. *)
Definition tame (pf : Platform) : Prop :=
  forall (v : Value pf) (w : World pf),
    (exists m w', readMessage pf v w = (Normal m, w') /\ forall d, m <> Symbolic d)
    /\ (exists text w', toText pf v w = (Normal text, w')).

(** A browser in which the library loads and the file [f], a PDF by its
    type or its name, is read to bytes, and not to none. *)
Definition readsFile (pf : Platform) (f : FileObj) : Prop :=
  hasWindow pf = true /\ hasDocument pf = true
  /\ file_size f <> 0
  /\ (includes (file_type f) "pdf" = true
      \/ endsWith (toLowerCase (file_name f)) ".pdf" = true)
  /\ (forall w, exists w', importPdfJs pf w = (Normal tt, w'))
  /\ (forall w, exists buffer w',
        arrayBuffer pf f w = (Normal buffer, w') /\ buffer <> []).

(** A parser that rejects every document, with a value that lets itself be
    described. *)
Definition rejectsDocuments (pf : Platform) : Prop :=
  forall cfg data w,
    exists e w', getDocument pf cfg data w = (Throw e, w') /\ readable pf e.

(** Documents parse and have a page, the first page opens with its
    viewports, and the canvas gives a context. *)
Definition opensPages (pf : Platform) : Prop :=
  (forall cfg data w, exists pdf w',
      getDocument pf cfg data w = (Normal (Some pdf), w') /\ numPages pdf <> 0)
  /\ (forall pdf n w, exists page w', getPage pf pdf n w = (Normal page, w'))
  /\ (forall page scale, exists viewport, getViewport pf page scale = Normal viewport)
  /\ (forall w, exists w', getContext2d pf w = (Normal true, w')).

(** Rendering rejects, with a value that lets itself be described. *)
Definition rejectsRendering (pf : Platform) : Prop :=
  forall page viewport size w,
    exists e w', render pf page viewport size w = (Throw e, w') /\ readable pf e.

Definition draws (pf : Platform) : Prop :=
  forall page viewport size w, exists w', render pf page viewport size w = (Normal tt, w').

(** A canvas that gives no blob: [toBlob] is missing or calls back with
    [null], and the data URL cannot be had or cannot be decoded. *)
Definition yieldsNoBlob (pf : Platform) : Prop :=
  (canvasHasToBlob pf = false \/ forall w, exists w', toBlob pf w = (Normal None, w'))
  /\ (forall w,
        (exists e w', toDataURL pf w = (Throw e, w'))
        \/ (exists dataUrl w' e,
              toDataURL pf w = (Normal dataUrl, w') /\ decodeDataUrl pf dataUrl = Throw e)).

(** *** Concrete platforms

    [serverSide]: no [window] and no [document], as in server rendering.
    [browserWith]: a browser in which every step works, except that each
    call of [getDocument] takes the head of a script of faults ([Some msg]
    makes it reject with [Error(msg)]), and except for the faults it is
    given: a value that [getDocument] always rejects with, one that
    [getPage] rejects with, and a canvas that yields no blob.
    [browser] has no fault, and the values it knows besides errors are
    strings. [unruly] knows two values that do not let themselves be
    described. *)

Definition unavailable {V A} (what : string) : CompletionOf (Raised V) A :=
  Throw (OfError (mkErr "ReferenceError" (what +++ " is not defined"))).

Definition serverSide : Platform := {|
  World := unit;
  Page := unit;
  Value := Empty_set;
  hasWindow := false;
  hasDocument := false;
  workerUrl := None;
  fallbackWorkerSrc := unavailable "window";
  importPdfJs := fun w => (unavailable "window", w);
  arrayBuffer := fun _ w => (Normal [], w);
  getDocument := fun _ _ w => (unavailable "window", w);
  getPage := fun _ _ w => (unavailable "window", w);
  getViewport := fun _ _ => unavailable "window";
  getContext2d := fun w => (unavailable "document", w);
  render := fun _ _ _ w => (unavailable "document", w);
  canvasHasToBlob := false;
  toBlob := fun w => (unavailable "document", w);
  toDataURL := fun w => (unavailable "document", w);
  decodeDataUrl := fun _ => unavailable "atob";
  createObjectURL := fun _ w => (unavailable "URL", w);
  readMessage := fun v w => match v with end;
  toText := fun v w => match v with end;
  sleep := fun _ w => w
|}.

Record Faults (V : Type) := mkFaults {
  parseFault : option (Raised V);
  pageFault : option (Raised V);
  noBlob : bool
}.
Arguments mkFaults {V}.
Arguments parseFault {V}.
Arguments pageFault {V}.
Arguments noBlob {V}.

Definition browserWith (V : Type)
    (message : V -> CompletionOf (Raised V) (Message V))
    (text : V -> CompletionOf (Raised V) string)
    (faults : Faults V) : Platform := {|
  World := list (option string);
  Page := unit;
  Value := V;
  hasWindow := true;
  hasDocument := true;
  workerUrl := Some "/assets/pdf.worker.min.mjs";
  fallbackWorkerSrc := Normal "/pdf.worker.min.mjs";
  importPdfJs := fun w => (Normal tt, w);
  arrayBuffer := fun _ w => (Normal [Byte.x25; Byte.x50; Byte.x44; Byte.x46], w);
  getDocument := fun _ _ w =>
    match parseFault faults with
    | Some e => (Throw e, w)
    | None =>
        match w with
        | Some msg :: rest => (Throw (OfError (newError msg)), rest)
        | None :: rest => (Normal (Some (mkPdfDoc 1 0)), rest)
        | [] => (Normal (Some (mkPdfDoc 1 0)), [])
        end
    end;
  getPage := fun _ _ w =>
    match pageFault faults with
    | Some e => (Throw e, w)
    | None => (Normal tt, w)
    end;
  getViewport := fun _ scale =>
    Normal (mkViewport (numMul (ofZ 612) scale) (numMul (ofZ 792) scale));
  getContext2d := fun w => (Normal true, w);
  render := fun _ _ _ w => (Normal tt, w);
  canvasHasToBlob := negb (noBlob faults);
  toBlob := fun w => (Normal (Some (mkBlob "image/png" [Byte.x89; Byte.x50])), w);
  toDataURL := fun w =>
    (if noBlob faults
     then Throw (OfError (mkErr "SecurityError" "The canvas has been tainted"))
     else Normal "data:image/png;base64,iVA=", w);
  decodeDataUrl := fun _ => Normal (mkBlob "image/png" [Byte.x89; Byte.x50]);
  createObjectURL := fun _ w => (Normal "blob:resume-preview", w);
  readMessage := fun v w => (message v, w);
  toText := fun v w => (text v, w);
  sleep := fun _ w => w
|}.

(** A thrown string has no message, and is its own text. *)
Definition faulty (faults : Faults string) : Platform :=
  browserWith string (fun _ => Normal (Primitive false "undefined"))
    (fun v => Normal v) faults.

Definition browser : Platform := faulty (mkFaults None None false).

(** Two values that are no [Error]: [Bare] is [Object.create(null)], with no
    message and no way to a text; [Poisoned] is an object whose [message]
    getter throws the object itself. *)
Inductive Unruly := Bare | Poisoned.

Definition unrulyMessage (v : Unruly) : CompletionOf (Raised Unruly) (Message Unruly) :=
  match v with
  | Bare => Normal (Primitive false "undefined")
  | Poisoned => Throw (Foreign Poisoned)
  end.

Definition unrulyText (v : Unruly) : CompletionOf (Raised Unruly) string :=
  Throw (OfError (mkErr "TypeError" "Cannot convert object to primitive value")).

Definition unruly (faults : Faults Unruly) : Platform :=
  browserWith Unruly unrulyMessage unrulyText faults.

(** The module as loaded, before any call. *)
Definition start (pf : Platform) (w : World pf) : State pf :=
  mkState false false (mkLibConfig None false) w.

Definition resumePdf : FileObj := mkFileObj "resume.pdf" "application/pdf" 4 0.

(** Three conversion attempts in a browser, each failing to parse the file. *)
Definition threeBadParses
    : RunOf (Thrown browser) (Event (Value browser)) (State browser) PdfConversionResult :=
  convertPdfToImage browser (Some resumePdf) 3
    (start browser [Some "bad xref"; Some "bad xref"; Some "bad xref"]).

(** A browser whose parser rejects every document, and one whose canvas is
    tainted. *)
Definition brokenParser : Platform :=
  faulty (mkFaults (Some (OfError (newError "Invalid PDF structure"))) None false).

Definition taintedCanvas : Platform := faulty (mkFaults None None true).

(** Browsers whose [getPage] rejects with [Object.create(null)], and with
    the object whose message cannot be read. *)
Definition barePages : Platform := unruly (mkFaults None (Some (Foreign Bare)) false).

Definition poisonedPages : Platform :=
  unruly (mkFaults None (Some (Foreign Poisoned)) false).

Definition threeBarePages
    : RunOf (Thrown barePages) (Event (Value barePages)) (State barePages)
        PdfConversionResult :=
  convertPdfToImage barePages (Some resumePdf) 3 (start barePages []).

Definition poisonedRun
    : RunOf (Thrown poisonedPages) (Event (Value poisonedPages)) (State poisonedPages)
        PdfConversionResult :=
  convertPdfToImage poisonedPages (Some resumePdf) 3 (start poisonedPages []).

(** *** Facts about the helper *)

Lemma failure_isFailure (msg : string) : msg <> "" -> isFailure (failure msg).
Proof. intros H. repeat split. now exists msg. Qed.

Lemma prefixed_nonempty (c : ascii) (p msg : string) : String c p +++ msg <> "".
Proof. discriminate. Qed.

Section Facts.
Variable pf : Platform.

Definition shaped (r : PdfConversionResult) : Prop := isSuccess r \/ isFailure r.

Definition shapedOr {A} (x : PdfConversionResult + A) : Prop :=
  match x with inl r => shaped r | inr _ => True end.

(** **** Nothing but the loop writes to the trace *)

Lemma silent_platformCall {A} (f : World pf -> Outcome pf A * World pf) :
  silent (platformCall pf f).
Proof. apply silent_call. Qed.

Lemma silent_liftC {A} (c : Outcome pf A) : silent (liftC pf c).
Proof. now intro. Qed.

Lemma silent_setLib cfg : silent (setLib pf cfg).
Proof. now intro. Qed.

Ltac silence :=
  repeat first
    [ assumption
    | apply silent_ret | apply silent_throw | apply silent_get | apply silent_put
    | apply silent_platformCall | apply silent_liftC | apply silent_setLib
    | apply silent_bind; [|intros ?]
    | apply silent_tryCatch; [|intros ?]
    | match goal with
      | |- silent (match ?x with _ => _ end) => destruct x
      | |- silent (if ?x then _ else _) => destruct x
      end
    | progress cbv zeta ].

Lemma silent_getMessage (e : Thrown pf) : silent (getMessage pf e).
Proof. unfold getMessage. silence. Qed.

Lemma silent_textOf (e : Thrown pf) : silent (textOf pf e).
Proof. unfold textOf. silence. Qed.

Lemma silent_hole (m : Message (Value pf)) : silent (hole pf m).
Proof. unfold hole. silence. Qed.

Lemma silent_textOfMessage (m : Message (Value pf)) : silent (textOfMessage pf m).
Proof. unfold textOfMessage. silence. Qed.

Lemma silent_describe (e : Thrown pf) : silent (describe pf e).
Proof.
  unfold describe. apply silent_bind; [apply silent_getMessage|]. intro m.
  destruct (truthyMessage pf m); [apply silent_hole|apply silent_textOf].
Qed.

Lemma silent_parseTrouble (e : Thrown pf) : silent (parseTrouble pf e).
Proof.
  unfold parseTrouble. apply silent_bind; [apply silent_getMessage|]. intro m.
  destruct (truthyMessage pf m); [apply silent_textOfMessage|apply silent_textOf].
Qed.

Lemma silent_messageText (e : Thrown pf) : silent (messageText pf e).
Proof.
  unfold messageText. apply silent_bind; [apply silent_getMessage|]. intro m.
  apply silent_hole.
Qed.

Lemma silent_lastMessage (lastError : option (Thrown pf)) : silent (lastMessage pf lastError).
Proof.
  unfold lastMessage. destruct lastError as [e|]; [|apply silent_ret].
  apply silent_bind; [apply silent_getMessage|]. intro m.
  destruct (truthyMessage pf m); [apply silent_hole|apply silent_ret].
Qed.

Lemma silent_loadPdfJs : silent (loadPdfJs pf).
Proof. unfold loadPdfJs, withoutWorker. silence. Qed.

Lemma silent_orReturn {A} (m : Op pf A) (prefix : string) :
  silent m -> silent (orReturn pf m prefix).
Proof.
  intros Hm. unfold orReturn. apply silent_tryCatch.
  - apply silent_bind; [exact Hm|]. intro a. apply silent_ret.
  - intro e. apply silent_bind; [apply silent_describe|]. intro msg. apply silent_ret.
Qed.

Lemma silent_parseDocument (buffer : list Byte.byte) : silent (parseDocument pf buffer).
Proof.
  unfold parseDocument, withoutWorker. apply silent_tryCatch; [silence|].
  intro e. apply silent_bind; [apply silent_parseTrouble|]. intro msg.
  destruct (workerTrouble msg); [|apply silent_ret].
  apply silent_bind; [apply silent_setLib|]. intros _.
  apply silent_orReturn. silence.
Qed.

Lemma silent_createBlob : silent (createBlob pf).
Proof. unfold createBlob. silence. Qed.

Lemma silent_renderFirstPage (f : FileObj) (pdf : PdfDoc) : silent (renderFirstPage pf f pdf).
Proof.
  unfold renderFirstPage. pose proof silent_createBlob as Hblob. silence.
Qed.

Lemma silent_conversionBody (file : option FileObj) : silent (conversionBody pf file).
Proof.
  unfold conversionBody.
  destruct (negb (hasWindow pf) || negb (hasDocument pf))%bool; [apply silent_ret|].
  destruct file as [f|]; [|apply silent_ret].
  destruct (file_size f =? 0); [apply silent_ret|].
  destruct (negb (includes (file_type f) "pdf")
            && negb (endsWith (toLowerCase (file_name f)) ".pdf"))%bool;
    [apply silent_ret|].
  apply silent_bind; [apply silent_loadPdfJs|]. intros _.
  apply silent_bind; [apply silent_orReturn; apply silent_platformCall|].
  intros [r|buffer]; [apply silent_ret|].
  destruct (Nat.eqb (List.length buffer) 0); [apply silent_ret|].
  apply silent_bind; [apply silent_parseDocument|].
  intros [r|[pdf|]]; [apply silent_ret| |apply silent_ret].
  destruct (numPages pdf =? 0); [apply silent_ret|apply silent_renderFirstPage].
Qed.

Lemma silent_attempt (file : option FileObj) : silent (attemptPdfConversion pf file).
Proof.
  unfold attemptPdfConversion. apply silent_tryCatch; [apply silent_conversionBody|].
  intro err. apply silent_bind; [apply silent_describe|]. intro msg. apply silent_ret.
Qed.

(** **** What an attempt returns is a success or a failure *)

Lemma ensures_bind_any {A B} (P : B -> Prop) (m : Op pf A) (k : A -> Op pf B) :
  (forall a, ensures P (k a)) -> ensures P (bind m k).
Proof.
  intros Hk. apply (ensures_bind (fun _ => True)); [apply ensures_any|auto].
Qed.

Ltac leaf :=
  first
    [ exact I
    | assumption
    | right; apply failure_isFailure; simpl; discriminate
    | left; split; [reflexivity|discriminate] ].

Lemma ensures_orReturn {A} (m : Op pf A) (c : ascii) (prefix : string) :
  ensures shapedOr (orReturn pf m (String c prefix)).
Proof.
  unfold orReturn. apply ensures_tryCatch.
  - apply ensures_bind_any. intro a. now apply ensures_ret.
  - intro e. apply ensures_bind_any. intro msg. apply ensures_ret.
    right. apply failure_isFailure. apply prefixed_nonempty.
Qed.

Lemma ensures_parseDocument (buffer : list Byte.byte) :
  ensures shapedOr (parseDocument pf buffer).
Proof.
  unfold parseDocument. apply ensures_tryCatch.
  - apply ensures_bind_any. intro s. apply ensures_bind_any. intro pdf.
    apply ensures_ret. leaf.
  - intro e. apply ensures_bind_any. intro msg. destruct (workerTrouble msg).
    + apply ensures_bind_any. intros _. apply ensures_orReturn.
    + apply ensures_ret. right. apply failure_isFailure. apply prefixed_nonempty.
Qed.

Lemma ensures_createBlob : ensures shapedOr (createBlob pf).
Proof.
  unfold createBlob. apply ensures_bind_any. intros [b|]; [apply ensures_ret; leaf|].
  apply ensures_tryCatch.
  - apply ensures_bind_any. intro dataUrl. apply ensures_bind_any. intro finalBlob.
    apply ensures_ret. leaf.
  - intros _. apply ensures_ret. simpl. leaf.
Qed.

Lemma ensures_renderFirstPage (f : FileObj) (pdf : PdfDoc) :
  ensures shaped (renderFirstPage pf f pdf).
Proof.
  unfold renderFirstPage.
  apply ensures_bind_any. intro page.
  apply ensures_bind_any. intro baseViewport. cbv zeta.
  apply ensures_bind_any. intro viewport.
  apply ensures_bind_any. intro context.
  destruct (negb context); [apply ensures_ret; leaf|].
  apply ensures_bind_any. intros _.
  apply (ensures_bind shapedOr); [apply ensures_createBlob|].
  intros [r|finalBlob] Hf; [apply ensures_ret; leaf|].
  apply ensures_bind_any. intro url. apply ensures_ret. leaf.
Qed.

Lemma ensures_conversionBody (file : option FileObj) :
  ensures shaped (conversionBody pf file).
Proof.
  unfold conversionBody.
  destruct (negb (hasWindow pf) || negb (hasDocument pf))%bool;
    [apply ensures_ret; leaf|].
  destruct file as [f|]; [|apply ensures_ret; leaf].
  destruct (file_size f =? 0); [apply ensures_ret; leaf|].
  destruct (negb (includes (file_type f) "pdf")
            && negb (endsWith (toLowerCase (file_name f)) ".pdf"))%bool;
    [apply ensures_ret; leaf|].
  apply ensures_bind_any. intros _.
  apply (ensures_bind shapedOr); [apply ensures_orReturn|].
  intros [r|buffer] Hr; [apply ensures_ret; leaf|].
  destruct (Nat.eqb (List.length buffer) 0); [apply ensures_ret; leaf|].
  apply (ensures_bind shapedOr); [apply ensures_parseDocument|].
  intros [r|[pdf|]] Hp; [apply ensures_ret; leaf| |apply ensures_ret; leaf].
  destruct (numPages pdf =? 0); [apply ensures_ret; leaf|].
  apply ensures_renderFirstPage.
Qed.

Lemma ensures_attempt (file : option FileObj) :
  ensures shaped (attemptPdfConversion pf file).
Proof.
  unfold attemptPdfConversion. apply ensures_tryCatch.
  - apply ensures_conversionBody.
  - intro err. apply ensures_bind_any. intro msg. apply ensures_ret.
    right. apply failure_isFailure. apply prefixed_nonempty.
Qed.

(** One attempt emits nothing by itself, and what it returns is a success
    or a well-formed failure. *)
Lemma attempt_run (file : option FileObj) (s : State pf) :
  exists o s1,
    attemptPdfConversion pf file s = mkRun o s1 []
    /\ match o with Normal r => shaped r | Throw _ => True end.
Proof.
  pose proof (silent_attempt file s) as Hsilent.
  pose proof (ensures_attempt file s) as Hens.
  destruct (attemptPdfConversion pf file s) as [o s1 e1]. simpl in *. subst.
  now exists o, s1.
Qed.

(** **** Values that let themselves be described *)

(** An [Error] is described by its message, or by its name when the message
    is empty. *)
Lemma describe_error (err : JsErr) (s : State pf) :
  describe pf (OfError err) s
  = mkRun (Normal (if truthy (err_message err) then err_message err
                   else StringOf (ThrowErr err))) s [].
Proof.
  unfold describe, getMessage, bind, ret. simpl.
  destruct (truthy (err_message err)); reflexivity.
Qed.

Lemma parseTrouble_error (err : JsErr) (s : State pf) :
  parseTrouble pf (OfError err) s
  = mkRun (Normal (if truthy (err_message err) then err_message err
                   else StringOf (ThrowErr err))) s [].
Proof.
  unfold parseTrouble, getMessage, bind, ret. simpl.
  destruct (truthy (err_message err)); reflexivity.
Qed.

Lemma messageText_error (err : JsErr) (s : State pf) :
  messageText pf (OfError err) s = mkRun (Normal (err_message err)) s [].
Proof. reflexivity. Qed.

Lemma lastMessage_error (err : JsErr) (s : State pf) :
  lastMessage pf (Some (OfError err)) s
  = mkRun (Normal (orElse (Some (err_message err)) "Unknown error")) s [].
Proof.
  unfold lastMessage, getMessage, bind, ret, orElse. simpl.
  destruct (truthy (err_message err)); reflexivity.
Qed.

Lemma readable_error (err : JsErr) : readable pf (OfError err).
Proof.
  split; intro s; [rewrite describe_error|rewrite parseTrouble_error]; eexists; reflexivity.
Qed.

Section Tame.
Hypothesis Htame : tame pf.

Lemma tame_getMessage (e : Thrown pf) :
  returns (fun m => forall d, m <> Symbolic d) (getMessage pf e).
Proof.
  intro s. destruct e as [err|v]; simpl.
  - eexists. split; [reflexivity|]. discriminate.
  - destruct (proj1 (Htame v (world s))) as (m & w' & Hm & Hsym).
    unfold platformCall, call. rewrite Hm. simpl. now exists m.
Qed.

Lemma tame_toText (v : Value pf) : total (platformCall pf (toText pf v)).
Proof.
  intro s. destruct (proj2 (Htame v (world s))) as (text & w' & Ht).
  unfold platformCall, call. rewrite Ht. simpl. now exists text.
Qed.

Lemma tame_textOf (e : Thrown pf) : total (textOf pf e).
Proof.
  destruct e as [err|v]; [intro s; eexists; reflexivity|apply tame_toText].
Qed.

Lemma tame_hole (m : Message (Value pf)) : (forall d, m <> Symbolic d) -> total (hole pf m).
Proof.
  intros Hsym. destruct m as [b text|d|v].
  - intro s. eexists. reflexivity.
  - now destruct (Hsym d).
  - apply tame_toText.
Qed.

Lemma tame_textOfMessage (m : Message (Value pf)) : total (textOfMessage pf m).
Proof.
  destruct m as [b text|d|v]; [intro s; eexists; reflexivity..|apply tame_toText].
Qed.

Lemma total_returns {A} (m : Op pf A) : total m -> returns (fun _ => True) m.
Proof. intros H s. destruct (H s) as [a Ha]. now exists a. Qed.

Lemma returns_total {A} (P : A -> Prop) (m : Op pf A) : returns P m -> total m.
Proof. intros H s. destruct (H s) as (a & Ha & _). now exists a. Qed.

Lemma tame_describe (e : Thrown pf) : total (describe pf e).
Proof.
  unfold describe. eapply returns_total.
  eapply returns_bind; [apply tame_getMessage|]. intros m Hm.
  apply total_returns.
  destruct (truthyMessage pf m); [now apply tame_hole|apply tame_textOf].
Qed.

Lemma tame_parseTrouble (e : Thrown pf) : total (parseTrouble pf e).
Proof.
  unfold parseTrouble. eapply returns_total.
  eapply returns_bind; [apply tame_getMessage|]. intros m Hm.
  apply total_returns.
  destruct (truthyMessage pf m); [apply tame_textOfMessage|apply tame_textOf].
Qed.

Lemma tame_readable (e : Thrown pf) : readable pf e.
Proof. split; [apply tame_describe|apply tame_parseTrouble]. Qed.

(** On a tame platform an attempt never throws. *)
Lemma tame_attempt (file : option FileObj) : total (attemptPdfConversion pf file).
Proof.
  unfold attemptPdfConversion. apply total_tryCatch. intro err.
  apply (returns_total (fun _ => True)).
  eapply returns_bind; [apply total_returns, tame_describe|].
  intros msg _. now apply returns_ret.
Qed.

End Tame.

(** **** The conversion loop *)

Section ConvertLoop.
Variables (file : option FileObj) (maxRetries : Z).

(** The state after the delay that follows attempt [attempt]. *)
Definition slept (attempt : Z) (s : State pf) : State pf :=
  mkState (pdfjsLib s) (loadPromise s) (lib s)
    (sleep pf (convertBackoff attempt) (world s)).

(** One iteration, by the way its attempt ends. *)
Lemma convertLoop_step (fuel : nat) (attempt : Z) (lastError : option (Thrown pf))
    (s : State pf) :
  attempt <= maxRetries ->
  convertLoop pf file maxRetries (S fuel) attempt lastError s =
  match attemptPdfConversion pf file s with
  | mkRun (Normal r) s1 _ =>
      if (truthyOpt (error r) && (attempt <? maxRetries))%bool then
        match convertLoop pf file maxRetries fuel (attempt + 1) lastError
                (slept attempt s1)
        with
        | mkRun o s2 e2 =>
            mkRun o s2
              (EvAttempt (Normal r)
               :: EvWarn ("PDF conversion attempt " +++ showZ attempt
                          +++ " failed: " +++ interpolate (error r)
                          +++ ". Retrying...")
               :: EvDelay (convertBackoff attempt) :: e2)
        end
      else mkRun (Normal (inl r)) s1 [EvAttempt (Normal r)]
  | mkRun (Throw err) s1 _ =>
      match messageText pf err s1 with
      | mkRun (Normal text) s2 _ =>
          match convertLoop pf file maxRetries fuel (attempt + 1) (Some err)
                  (if attempt <? maxRetries then slept attempt s2 else s2)
          with
          | mkRun o s3 e3 =>
              mkRun o s3
                (EvAttempt (Throw err)
                 :: EvWarn ("PDF conversion attempt " +++ showZ attempt
                            +++ " threw error: " +++ text +++ ". Retrying...")
                 :: (if attempt <? maxRetries
                     then [EvDelay (convertBackoff attempt)] else []) ++ e3)
          end
      | mkRun (Throw x) s2 _ => mkRun (Throw x) s2 [EvAttempt (Throw err)]
      end
  end.
Proof.
  intros Hle. cbn [convertLoop]. apply Z.leb_le in Hle. rewrite Hle.
  unfold bind at 1. unfold tryCatch. unfold bind at 1. unfold attemptLogged.
  pose proof (silent_attempt file s) as Hsilent.
  destruct (attemptPdfConversion pf file s) as [[r|err] s1 e1];
    simpl in Hsilent; subst e1; cbn [app].
  - destruct (truthyOpt (error r) && (attempt <? maxRetries))%bool.
    + unfold bind, console_warn, emit, delay, ret, slept. simpl.
      destruct (convertLoop _ _ _ _ _ _ _) as [o s2 e2]. reflexivity.
    + reflexivity.
  - unfold onThrown. unfold bind at 1. unfold bind at 1.
    pose proof (silent_messageText err s1) as Hquiet.
    destruct (messageText pf err s1) as [[text|x] s2 e2];
      simpl in Hquiet; subst e2; cbn [app]; [|reflexivity].
    unfold bind, console_warn, emit, delay, ret, slept.
    destruct (attempt <? maxRetries); simpl;
      destruct (convertLoop _ _ _ _ _ _ _) as [o s3 e3]; reflexivity.
Qed.

(** Every run of the loop. *)
Lemma convertLoop_summary (fuel : nat) :
  forall (attempt : Z) (lastError : option (Thrown pf)) (s : State pf),
  fuel = Z.to_nat (maxRetries + 1 - attempt) ->
  let l := convertLoop pf file maxRetries fuel attempt lastError s in
  (exists k, (k <= fuel)%nat /\ (fuel <> 0%nat -> k <> 0%nat)
             /\ skeleton (emitted l) = schedule convertBackoff attempt k
             /\ countAttempts (emitted l) = k)
  /\ Forall (fun o => exists s', outcome (attemptPdfConversion pf file s') = o)
       (attempts (emitted l))
  /\ Forall (fun r => truthyOpt (error r) = true) (removelast (results (emitted l)))
  /\ match fuel with
     | O => outcome l = Normal (inr lastError) /\ emitted l = []
     | S _ =>
         exists last,
           lastOpt (attempts (emitted l)) = Some last
           /\ match last with
              | Normal r =>
                  outcome l = Normal (inl r)
                  /\ lastOpt (results (emitted l)) = Some r
                  /\ (truthyOpt (error r) = true -> countAttempts (emitted l) = fuel)
              | Throw e =>
                  (outcome l = Normal (inr (Some e))
                   /\ countAttempts (emitted l) = fuel)
                  \/ (exists x s', outcome l = Throw x
                                   /\ outcome (messageText pf e s') = Throw x)
              end
     end.
Proof.
  induction fuel as [|fuel IH]; intros attempt lastError s Hfuel.
  - simpl. split; [exists 0%nat; repeat split; auto|].
    split; [constructor|]. split; [constructor|]. split; reflexivity.
  - assert (Hle : attempt <= maxRetries) by lia.
    assert (Hfuel' : fuel = Z.to_nat (maxRetries + 1 - (attempt + 1))) by lia.
    cbn zeta. rewrite (convertLoop_step fuel attempt lastError s Hle).
    assert (Hfrom : exists s', outcome (attemptPdfConversion pf file s')
                               = outcome (attemptPdfConversion pf file s))
      by (now exists s).
    destruct (attemptPdfConversion pf file s) as [[r|err] s1 e1]; cbn [outcome] in Hfrom.
    + destruct (truthyOpt (error r) && (attempt <? maxRetries))%bool eqn:Econd.
      * apply andb_prop in Econd as [Herr Hlt]. apply Z.ltb_lt in Hlt.
        specialize (IH (attempt + 1) lastError (slept attempt s1) Hfuel').
        destruct (convertLoop pf file maxRetries fuel (attempt + 1) lastError
                    (slept attempt s1)) as [o s2 e2].
        cbn zeta in IH. cbn [outcome emitted] in IH |- *.
        destruct IH as ((k & Hk & Hk0 & Hks & Hkf) & IHfrom & IHerr & IHout).
        destruct fuel as [|fuel']; [lia|].
        destruct IHout as (last & Hlast & Hcase).
        split; [|split; [|split]].
        -- exists (S k). repeat split; try lia.
           ++ destruct k as [|k']; [exfalso; apply Hk0; [lia|reflexivity]|].
              cbn [skeleton flat_map markOf app]. fold (skeleton e2).
              rewrite Hks. reflexivity.
           ++ unfold countAttempts in *. simpl. lia.
        -- cbn [attempts flat_map attemptOf app]. constructor; assumption.
        -- cbn [results flat_map resultOf app]. fold (results e2).
           destruct (results e2) as [|x rs] eqn:Er.
           ++ constructor.
           ++ cbn [removelast]. constructor; [exact Herr|exact IHerr].
        -- exists last. split.
           ++ cbn [attempts flat_map attemptOf app]. fold (attempts e2).
              destruct (attempts e2) as [|x l]; [discriminate|].
              rewrite lastOpt_cons_cons. exact Hlast.
           ++ destruct last as [r'|e'].
              ** destruct Hcase as (Ho & Hres & Hcount). split; [exact Ho|]. split.
                 --- cbn [results flat_map resultOf app]. fold (results e2).
                     destruct (results e2) as [|x l]; [discriminate|].
                     rewrite lastOpt_cons_cons. exact Hres.
                 --- intros Ht. unfold countAttempts in *. simpl. f_equal. now apply Hcount.
              ** destruct Hcase as [[Ho Hcount]|Hthrow]; [left|right; exact Hthrow].
                 split; [exact Ho|]. unfold countAttempts in *. simpl. now f_equal.
      * cbn [outcome emitted]. split; [|split; [|split]].
        -- exists 1%nat. repeat split; auto; lia.
        -- constructor; [exact Hfrom|constructor].
        -- constructor.
        -- exists (Normal r). split; [reflexivity|]. split; [reflexivity|].
           split; [reflexivity|]. intros Ht. rewrite Ht in Econd. simpl in Econd.
           apply Z.ltb_ge in Econd. unfold countAttempts. simpl. lia.
    + assert (Hread : exists s', outcome (messageText pf err s')
                                 = outcome (messageText pf err s1)) by (now exists s1).
      destruct (messageText pf err s1) as [[text|x] s2 e2]; cbn [outcome] in Hread.
      * specialize (IH (attempt + 1) (Some err)
                      (if attempt <? maxRetries then slept attempt s2 else s2) Hfuel').
        destruct (convertLoop pf file maxRetries fuel (attempt + 1) (Some err)
                    (if attempt <? maxRetries then slept attempt s2 else s2))
          as [o s3 e3].
        cbn zeta in IH. cbn [outcome emitted] in IH |- *.
        destruct IH as ((k & Hk & Hk0 & Hks & Hkf) & IHfrom & IHerr & IHout).
        destruct fuel as [|fuel'].
        -- destruct IHout as [Ho He]. subst e3 o.
           assert (Hlast : (attempt <? maxRetries) = false) by (apply Z.ltb_ge; lia).
           rewrite Hlast. simpl.
           split; [exists 1%nat; repeat split; auto; lia|].
           split; [constructor; [exact Hfrom|constructor]|].
           split; [constructor|].
           exists (Throw err). split; [reflexivity|]. left. now split.
        -- assert (Hlt : (attempt <? maxRetries) = true) by (apply Z.ltb_lt; lia).
           rewrite Hlt. destruct IHout as (last & Hlast & Hcase).
           split; [|split; [|split]].
           ++ exists (S k). repeat split; try lia.
              ** destruct k as [|k']; [exfalso; apply Hk0; [lia|reflexivity]|].
                 cbn [skeleton flat_map markOf app]. fold (skeleton e3).
                 rewrite Hks. reflexivity.
              ** unfold countAttempts in *. simpl. lia.
           ++ cbn [attempts flat_map attemptOf app]. constructor; assumption.
           ++ exact IHerr.
           ++ exists last. split.
              ** cbn [attempts flat_map attemptOf app]. fold (attempts e3).
                 destruct (attempts e3) as [|y l]; [discriminate|].
                 rewrite lastOpt_cons_cons. exact Hlast.
              ** destruct last as [r'|e'].
                 --- destruct Hcase as (Ho & Hres & Hcount). split; [exact Ho|].
                     split; [exact Hres|].
                     intros Ht. unfold countAttempts in *. simpl. f_equal. now apply Hcount.
                 --- destruct Hcase as [[Ho Hcount]|Hthrow]; [left|right; exact Hthrow].
                     split; [exact Ho|]. unfold countAttempts in *. simpl. now f_equal.
      * cbn [outcome emitted]. split; [|split; [|split]].
        -- exists 1%nat. repeat split; auto; lia.
        -- constructor; [exact Hfrom|constructor].
        -- constructor.
        -- exists (Throw err). split; [reflexivity|]. right.
           destruct Hread as [s' Hs']. now exists x, s'.
Qed.

(** The fuel handed to the loop is enough: more fuel changes nothing. *)
Lemma convertLoop_fuel (fuel : nat) :
  forall (attempt : Z) (lastError : option (Thrown pf)) (s : State pf),
  (Z.to_nat (maxRetries + 1 - attempt) <= fuel)%nat ->
  convertLoop pf file maxRetries fuel attempt lastError s
  = convertLoop pf file maxRetries (Z.to_nat (maxRetries + 1 - attempt)) attempt
      lastError s.
Proof.
  induction fuel as [|fuel IH]; intros attempt lastError s Hfuel.
  - now replace (Z.to_nat (maxRetries + 1 - attempt)) with 0%nat by lia.
  - destruct (Z.leb_spec attempt maxRetries) as [Hle|Hgt].
    + replace (Z.to_nat (maxRetries + 1 - attempt))
        with (S (Z.to_nat (maxRetries + 1 - (attempt + 1)))) by lia.
      cbn [convertLoop]. apply Z.leb_le in Hle. rewrite Hle.
      unfold bind.
      destruct (tryCatch _ _ s) as [[[r|e]|t] s1 e1]; try reflexivity.
      rewrite IH by lia. reflexivity.
    + replace (Z.to_nat (maxRetries + 1 - attempt)) with 0%nat by lia.
      cbn [convertLoop]. apply Z.leb_gt in Hgt. now rewrite Hgt.
Qed.

End ConvertLoop.

(** The call, from its loop. *)
Lemma convertPdfToImage_run (file : option FileObj) (maxRetries : Z) (s : State pf) :
  convertPdfToImage pf file maxRetries s
  = match convertLoop pf file maxRetries (Z.to_nat maxRetries) 1 None s with
    | mkRun (Normal (inl r)) s1 e1 => mkRun (Normal r) s1 e1
    | mkRun (Normal (inr lastError)) s1 e1 =>
        match lastMessage pf lastError s1 with
        | mkRun (Normal msg) s2 _ =>
            mkRun (Normal (failure ("Failed after " +++ showZ maxRetries
                                    +++ " attempts: " +++ msg))) s2 e1
        | mkRun (Throw x) s2 _ => mkRun (Throw x) s2 e1
        end
    | mkRun (Throw x) s1 e1 => mkRun (Throw x) s1 e1
    end.
Proof.
  unfold convertPdfToImage. unfold bind at 1.
  destruct (convertLoop pf file maxRetries (Z.to_nat maxRetries) 1 None s)
    as [[[r|lastError]|x] s1 e1]; [simpl; now rewrite app_nil_r| |reflexivity].
  unfold bind. pose proof (silent_lastMessage lastError s1) as Hquiet.
  destruct (lastMessage pf lastError s1) as [[msg|x] s2 e2];
    simpl in Hquiet; subst e2; simpl; now rewrite ?app_nil_r.
Qed.

(** Every run of [convertPdfToImage]: its schedule, where its attempts come
    from, and its outcome by the way the last attempt ended. *)
Lemma convertPdfToImage_summary (file : option FileObj) (maxRetries : Z) (s : State pf) :
  let c := convertPdfToImage pf file maxRetries s in
  (exists k, (k <= Z.to_nat maxRetries)%nat
             /\ skeleton (emitted c) = schedule convertBackoff 1 k
             /\ countAttempts (emitted c) = k)
  /\ Forall (fun o => exists s', outcome (attemptPdfConversion pf file s') = o)
       (attempts (emitted c))
  /\ Forall (fun r => truthyOpt (error r) = true) (removelast (results (emitted c)))
  /\ (maxRetries <= 0 ->
      emitted c = []
      /\ outcome c = Normal (failure ("Failed after " +++ showZ maxRetries
                                      +++ " attempts: Unknown error")))
  /\ (1 <= maxRetries ->
      exists last,
        lastOpt (attempts (emitted c)) = Some last
        /\ match last with
           | Normal r =>
               outcome c = Normal r
               /\ lastOpt (results (emitted c)) = Some r
               /\ (truthyOpt (error r) = true ->
                   countAttempts (emitted c) = Z.to_nat maxRetries)
           | Throw e =>
               (countAttempts (emitted c) = Z.to_nat maxRetries
                /\ exists s',
                     outcome c
                     = match outcome (lastMessage pf (Some e) s') with
                       | Normal msg =>
                           Normal (failure ("Failed after " +++ showZ maxRetries
                                            +++ " attempts: " +++ msg))
                       | Throw x => Throw x
                       end)
               \/ (exists x s', outcome c = Throw x
                                /\ outcome (messageText pf e s') = Throw x)
           end).
Proof.
  cbn zeta. rewrite convertPdfToImage_run.
  pose proof (convertLoop_summary file maxRetries (Z.to_nat maxRetries) 1 None s
                ltac:(f_equal; lia)) as Hs.
  destruct (convertLoop pf file maxRetries (Z.to_nat maxRetries) 1 None s)
    as [o s1 e1].
  cbn zeta in Hs. cbn [outcome emitted] in Hs.
  destruct Hs as ((k & Hk & _ & Hks & Hkf) & Hfrom & Herr & Hout).
  destruct (Z.to_nat maxRetries) as [|n] eqn:En.
  - destruct Hout as [-> ->]. simpl.
    split; [exists 0%nat; repeat split; auto|]. split; [constructor|].
    split; [constructor|]. split; [intros _; split; reflexivity|]. intro; lia.
  - destruct Hout as (last & Hlast & Hcase).
    destruct last as [r|e].
    + destruct Hcase as (-> & Hres & Hcount). simpl.
      split; [exists k; repeat split; auto|]. split; [exact Hfrom|].
      split; [exact Herr|]. split; [intro; lia|]. intros _.
      exists (Normal r). split; [exact Hlast|]. now repeat split.
    + destruct Hcase as [[-> Hcount]|(x & s' & -> & Hx)].
      * destruct (lastMessage pf (Some e) s1) as [[msg|x] s2 e2] eqn:Emsg;
          cbn [outcome emitted];
          (split; [exists k; repeat split; auto|]); (split; [exact Hfrom|]);
          (split; [exact Herr|]); (split; [intro; lia|]); intros _;
          exists (Throw e); (split; [exact Hlast|]); left; (split; [exact Hcount|]);
          exists s1; rewrite Emsg; reflexivity.
      * simpl.
        split; [exists k; repeat split; auto|]. split; [exact Hfrom|].
        split; [exact Herr|]. split; [intro; lia|]. intros _.
        exists (Throw e). split; [exact Hlast|]. right. now exists x, s'.
Qed.

(** Whatever [convertPdfToImage] returns is a success or a failure. *)
Lemma convertPdfToImage_shaped (file : option FileObj) (maxRetries : Z) (s : State pf)
    (r : PdfConversionResult) :
  outcome (convertPdfToImage pf file maxRetries s) = Normal r -> shaped r.
Proof.
  intros Hr.
  destruct (convertPdfToImage_summary file maxRetries s)
    as (_ & Hfrom & _ & Hnone & Hsome).
  destruct (Z_le_gt_dec maxRetries 0) as [Hle|Hgt].
  - destruct (Hnone Hle) as [_ Ho]. rewrite Ho in Hr. injection Hr as <-.
    right. apply failure_isFailure. discriminate.
  - destruct (Hsome ltac:(lia)) as (last & Hlast & Hcase).
    destruct last as [r'|e].
    + destruct Hcase as (Ho & _). rewrite Ho in Hr. injection Hr as <-.
      rewrite Forall_forall in Hfrom.
      destruct (Hfrom (Normal r') (lastOpt_In _ _ Hlast)) as [s' Hs'].
      pose proof (ensures_attempt file s') as Hens. now rewrite Hs' in Hens.
    + destruct Hcase as [(_ & s' & Ho)|(x & s' & Ho & _)].
      * rewrite Ho in Hr. destruct (outcome (lastMessage pf (Some e) s'));
          [|discriminate].
        injection Hr as <-. right. apply failure_isFailure. discriminate.
      * rewrite Ho in Hr. discriminate.
Qed.

(** What every attempt is sure to return, the call returns, when it makes
    an attempt at all. *)
Lemma convertPdfToImage_returns (P : PdfConversionResult -> Prop)
    (file : option FileObj) (maxRetries : Z) :
  1 <= maxRetries ->
  returns P (attemptPdfConversion pf file) ->
  returns P (convertPdfToImage pf file maxRetries).
Proof.
  intros Hm Hattempt s.
  destruct (convertPdfToImage_summary file maxRetries s) as (_ & Hfrom & _ & _ & Hsome).
  destruct (Hsome Hm) as (last & Hlast & Hcase).
  rewrite Forall_forall in Hfrom.
  destruct (Hfrom last (lastOpt_In _ _ Hlast)) as [s' Hs'].
  destruct (Hattempt s') as (r & Hr & HP). rewrite Hr in Hs'. subst last.
  exists r. split; [apply Hcase|exact HP].
Qed.

(** The outcome of a call that makes an attempt, by the way its last
    attempt ended. An attempt that returns gives the result of the call.
    After an attempt that threw an [Error], all the attempts have been made
    and the text of the failure names their number and the message of that
    error. After an attempt that threw another value, the same holds with
    the message that the platform reads from it, unless the reading throws:
    the call throws what the reading threw. *)
Lemma convertPdfToImage_last (file : option FileObj) (maxRetries : Z) (s : State pf) :
  1 <= maxRetries ->
  let c := convertPdfToImage pf file maxRetries s in
  exists last,
    lastOpt (attempts (emitted c)) = Some last
    /\ match last with
       | Normal r => outcome c = Normal r
       | Throw (OfError err) =>
           countAttempts (emitted c) = Z.to_nat maxRetries
           /\ outcome c
              = Normal (failure ("Failed after " +++ showZ maxRetries +++ " attempts: "
                                 +++ orElse (Some (err_message err)) "Unknown error"))
       | Throw (Foreign v) =>
           (countAttempts (emitted c) = Z.to_nat maxRetries
            /\ exists msg,
                 outcome c
                 = Normal (failure ("Failed after " +++ showZ maxRetries
                                    +++ " attempts: " +++ msg)))
           \/ (exists x s',
                 outcome c = Throw x
                 /\ (outcome (messageText pf (Foreign v) s') = Throw x
                     \/ outcome (lastMessage pf (Some (Foreign v)) s') = Throw x))
       end.
Proof.
  intros Hm. cbn zeta.
  destruct (convertPdfToImage_summary file maxRetries s) as (_ & _ & _ & _ & Hsome).
  destruct (Hsome Hm) as (last & Hlast & Hcase). exists last. split; [exact Hlast|].
  destruct last as [r|[err|v]].
  - apply Hcase.
  - destruct Hcase as [(Hcount & s' & Ho)|(x & s' & _ & Hx)].
    + split; [exact Hcount|]. now rewrite lastMessage_error in Ho.
    + rewrite messageText_error in Hx. discriminate.
  - destruct Hcase as [(Hcount & s' & Ho)|(x & s' & Ho & Hx)].
    + destruct (outcome (lastMessage pf (Some (Foreign v)) s')) as [msg|x] eqn:Emsg.
      * left. split; [exact Hcount|]. now exists msg.
      * right. exists x, s'. split; [exact Ho|]. now right.
    + right. exists x, s'. split; [exact Ho|]. now left.
Qed.

(** **** The failures of an attempt, one by one *)

Lemma returns_platformCall {A} (P : A -> Prop) (f : World pf -> Outcome pf A * World pf) :
  (forall w, exists a w', f w = (Normal a, w') /\ P a) ->
  returns P (platformCall pf f).
Proof.
  intros H s. destruct (H (world s)) as (a & w' & Hf & Ha).
  unfold platformCall, call. rewrite Hf. simpl. now exists a.
Qed.

Lemma raises_platformCall {A} (Q : Thrown pf -> Prop)
    (f : World pf -> Outcome pf A * World pf) :
  (forall w, exists e w', f w = (Throw e, w') /\ Q e) ->
  raises Q (platformCall pf f).
Proof.
  intros H s. destruct (H (world s)) as (e & w' & Hf & He).
  unfold platformCall, call. rewrite Hf. simpl. now exists e.
Qed.

Lemma returns_loadPdfJs :
  hasWindow pf = true ->
  (forall w, exists w', importPdfJs pf w = (Normal tt, w')) ->
  returns (fun _ => True) (loadPdfJs pf).
Proof.
  intros Hwin Himport s.
  unfold loadPdfJs, withoutWorker, setLib, platformCall, liftC.
  unfold bind, tryCatch, get, put, call, ret, throw.
  destruct s as [[|] [|] cfg w]; simpl; try (now exists tt).
  rewrite Hwin. simpl. destruct (Himport w) as [w' ->]. simpl.
  destruct (resolveWorkerSrc pf); simpl; now exists tt.
Qed.

Lemma returns_described (e : Thrown pf) (prefix : string) :
  readable pf e ->
  returns (fun r => exists msg, r = failure (prefix +++ msg))
    (msg <- describe pf e ;; ret (failure (prefix +++ msg))).
Proof.
  intros [Hd _]. apply (returns_bind (fun _ => True)); [now apply total_returns|].
  intros msg _. apply returns_ret. now exists msg.
Qed.

Lemma attempt_not_in_browser (file : option FileObj) :
  hasWindow pf = false \/ hasDocument pf = false ->
  returns (eq (failure "Not running in a browser context")) (attemptPdfConversion pf file).
Proof.
  intros H. unfold attemptPdfConversion. apply returns_tryCatch. unfold conversionBody.
  assert (E : (negb (hasWindow pf) || negb (hasDocument pf))%bool = true)
    by (destruct H as [-> | ->]; [reflexivity|apply orb_true_r]).
  rewrite E. now apply returns_ret.
Qed.

Lemma attempt_invalid_file (file : option FileObj) :
  hasWindow pf = true -> hasDocument pf = true ->
  file = None \/ (exists f, file = Some f /\ file_size f = 0) ->
  returns (eq (failure "Invalid or empty file")) (attemptPdfConversion pf file).
Proof.
  intros Hw Hd H. unfold attemptPdfConversion. apply returns_tryCatch.
  unfold conversionBody. rewrite Hw, Hd. simpl.
  destruct H as [-> | (f & -> & Hsize)]; [now apply returns_ret|].
  rewrite Hsize. now apply returns_ret.
Qed.

Lemma attempt_not_a_pdf (f : FileObj) :
  hasWindow pf = true -> hasDocument pf = true ->
  file_size f <> 0 ->
  includes (file_type f) "pdf" = false ->
  endsWith (toLowerCase (file_name f)) ".pdf" = false ->
  returns (eq (failure "File is not a PDF")) (attemptPdfConversion pf (Some f)).
Proof.
  intros Hw Hd Hsize Htype Hname. unfold attemptPdfConversion. apply returns_tryCatch.
  unfold conversionBody. rewrite Hw, Hd, Htype, Hname. simpl.
  apply Z.eqb_neq in Hsize. rewrite Hsize. now apply returns_ret.
Qed.

(** The body of an attempt on a file that is read: it comes to the parse. *)
Lemma body_of_read_file (P : PdfConversionResult -> Prop) (f : FileObj) :
  readsFile pf f ->
  (forall buffer,
     returns P
       (parsed <- parseDocument pf buffer ;;
        match parsed with
        | inl r => ret r
        | inr None => ret (failure "PDF has no pages")
        | inr (Some pdf) =>
            if numPages pdf =? 0 then ret (failure "PDF has no pages")
            else renderFirstPage pf f pdf
        end)) ->
  returns P (attemptPdfConversion pf (Some f)).
Proof.
  intros (Hw & Hd & Hsize & Hpdf & Himport & Hread) Hrest.
  unfold attemptPdfConversion. apply returns_tryCatch.
  unfold conversionBody. rewrite Hw, Hd. simpl.
  apply Z.eqb_neq in Hsize. rewrite Hsize.
  assert (E : (negb (includes (file_type f) "pdf")
               && negb (endsWith (toLowerCase (file_name f)) ".pdf"))%bool = false).
  { destruct Hpdf as [-> | ->]; [reflexivity|apply andb_false_r]. }
  rewrite E.
  apply (returns_bind (fun _ => True)); [now apply returns_loadPdfJs|]. intros _ _.
  apply (returns_bind (fun x => exists buffer, x = inr buffer /\ buffer <> [])).
  { unfold orReturn. apply returns_tryCatch.
    apply (returns_bind (fun buffer => buffer <> [])).
    - apply returns_platformCall. intro w.
      destruct (Hread w) as (buffer & w' & Hb & Hne). now exists buffer, w'.
    - intros buffer Hne. apply returns_ret. now exists buffer. }
  intros x (buffer & -> & Hne).
  destruct buffer as [|b rest]; [contradiction|]. cbn [List.length Nat.eqb].
  apply Hrest.
Qed.

Lemma attempt_parse_failure (f : FileObj) :
  readsFile pf f -> rejectsDocuments pf ->
  returns (fun r => exists msg, r = failure ("PDF parsing failed: " +++ msg))
    (attemptPdfConversion pf (Some f)).
Proof.
  intros Hreads Hrejects. apply body_of_read_file; [exact Hreads|]. intro buffer.
  assert (Hraise : raises (readable pf)
                     (s <- get ;; platformCall pf (getDocument pf (lib s) buffer))).
  { apply (raises_after (fun _ => True)); [apply returns_get|]. intros s0 _.
    apply raises_platformCall. intro w. apply Hrejects. }
  apply (returns_bind
           (fun x => exists msg, x = inl (failure ("PDF parsing failed: " +++ msg)))).
  - unfold parseDocument. apply (returns_caught (readable pf)).
    + apply (raises_after (fun _ => True)); [apply returns_get|]. intros s0 _.
      apply raises_bind. apply raises_platformCall. intro w. apply Hrejects.
    + intros e [_ Hp]. apply (returns_bind (fun _ => True)); [now apply total_returns|].
      intros msg _. destruct (workerTrouble msg).
      * apply (returns_bind (fun _ => True)); [intro s; now exists tt|]. intros _ _.
        unfold orReturn. apply (returns_caught (readable pf)).
        -- apply raises_bind. exact Hraise.
        -- intros e' [Hd _].
           apply (returns_bind (fun _ => True)); [now apply total_returns|].
           intros msg' _. apply returns_ret. now exists msg'.
      * apply returns_ret. now exists msg.
  - intros x (msg & ->). apply returns_ret. now exists msg.
Qed.

(** The body on a browser that reads the file and opens the page: it comes
    to the rendering. *)
Lemma body_of_open_page (P : PdfConversionResult -> Prop) (f : FileObj) :
  readsFile pf f -> opensPages pf ->
  (forall page viewport,
     returns P
       (platformCall pf
          (render pf page viewport
             (mathFloor (vp_width viewport), mathFloor (vp_height viewport))) ;;;
        final <- createBlob pf ;;
        match final with
        | inl r => ret r
        | inr finalBlob =>
            url <- platformCall pf (createObjectURL pf finalBlob) ;;
            ret (mkResult url
                   (Some (mkImageFile (stripPdfSuffix (file_name f) +++ ".png")
                            "image/png" finalBlob)) None)
        end)) ->
  returns P (attemptPdfConversion pf (Some f)).
Proof.
  intros Hreads (Hparse & Hpage & Hview & Hcontext) Hrest.
  apply body_of_read_file; [exact Hreads|]. intro buffer.
  apply (returns_bind (fun x => exists pdf, x = inr (Some pdf) /\ numPages pdf <> 0)).
  { unfold parseDocument. apply returns_tryCatch.
    apply (returns_bind (fun _ => True)); [apply returns_get|]. intros s0 _.
    apply (returns_bind (fun x => exists pdf, x = Some pdf /\ numPages pdf <> 0)).
    - apply returns_platformCall. intro w.
      destruct (Hparse (lib s0) buffer w) as (pdf & w' & Hg & Hn).
      exists (Some pdf), w'. split; [exact Hg|]. now exists pdf.
    - intros x (pdf & -> & Hn). apply returns_ret. now exists pdf. }
  intros x (pdf & -> & Hn). apply Z.eqb_neq in Hn. rewrite Hn.
  unfold renderFirstPage.
  apply (returns_bind (fun _ => True)).
  { apply returns_platformCall. intro w. destruct (Hpage pdf 1 w) as (page & w' & Hp).
    now exists page, w'. }
  intros page _.
  apply (returns_bind (fun _ => True)).
  { intro s. destruct (Hview page (ofZ 1)) as [vp Hvp]. unfold liftC. rewrite Hvp.
    now exists vp. }
  intros baseViewport _. cbv zeta.
  apply (returns_bind (fun _ => True)).
  { intro s. destruct (Hview page (renderScale (vp_width baseViewport))) as [vp Hvp].
    unfold liftC. rewrite Hvp. now exists vp. }
  intros viewport _.
  apply (returns_bind (fun context => context = true)).
  { apply returns_platformCall. intro w. destruct (Hcontext w) as [w' Hc].
    now exists true, w'. }
  intros context ->. cbn [negb]. apply Hrest.
Qed.

Lemma attempt_render_failure (f : FileObj) :
  readsFile pf f -> opensPages pf -> rejectsRendering pf ->
  returns (fun r => exists msg, r = failure ("Failed to convert PDF: " +++ msg))
    (attemptPdfConversion pf (Some f)).
Proof.
  intros (Hw & Hd & Hsize & Hpdf & Himport & Hread) (Hparse & Hpage & Hview & Hcontext)
    Hrender.
  unfold attemptPdfConversion. apply (returns_caught (readable pf)).
  2:{ intros e He. now apply returns_described. }
  unfold conversionBody. rewrite Hw, Hd. simpl.
  apply Z.eqb_neq in Hsize. rewrite Hsize.
  assert (E : (negb (includes (file_type f) "pdf")
               && negb (endsWith (toLowerCase (file_name f)) ".pdf"))%bool = false).
  { destruct Hpdf as [-> | ->]; [reflexivity|apply andb_false_r]. }
  rewrite E.
  apply (raises_after (fun _ => True)); [now apply returns_loadPdfJs|]. intros _ _.
  apply (raises_after (fun x => exists buffer, x = inr buffer /\ buffer <> [])).
  { unfold orReturn. apply returns_tryCatch.
    apply (returns_bind (fun buffer => buffer <> [])).
    - apply returns_platformCall. intro w.
      destruct (Hread w) as (buffer & w' & Hb & Hne). now exists buffer, w'.
    - intros buffer Hne. apply returns_ret. now exists buffer. }
  intros x (buffer & -> & Hne).
  destruct buffer as [|b rest]; [contradiction|]. cbn [List.length Nat.eqb].
  apply (raises_after (fun x => exists pdf, x = inr (Some pdf) /\ numPages pdf <> 0)).
  { unfold parseDocument. apply returns_tryCatch.
    apply (returns_bind (fun _ => True)); [apply returns_get|]. intros s0 _.
    apply (returns_bind (fun x => exists pdf, x = Some pdf /\ numPages pdf <> 0)).
    - apply returns_platformCall. intro w.
      destruct (Hparse (lib s0) (b :: rest) w) as (pdf & w' & Hg & Hn).
      exists (Some pdf), w'. split; [exact Hg|]. now exists pdf.
    - intros x (pdf & -> & Hn). apply returns_ret. now exists pdf. }
  intros x (pdf & -> & Hn). apply Z.eqb_neq in Hn. rewrite Hn.
  unfold renderFirstPage.
  apply (raises_after (fun _ => True)).
  { apply returns_platformCall. intro w. destruct (Hpage pdf 1 w) as (page & w' & Hp).
    now exists page, w'. }
  intros page _.
  apply (raises_after (fun _ => True)).
  { intro s. destruct (Hview page (ofZ 1)) as [vp Hvp]. unfold liftC. rewrite Hvp.
    now exists vp. }
  intros baseViewport _. cbv zeta.
  apply (raises_after (fun _ => True)).
  { intro s. destruct (Hview page (renderScale (vp_width baseViewport))) as [vp Hvp].
    unfold liftC. rewrite Hvp. now exists vp. }
  intros viewport _.
  apply (raises_after (fun context => context = true)).
  { apply returns_platformCall. intro w. destruct (Hcontext w) as [w' Hc].
    now exists true, w'. }
  intros context ->. cbn [negb].
  apply raises_bind. apply raises_platformCall. intro w. apply Hrender.
Qed.

Lemma attempt_blob_failure (f : FileObj) :
  readsFile pf f -> opensPages pf -> draws pf -> yieldsNoBlob pf ->
  returns (eq (failure "Failed to create image blob")) (attemptPdfConversion pf (Some f)).
Proof.
  intros Hreads Hopens Hdraws (Hnone & Hurl).
  apply body_of_open_page; [exact Hreads|exact Hopens|]. intros page viewport.
  apply (returns_bind (fun _ => True)).
  { apply returns_platformCall. intro w.
    destruct (Hdraws page viewport
                (mathFloor (vp_width viewport), mathFloor (vp_height viewport)) w)
      as [w' Hr].
    now exists tt, w'. }
  intros _ _.
  apply (returns_bind (eq (inl (failure "Failed to create image blob")))).
  2:{ intros x <-. now apply returns_ret. }
  unfold createBlob.
  apply (returns_bind (eq None)).
  { destruct Hnone as [-> | Hnull]; [now apply returns_ret|].
    destruct (canvasHasToBlob pf); [|now apply returns_ret].
    apply returns_platformCall. intro w. destruct (Hnull w) as [w' Hb].
    now exists None, w'. }
  intros blob <-.
  apply (returns_caught (fun _ => True)); [|intros e _; now apply returns_ret].
  intro s. rewrite bind_outcome. unfold platformCall at 1. unfold call.
  destruct (Hurl (world s)) as [(e & w' & Hu)|(dataUrl & w' & e & Hu & Hdecode)];
    rewrite Hu; cbn [outcome final].
  - now exists e.
  - rewrite bind_outcome. unfold liftC. rewrite Hdecode. cbn [outcome]. now exists e.
Qed.

End Facts.

End Pdf2Img.

(** ** app/components/TrialTracker.tsx *)

Module Trial.

(** The [trial] and [auth] slices of the store ([useApiStore]), as the
    component destructures them. The store itself ([~/lib/api]) is not among
    the sources: its state is an input here. *)
Record TrialState := mkTrial { used : Z; remaining : Z; max : Z }.

Record AuthState := mkAuth { isAuthenticated : bool }.

Record Store := mkStore { trial : TrialState; auth : AuthState }.

(** [TrialTrackerProps], with the defaults [''] and [true] when omitted. *)
Record Props := mkProps { className : option string; showUpgradeLink : option bool }.

(** The status line under the progress bar. *)
Inductive Status :=
| TrialExhausted
| OnlyOneRemaining
| FreeRemaining (count : Z) (noun : string).

(** What the component renders: the class of the outer [div], the
    "used/max used" label, the colour and the width (in percent, the double
    that the division and the product give) of the progress bar, the status
    line, and whether the "View Plans" link is there. *)
Record View := mkView {
  view_class : string;
  view_label : string;
  view_progressColor : string;
  view_width : Number;
  view_status : Status;
  view_upgradeLink : bool
}.

Definition getColorClass (remaining : Z) : string :=
  if remaining =? 0 then "text-red-600 bg-red-50 border-red-200"
  else if remaining =? 1 then "text-orange-600 bg-orange-50 border-orange-200"
  else "text-green-600 bg-green-50 border-green-200".

Definition getProgressColor (remaining : Z) : string :=
  if remaining =? 0 then "bg-red-500"
  else if remaining =? 1 then "bg-orange-500"
  else "bg-green-500".

(** [(used / max) * 100] *)
Definition percentUsed (used max : Z) : Number :=
  numMul (numDiv (ofZ used) (ofZ max)) (ofZ 100).

(** The component: [None] is the [null] it returns to an unauthenticated
    user. *)
Definition TrialTracker (props : Props) (store : Store) : option View :=
  let className := match className props with Some c => c | None => "" end in
  let showUpgradeLink := match showUpgradeLink props with Some b => b | None => true end in
  if negb (isAuthenticated (auth store)) then None
  else
    let used := used (trial store) in
    let remaining := remaining (trial store) in
    let max := max (trial store) in
    Some (mkView
            ("rounded-lg border p-3 " +++ getColorClass remaining +++ " " +++ className)
            (showZ used +++ "/" +++ showZ max +++ " used")
            (getProgressColor remaining)
            (percentUsed used max)
            (if remaining =? 0 then TrialExhausted
             else if remaining =? 1 then OnlyOneRemaining
             else FreeRemaining remaining
                    (if remaining =? 1 then "analysis" else "analyses"))
            (showUpgradeLink && (remaining <=? 1))%bool).

(** The remaining count that the status line conveys. *)
Definition displayedRemaining (v : View) : Z :=
  match view_status v with
  | TrialExhausted => 0
  | OnlyOneRemaining => 1
  | FreeRemaining count _ => count
  end.

(** Whatever is rendered shows the store's fields as they are. *)
Lemma TrialTracker_displayed (props : Props) (store : Store) (v : View) :
  TrialTracker props store = Some v ->
  displayedRemaining v = remaining (trial store)
  /\ view_label v
     = showZ (used (trial store)) +++ "/" +++ showZ (max (trial store)) +++ " used".
Proof.
  unfold TrialTracker. cbv zeta.
  destruct (negb (isAuthenticated (auth store))); [discriminate|].
  intros H. injection H as <-. unfold displayedRemaining. cbn [view_status view_label].
  split; [|reflexivity].
  destruct (remaining (trial store) =? 0) eqn:E0; [apply Z.eqb_eq in E0; lia|].
  destruct (remaining (trial store) =? 1) eqn:E1; [apply Z.eqb_eq in E1; lia|].
  reflexivity.
Qed.

End Trial.

(** ** The OAuth callback handler (Vercel function) *)

Module OAuthCallback.

(** A value of [req.query]: a string, or an array of strings when the
    parameter is repeated. *)
Inductive QueryValue :=
| QStr (s : string)
| QArr (l : list string).

Record Query := mkQuery {
  q_code : option QueryValue;
  q_state : option QueryValue;
  q_error : option QueryValue
}.

Record Request := mkRequest { method : string; query : Query }.

(** Truthiness: a missing parameter and the empty string are falsy, an array
    is truthy. *)
Definition truthyQ (v : option QueryValue) : bool :=
  match v with
  | None => false
  | Some (QStr s) => truthy s
  | Some (QArr _) => true
  end.

(** [String(v)] *)
Definition StringQ (v : QueryValue) : string :=
  match v with
  | QStr s => s
  | QArr l => join "," l
  end.

Inductive Reply :=
| Redirect (status : Z) (location : string)
| EndWith (status : Z)
| JsonWith (status : Z) (body : list (string * string)).

Inductive Event :=
| EvSetHeader (name value : string)
| EvConsoleError (args : list LogArg)
| EvReply (r : Reply).

Definition hexDigit (n : nat) : ascii :=
  ascii_of_nat (if Nat.ltb n 10 then 48 + n else 55 + n).

(** The characters that [encodeURIComponent] leaves as they are. *)
Definition unreserved (c : ascii) : bool :=
  (isAlpha c || isDigit c
   || existsb (Ascii.eqb c)
        ["-"; "_"; "."; "!"; "~"; "*"; "'"; "("; ")"]%char)%bool.

(** The bytes of a text, each written as it is or as a percent sign and
    its two hexadecimal digits. *)
Fixpoint percentEncode (s : string) : string :=
  match s with
  | EmptyString => EmptyString
  | String c rest =>
      if unreserved c then String c (percentEncode rest)
      else
        let n := nat_of_ascii c in
        String "%" (String (hexDigit (n / 16)) (String (hexDigit (n mod 16))
          (percentEncode rest)))
  end.

(** What [encodeURIComponent] throws on a lone surrogate. *)
Definition uriError : Thrown := ThrowErr (mkErr "URIError" "URI malformed").

(** [encodeURIComponent(s)]: the UTF-8 bytes of a well-formed text,
    percent-encoded; a text that holds a lone surrogate makes it throw. *)
Definition encodeURIComponent (s : string) : Completion string :=
  if wellFormed s then Normal (percentEncode s) else Throw uriError.

Record GoogleUser := mkGoogleUser {
  g_id : string;
  g_name : string;
  g_email : option string
}.

Record StateData := mkStateData { redirectTo : option string }.

(** The helpers imported from [app/lib/auth], which is not among the
    sources: they are parameters, free to throw and to change the world
    (the provider, the database, the cookie on the response). *)
Record Auth := mkAuth {
  World : Type;
  getGoogleUserInfo : string -> World -> Completion GoogleUser * World;
  createUserSession : string -> string -> string -> World -> Completion string * World;
  setSessionCookie : string -> World -> Completion unit * World;
  verifyStateToken : option QueryValue -> Completion (option StateData)
}.

Section Code.
Variable auth : Auth.

Local Notation Op := (M Event (World auth)) (only parsing).

Definition setHeader (name value : string) : Op unit := emit (EvSetHeader name value).

(** A call that completes without touching the world. *)
Definition lift {A} (c : Completion A) : Op A := fun w => mkRun c w [].

(** [return res.redirect(...)], [return res.status(...).end()], ... *)
Definition reply (r : Reply) : Op Reply := emit (EvReply r) ;;; ret r.

(** [!code || typeof code !== 'string'] fails: the code, a non-empty string. *)
Definition codeString (code : option QueryValue) : option string :=
  match code with
  | Some (QStr c) => if truthy c then Some c else None
  | _ => None
  end.

(** [String(v)] of a parameter that may be missing. *)
Definition StringOpt (v : option QueryValue) : string :=
  match v with
  | Some v => StringQ v
  | None => "undefined"
  end.

(** The body of the [try] block. *)
Definition processing (req : Request) : Op Reply :=
  let code := q_code (query req) in
  let state := q_state (query req) in
  let oauthError := q_error (query req) in
  if truthyQ oauthError then
    emit (EvConsoleError [LStr "OAuth error:"; LStr (StringOpt oauthError)]) ;;;
    encoded <- lift (encodeURIComponent (StringOpt oauthError)) ;;
    reply (Redirect 302 ("/?error=" +++ encoded))
  else
    match codeString code with
    | None => reply (Redirect 302 "/?error=missing_code")
    | Some c =>
        googleUser <- call (getGoogleUserInfo auth c) ;;
        if negb (truthyOpt (g_email googleUser)) then
          reply (Redirect 302 "/?error=no_email")
        else
          sessionToken <- call (createUserSession auth (g_id googleUser)
                                  (g_name googleUser)
                                  (interpolate (g_email googleUser))) ;;
          call (setSessionCookie auth sessionToken) ;;;
          stateData <- lift (verifyStateToken auth state) ;;
          let redirectTo :=
            orElse (match stateData with
                    | Some d => redirectTo d
                    | None => None
                    end) "/upload" in
          reply (Redirect 302 redirectTo)
    end.

(** [error instanceof Error ? error.message : 'Unknown error'] *)
Definition errorMessage (error : Thrown) : string :=
  match error with
  | ThrowErr e => err_message e
  | ThrowOther _ => "Unknown error"
  end.

Definition handler (req : Request) : Op Reply :=
  setHeader "Access-Control-Allow-Credentials" "true" ;;;
  setHeader "Access-Control-Allow-Origin" "*" ;;;
  setHeader "Access-Control-Allow-Methods" "GET, OPTIONS" ;;;
  setHeader "Access-Control-Allow-Headers" "Content-Type, Authorization" ;;;
  if String.eqb (method req) "OPTIONS" then reply (EndWith 200)
  else if negb (String.eqb (method req) "GET") then
    reply (JsonWith 405 [("error", "Method not allowed")])
  else
    tryCatch (processing req)
      (fun error =>
         emit (EvConsoleError [LStr "OAuth callback error:"; LVal error]) ;;;
         encoded <- lift (encodeURIComponent (errorMessage error)) ;;
         reply (Redirect 302 ("/?error=" +++ encoded))).

End Code.

(** *** A concrete provider

    The code "good" is exchanged for a user with an email, "anonymous" for a
    user without one, and any other code is refused; the world counts the
    sessions created. *)
Definition demoAuth : Auth := {|
  World := nat;
  getGoogleUserInfo := fun code w =>
    if String.eqb code "good" then
      (Normal (mkGoogleUser "g-1" "Ada" (Some "ada@example.com")), w)
    else if String.eqb code "anonymous" then
      (Normal (mkGoogleUser "g-2" "Nemo" None), w)
    else (Throw (ThrowErr (newError "Token exchange failed: invalid_grant")), w);
  createUserSession := fun _ _ _ w => (Normal ("session-" +++ showZ (Z.of_nat w)), S w);
  setSessionCookie := fun _ w => (Normal tt, w);
  verifyStateToken := fun state =>
    match state with
    | Some (QStr s) => Normal (Some (mkStateData (Some s)))
    | _ => Normal None
    end
|}.

(** A provider that refuses every code and names it in the error. *)
Definition echoAuth : Auth := {|
  World := nat;
  getGoogleUserInfo := fun code w =>
    (Throw (ThrowErr (newError ("Token exchange failed: " +++ code))), w);
  createUserSession := fun _ _ _ w => (Normal ("session-" +++ showZ (Z.of_nat w)), S w);
  setSessionCookie := fun _ w => (Normal tt, w);
  verifyStateToken := fun _ => Normal None
|}.

(** The lone surrogate U+D800. *)
Definition loneSurrogate : string :=
  String (ascii_of_nat 237) (String (ascii_of_nat 160) (String (ascii_of_nat 128) "")).

(** *** Facts about the handler *)

Section Facts.
Variable auth : Auth.

(** On a GET request the handler runs the body and catches what it throws;
    the four CORS headers come first. What the encoding of the message
    throws inside the [catch] block is thrown by the handler. *)
Lemma handler_GET (req : Request) (w : World auth) :
  method req = "GET" ->
  outcome (handler auth req w) =
  match outcome (processing auth req w) with
  | Normal r => Normal r
  | Throw t =>
      match encodeURIComponent (errorMessage t) with
      | Normal encoded => Normal (Redirect 302 ("/?error=" +++ encoded))
      | Throw x => Throw x
      end
  end.
Proof.
  intros Hm. unfold handler, setHeader, reply, lift, bind, tryCatch, emit, ret.
  rewrite Hm. simpl.
  destruct (processing auth req w) as [[r|t] w1 e1]; [reflexivity|].
  cbn [outcome]. destruct (encodeURIComponent (errorMessage t)); reflexivity.
Qed.

(** The body only ever replies with a 302 redirect. *)
Lemma processing_redirects (req : Request) :
  ensures (fun r => exists location, r = Redirect 302 location) (processing auth req).
Proof.
  assert (Hreply : forall location,
            ensures (fun r => exists location, r = Redirect 302 location)
              (reply auth (Redirect 302 location))).
  { intros location w. simpl. now exists location. }
  unfold processing. cbv zeta.
  destruct (truthyQ (q_error (query req))).
  - apply (ensures_bind (fun _ => True)); [apply ensures_any|]. intros _ _.
    apply (ensures_bind (fun _ => True)); [apply ensures_any|]. intros encoded _.
    apply Hreply.
  - destruct (codeString (q_code (query req))); [|apply Hreply].
    apply (ensures_bind (fun _ => True)); [apply ensures_any|]. intros googleUser _.
    destruct (negb (truthyOpt (g_email googleUser))); [apply Hreply|].
    apply (ensures_bind (fun _ => True)); [apply ensures_any|]. intros sessionToken _.
    apply (ensures_bind (fun _ => True)); [apply ensures_any|]. intros _ _.
    apply (ensures_bind (fun _ => True)); [apply ensures_any|]. intros stateData _.
    apply Hreply.
Qed.

End Facts.

End OAuthCallback.

(** ** scripts/run-migrations.mjs: from the text of a file to its statements *)

Module MigrationText.

Definition lineFeed : ascii := ascii_of_nat 10.

(** [line.trim().startsWith('--')] *)
Definition isCommentLine (line : string) : bool := startsWith (trim line) "--".

(** [sqlContent.split('\n').filter(line => !line.trim().startsWith('--'))
    .join('\n')] *)
Definition cleanedContent (sqlContent : string) : string :=
  join LF (filter (fun line => negb (isCommentLine line)) (split lineFeed sqlContent)).

(** The separator [/;\s*(?=\n|$)/] after its semicolon: the number of bytes
    of white space that it takes, if it matches there. The white space is
    taken up to the end of the text, or else up to the last line feed of
    the run; a run that holds no line feed and does not end the text gives
    no match. Every step passes a character, so that the length of the text
    is fuel enough. *)
Fixpoint separatorReachFuel (fuel : nat) (s : string) : option nat :=
  match s with
  | EmptyString => Some 0%nat
  | String c _ =>
      match fuel with
      | O => None
      | S fuel' =>
          match spaceWidth s with
          | O => None
          | w =>
              match separatorReachFuel fuel' (dropChars w s) with
              | Some n => Some (w + n)%nat
              | None => if Ascii.eqb c lineFeed then Some 0%nat else None
              end
          end
      end
  end.

Definition separatorReach (s : string) : option nat :=
  separatorReachFuel (String.length s) s.

(** [text.split(/;\s*(?=\n|$)/)]: [skip] bytes of a separator are still to
    be passed over, and [piece] is the piece read so far. *)
Fixpoint splitStatements (s : string) (skip : nat) (piece : string) : list string :=
  match s with
  | EmptyString => [piece]
  | String c rest =>
      match skip with
      | S k => splitStatements rest k piece
      | O =>
          if Ascii.eqb c ";" then
            match separatorReach rest with
            | Some n => piece :: splitStatements rest n ""
            | None => splitStatements rest 0 (piece +++ String c "")
            end
          else splitStatements rest 0 (piece +++ String c "")
      end
  end.

(** [cleanedContent.split(/;\s*(?=\n|$)/).map(s => s.trim())
    .filter(s => s.length > 0)] *)
Definition statementsOf (sqlContent : string) : list string :=
  filter (fun s => negb (Nat.eqb (String.length s) 0))
    (map trim (splitStatements (cleanedContent sqlContent) 0 "")).

(** The text after the first occurrence of [needle]. *)
Fixpoint afterFirst (needle s : string) : option string :=
  if String.prefix needle s then Some (dropChars (String.length needle) s)
  else match s with
       | EmptyString => None
       | String _ rest => afterFirst needle rest
       end.

(** The text before the first occurrence of [needle]. *)
Fixpoint beforeFirst (needle s : string) : option string :=
  if String.prefix needle s then Some ""
  else match s with
       | EmptyString => None
       | String c rest => option_map (String c) (beforeFirst needle rest)
       end.

(** [sqlContent.includes('DO $$')] and then
    [sqlContent.match(/DO \$\$[\s\S]*?\$\$/)]: the block from the first
    [DO $$] to the next [$$], if there is one. *)
Definition doBlockOf (sqlContent : string) : option string :=
  if includes sqlContent "DO $$" then
    match afterFirst "DO $$" sqlContent with
    | Some rest =>
        match beforeFirst "$$" rest with
        | Some body => Some ("DO $$" +++ body +++ "$$")
        | None => None
        end
    | None => None
    end
  else None.

(** What the script sends to the database for a file: the block alone, or
    the statements one by one. *)
Definition queriesOf (sqlContent : string) : list string :=
  match doBlockOf sqlContent with
  | Some block => [block]
  | None => statementsOf sqlContent
  end.

(** The text of migrations/000_initial_schema.sql. *)
Definition initialSchemaSql : string :=
  "-- Initial database schema for AI Resume Analyzer" +++ LF +++
  "-- Run this first before any other migrations" +++ LF +++
  LF +++
  "-- Create users table" +++ LF +++
  "CREATE TABLE IF NOT EXISTS users (" +++ LF +++
  "    id SERIAL PRIMARY KEY," +++ LF +++
  "    uuid VARCHAR(255) UNIQUE NOT NULL," +++ LF +++
  "    name VARCHAR(255) NOT NULL," +++ LF +++
  "    email VARCHAR(255) UNIQUE," +++ LF +++
  "    subscription_tier VARCHAR(50) DEFAULT 'free'," +++ LF +++
  "    trial_uses INTEGER DEFAULT 0," +++ LF +++
  "    max_trial_uses INTEGER DEFAULT 3," +++ LF +++
  "    trial_expires_at TIMESTAMPTZ," +++ LF +++
  "    created_at TIMESTAMPTZ DEFAULT CURRENT_TIMESTAMP," +++ LF +++
  "    updated_at TIMESTAMPTZ DEFAULT CURRENT_TIMESTAMP" +++ LF +++
  ");" +++ LF +++
  LF +++
  "-- Create sessions table" +++ LF +++
  "CREATE TABLE IF NOT EXISTS sessions (" +++ LF +++
  "    id SERIAL PRIMARY KEY," +++ LF +++
  "    user_id INTEGER NOT NULL REFERENCES users(id) ON DELETE CASCADE," +++ LF +++
  "    session_token VARCHAR(500) UNIQUE NOT NULL," +++ LF +++
  "    expires_at TIMESTAMPTZ NOT NULL," +++ LF +++
  "    created_at TIMESTAMPTZ DEFAULT CURRENT_TIMESTAMP" +++ LF +++
  ");" +++ LF +++
  LF +++
  "-- Create resumes table" +++ LF +++
  "CREATE TABLE IF NOT EXISTS resumes (" +++ LF +++
  "    id SERIAL PRIMARY KEY," +++ LF +++
  "    user_id INTEGER NOT NULL REFERENCES users(id) ON DELETE CASCADE," +++ LF +++
  "    file_name VARCHAR(500) NOT NULL," +++ LF +++
  "    file_path VARCHAR(1000) NOT NULL," +++ LF +++
  "    file_size INTEGER," +++ LF +++
  "    mime_type VARCHAR(100)," +++ LF +++
  "    gcs_url TEXT," +++ LF +++
  "    analysis_data JSONB," +++ LF +++
  "    ats_score INTEGER," +++ LF +++
  "    created_at TIMESTAMPTZ DEFAULT CURRENT_TIMESTAMP," +++ LF +++
  "    updated_at TIMESTAMPTZ DEFAULT CURRENT_TIMESTAMP" +++ LF +++
  ");" +++ LF +++
  LF +++
  "-- Create kv_store table for key-value storage" +++ LF +++
  "CREATE TABLE IF NOT EXISTS kv_store (" +++ LF +++
  "    id SERIAL PRIMARY KEY," +++ LF +++
  "    key VARCHAR(500) NOT NULL," +++ LF +++
  "    value TEXT," +++ LF +++
  "    user_id INTEGER REFERENCES users(id) ON DELETE CASCADE," +++ LF +++
  "    created_at TIMESTAMPTZ DEFAULT CURRENT_TIMESTAMP," +++ LF +++
  "    updated_at TIMESTAMPTZ DEFAULT CURRENT_TIMESTAMP," +++ LF +++
  "    UNIQUE(key, user_id)" +++ LF +++
  ");" +++ LF +++
  LF +++
  "-- Create payments table" +++ LF +++
  "CREATE TABLE IF NOT EXISTS payments (" +++ LF +++
  "    id SERIAL PRIMARY KEY," +++ LF +++
  "    user_id INTEGER NOT NULL REFERENCES users(id) ON DELETE CASCADE," +++ LF +++
  "    razorpay_order_id VARCHAR(100) UNIQUE NOT NULL," +++ LF +++
  "    razorpay_payment_id VARCHAR(100)," +++ LF +++
  "    razorpay_signature VARCHAR(256)," +++ LF +++
  "    amount INTEGER NOT NULL," +++ LF +++
  "    currency VARCHAR(10) DEFAULT 'INR'," +++ LF +++
  "    payment_status VARCHAR(50)," +++ LF +++
  "    plan_id VARCHAR(100) NOT NULL," +++ LF +++
  "    created_at TIMESTAMPTZ DEFAULT CURRENT_TIMESTAMP," +++ LF +++
  "    updated_at TIMESTAMPTZ DEFAULT CURRENT_TIMESTAMP" +++ LF +++
  ");" +++ LF +++
  LF +++
  "-- Create indexes" +++ LF +++
  "CREATE INDEX IF NOT EXISTS idx_users_uuid ON users(uuid);" +++ LF +++
  "CREATE INDEX IF NOT EXISTS idx_users_email ON users(email);" +++ LF +++
  "CREATE INDEX IF NOT EXISTS idx_users_trial_uses ON users(trial_uses);" +++ LF +++
  "CREATE INDEX IF NOT EXISTS idx_sessions_user_id ON sessions(user_id);" +++ LF +++
  "CREATE INDEX IF NOT EXISTS idx_sessions_token ON sessions(session_token);" +++ LF +++
  "CREATE INDEX IF NOT EXISTS idx_sessions_expires ON sessions(expires_at);" +++ LF +++
  "CREATE INDEX IF NOT EXISTS idx_resumes_user_id ON resumes(user_id);" +++ LF +++
  "CREATE INDEX IF NOT EXISTS idx_resumes_created ON resumes(created_at DESC);" +++ LF +++
  "CREATE INDEX IF NOT EXISTS idx_kv_key ON kv_store(key);" +++ LF +++
  "CREATE INDEX IF NOT EXISTS idx_kv_user ON kv_store(user_id);" +++ LF +++
  "CREATE INDEX IF NOT EXISTS idx_payments_user ON payments(user_id);" +++ LF +++
  "CREATE INDEX IF NOT EXISTS idx_payments_order ON payments(razorpay_order_id);" +++ LF.

(** The text of migrations/003_add_trial_tracking.sql. *)
Definition addTrialTrackingSql : string :=
  "-- Migration: Add trial tracking columns to users table" +++ LF +++
  "-- This adds columns to track free trial usage (3 trials per user)" +++ LF +++
  LF +++
  "-- Add trial_uses column (tracks how many trials have been used)" +++ LF +++
  "ALTER TABLE users ADD COLUMN IF NOT EXISTS trial_uses INTEGER DEFAULT 0;" +++ LF +++
  LF +++
  "-- Add max_trial_uses column (max trials allowed, default 3)" +++ LF +++
  "ALTER TABLE users ADD COLUMN IF NOT EXISTS max_trial_uses INTEGER DEFAULT 3;" +++ LF +++
  LF +++
  "-- Create index for efficient trial queries" +++ LF +++
  "CREATE INDEX IF NOT EXISTS idx_users_trial_uses ON users(trial_uses);" +++ LF.

(** *** Facts about the statements *)

(** Every statement is non-empty and trimmed: it has no white space at its
    head and none at its end. *)
Lemma statementsOf_trimmed (sqlContent : string) :
  Forall (fun statement =>
            statement <> "" /\ trim statement = statement
            /\ spaceWidth statement = 0%nat /\ trimEnd statement = statement)
    (statementsOf sqlContent).
Proof.
  unfold statementsOf. rewrite Forall_forall. intros st Hin.
  apply filter_In in Hin as [Hin Hlen]. apply in_map_iff in Hin as (piece & <- & _).
  destruct (trim_trimmed piece) as (Hh & He & Ht).
  split; [|now repeat split].
  intros E. rewrite E in Hlen. discriminate.
Qed.

Lemma isCommentLine_empty : isCommentLine "" = false.
Proof. reflexivity. Qed.

(** No line of the cleaned text is a comment line. *)
Lemma cleanedContent_lines (sqlContent : string) :
  Forall (fun line => isCommentLine line = false)
    (split lineFeed (cleanedContent sqlContent)).
Proof.
  unfold cleanedContent.
  destruct (split_segments lineFeed sqlContent) as [_ Hseg].
  set (kept := filter (fun line => negb (isCommentLine line)) (split lineFeed sqlContent)).
  assert (Hkept : Forall (fun line => isCommentLine line = false) kept).
  { rewrite Forall_forall. intros line Hin. apply filter_In in Hin as [_ H].
    now apply negb_true_iff in H. }
  assert (Hsep : Forall (fun seg => includes seg (String lineFeed "") = false) kept).
  { rewrite Forall_forall in *. intros line Hin. apply filter_In in Hin as [Hin _].
    now apply Hseg. }
  destruct kept as [|x l] eqn:Ek.
  - simpl. constructor; [reflexivity|constructor].
  - change LF with (String lineFeed "").
    rewrite (split_join lineFeed (x :: l)); [exact Hkept|discriminate|exact Hsep].
Qed.

(** *** A text of one line *)

Lemma includes_lineFeed_cons (c : ascii) (rest : string) :
  includes (String c rest) LF = false ->
  Ascii.eqb c lineFeed = false /\ includes rest LF = false.
Proof.
  change LF with (String lineFeed ""). cbn [includes String.prefix].
  destruct (ascii_dec lineFeed c) as [<-|Hc].
  - destruct rest; discriminate.
  - intros H. split; [|exact H].
    destruct (Ascii.eqb_spec c lineFeed); congruence.
Qed.

Lemma includes_lineFeed_drop (n : nat) :
  forall s, includes s LF = false -> includes (dropChars n s) LF = false.
Proof.
  induction n as [|n IH]; intros [|c rest] H; cbn [dropChars]; try exact H.
  apply IH. now apply includes_lineFeed_cons in H.
Qed.

(** Within one line the separator reaches the end of the text. *)
Lemma separatorReachFuel_line (fuel : nat) :
  forall s n, includes s LF = false -> separatorReachFuel fuel s = Some n ->
  n = String.length s.
Proof.
  induction fuel as [|fuel IH]; intros [|c rest] n Hline; cbn [separatorReachFuel].
  - now intros [= <-].
  - discriminate.
  - now intros [= <-].
  - pose proof (spaceWidth_le (String c rest)) as Hw.
    destruct (spaceWidth (String c rest)) as [|w] eqn:Ew; [discriminate|].
    destruct (separatorReachFuel fuel (dropChars (S w) (String c rest))) as [m|] eqn:Em.
    + intros [= <-].
      rewrite (IH _ m (includes_lineFeed_drop (S w) _ Hline) Em), dropChars_length. lia.
    + apply includes_lineFeed_cons in Hline as [Hc _]. rewrite Hc. discriminate.
Qed.

Lemma separatorReach_line (rest : string) :
  includes rest LF = false ->
  forall n, separatorReach rest = Some n -> n = String.length rest.
Proof. intros H n. now apply separatorReachFuel_line. Qed.

Lemma splitStatements_skipped (rest piece : string) :
  splitStatements rest (String.length rest) piece = [piece].
Proof. induction rest as [|c rest IH]; [reflexivity|exact IH]. Qed.

(** One line gives one piece, or one piece and an empty one. *)
Lemma splitStatements_line (s : string) :
  includes s LF = false ->
  forall piece, exists p,
    splitStatements s 0 piece = [p] \/ splitStatements s 0 piece = [p; ""].
Proof.
  induction s as [|c rest IH]; intros Hline piece.
  - exists piece. now left.
  - apply includes_lineFeed_cons in Hline as [_ Hrest].
    cbn [splitStatements]. destruct (Ascii.eqb c ";").
    + destruct (separatorReach rest) as [n|] eqn:Er.
      * exists piece. right.
        rewrite (separatorReach_line rest Hrest n Er).
        now rewrite splitStatements_skipped.
      * apply IH, Hrest.
    + apply IH, Hrest.
Qed.

Lemma statementsOf_line (sqlContent : string) :
  includes sqlContent LF = false ->
  (List.length (statementsOf sqlContent) <= 1)%nat.
Proof.
  intros Hline. unfold statementsOf, cleanedContent.
  change LF with (String lineFeed "") in Hline.
  rewrite (split_no_separator lineFeed sqlContent Hline). cbn [filter].
  destruct (negb (isCommentLine sqlContent)).
  - cbn [join]. change (String lineFeed "") with LF in Hline.
    destruct (splitStatements_line sqlContent Hline "") as (p & [-> | ->]).
    + cbn [map filter]. destruct (negb _); simpl; lia.
    + cbn [map filter]. change (trim "") with "". cbn [String.length Nat.eqb negb].
      destruct (negb _); simpl; lia.
  - cbn. lia.
Qed.

End MigrationText.

(** ** scripts/seed-data.mjs, scripts/run-migrations.mjs and the migrations *)

Module Scripts.

(** *** The database *)

(** A [jsonb] value. *)
Inductive Json :=
| JNum (n : Z)
| JStr (s : string)
| JArr (items : list Json)
| JObj (fields : list (string * Json)).

(** The rows, with the columns that the scripts write or read (the
    timestamps that default to the current time are left out). *)
Record UserRow := mkUser {
  u_id : Z;
  u_uuid : string;
  u_name : string;
  u_email : option string;
  u_subscription_tier : string;
  u_trial_uses : Z;
  u_max_trial_uses : Z
}.

Record ResumeRow := mkResume {
  r_id : Z;
  r_user_id : Z;
  r_file_name : string;
  r_file_path : string;
  r_file_size : Z;
  r_mime_type : string;
  r_ats_score : Z;
  r_analysis_data : Json
}.

Record SessionRow := mkSession {
  s_id : Z;
  s_user_id : Z;
  s_session_token : string;
  s_expires_at : Z
}.

Record KvRow := mkKv {
  k_id : Z;
  k_key : string;
  k_value : string;
  k_user_id : option Z
}.

(** The relations that exist: tables with their columns, and index names. *)
Record Schema := mkSchema {
  tables : list (string * list string);
  indexes : list string
}.

(** The database: the schema, and for each table of the seed script its rows
    (in insertion order) and the next value of its [SERIAL] sequence. *)
Record Database := mkDatabase {
  schema : Schema;
  users : list UserRow;
  users_seq : Z;
  resumes : list ResumeRow;
  resumes_seq : Z;
  sessions : list SessionRow;
  sessions_seq : Z;
  kv_store : list KvRow;
  kv_seq : Z
}.

Definition setSchema (db : Database) (sc : Schema) : Database :=
  mkDatabase sc (users db) (users_seq db) (resumes db) (resumes_seq db)
    (sessions db) (sessions_seq db) (kv_store db) (kv_seq db).

Definition setUsers (db : Database) (l : list UserRow) (seq : Z) : Database :=
  mkDatabase (schema db) l seq (resumes db) (resumes_seq db)
    (sessions db) (sessions_seq db) (kv_store db) (kv_seq db).

Definition setResumes (db : Database) (l : list ResumeRow) (seq : Z) : Database :=
  mkDatabase (schema db) (users db) (users_seq db) l seq
    (sessions db) (sessions_seq db) (kv_store db) (kv_seq db).

Definition setSessions (db : Database) (l : list SessionRow) (seq : Z) : Database :=
  mkDatabase (schema db) (users db) (users_seq db) (resumes db) (resumes_seq db)
    l seq (kv_store db) (kv_seq db).

Definition setKv (db : Database) (l : list KvRow) (seq : Z) : Database :=
  mkDatabase (schema db) (users db) (users_seq db) (resumes db) (resumes_seq db)
    (sessions db) (sessions_seq db) l seq.

(** The row counts of the four tables: users, resumes, sessions, kv_store. *)
Definition rowCounts (db : Database) : nat * nat * nat * nat :=
  (List.length (users db), List.length (resumes db),
   List.length (sessions db), List.length (kv_store db)).

Definition quoted (s : string) : string :=
  String (ascii_of_nat 34) (s +++ String (ascii_of_nat 34) "").

Definition sqlError {A} (msg : string) : Completion A := Throw (ThrowErr (newError msg)).

Definition tableOf (name : string) (sc : Schema) : option (list string) :=
  option_map snd (find (fun t => String.eqb (fst t) name) (tables sc)).

Definition hasTable (name : string) (db : Database) : bool :=
  match tableOf name (schema db) with Some _ => true | None => false end.

Definition noRelation {A} (name : string) : Completion A :=
  sqlError ("relation " +++ quoted name +++ " does not exist").

Definition duplicateKey {A} (constraint : string) : Completion A :=
  sqlError ("duplicate key value violates unique constraint " +++ quoted constraint).

Definition foreignKey {A} (table constraint : string) : Completion A :=
  sqlError ("insert or update on table " +++ quoted table
            +++ " violates foreign key constraint " +++ quoted constraint).

(** *** The statements of the seed script *)

(** [RETURNING id, name, email] *)
Record Returning := mkReturning {
  ret_id : Z;
  ret_name : string;
  ret_email : option string
}.

Definition emailIs (email : string) (u : UserRow) : bool :=
  match u_email u with
  | Some e => String.eqb e email
  | None => false
  end.

Definition rename (u : UserRow) (name : string) : UserRow :=
  mkUser (u_id u) (u_uuid u) name (u_email u) (u_subscription_tier u)
    (u_trial_uses u) (u_max_trial_uses u).

(** [DO UPDATE SET name = EXCLUDED.name] on the row that holds the email, if
    there is one: the rows after the update, and the row updated. *)
Fixpoint renameByEmail (email name : string) (l : list UserRow)
    : option (list UserRow * UserRow) :=
  match l with
  | [] => None
  | u :: rest =>
      if emailIs email u then Some (rename u name :: rest, rename u name)
      else match renameByEmail email name rest with
           | Some (rest', r) => Some (u :: rest', r)
           | None => None
           end
  end.

Definition userExists (id : Z) (db : Database) : bool :=
  existsb (fun u => u_id u =? id) (users db).

(** [INSERT INTO users (uuid, name, email, subscription_tier, trial_uses,
    max_trial_uses) VALUES (...) ON CONFLICT (email) DO UPDATE SET name =
    EXCLUDED.name RETURNING id, name, email]. The sequence advances whether
    or not the row is inserted; a conflict on another unique index is an
    error. *)
Definition upsertUser (uuid name email tier : string) (trial_uses max_trial_uses : Z)
    (db : Database) : Completion Returning * Database :=
  if negb (hasTable "users" db) then (noRelation "users", db)
  else
    let id := users_seq db in
    match renameByEmail email name (users db) with
    | Some (users', r) =>
        (Normal (mkReturning (u_id r) (u_name r) (u_email r)),
         setUsers db users' (id + 1))
    | None =>
        if existsb (fun u => String.eqb (u_uuid u) uuid) (users db) then
          (duplicateKey "users_uuid_key", setUsers db (users db) (id + 1))
        else if userExists id db then
          (duplicateKey "users_pkey", setUsers db (users db) (id + 1))
        else
          (Normal (mkReturning id name (Some email)),
           setUsers db
             (users db ++ [mkUser id uuid name (Some email) tier trial_uses max_trial_uses])
             (id + 1))
    end.

(** [INSERT INTO resumes (user_id, file_name, file_path, file_size,
    mime_type, ats_score, analysis_data) VALUES (...)] *)
Definition insertResume (user_id : Z) (file_name file_path : string) (file_size : Z)
    (mime_type : string) (ats_score : Z) (analysis_data : Json)
    (db : Database) : Completion unit * Database :=
  if negb (hasTable "resumes" db) then (noRelation "resumes", db)
  else
    let id := resumes_seq db in
    if existsb (fun r => r_id r =? id) (resumes db) then
      (duplicateKey "resumes_pkey", setResumes db (resumes db) (id + 1))
    else if negb (userExists user_id db) then
      (foreignKey "resumes" "resumes_user_id_fkey", setResumes db (resumes db) (id + 1))
    else
      (Normal tt,
       setResumes db
         (resumes db ++ [mkResume id user_id file_name file_path file_size mime_type
                           ats_score analysis_data])
         (id + 1)).

(** [INSERT INTO sessions (user_id, session_token, expires_at) VALUES (...)] *)
Definition insertSession (user_id : Z) (session_token : string) (expires_at : Z)
    (db : Database) : Completion unit * Database :=
  if negb (hasTable "sessions" db) then (noRelation "sessions", db)
  else
    let id := sessions_seq db in
    if existsb (fun s => String.eqb (s_session_token s) session_token) (sessions db) then
      (duplicateKey "sessions_session_token_key", setSessions db (sessions db) (id + 1))
    else if existsb (fun s => s_id s =? id) (sessions db) then
      (duplicateKey "sessions_pkey", setSessions db (sessions db) (id + 1))
    else if negb (userExists user_id db) then
      (foreignKey "sessions" "sessions_user_id_fkey", setSessions db (sessions db) (id + 1))
    else
      (Normal tt,
       setSessions db (sessions db ++ [mkSession id user_id session_token expires_at])
         (id + 1)).

Definition kvIs (key : string) (user_id : Z) (k : KvRow) : bool :=
  (String.eqb (k_key k) key
   && match k_user_id k with Some u => u =? user_id | None => false end)%bool.

Definition revalue (k : KvRow) (value : string) : KvRow :=
  mkKv (k_id k) (k_key k) value (k_user_id k).

(** [DO UPDATE SET value = EXCLUDED.value] on the row with this key and
    user, if there is one. *)
Fixpoint revalueByKey (key : string) (user_id : Z) (value : string) (l : list KvRow)
    : option (list KvRow) :=
  match l with
  | [] => None
  | k :: rest =>
      if kvIs key user_id k then Some (revalue k value :: rest)
      else option_map (cons k) (revalueByKey key user_id value rest)
  end.

(** [INSERT INTO kv_store (key, value, user_id) VALUES (...) ON CONFLICT
    (key, user_id) DO UPDATE SET value = EXCLUDED.value] *)
Definition upsertKv (key value : string) (user_id : Z)
    (db : Database) : Completion unit * Database :=
  if negb (hasTable "kv_store" db) then (noRelation "kv_store", db)
  else
    let id := kv_seq db in
    match revalueByKey key user_id value (kv_store db) with
    | Some kv' => (Normal tt, setKv db kv' (id + 1))
    | None =>
        if existsb (fun k => k_id k =? id) (kv_store db) then
          (duplicateKey "kv_store_pkey", setKv db (kv_store db) (id + 1))
        else if negb (userExists user_id db) then
          (foreignKey "kv_store" "kv_store_user_id_fkey", setKv db (kv_store db) (id + 1))
        else
          (Normal tt, setKv db (kv_store db ++ [mkKv id key value (Some user_id)]) (id + 1))
    end.

(** The count of the rows of a table ([SELECT COUNT] of all rows). *)
Definition countRows (table : string) (count : Database -> nat)
    (db : Database) : Completion Z * Database :=
  if negb (hasTable table db) then (noRelation table, db)
  else (Normal (Z.of_nat (count db)), db).

(** *** seed-data.mjs *)

Inductive Event :=
| EvLog (msg : string)
| EvError (args : list LogArg).

(** What the script draws from outside the database: the [k]-th value of
    [randomUUID()], the [k]-th reading of [Date.now()], and the text of
    [new Date().toISOString()]. *)
Record SeedEnv := mkSeedEnv {
  randomUUID : nat -> string;
  dateNow : nat -> Z;
  isoNow : string
}.

Record TestUser := mkTestUser {
  tu_uuid : string;
  tu_name : string;
  tu_email : string;
  tu_subscription_tier : string;
  tu_trial_uses : Z;
  tu_max_trial_uses : Z
}.

Record SampleResume := mkSampleResume {
  sr_user_id : Z;
  sr_file_name : string;
  sr_file_path : string;
  sr_file_size : Z;
  sr_mime_type : string;
  sr_ats_score : Z;
  sr_analysis_data : Json
}.

(** [for (const x of xs) { ... }], with the index of the iteration. *)
Fixpoint forEachFrom {E St A} (i : nat) (xs : list A) (body : nat -> A -> M E St unit)
    : M E St unit :=
  match xs with
  | [] => ret tt
  | x :: rest => body i x ;;; forEachFrom (S i) rest body
  end.

(** The same, collecting what each iteration pushes. *)
Fixpoint collectEach {E St A B} (xs : list A) (body : A -> M E St B) : M E St (list B) :=
  match xs with
  | [] => ret []
  | x :: rest => y <- body x ;; ys <- collectEach rest body ;; ret (y :: ys)
  end.

Section Seed.
Variable env : SeedEnv.

Local Notation Op := (M Event Database) (only parsing).

Definition sql {A} (q : Database -> Completion A * Database) : Op A := call q.

Definition log (msg : string) : Op unit := emit (EvLog msg).

Definition testUsers : list TestUser :=
  [ mkTestUser (randomUUID env 0) "John Developer" "john@example.com" "free" 1 3;
    mkTestUser (randomUUID env 1) "Jane Engineer" "jane@example.com" "pro" 3 3;
    mkTestUser (randomUUID env 2) "Test User" "test@example.com" "free" 0 3 ].

(** [createdUsers[i].id] *)
Definition idAt (createdUsers : list Returning) (i : nat) : Z :=
  ret_id (nth i createdUsers (mkReturning 0 "" None)).

Definition analysis (score : Z) (summary : string) (strengths improvements keywords : list string)
    (experience_years : Z) : Json :=
  JObj [ ("score", JNum score);
         ("summary", JStr summary);
         ("strengths", JArr (map JStr strengths));
         ("improvements", JArr (map JStr improvements));
         ("keywords", JArr (map JStr keywords));
         ("experience_years", JNum experience_years) ].

Definition sampleResumes (createdUsers : list Returning) : list SampleResume :=
  [ mkSampleResume (idAt createdUsers 0) "john_developer_resume.pdf"
      "/uploads/john_developer_resume.pdf" 125000 "application/pdf" 78
      (analysis 78 "Strong technical resume with good experience in web development."
         ["Clear formatting"; "Relevant skills listed"; "Quantified achievements"]
         ["Add more keywords"; "Include soft skills"; "Expand project descriptions"]
         ["JavaScript"; "React"; "Node.js"; "TypeScript"; "AWS"] 5);
    mkSampleResume (idAt createdUsers 0) "john_backend_resume.pdf"
      "/uploads/john_backend_resume.pdf" 98000 "application/pdf" 65
      (analysis 65 "Backend-focused resume, needs more detail on projects."
         ["Good technical depth"; "Clear experience timeline"]
         ["Missing action verbs"; "Add metrics"; "Better summary section"]
         ["Python"; "Django"; "PostgreSQL"; "Docker"; "Kubernetes"] 3);
    mkSampleResume (idAt createdUsers 1) "jane_engineer_resume.pdf"
      "/uploads/jane_engineer_resume.pdf" 156000 "application/pdf" 92
      (analysis 92 "Excellent resume with strong ATS optimization."
         ["Highly optimized for ATS"; "Strong action verbs"; "Quantified results";
          "Relevant keywords"]
         ["Consider adding certifications section"]
         ["Machine Learning"; "Python"; "TensorFlow"; "Data Science"; "AWS"; "SQL"] 7) ].

(** The first loop: one upsert per test user. *)
Definition createUsers : Op (list Returning) :=
  collectEach testUsers (fun user =>
    result <- sql (upsertUser (tu_uuid user) (tu_name user) (tu_email user)
                     (tu_subscription_tier user) (tu_trial_uses user)
                     (tu_max_trial_uses user)) ;;
    log ("   ✅ Created user: " +++ ret_name result +++ " ("
         +++ interpolate (ret_email result) +++ ")") ;;;
    ret result).

(** The second loop: one insert per sample resume. *)
Definition createResumes (createdUsers : list Returning) : Op unit :=
  forEachFrom 0 (sampleResumes createdUsers) (fun _ resume =>
    sql (insertResume (sr_user_id resume) (sr_file_name resume) (sr_file_path resume)
           (sr_file_size resume) (sr_mime_type resume) (sr_ats_score resume)
           (sr_analysis_data resume)) ;;;
    log ("   ✅ Created resume: " +++ sr_file_name resume +++ " (ATS Score: "
         +++ showZ (sr_ats_score resume) +++ ")")).

(** The third loop: one session per created user, with a fresh token (the
    first three values of [randomUUID] went to the test users). *)
Definition createSessions (createdUsers : list Returning) : Op unit :=
  forEachFrom 0 createdUsers (fun i user =>
    let sessionToken := "test_session_" +++ randomUUID env (3 + i) in
    let expiresAt := dateNow env i + 7 * 24 * 60 * 60 * 1000 in
    sql (insertSession (ret_id user) sessionToken expiresAt) ;;;
    log ("   ✅ Created session for: " +++ ret_name user)).

Definition preferences : string :=
  "{" +++ quoted "theme" +++ ":" +++ quoted "dark" +++ ","
  +++ quoted "notifications" +++ ":true}".

Definition createKvEntries (createdUsers : list Returning) : Op unit :=
  sql (upsertKv "last_analysis_date" (isoNow env) (idAt createdUsers 0)) ;;;
  log "   ✅ Created KV entry: last_analysis_date" ;;;
  sql (upsertKv "preferences" preferences (idAt createdUsers 0)) ;;;
  log "   ✅ Created KV entry: preferences".

Definition summary : Op unit :=
  log (LF +++ "📊 Seed data summary:") ;;;
  userCount <- sql (countRows "users" (fun db => List.length (users db))) ;;
  resumeCount <- sql (countRows "resumes" (fun db => List.length (resumes db))) ;;
  sessionCount <- sql (countRows "sessions" (fun db => List.length (sessions db))) ;;
  kvCount <- sql (countRows "kv_store" (fun db => List.length (kv_store db))) ;;
  log ("   Users: " +++ showZ userCount) ;;;
  log ("   Resumes: " +++ showZ resumeCount) ;;;
  log ("   Sessions: " +++ showZ sessionCount) ;;;
  log ("   KV Entries: " +++ showZ kvCount) ;;;
  log (LF +++ "🎉 Database seeded successfully!").

(** The body of the [try] block of [seedData]. *)
Definition seedBody : Op unit :=
  log "👤 Creating test users..." ;;;
  createdUsers <- createUsers ;;
  log (LF +++ "📄 Creating sample resumes...") ;;;
  createResumes createdUsers ;;;
  log (LF +++ "🔐 Creating sample sessions...") ;;;
  createSessions createdUsers ;;;
  log (LF +++ "🗄️  Creating sample KV entries...") ;;;
  createKvEntries createdUsers ;;;
  summary.

(** [seedData]: the exit code of the script, 1 after [process.exit(1)]. *)
Definition seedData : Op Z :=
  log ("🌱 Seeding database with test data..." +++ LF) ;;;
  tryCatch (seedBody ;;; ret 0)
    (fun error =>
       emit (EvError [LStr "❌ Error seeding database:";
                      LStr (interpolate (messageOf error))]) ;;;
       ret 1).

End Seed.

(** *** The migrations *)

(** The statements of the migration files at hand. *)
Inductive Stmt :=
| CreateTableIfNotExists (name : string) (columns : list string) (references : list string)
| CreateIndexIfNotExists (index table : string) (columns : list string)
| AddColumnIfNotExists (table column : string).

Definition hasColumn (column : string) (columns : list string) : bool :=
  existsb (String.eqb column) columns.

Fixpoint addColumn (table column : string) (ts : list (string * list string))
    : list (string * list string) :=
  match ts with
  | [] => []
  | (name, columns) :: rest =>
      if String.eqb name table then (name, columns ++ [column]) :: rest
      else (name, columns) :: addColumn table column rest
  end.

(** [sql.query(statement)] for a statement of a migration: it touches the
    schema only. An object that is already there is skipped ([IF NOT
    EXISTS]); a table or a column that is referred to and missing is an
    error. *)
Definition execStmt (st : Stmt) (db : Database) : Completion unit * Database :=
  match st with
  | CreateTableIfNotExists name columns references =>
      if hasTable name db then (Normal tt, db)
      else
        match find (fun r => negb (hasTable r db)) references with
        | Some r => (noRelation r, db)
        | None =>
            (Normal tt,
             setSchema db (mkSchema (tables (schema db) ++ [(name, columns)])
                             (indexes (schema db))))
        end
  | CreateIndexIfNotExists index table columns =>
      if existsb (String.eqb index) (indexes (schema db)) then (Normal tt, db)
      else
        match tableOf table (schema db) with
        | None => (noRelation table, db)
        | Some present =>
            match find (fun c => negb (hasColumn c present)) columns with
            | Some c => (sqlError ("column " +++ quoted c +++ " does not exist"), db)
            | None =>
                (Normal tt,
                 setSchema db (mkSchema (tables (schema db))
                                 (indexes (schema db) ++ [index])))
            end
        end
  | AddColumnIfNotExists table column =>
      match tableOf table (schema db) with
      | None => (noRelation table, db)
      | Some present =>
          if hasColumn column present then (Normal tt, db)
          else
            (Normal tt,
             setSchema db (mkSchema (addColumn table column (tables (schema db)))
                             (indexes (schema db))))
      end
  end.

(** *** From the text of a query to a statement

    The texts that the database reads as one of the three statements above.
    Key words are read in either case and names are folded to lower case.
    A text with a character or a shape that is not provided for here is not
    read, and is left to the rest of the engine. *)

Inductive Token :=
| TOpen
| TClose
| TComma
| TWord (w : string).

Definition flush (word : string) : list Token :=
  if String.eqb word "" then [] else [TWord word].

(** The tokens of a text: parentheses, commas, and the words between them
    and the white space. *)
Fixpoint tokensFrom (s : string) (word : string) : list Token :=
  match s with
  | EmptyString => flush word
  | String c rest =>
      if isSpace c then flush word ++ tokensFrom rest ""
      else if Ascii.eqb c "(" then flush word ++ TOpen :: tokensFrom rest ""
      else if Ascii.eqb c ")" then flush word ++ TClose :: tokensFrom rest ""
      else if Ascii.eqb c "," then flush word ++ TComma :: tokensFrom rest ""
      else tokensFrom rest (word +++ String c "")
  end.

Definition tokens (text : string) : list Token := tokensFrom text "".

Definition isWordChar (c : ascii) : bool :=
  (isAlpha c || isDigit c || Ascii.eqb c "_")%bool.

Fixpoint allWordChars (s : string) : bool :=
  match s with
  | EmptyString => true
  | String c rest => (isWordChar c && allWordChars rest)%bool
  end.

(** The inside of a literal, up to its closing quote. *)
Fixpoint closesLiteral (s : string) : bool :=
  match s with
  | EmptyString => false
  | String c EmptyString => Ascii.eqb c "'"
  | String c rest => (isWordChar c && closesLiteral rest)%bool
  end.

(** A word that is understood: letters, digits and underscores, or such a
    text between single quotes. *)
Definition plainWord (w : string) : bool :=
  match w with
  | EmptyString => false
  | String c rest => if Ascii.eqb c "'" then closesLiteral rest else allWordChars w
  end.

Definition plainToken (t : Token) : bool :=
  match t with TWord w => plainWord w | _ => true end.

(** A name: a word that starts with a letter or an underscore; it stands
    for its lower case. *)
Definition isName (w : string) : bool :=
  match w with
  | EmptyString => false
  | String c _ => ((isAlpha c || Ascii.eqb c "_") && allWordChars w)%bool
  end.

(** The key word [k], given in lower case. *)
Definition keyword (k : string) (t : Token) : bool :=
  match t with TWord w => String.eqb (toLowerCase w) k | _ => false end.

Fixpoint keywords (ks : list string) (ts : list Token) : option (list Token) :=
  match ks with
  | [] => Some ts
  | k :: ks' =>
      match ts with
      | t :: rest => if keyword k t then keywords ks' rest else None
      | [] => None
      end
  end.

(** The items between the parenthesis that has been opened and the one that
    closes it, which must end the text: [depth] parentheses are open inside
    the item that is being read. *)
Fixpoint itemsOf (ts : list Token) (depth : nat) (item : list Token)
    : option (list (list Token)) :=
  match ts with
  | [] => None
  | TClose :: rest =>
      match depth with
      | O => match rest with [] => Some [item] | _ :: _ => None end
      | S d => itemsOf rest d (item ++ [TClose])
      end
  | TOpen :: rest => itemsOf rest (S depth) (item ++ [TOpen])
  | TComma :: rest =>
      match depth with
      | O => option_map (cons item) (itemsOf rest 0%nat [])
      | S _ => itemsOf rest depth (item ++ [TComma])
      end
  | TWord w :: rest => itemsOf rest depth (item ++ [TWord w])
  end.

(** The words that open a table constraint. *)
Definition constraintWords : list string :=
  ["constraint"; "check"; "unique"; "primary"; "exclude"; "foreign"; "like"].

(** The column that an item of [CREATE TABLE] defines: none for a table
    constraint. An item is a name and a type at the least. *)
Definition columnOf (item : list Token) : option (list string) :=
  match item with
  | TWord w :: _ :: _ =>
      if existsb (String.eqb (toLowerCase w)) constraintWords then Some []
      else if isName w then Some [toLowerCase w]
      else None
  | _ => None
  end.

Fixpoint columnsOf (items : list (list Token)) : option (list string) :=
  match items with
  | [] => Some []
  | item :: rest =>
      match columnOf item, columnsOf rest with
      | Some c, Some cs => Some (c ++ cs)
      | _, _ => None
      end
  end.

(** The tables named after [REFERENCES]. *)
Fixpoint referencesOf (ts : list Token) : list string :=
  match ts with
  | [] => []
  | t :: rest =>
      if keyword "references" t then
        match rest with
        | TWord table :: _ => toLowerCase table :: referencesOf rest
        | _ => referencesOf rest
        end
      else referencesOf rest
  end.

(** A column of an index: a name, with a direction or without. *)
Definition indexColumn (item : list Token) : option string :=
  match item with
  | [TWord c] => if isName c then Some (toLowerCase c) else None
  | [TWord c; d] =>
      if (isName c && (keyword "asc" d || keyword "desc" d))%bool
      then Some (toLowerCase c) else None
  | _ => None
  end.

Fixpoint indexColumns (items : list (list Token)) : option (list string) :=
  match items with
  | [] => Some []
  | item :: rest =>
      match indexColumn item, indexColumns rest with
      | Some c, Some cs => Some (c :: cs)
      | _, _ => None
      end
  end.

(** The type and the default of an added column: parentheses that match,
    with no comma outside of them. *)
Fixpoint oneDefinition (ts : list Token) (depth : nat) : bool :=
  match ts with
  | [] => Nat.eqb depth 0
  | TOpen :: rest => oneDefinition rest (S depth)
  | TClose :: rest => match depth with O => false | S d => oneDefinition rest d end
  | TComma :: rest => match depth with O => false | S _ => oneDefinition rest depth end
  | TWord _ :: rest => oneDefinition rest depth
  end.

Definition readCreateTable (ts : list Token) : option Stmt :=
  match keywords ["create"; "table"; "if"; "not"; "exists"] ts with
  | Some (TWord name :: TOpen :: body) =>
      if isName name then
        match itemsOf body 0%nat [] with
        | Some items =>
            match columnsOf items with
            | Some columns =>
                Some (CreateTableIfNotExists (toLowerCase name) columns
                        (referencesOf body))
            | None => None
            end
        | None => None
        end
      else None
  | _ => None
  end.

Definition readCreateIndex (ts : list Token) : option Stmt :=
  match keywords ["create"; "index"; "if"; "not"; "exists"] ts with
  | Some (TWord index :: on :: TWord table :: TOpen :: body) =>
      if (isName index && keyword "on" on && isName table)%bool then
        match itemsOf body 0%nat [] with
        | Some items =>
            match indexColumns items with
            | Some columns =>
                Some (CreateIndexIfNotExists (toLowerCase index) (toLowerCase table)
                        columns)
            | None => None
            end
        | None => None
        end
      else None
  | _ => None
  end.

Definition readAddColumn (ts : list Token) : option Stmt :=
  match keywords ["alter"; "table"] ts with
  | Some (TWord table :: rest) =>
      match keywords ["add"; "column"; "if"; "not"; "exists"] rest with
      | Some (TWord column :: definition) =>
          if (isName table && isName column
              && negb (existsb (String.eqb (toLowerCase column)) constraintWords)
              && negb (Nat.eqb (List.length definition) 0)
              && oneDefinition definition 0
              && negb (existsb (keyword "references") definition))%bool
          then Some (AddColumnIfNotExists (toLowerCase table) (toLowerCase column))
          else None
      | _ => None
      end
  | _ => None
  end.

Definition readStmt (text : string) : option Stmt :=
  let ts := tokens text in
  if forallb plainToken ts then
    match readCreateTable ts with
    | Some st => Some st
    | None =>
        match readCreateIndex ts with
        | Some st => Some st
        | None => readAddColumn ts
        end
    end
  else None.

(** migrations/000_initial_schema.sql *)
Definition initialSchema : list Stmt :=
  [ CreateTableIfNotExists "users"
      ["id"; "uuid"; "name"; "email"; "subscription_tier"; "trial_uses";
       "max_trial_uses"; "trial_expires_at"; "created_at"; "updated_at"] [];
    CreateTableIfNotExists "sessions"
      ["id"; "user_id"; "session_token"; "expires_at"; "created_at"] ["users"];
    CreateTableIfNotExists "resumes"
      ["id"; "user_id"; "file_name"; "file_path"; "file_size"; "mime_type"; "gcs_url";
       "analysis_data"; "ats_score"; "created_at"; "updated_at"] ["users"];
    CreateTableIfNotExists "kv_store"
      ["id"; "key"; "value"; "user_id"; "created_at"; "updated_at"] ["users"];
    CreateTableIfNotExists "payments"
      ["id"; "user_id"; "razorpay_order_id"; "razorpay_payment_id"; "razorpay_signature";
       "amount"; "currency"; "payment_status"; "plan_id"; "created_at"; "updated_at"]
      ["users"];
    CreateIndexIfNotExists "idx_users_uuid" "users" ["uuid"];
    CreateIndexIfNotExists "idx_users_email" "users" ["email"];
    CreateIndexIfNotExists "idx_users_trial_uses" "users" ["trial_uses"];
    CreateIndexIfNotExists "idx_sessions_user_id" "sessions" ["user_id"];
    CreateIndexIfNotExists "idx_sessions_token" "sessions" ["session_token"];
    CreateIndexIfNotExists "idx_sessions_expires" "sessions" ["expires_at"];
    CreateIndexIfNotExists "idx_resumes_user_id" "resumes" ["user_id"];
    CreateIndexIfNotExists "idx_resumes_created" "resumes" ["created_at"];
    CreateIndexIfNotExists "idx_kv_key" "kv_store" ["key"];
    CreateIndexIfNotExists "idx_kv_user" "kv_store" ["user_id"];
    CreateIndexIfNotExists "idx_payments_user" "payments" ["user_id"];
    CreateIndexIfNotExists "idx_payments_order" "payments" ["razorpay_order_id"] ].

(** migrations/003_add_trial_tracking.sql *)
Definition addTrialTracking : list Stmt :=
  [ AddColumnIfNotExists "users" "trial_uses";
    AddColumnIfNotExists "users" "max_trial_uses";
    CreateIndexIfNotExists "idx_users_trial_uses" "users" ["trial_uses"] ].

(** [const migrations = [...]] *)
Definition migrations : list string :=
  [ "000_initial_schema.sql";
    "001_add_uuid_column.sql";
    "002_add_gcs_url_to_resumes.sql";
    "003_add_trial_tracking.sql" ].

Section Migrations.

(** [readFileSync], which may throw, and what the database does with a
    query that is none of the statements above: the files 001 and 002 are
    not among the sources, and a file may hold any text. *)
Variable readFileSync : string -> Completion string.
Variable other : string -> Database -> Completion unit * Database.

Local Notation Op := (M Event Database) (only parsing).

(** [sql.query(text)] *)
Definition sqlQuery (text : string) (db : Database) : Completion unit * Database :=
  match readStmt text with
  | Some st => execStmt st db
  | None => other text db
  end.

(** [err.message?.includes(part)] *)
Definition messageIncludes (error : Thrown) (part : string) : bool :=
  match messageOf error with
  | Some msg => includes msg part
  | None => false
  end.

(** One statement of a file, an "already exists" error skipped. *)
Definition runStatement (statement : string) : Op unit :=
  tryCatch (call (sqlQuery statement))
    (fun stmtErr =>
       if negb (messageIncludes stmtErr "already exists") then throw stmtErr
       else ret tt).

(** One iteration of the loop over [migrations]. *)
Definition runMigration (migration : string) : Op unit :=
  emit (EvLog ("📄 Running migration: " +++ migration)) ;;;
  tryCatch
    (sqlContent <- (fun db => mkRun (readFileSync migration) db []) ;;
     match MigrationText.doBlockOf sqlContent with
     | Some block =>
         call (sqlQuery block) ;;;
         emit (EvLog ("   ✅ " +++ migration +++ " completed successfully" +++ LF))
     | None =>
         forEachFrom 0 (MigrationText.statementsOf sqlContent)
           (fun _ statement => runStatement statement) ;;;
         emit (EvLog ("   ✅ " +++ migration +++ " completed successfully" +++ LF))
     end)
    (fun error =>
       if (messageIncludes error "already exists" || messageIncludes error "duplicate")%bool
       then emit (EvLog ("   ⚠️  " +++ migration +++ " - already applied (skipping)" +++ LF))
       else emit (EvError [LStr ("   ❌ " +++ migration +++ " failed:");
                           LStr (interpolate (messageOf error))])).

(** The columns that the verification looks up, in the order of the answer
    (the data types and defaults that it prints are not modelled). *)
Definition verifySchema : Op unit :=
  emit (EvLog "📊 Verifying schema...") ;;;
  db <- get ;;
  let present := match tableOf "users" (schema db) with Some cs => cs | None => [] end in
  emit (EvLog (LF +++ "Users table trial columns:")) ;;;
  forEachFrom 0 (filter (fun c => hasColumn c present) ["max_trial_uses"; "trial_uses"; "uuid"])
    (fun _ column => emit (EvLog ("  - " +++ column))) ;;;
  (if hasColumn "gcs_url"
        (match tableOf "resumes" (schema db) with Some cs => cs | None => [] end)
   then emit (EvLog "  - resumes.gcs_url")
   else ret tt).

Definition runMigrations : Op unit :=
  emit (EvLog ("🚀 Starting database migrations..." +++ LF)) ;;;
  forEachFrom 0 migrations (fun _ migration => runMigration migration) ;;;
  emit (EvLog ("🎉 All migrations completed!" +++ LF)) ;;;
  verifySchema ;;;
  emit (EvLog (LF +++ "✅ Database is ready!")).

End Migrations.

(** What [readFileSync] throws for a file that is not there. *)
Definition noSuchFile {A} (name : string) : Completion A :=
  Throw (ThrowErr (newError ("ENOENT: no such file or directory, open '" +++ name +++ "'"))).

(** The files of the repository: the two at hand, with their text; the
    other two are not there. *)
Definition filesAtHand (name : string) : Completion string :=
  if String.eqb name "000_initial_schema.sql" then Normal MigrationText.initialSchemaSql
  else if String.eqb name "003_add_trial_tracking.sql" then
    Normal MigrationText.addTrialTrackingSql
  else noSuchFile name.

(** A database that knows the three statements and refuses any other
    query. *)
Definition refuse (text : string) (db : Database) : Completion unit * Database :=
  (sqlError "syntax error", db).

(** A directory in which the second migration holds an insert, and a
    database that runs it: [kv_store] has no unique constraint that a row
    without a user could violate. *)
Definition versionFile (name : string) : Completion string :=
  if String.eqb name "001_add_uuid_column.sql" then
    Normal ("INSERT INTO kv_store (key, value) VALUES ('schema_version', '1');" +++ LF)
  else noSuchFile name.

Definition inserting (text : string) (db : Database) : Completion unit * Database :=
  if startsWith text "INSERT INTO kv_store" then
    if hasTable "kv_store" db then
      (Normal tt,
       setKv db (kv_store db ++ [mkKv (kv_seq db) "schema_version" "1" None])
         (kv_seq db + 1))
    else (noRelation "kv_store", db)
  else (sqlError "syntax error", db).

(** A database without any relation, and the database that the migrations
    make of it. *)
Definition emptyDatabase : Database :=
  mkDatabase (mkSchema [] []) [] 1 [] 1 [] 1 [] 1.

Definition migratedDatabase : Database :=
  final (runMigrations filesAtHand refuse emptyDatabase).

(** *** Facts about the statements of the seed script *)

(** The identifier of the user holding an email, if any. *)
Definition idOfEmail (email : string) (l : list UserRow) : option Z :=
  option_map u_id (find (emailIs email) l).

(** Whether the key-value table holds a key for a user. *)
Definition kvPresent (key : string) (user_id : Z) (l : list KvRow) : bool :=
  existsb (kvIs key user_id) l.

Lemma renameByEmail_some (email name : string) (l l' : list UserRow) (r : UserRow) :
  renameByEmail email name l = Some (l', r) ->
  List.length l' = List.length l
  /\ idOfEmail email l = Some (u_id r)
  /\ (forall e, idOfEmail e l' = idOfEmail e l).
Proof.
  revert l'. induction l as [|u rest IH]; intros l' H; simpl in H; [discriminate|].
  destruct (emailIs email u) eqn:Eu.
  - injection H as <- <-. unfold idOfEmail. simpl. rewrite Eu.
    repeat split. intro e. unfold emailIs. simpl. fold (emailIs e u).
    now destruct (emailIs e u).
  - destruct (renameByEmail email name rest) as [[rest' r']|] eqn:Er; [|discriminate].
    injection H as <- <-. destruct (IH rest' eq_refl) as (Hlen & Hid & Hall).
    unfold idOfEmail in *. simpl. rewrite Eu. repeat split; auto.
    intro e. destruct (emailIs e u); [reflexivity|apply Hall].
Qed.

Lemma renameByEmail_none (email name : string) (l : list UserRow) :
  renameByEmail email name l = None -> idOfEmail email l = None.
Proof.
  induction l as [|u rest IH]; intros H; [reflexivity|]. simpl in H.
  unfold idOfEmail in *. simpl.
  destruct (emailIs email u); [discriminate|].
  destruct (renameByEmail email name rest) as [[rest' r']|]; [discriminate|].
  now apply IH.
Qed.

Lemma idOfEmail_app (e : string) (l : list UserRow) (u : UserRow) :
  idOfEmail e (l ++ [u]) =
  match idOfEmail e l with
  | Some i => Some i
  | None => if emailIs e u then Some (u_id u) else None
  end.
Proof.
  unfold idOfEmail. induction l as [|x rest IH]; simpl.
  - now destruct (emailIs e u).
  - destruct (emailIs e x); [reflexivity|exact IH].
Qed.

(** A successful upsert of a user: the other tables and the schema are as
    before; the email is held by the row whose id is returned; the other
    emails are held as before; and when the email was held already, by that
    same row, no row is added. *)
Lemma upsertUser_normal uuid name email tier trial_uses max_trial_uses db r db' :
  upsertUser uuid name email tier trial_uses max_trial_uses db = (Normal r, db') ->
  schema db' = schema db /\ resumes db' = resumes db
  /\ sessions db' = sessions db /\ kv_store db' = kv_store db
  /\ idOfEmail email (users db') = Some (ret_id r)
  /\ (forall e, e <> email -> idOfEmail e (users db') = idOfEmail e (users db))
  /\ (forall i, idOfEmail email (users db) = Some i ->
        ret_id r = i /\ List.length (users db') = List.length (users db)).
Proof.
  unfold upsertUser. destruct (negb (hasTable "users" db)); [discriminate|].
  destruct (renameByEmail email name (users db)) as [[users' row]|] eqn:Er.
  - intros H. injection H as <- <-. simpl.
    destruct (renameByEmail_some _ _ _ _ _ Er) as (Hlen & Hid & Hall).
    repeat split; auto.
    + now rewrite Hall.
    + congruence.
  - apply renameByEmail_none in Er.
    destruct (existsb _ (users db)); [discriminate|].
    destruct (userExists (users_seq db) db); [discriminate|].
    intros H. injection H as <- <-. simpl. rewrite !idOfEmail_app, Er.
    unfold emailIs at 1. simpl. rewrite String.eqb_refl.
    repeat split; auto.
    + intros e He. rewrite idOfEmail_app.
      destruct (idOfEmail e (users db)); [reflexivity|].
      unfold emailIs. simpl. destruct (String.eqb_spec email e); [congruence|reflexivity].
    + congruence.
    + congruence.
Qed.

Lemma insertResume_normal user_id file_name file_path file_size mime_type ats_score
    analysis_data db db' :
  insertResume user_id file_name file_path file_size mime_type ats_score analysis_data db
  = (Normal tt, db') ->
  schema db' = schema db /\ users db' = users db
  /\ sessions db' = sessions db /\ kv_store db' = kv_store db
  /\ List.length (resumes db') = S (List.length (resumes db)).
Proof.
  unfold insertResume. destruct (negb (hasTable "resumes" db)); [discriminate|].
  destruct (existsb _ (resumes db)); [discriminate|].
  destruct (negb (userExists user_id db)); [discriminate|].
  intros H. injection H as <-. simpl. rewrite length_app. simpl.
  repeat split; auto. lia.
Qed.

Lemma insertSession_normal user_id session_token expires_at db db' :
  insertSession user_id session_token expires_at db = (Normal tt, db') ->
  schema db' = schema db /\ users db' = users db
  /\ resumes db' = resumes db /\ kv_store db' = kv_store db
  /\ List.length (sessions db') = S (List.length (sessions db)).
Proof.
  unfold insertSession. destruct (negb (hasTable "sessions" db)); [discriminate|].
  destruct (existsb _ (sessions db)); [discriminate|].
  destruct (existsb _ (sessions db)); [discriminate|].
  destruct (negb (userExists user_id db)); [discriminate|].
  intros H. injection H as <-. simpl. rewrite length_app. simpl.
  repeat split; auto. lia.
Qed.

Lemma revalueByKey_some (key : string) (user_id : Z) (value : string) (l l' : list KvRow) :
  revalueByKey key user_id value l = Some l' ->
  List.length l' = List.length l
  /\ kvPresent key user_id l = true
  /\ (forall k u, kvPresent k u l' = kvPresent k u l).
Proof.
  revert l'. induction l as [|x rest IH]; intros l' H; simpl in H; [discriminate|].
  destruct (kvIs key user_id x) eqn:Ex.
  - injection H as <-. unfold kvPresent. simpl. rewrite Ex. repeat split.
  - destruct (revalueByKey key user_id value rest) as [rest'|] eqn:Er; [|discriminate].
    injection H as <-. destruct (IH rest' eq_refl) as (Hlen & Hp & Hall).
    unfold kvPresent in *. simpl. rewrite Ex. repeat split; auto.
    intros k u. now rewrite Hall.
Qed.

Lemma revalueByKey_none (key : string) (user_id : Z) (value : string) (l : list KvRow) :
  revalueByKey key user_id value l = None -> kvPresent key user_id l = false.
Proof.
  induction l as [|x rest IH]; intros H; [reflexivity|]. simpl in H.
  unfold kvPresent in *. simpl.
  destruct (kvIs key user_id x); [discriminate|].
  destruct (revalueByKey key user_id value rest); [discriminate|].
  now apply IH.
Qed.

Lemma kvIs_refl (key : string) (user_id : Z) (value : string) (id : Z) :
  kvIs key user_id (mkKv id key value (Some user_id)) = true.
Proof. unfold kvIs. simpl. now rewrite String.eqb_refl, Z.eqb_refl. Qed.

(** A successful upsert of a key: the other tables and the schema are as
    before; the key is held; what was held is held; and when the key was
    held already no row is added. *)
Lemma upsertKv_normal key value user_id db db' :
  upsertKv key value user_id db = (Normal tt, db') ->
  schema db' = schema db /\ users db' = users db
  /\ resumes db' = resumes db /\ sessions db' = sessions db
  /\ kvPresent key user_id (kv_store db') = true
  /\ (forall k u, kvPresent k u (kv_store db) = true -> kvPresent k u (kv_store db') = true)
  /\ (kvPresent key user_id (kv_store db) = true ->
      List.length (kv_store db') = List.length (kv_store db)).
Proof.
  unfold upsertKv. destruct (negb (hasTable "kv_store" db)); [discriminate|].
  destruct (revalueByKey key user_id value (kv_store db)) as [kv'|] eqn:Er.
  - intros H. injection H as <-. simpl.
    destruct (revalueByKey_some _ _ _ _ _ Er) as (Hlen & Hp & Hall).
    repeat split; auto.
    + now rewrite Hall.
    + intros k u. now rewrite Hall.
  - apply revalueByKey_none in Er.
    destruct (existsb _ (kv_store db)); [discriminate|].
    destruct (negb (userExists user_id db)); [discriminate|].
    intros H. injection H as <-. simpl. unfold kvPresent in *.
    rewrite !existsb_app. simpl. rewrite kvIs_refl, orb_true_r.
    repeat split; auto.
    + intros k u Hk. rewrite existsb_app, Hk. reflexivity.
    + congruence.
Qed.

(** *** Facts about the seed script *)

Section SeedFacts.
Variable env : SeedEnv.

(** What the first loop makes of the database when it completes. *)
Definition usersCreated (db : Database) (createdUsers : list Returning) (db' : Database)
    : Prop :=
  schema db' = schema db /\ resumes db' = resumes db
  /\ sessions db' = sessions db /\ kv_store db' = kv_store db
  /\ List.length createdUsers = 3%nat
  /\ idOfEmail "john@example.com" (users db') = Some (idAt createdUsers 0)
  /\ idOfEmail "jane@example.com" (users db') <> None
  /\ idOfEmail "test@example.com" (users db') <> None
  /\ (forall j,
        idOfEmail "john@example.com" (users db) = Some j ->
        idOfEmail "jane@example.com" (users db) <> None ->
        idOfEmail "test@example.com" (users db) <> None ->
        idAt createdUsers 0 = j /\ List.length (users db') = List.length (users db)).

Lemma createUsers_normal db createdUsers db' evs :
  createUsers env db = mkRun (Normal createdUsers) db' evs ->
  usersCreated db createdUsers db'.
Proof.
  unfold createUsers, testUsers, collectEach, sql, log, bind, call, emit, ret. simpl.
  destruct (upsertUser _ _ "john@example.com" _ _ _ db) as [[r1|t] db1] eqn:E1;
    simpl; [|discriminate].
  destruct (upsertUser _ _ "jane@example.com" _ _ _ db1) as [[r2|t] db2] eqn:E2;
    simpl; [|discriminate].
  destruct (upsertUser _ _ "test@example.com" _ _ _ db2) as [[r3|t] db3] eqn:E3;
    simpl; [|discriminate].
  intros H. injection H as <- <- _.
  apply upsertUser_normal in E1 as (S1 & R1 & Se1 & K1 & I1 & O1 & P1).
  apply upsertUser_normal in E2 as (S2 & R2 & Se2 & K2 & I2 & O2 & P2).
  apply upsertUser_normal in E3 as (S3 & R3 & Se3 & K3 & I3 & O3 & P3).
  assert (Hjohn2 : idOfEmail "john@example.com" (users db2)
                   = idOfEmail "john@example.com" (users db1))
    by (apply O2; discriminate).
  assert (Hjohn3 : idOfEmail "john@example.com" (users db3)
                   = idOfEmail "john@example.com" (users db2))
    by (apply O3; discriminate).
  assert (Hjane3 : idOfEmail "jane@example.com" (users db3)
                   = idOfEmail "jane@example.com" (users db2))
    by (apply O3; discriminate).
  unfold usersCreated, idAt. simpl.
  repeat split; try congruence.
  - destruct (P1 j H) as [Hid _]. exact Hid.
  - destruct (P1 j H) as [_ Hl1].
    assert (Hjane1 : idOfEmail "jane@example.com" (users db1)
                     = idOfEmail "jane@example.com" (users db))
      by (apply O1; discriminate).
    assert (Htest1 : idOfEmail "test@example.com" (users db1)
                     = idOfEmail "test@example.com" (users db))
      by (apply O1; discriminate).
    assert (Htest2 : idOfEmail "test@example.com" (users db2)
                     = idOfEmail "test@example.com" (users db1))
      by (apply O2; discriminate).
    destruct (idOfEmail "jane@example.com" (users db1)) as [j2|] eqn:Ej; [|congruence].
    destruct (P2 j2 eq_refl) as [_ Hl2].
    destruct (idOfEmail "test@example.com" (users db2)) as [j3|] eqn:Et; [|congruence].
    destruct (P3 j3 eq_refl) as [_ Hl3].
    congruence.
Qed.

Lemma createResumes_normal createdUsers db db' evs :
  createResumes createdUsers db = mkRun (Normal tt) db' evs ->
  schema db' = schema db /\ users db' = users db
  /\ sessions db' = sessions db /\ kv_store db' = kv_store db
  /\ List.length (resumes db') = (List.length (resumes db) + 3)%nat.
Proof.
  unfold createResumes, sampleResumes, forEachFrom, sql, log, bind, call, emit, ret. simpl.
  destruct (insertResume _ "john_developer_resume.pdf" _ _ _ _ _ db) as [[[]|t] db1] eqn:E1;
    simpl; [|discriminate].
  destruct (insertResume _ "john_backend_resume.pdf" _ _ _ _ _ db1) as [[[]|t] db2] eqn:E2;
    simpl; [|discriminate].
  destruct (insertResume _ "jane_engineer_resume.pdf" _ _ _ _ _ db2) as [[[]|t] db3] eqn:E3;
    simpl; [|discriminate].
  intros H. injection H as <- _.
  apply insertResume_normal in E1 as (S1 & U1 & Se1 & K1 & L1).
  apply insertResume_normal in E2 as (S2 & U2 & Se2 & K2 & L2).
  apply insertResume_normal in E3 as (S3 & U3 & Se3 & K3 & L3).
  repeat split; try congruence. lia.
Qed.

Lemma createSessions_normal createdUsers db db' evs :
  List.length createdUsers = 3%nat ->
  createSessions env createdUsers db = mkRun (Normal tt) db' evs ->
  schema db' = schema db /\ users db' = users db
  /\ resumes db' = resumes db /\ kv_store db' = kv_store db
  /\ List.length (sessions db') = (List.length (sessions db) + 3)%nat.
Proof.
  intros Hlen.
  destruct createdUsers as [|u1 [|u2 [|u3 [|u4 rest]]]]; try discriminate.
  unfold createSessions, forEachFrom, sql, log, bind, call, emit, ret. simpl.
  destruct (insertSession (ret_id u1) _ _ db) as [[[]|t] db1] eqn:E1;
    simpl; [|discriminate].
  destruct (insertSession (ret_id u2) _ _ db1) as [[[]|t] db2] eqn:E2;
    simpl; [|discriminate].
  destruct (insertSession (ret_id u3) _ _ db2) as [[[]|t] db3] eqn:E3;
    simpl; [|discriminate].
  intros H. injection H as <- _.
  apply insertSession_normal in E1 as (S1 & U1 & R1 & K1 & L1).
  apply insertSession_normal in E2 as (S2 & U2 & R2 & K2 & L2).
  apply insertSession_normal in E3 as (S3 & U3 & R3 & K3 & L3).
  repeat split; try congruence. lia.
Qed.

Lemma createKvEntries_normal createdUsers db db' evs :
  createKvEntries env createdUsers db = mkRun (Normal tt) db' evs ->
  schema db' = schema db /\ users db' = users db
  /\ resumes db' = resumes db /\ sessions db' = sessions db
  /\ kvPresent "last_analysis_date" (idAt createdUsers 0) (kv_store db') = true
  /\ kvPresent "preferences" (idAt createdUsers 0) (kv_store db') = true
  /\ (kvPresent "last_analysis_date" (idAt createdUsers 0) (kv_store db) = true ->
      kvPresent "preferences" (idAt createdUsers 0) (kv_store db) = true ->
      List.length (kv_store db') = List.length (kv_store db)).
Proof.
  unfold createKvEntries, sql, log, bind, call, emit, ret. simpl.
  destruct (upsertKv "last_analysis_date" _ _ db) as [[[]|t] db1] eqn:E1;
    simpl; [|discriminate].
  destruct (upsertKv "preferences" _ _ db1) as [[[]|t] db2] eqn:E2;
    simpl; [|discriminate].
  intros H. injection H as <- _.
  apply upsertKv_normal in E1 as (S1 & U1 & R1 & Se1 & P1 & A1 & L1).
  apply upsertKv_normal in E2 as (S2 & U2 & R2 & Se2 & P2 & A2 & L2).
  repeat split; try congruence.
  - now apply A2.
  - intros H1 H2. rewrite L2, L1; auto.
Qed.

Lemma summary_normal db o db' evs :
  summary db = mkRun o db' evs -> db' = db.
Proof.
  unfold summary, sql, log, countRows, bind, call, emit, ret. simpl.
  destruct (negb (hasTable "users" db)); simpl; [now intros H; injection H|].
  destruct (negb (hasTable "resumes" db)); simpl; [now intros H; injection H|].
  destruct (negb (hasTable "sessions" db)); simpl; [now intros H; injection H|].
  destruct (negb (hasTable "kv_store" db)); simpl; now intros H; injection H.
Qed.

(** A database in which the rows of the seed script are in place: the three
    test users, and the two keys of the first of them. *)
Definition seeded (db : Database) : Prop :=
  exists j,
    idOfEmail "john@example.com" (users db) = Some j
    /\ idOfEmail "jane@example.com" (users db) <> None
    /\ idOfEmail "test@example.com" (users db) <> None
    /\ kvPresent "last_analysis_date" j (kv_store db) = true
    /\ kvPresent "preferences" j (kv_store db) = true.

(** A run of the script that completes leaves the database seeded; on a
    seeded database it adds no user and no key, and three resumes and three
    sessions. *)
Lemma seedData_normal (db : Database) :
  outcome (seedData env db) = Normal 0 ->
  seeded (final (seedData env db))
  /\ List.length (resumes (final (seedData env db))) = (List.length (resumes db) + 3)%nat
  /\ List.length (sessions (final (seedData env db))) = (List.length (sessions db) + 3)%nat
  /\ (seeded db ->
      List.length (users (final (seedData env db))) = List.length (users db)
      /\ List.length (kv_store (final (seedData env db))) = List.length (kv_store db)).
Proof.
  unfold seedData, seedBody. unfold bind, tryCatch, log, emit, ret. simpl.
  destruct (createUsers env db) as [[cu|t] db1 e1] eqn:E1; simpl; [|discriminate].
  destruct (createResumes cu db1) as [[[]|t] db2 e2] eqn:E2; simpl; [|discriminate].
  destruct (createSessions env cu db2) as [[[]|t] db3 e3] eqn:E3; simpl; [|discriminate].
  destruct (createKvEntries env cu db3) as [[[]|t] db4 e4] eqn:E4; simpl; [|discriminate].
  destruct (summary db4) as [[[]|t] db5 e5] eqn:E5; simpl; [|discriminate].
  intros _.
  apply createUsers_normal in E1 as (S1 & R1 & Se1 & K1 & Hlen & Hjohn & Hjane & Htest & Hsame).
  apply createResumes_normal in E2 as (S2 & U2 & Se2 & K2 & L2).
  apply (createSessions_normal _ _ _ _ Hlen) in E3 as (S3 & U3 & R3 & K3 & L3).
  apply createKvEntries_normal in E4 as (S4 & U4 & R4 & Se4 & P1 & P2 & L4).
  apply summary_normal in E5. subst db5.
  split; [|split; [|split]].
  - exists (idAt cu 0). rewrite U4, U3, U2. repeat split; assumption.
  - congruence.
  - congruence.
  - intros (j & Hj & Hja & Hte & Hk1 & Hk2).
    destruct (Hsame j Hj Hja Hte) as [Hid Hl].
    split; [congruence|].
    rewrite L4; [congruence| |]; rewrite K3, K2, K1, Hid; assumption.
Qed.

End SeedFacts.

(** *** Facts about the migration script *)

(** The rows of the four tables and their sequences. *)
Definition rowsOf (db : Database) :=
  (users db, users_seq db, resumes db, resumes_seq db,
   sessions db, sessions_seq db, kv_store db, kv_seq db).

Lemma execStmt_rows (st : Stmt) (db : Database) :
  rowsOf (snd (execStmt st db)) = rowsOf db.
Proof.
  destruct st; simpl.
  - destruct (hasTable name db); [reflexivity|].
    now destruct (find _ references).
  - destruct (existsb _ (indexes (schema db))); [reflexivity|].
    destruct (tableOf table (schema db)); [|reflexivity].
    now destruct (find _ columns).
  - destruct (tableOf table (schema db)); [|reflexivity].
    now destruct (hasColumn column l).
Qed.

Lemma preserves_forEachFrom {A X} (part : Database -> X) (xs : list A)
    (body : nat -> A -> M Event Database unit) :
  (forall i x, preserves part (body i x)) ->
  forall i, preserves part (forEachFrom i xs body).
Proof.
  intros Hbody. induction xs as [|x rest IH]; intros i; simpl.
  - apply preserves_ret.
  - apply preserves_bind; [apply Hbody|]. intros _. apply IH.
Qed.

Lemma preserves_forEach_in {A X} (part : Database -> X) (xs : list A)
    (body : nat -> A -> M Event Database unit) :
  (forall i x, In x xs -> preserves part (body i x)) ->
  forall i, preserves part (forEachFrom i xs body).
Proof.
  induction xs as [|x rest IH]; intros Hbody i; simpl.
  - apply preserves_ret.
  - apply preserves_bind; [apply Hbody; now left|]. intros _.
    apply IH. intros j y Hy. apply Hbody. now right.
Qed.

(** The statements of the two files at hand, as the script cuts them out,
    read as the statements listed above. *)
Lemma initialSchema_read :
  map readStmt (MigrationText.queriesOf MigrationText.initialSchemaSql)
  = map Some initialSchema.
Proof. vm_compute. reflexivity. Qed.

Lemma addTrialTracking_read :
  map readStmt (MigrationText.queriesOf MigrationText.addTrialTrackingSql)
  = map Some addTrialTracking.
Proof. vm_compute. reflexivity. Qed.

Section MigrationFacts.
Variable readFileSync : string -> Completion string.
Variable other : string -> Database -> Completion unit * Database.

(** A query on which the database changes no row. *)
Definition harmless (text : string) : Prop :=
  forall db, rowsOf (snd (sqlQuery other text db)) = rowsOf db.

(** A file whose queries change no row, if it can be read at all. *)
Definition harmlessFile (migration : string) : Prop :=
  forall sqlContent,
    readFileSync migration = Normal sqlContent ->
    Forall harmless (MigrationText.queriesOf sqlContent).

(** A query that reads as a statement of a migration changes no row. *)
Lemma schema_harmless (text : string) : readStmt text <> None -> harmless text.
Proof.
  intros Hread db. unfold sqlQuery. destruct (readStmt text) as [st|]; [|congruence].
  apply execStmt_rows.
Qed.

Ltac keeps :=
  repeat first
    [ apply preserves_ret | apply preserves_throw | apply preserves_emit
    | apply preserves_bind; [|intros ?]
    | apply preserves_tryCatch; [|intros ?]
    | match goal with
      | |- preserves _ (match ?x with _ => _ end) => destruct x
      | |- preserves _ (if ?x then _ else _) => destruct x
      end
    | progress cbv zeta ].

Lemma runStatement_rows (statement : string) :
  harmless statement -> preserves rowsOf (runStatement other statement).
Proof.
  intros H. unfold runStatement. apply preserves_tryCatch.
  - apply preserves_call. exact H.
  - intros stmtErr. keeps.
Qed.

Lemma runMigration_rows (migration : string) :
  harmlessFile migration ->
  preserves rowsOf (runMigration readFileSync other migration).
Proof.
  intros Hfile. unfold runMigration.
  apply preserves_bind; [apply preserves_emit|]. intros _.
  apply preserves_tryCatch; [|intros error; keeps].
  intros db. rewrite bind_final. cbn [outcome final].
  destruct (readFileSync migration) as [sqlContent|t] eqn:Eread; [|reflexivity].
  specialize (Hfile sqlContent Eread). unfold MigrationText.queriesOf in Hfile.
  destruct (MigrationText.doBlockOf sqlContent) as [block|].
  - apply Forall_inv in Hfile. revert db.
    apply preserves_bind; [apply preserves_call; exact Hfile|]. intros _.
    apply preserves_emit.
  - revert db. apply preserves_bind; [|intros _; apply preserves_emit].
    apply preserves_forEach_in. intros i statement Hin.
    apply runStatement_rows. rewrite Forall_forall in Hfile. now apply Hfile.
Qed.

(** A run of the migration script over files whose queries change no row
    changes no row of a table. *)
Lemma runMigrations_rows :
  Forall harmlessFile migrations ->
  preserves rowsOf (runMigrations readFileSync other).
Proof.
  intros Hfiles. unfold runMigrations, verifySchema.
  apply preserves_bind; [apply preserves_emit|]. intros _.
  apply preserves_bind.
  { apply preserves_forEach_in. intros i m Hin. apply runMigration_rows.
    rewrite Forall_forall in Hfiles. now apply Hfiles. }
  intros _.
  apply preserves_bind; [apply preserves_emit|]. intros _.
  apply preserves_bind; [|intros _; apply preserves_emit].
  apply preserves_bind; [apply preserves_emit|]. intros _.
  apply preserves_bind; [now intro|]. intros db. cbv zeta.
  apply preserves_bind; [apply preserves_emit|]. intros _.
  apply preserves_bind.
  { apply preserves_forEachFrom. intros i c. apply preserves_emit. }
  intros _. destruct (hasColumn _ _); [apply preserves_emit|apply preserves_ret].
Qed.

End MigrationFacts.

(** The files at hand are harmless, whatever the database does with other
    queries: all that they hold reads as statements of the three forms. *)
Lemma filesAtHand_harmless (other : string -> Database -> Completion unit * Database) :
  Forall (harmlessFile filesAtHand other) migrations.
Proof.
  assert (Hschema : forall sqlContent stmts,
            map readStmt (MigrationText.queriesOf sqlContent) = map Some stmts ->
            Forall (harmless other) (MigrationText.queriesOf sqlContent)).
  { intros sqlContent stmts. generalize (MigrationText.queriesOf sqlContent).
    intros qs. revert stmts. induction qs as [|q qs IH]; intros [|st stmts] H;
      try discriminate; constructor.
    - apply schema_harmless. simpl in H. injection H as Hq _. congruence.
    - simpl in H. injection H as _ Hqs. now apply (IH stmts). }
  repeat constructor; intros sqlContent Hread; vm_compute in Hread;
    try discriminate; injection Hread as <-.
  - exact (Hschema _ _ initialSchema_read).
  - exact (Hschema _ _ addTrialTracking_read).
Qed.

(** *** Two runs of the seed script on a migrated database *)

Definition firstEnv : SeedEnv :=
  mkSeedEnv (fun k => "6f1c-" +++ showZ (Z.of_nat k)) (fun _ => 1700000000000)
    "2023-11-14T22:13:20.000Z".

Definition secondEnv : SeedEnv :=
  mkSeedEnv (fun k => "a93e-" +++ showZ (Z.of_nat k)) (fun _ => 1700000600000)
    "2023-11-14T22:23:20.000Z".

Definition firstRun : Run Event Database Z := seedData firstEnv migratedDatabase.

Definition secondRun : Run Event Database Z := seedData secondEnv (final firstRun).

End Scripts.

(** * More of the code *)

(** ** app/lib/storage.ts: more about [uploadFile] and [readFile] *)

Module StorageFacts.
Import Storage.

(** [fileName.split('.').pop() || 'bin'] *)
Definition extensionOf (fileName : string) : string :=
  let last := List.last (split "." fileName) "" in
  if truthy last then last else "bin".

(** [userId ? `users/${userId}` : 'public'] *)
Definition userFolderOf (userId : option string) : string :=
  match userId with
  | Some u => if truthy u then "users/" +++ u else "public"
  | None => "public"
  end.

(** [folder ? `${folder}/` : ''] *)
Definition folderPathOf (folder : option string) : string :=
  match folder with
  | Some f => if truthy f then f +++ "/" else ""
  | None => ""
  end.

(** A call on the bucket is on the object at [path]. *)
Definition onPath (path : string) (e : Event) : Prop :=
  match e with
  | EvCall _ p _ => p = path
  | _ => True
  end.

(** *** Strings *)

Lemma sanitizeChar_safe (c : ascii) : safeChar (sanitizeChar c) = true.
Proof.
  unfold sanitizeChar. destruct (safeChar c) eqn:E; [exact E|reflexivity].
Qed.

Lemma sanitizeChar_fixed (c : ascii) : safeChar c = true -> sanitizeChar c = c.
Proof. intros H. unfold sanitizeChar. now rewrite H. Qed.

Lemma safeChar_ascii (c : ascii) : safeChar c = true -> between 0 127 c = true.
Proof. destruct c as [[] [] [] [] [] [] [] []]; intros H; try discriminate H; reflexivity. Qed.

Lemma ascii_codeUnit (c : ascii) : between 0 127 c = true -> codeUnitsAt c = 1%nat.
Proof. destruct c as [[] [] [] [] [] [] [] []]; intros H; try discriminate H; reflexivity. Qed.

Lemma allChars_append (p : ascii -> bool) (a b : string) :
  allChars p (a +++ b) = (allChars p a && allChars p b)%bool.
Proof.
  induction a as [|c a IH]; [reflexivity|]. cbn. now rewrite IH, andb_assoc.
Qed.

Lemma underscores_safe (n : nat) : allChars safeChar (underscores n) = true.
Proof. induction n as [|n IH]; [reflexivity|exact IH]. Qed.

Lemma underscores_length (n : nat) : String.length (underscores n) = n.
Proof. induction n as [|n IH]; [reflexivity|]. cbn. now rewrite IH. Qed.

Lemma sanitized_safe (s : string) : allChars safeChar (sanitizeName s) = true.
Proof.
  induction s as [|c rest IH]; [reflexivity|].
  cbn [sanitizeName]. destruct (between 0 127 c).
  - cbn [allChars]. now rewrite sanitizeChar_safe, IH.
  - now rewrite allChars_append, underscores_safe, IH.
Qed.

Lemma sanitized_fixed (s : string) :
  allChars safeChar s = true -> sanitizeName s = s.
Proof.
  induction s as [|c rest IH]; [reflexivity|].
  cbn [sanitizeName allChars]. intros H. apply andb_prop in H as [Hc Hrest].
  now rewrite (safeChar_ascii c Hc), (sanitizeChar_fixed c Hc), (IH Hrest).
Qed.

(** The sanitized name has one character for each UTF-16 code unit of the
    name. *)
Lemma sanitized_length (s : string) :
  String.length (sanitizeName s) = codeUnits s.
Proof.
  induction s as [|c rest IH]; [reflexivity|].
  cbn [sanitizeName codeUnits]. destruct (between 0 127 c) eqn:E.
  - cbn [String.length]. now rewrite IH, (ascii_codeUnit c E).
  - now rewrite append_length, underscores_length, IH.
Qed.

(** A name of ASCII characters has as many code units as bytes. *)
Lemma codeUnits_ascii (s : string) :
  allChars (between 0 127) s = true -> codeUnits s = String.length s.
Proof.
  induction s as [|c rest IH]; [reflexivity|].
  cbn [allChars codeUnits String.length]. intros H. apply andb_prop in H as [Hc Hrest].
  now rewrite (ascii_codeUnit c Hc), (IH Hrest).
Qed.

Lemma extensionOf_plain (fileName : string) :
  extensionOf fileName <> "" /\ includes (extensionOf fileName) "." = false.
Proof.
  unfold extensionOf. cbv zeta.
  destruct (split_segments "." fileName) as [Hne Hall].
  pose proof (last_In (split "." fileName) "" Hne) as Hin.
  rewrite Forall_forall in Hall. specialize (Hall _ Hin).
  destruct (truthy (List.last (split "." fileName) "")) eqn:Et.
  - split; [|exact Hall]. intros E. rewrite E in Et. discriminate.
  - split; [discriminate|reflexivity].
Qed.

Lemma includes_not_found (filePath : string) :
  includes ("File not found: " +++ filePath) "not found" = true.
Proof. exact (includes_append "File " "not found" (": " +++ filePath)). Qed.

Section Facts.
Variable sdk : Sdk.
Variable env : Env.

(** *** Initialization *)

Lemma initializeStorage_world (s : State sdk) :
  world (final (initializeStorage sdk env s)) = world s.
Proof.
  unfold initializeStorage, bind, tryCatch, get, put, liftC, console, emit, ret.
  destruct s as [[o|] b ie w]; simpl; [reflexivity|].
  destruct (GOOGLE_APPLICATION_CREDENTIALS env) as [c|]; simpl;
    [destruct (truthy c && startsWith c "{")%bool; simpl;
     [destruct (JSON_parse sdk c); simpl|]|];
    try destruct (new_Storage sdk _); simpl;
    try destruct (truthy (GCS_BUCKET_NAME env)); reflexivity.
Qed.

Lemma ensureInitialized_world (s : State sdk) :
  world (final (ensureInitialized sdk env s)) = world s.
Proof.
  pose proof (initializeStorage_world s) as Hw.
  unfold ensureInitialized, bind, get, ret, throw. simpl.
  destruct (storage s); simpl.
  - destruct (initializationError s); reflexivity.
  - destruct (initializeStorage sdk env s) as [[[]|t] s1 e1]; simpl in *; [|exact Hw].
    destruct (initializationError s1); simpl; exact Hw.
Qed.

(** The first call on a usable module: the state it leaves is initialized,
    the world is as it was, and only the console was written to. *)
Lemma ready_run (s : State sdk) :
  storageReady sdk env s ->
  exists s0 e0,
    ensureInitialized sdk env s = mkRun (Normal tt) s0 e0
    /\ initialized s0 /\ world s0 = world s /\ consoleOnly e0.
Proof.
  intros Hready.
  pose proof (ensureInitialized_ready sdk env s Hready) as Hinit.
  pose proof (ensureInitialized_world s) as Hw.
  pose proof (ensureInitialized_console sdk env s) as Hc.
  destruct Hready as [Ho _].
  destruct (ensureInitialized sdk env s) as [o s0 e0]. simpl in *. subst o.
  now exists s0, e0.
Qed.

Lemma initialized_ready (s : State sdk) : initialized s -> storageReady sdk env s.
Proof.
  intros Hinit. unfold storageReady.
  rewrite (ensureInitialized_initialized sdk env s Hinit). simpl.
  split; [reflexivity|apply Hinit].
Qed.

(** *** [uploadFile] and [readFile] after their call of [ensureInitialized] *)

Definition uploadGuarded (file : Buffer) (fileName contentType : string)
    (userId folder : option string) (maxRetries : Z) : M Event (State sdk) FileMetadata :=
  s <- get ;;
  match bucket s with
  | None =>
      throw (ThrowErr (newError
        "GCS bucket not initialized. Check GCS_BUCKET_NAME environment variable."))
  | Some _ =>
      if Nat.eqb (List.length file) 0 then
        throw (ThrowErr (newError "File data is empty or invalid"))
      else if negb (truthy fileName) then
        throw (ThrowErr (newError "File name is required"))
      else
        fileId <- call (fun s => match uuidv4 sdk (world s) with
                                 | (id, w) => (Normal id, setWorld sdk s w)
                                 end) ;;
        let filePath :=
          userFolderOf userId +++ "/" +++ folderPathOf folder +++ fileId +++ "."
          +++ extensionOf fileName in
        r <- uploadLoop sdk env file fileName contentType userId fileId
               (sanitizeName fileName) filePath maxRetries
               (Z.to_nat maxRetries) 1 None ;;
        match r with
        | inl m => ret m
        | inr lastError =>
            throw (ThrowErr (newError
              ("Failed to upload file after " +++ showZ maxRetries
               +++ " attempts: "
               +++ interpolate (option_map err_message lastError))))
        end
  end.

Lemma uploadFile_eq file fileName contentType userId folder maxRetries :
  uploadFile sdk env file fileName contentType userId folder maxRetries =
  bind (ensureInitialized sdk env)
    (fun _ => uploadGuarded file fileName contentType userId folder maxRetries).
Proof. reflexivity. Qed.

Definition readGuarded (filePath : string) (maxRetries : Z) : M Event (State sdk) Buffer :=
  s <- get ;;
  match bucket s with
  | None =>
      console sdk LError [LStr "❌ GCS bucket not initialized"] ;;;
      throw (ThrowErr (newError
        "GCS bucket not initialized. Check GCS_BUCKET_NAME environment variable."))
  | Some _ =>
      if negb (truthy filePath) then
        throw (ThrowErr (newError "File path is required"))
      else
        r <- readLoop sdk filePath maxRetries (Z.to_nat maxRetries) 1 None ;;
        match r with
        | inl contents => ret contents
        | inr (Some lastError) => throw (ThrowErr lastError)
        | inr None =>
            throw (ThrowErr (newError
              ("Failed to read file after " +++ showZ maxRetries +++ " attempts")))
        end
  end.

Lemma readFile_eq filePath maxRetries :
  readFile sdk env filePath maxRetries =
  bind (ensureInitialized sdk env) (fun _ => readGuarded filePath maxRetries).
Proof. reflexivity. Qed.

(** A function of the facade on a usable module: the run of its guarded
    part from the initialized state, after the console output of the
    initialization. *)
Lemma ready_bind {A} (k : M Event (State sdk) A) (s : State sdk) :
  storageReady sdk env s ->
  exists s0 e0,
    initialized s0 /\ world s0 = world s /\ consoleOnly e0
    /\ bind (ensureInitialized sdk env) (fun _ => k) s
       = match k s0 with mkRun o s2 e2 => mkRun o s2 (e0 ++ e2) end.
Proof.
  intros Hready. destruct (ready_run s Hready) as (s0 & e0 & Hrun & Hinit & Hw & Hc).
  exists s0, e0. split; [exact Hinit|]. split; [exact Hw|]. split; [exact Hc|].
  unfold bind. rewrite Hrun. reflexivity.
Qed.

Lemma truthy_nonempty (x : string) : x <> "" -> truthy x = true.
Proof. intros H. unfold truthy. destruct (String.eqb_spec x ""); [congruence|reflexivity]. Qed.

Lemma length_nonempty {A} (l : list A) : l <> [] -> Nat.eqb (List.length l) 0 = false.
Proof. now destruct l. Qed.

(** *** An attempt that fails in [readFile] *)

Lemma readAttempt_failures (filePath : string) (s : State sdk) :
  let r := readAttempt sdk filePath s in
  match outcome r with
  | Normal _ => failures (emitted r) = []
  | Throw t =>
      failures (emitted r) = [t]
      \/ (failures (emitted r) = []
          /\ t = ThrowErr (newError ("File not found: " +++ filePath)))
  end.
Proof.
  unfold readAttempt, bind, sdkCall, ret, throw; simpl.
  destruct (bucket_file sdk filePath (world s)) as [[[]|t] w]; simpl; [|now left].
  destruct (file_exists sdk filePath w) as [[[]|t] w1]; simpl; [| |now left].
  - destruct (file_download sdk filePath w1) as [[c|t] w2]; simpl; [reflexivity|now left].
  - right. now split.
Qed.

(** The failures of a run of the loop of [readFile]: at most one per
    attempt; when every attempt failed, the loop ends on the last of them. *)
Lemma readLoop_exhausted (filePath : string) (maxRetries : Z) (fuel : nat) :
  forall (attempt : Z) (lastError : option JsErr) (s : State sdk),
  fuel = Z.to_nat (maxRetries + 1 - attempt) ->
  let l := readLoop sdk filePath maxRetries fuel attempt lastError s in
  (List.length (failures (emitted l)) <= fuel)%nat
  /\ (fuel = 0%nat -> l = mkRun (Normal (inr lastError)) s [])
  /\ (fuel <> 0%nat -> List.length (failures (emitted l)) = fuel ->
      exists t, lastOpt (failures (emitted l)) = Some t
        /\ (outcome l = Throw (ThrowErr (toError t))
            \/ outcome l = Normal (inr (Some (toError t))))).
Proof.
  induction fuel as [|fuel IH]; intros attempt lastError s Hfuel.
  - simpl. split; [lia|]. split; [reflexivity|congruence].
  - assert (Hle : attempt <= maxRetries) by lia.
    assert (Hfuel' : fuel = Z.to_nat (maxRetries + 1 - (attempt + 1))) by lia.
    cbn zeta. rewrite (readLoop_step sdk filePath maxRetries fuel attempt lastError s Hle).
    pose proof (readAttempt_failures filePath s) as Hf. cbn zeta in Hf.
    destruct (readAttempt sdk filePath s) as [[c|t] s1 e1]; simpl in Hf.
    + simpl. rewrite Hf. simpl. split; [lia|]. split; [congruence|]. intros _ H. lia.
    + destruct (includes (err_message (toError t)) "not found") eqn:Enf.
      * simpl. split; [destruct Hf as [->|[-> _]]; simpl; lia|].
        split; [congruence|]. intros _ Hlen.
        destruct Hf as [Hf|[Hf _]]; rewrite Hf in *; [|simpl in Hlen; lia].
        exists t. split; [reflexivity|now left].
      * assert (Hone : failures e1 = [t]).
        { destruct Hf as [Hf|[_ ->]]; [exact Hf|].
          pose proof (includes_not_found filePath) as Hi.
          cbn [String.append] in Hi. unfold toError, newError in Enf.
          cbn [err_message] in Enf. congruence. }
        match goal with
        | |- context [readLoop _ _ _ _ _ _ ?st] =>
            specialize (IH (attempt + 1) (Some (toError t)) st Hfuel');
            destruct (readLoop sdk filePath maxRetries fuel (attempt + 1)
                        (Some (toError t)) st) as [o s2 e2] eqn:El
        end.
        cbn zeta in IH. simpl in IH. simpl.
        destruct IH as (IHlen & IHzero & IHlast).
        change (EvConsole ?l ?a :: ?x) with ([EvConsole l a] ++ x).
        rewrite !failures_app, Hone.
        assert (Hmid : failures (if attempt <? maxRetries
                                 then [EvSetTimeout (readBackoff attempt)] else []) = [])
          by (destruct (attempt <? maxRetries); reflexivity).
        rewrite Hmid. simpl.
        split; [lia|]. split; [congruence|]. intros _ Hlen. injection Hlen as Hlen.
        destruct fuel as [|fuel'].
        -- specialize (IHzero eq_refl). injection IHzero as -> _ ->.
           exists t. split; [reflexivity|now right].
        -- destruct (IHlast ltac:(discriminate) Hlen) as (t' & Hlast & Ho).
           exists t'. split; [|exact Ho].
           destruct (failures e2) as [|x fl]; [discriminate|].
           rewrite lastOpt_cons_cons. exact Hlast.
Qed.

(** *** What an attempt of [uploadFile] returns, and where it calls *)

Section UploadResult.
Variables (file : Buffer) (fileName contentType : string) (userId : option string).
Variables (fileId sanitizedName filePath : string) (maxRetries : Z).

(** The metadata that an upload of these arguments returns. *)
Definition uploaded (m : FileMetadata) : Prop :=
  fm_id m = fileId /\ fm_name m = sanitizedName /\ fm_path m = filePath
  /\ fm_url m = "gs://" +++ GCS_BUCKET_NAME env +++ "/" +++ filePath.

Lemma uploadAttempt_result (s : State sdk) :
  let r := uploadAttempt sdk env file fileName contentType userId fileId
             sanitizedName filePath s in
  Forall (onPath filePath) (emitted r)
  /\ match outcome r with Normal m => uploaded m | Throw _ => True end.
Proof.
  unfold uploadAttempt, bind, sdkCall, ret; simpl.
  destruct (bucket_file sdk filePath (world s)) as [[[]|t] w]; simpl;
    [|split; [repeat constructor|exact I]].
  destruct (file_save sdk filePath file _ w) as [[[]|t] w1]; simpl;
    [|split; [repeat constructor|exact I]].
  destruct (file_getMetadata sdk filePath w1) as [[m|t] w2]; simpl;
    (split; [repeat constructor|]); [now repeat split|exact I].
Qed.

Lemma uploadLoop_result (fuel : nat) :
  forall (attempt : Z) (lastError : option JsErr) (s : State sdk),
  let l := uploadLoop sdk env file fileName contentType userId fileId sanitizedName
             filePath maxRetries fuel attempt lastError s in
  Forall (onPath filePath) (emitted l)
  /\ match outcome l with Normal (inl m) => uploaded m | _ => True end.
Proof.
  induction fuel as [|fuel IH]; intros attempt lastError s; cbn zeta.
  - simpl. split; [constructor|exact I].
  - destruct (Z.leb_spec attempt maxRetries) as [Hle|Hgt].
    + rewrite (uploadLoop_step sdk env file fileName contentType userId fileId
                 sanitizedName filePath maxRetries fuel attempt lastError s Hle).
      pose proof (uploadAttempt_result s) as Ha. cbn zeta in Ha.
      destruct (uploadAttempt sdk env file fileName contentType userId fileId
                  sanitizedName filePath s) as [[m|t] s1 e1]; simpl in Ha;
        destruct Ha as [Hev Hm]; [now split|].
      match goal with
      | |- context [uploadLoop _ _ _ _ _ _ _ _ _ _ _ _ _ ?st] =>
          specialize (IH (attempt + 1) (Some (toError t)) st);
          destruct (uploadLoop sdk env file fileName contentType userId fileId
                      sanitizedName filePath maxRetries fuel (attempt + 1)
                      (Some (toError t)) st) as [o s2 e2]
      end.
      cbn zeta in IH. simpl in IH. destruct IH as [IHev IHm]. simpl.
      split; [|exact IHm].
      apply Forall_app. split; [exact Hev|]. constructor; [exact I|].
      apply Forall_app. split; [|exact IHev].
      destruct (attempt <? maxRetries); repeat constructor.
    + cbn [uploadLoop]. apply Z.leb_gt in Hgt. rewrite Hgt. simpl.
      split; [constructor|exact I].
Qed.

End UploadResult.

Lemma consoleOnly_onPath (path : string) (evs : list Event) :
  consoleOnly evs -> Forall (onPath path) evs.
Proof.
  unfold consoleOnly. intros H. eapply Forall_impl; [|exact H].
  intros e He. now destruct e.
Qed.

(** *** A module that cannot be used

    The initialization has failed at some point ([initializationError] is
    set), or no bucket is configured. *)

Definition unusable (s : State sdk) : Prop :=
  initializationError s <> None \/ (bucket s = None /\ GCS_BUCKET_NAME env = "").

(** A run that was refused: it threw an [Error], the initialization error
    if there is one and else one that says "GCS bucket not initialized", it
    wrote to the console at most, and the module is as unusable as before. *)
Definition refused {E A} (calm : list E -> Prop) (r : Run E (State sdk) A) : Prop :=
  exists e,
    outcome r = Throw (ThrowErr e)
    /\ calm (emitted r)
    /\ unusable (final r)
    /\ (initializationError (final r) = Some e
        \/ startsWith (err_message e) "GCS bucket not initialized" = true).

Lemma ensureInitialized_unusable (s : State sdk) :
  unusable s ->
  let r := ensureInitialized sdk env s in
  unusable (final r)
  /\ match outcome r with
     | Normal _ => initializationError (final r) = None /\ bucket (final r) = None
     | Throw t => exists e, t = ThrowErr e /\ initializationError (final r) = Some e
     end.
Proof.
  unfold unusable, ensureInitialized, initializeStorage.
  unfold bind, tryCatch, get, put, liftC, console, emit, ret, throw.
  destruct s as [[o|] b [e|] w]; simpl.
  - intros _. split; [left; discriminate|now exists e].
  - intros [H|[-> Hn]]; [congruence|]. split; [now right|now split].
  - intros _.
    destruct (GOOGLE_APPLICATION_CREDENTIALS env) as [c|]; simpl;
      [destruct (truthy c && startsWith c "{")%bool; simpl;
       [destruct (JSON_parse sdk c); simpl|]|];
      try destruct (new_Storage sdk _); simpl;
      try destruct (truthy (GCS_BUCKET_NAME env)); simpl;
      (split; [left; discriminate|eexists; split; reflexivity]).
  - intros [H|[-> Hn]]; [congruence|]. rewrite Hn. simpl.
    destruct (GOOGLE_APPLICATION_CREDENTIALS env) as [c|]; simpl;
      [destruct (truthy c && startsWith c "{")%bool; simpl;
       [destruct (JSON_parse sdk c); simpl|]|];
      try destruct (new_Storage sdk _); simpl;
      first [ split; [now right|now split]
            | split; [left; discriminate|eexists; split; reflexivity] ].
Qed.

(** A function that opens with [ensureInitialized] and then stops on a
    missing bucket is refused by a module that cannot be used. *)
Lemma refused_bind {A} (k : M Event (State sdk) A) (s : State sdk) :
  unusable s ->
  (forall s1, bucket s1 = None ->
     exists e evs, k s1 = mkRun (Throw (ThrowErr e)) s1 evs
       /\ consoleOnly evs
       /\ startsWith (err_message e) "GCS bucket not initialized" = true) ->
  refused consoleOnly (bind (ensureInitialized sdk env) (fun _ => k) s).
Proof.
  intros Hun Hk. pose proof (ensureInitialized_unusable s Hun) as [Hfin Hout].
  pose proof (ensureInitialized_console sdk env s) as Hc.
  unfold bind. destruct (ensureInitialized sdk env s) as [[[]|t] s0 e0]; simpl in *.
  - destruct Hout as [Hie Hb]. destruct (Hk s0 Hb) as (e & evs & -> & Hevs & Hmsg).
    exists e. simpl. split; [reflexivity|]. split; [now apply Forall_app|].
    split; [exact Hfin|now right].
  - destruct Hout as (e & -> & Hie). exists e. simpl.
    split; [reflexivity|]. split; [exact Hc|]. split; [exact Hfin|now left].
Qed.

Definition copyGuarded (sourcePath destinationPath : string) : M Event (State sdk) unit :=
  s <- get ;;
  match bucket s with
  | None => throw (ThrowErr (newError "GCS bucket not initialized"))
  | Some _ =>
      sdkCall sdk OpFile sourcePath (fun _ => Done) (bucket_file sdk sourcePath) ;;;
      exists_ <- sdkCall sdk OpExists sourcePath Answer (file_exists sdk sourcePath) ;;
      if negb exists_ then
        throw (ThrowErr (newError "Source file not found"))
      else
        sdkCall sdk OpFile destinationPath (fun _ => Done)
          (bucket_file sdk destinationPath) ;;;
        sdkCall sdk OpCopy sourcePath (fun _ => Done)
          (file_copy sdk sourcePath destinationPath)
  end.

Lemma copyFile_eq (sourcePath destinationPath : string) :
  copyFile sdk env sourcePath destinationPath =
  bind (ensureInitialized sdk env) (fun _ => copyGuarded sourcePath destinationPath).
Proof. reflexivity. Qed.

Ltac stops_on_missing_bucket :=
  let s1 := fresh "s1" in
  let Hb := fresh "Hb" in
  intros s1 Hb;
  unfold uploadGuarded, readGuarded, deleteGuarded, copyGuarded, bind, get, throw,
    console, emit;
  rewrite Hb; simpl;
  eexists; eexists; split; [reflexivity|]; split; [repeat constructor|reflexivity].

Lemma storage_refused (s : State sdk) :
  unusable s ->
  (forall file fileName contentType userId folder maxRetries,
     refused consoleOnly
       (uploadFile sdk env file fileName contentType userId folder maxRetries s))
  /\ (forall filePath maxRetries,
        refused consoleOnly (readFile sdk env filePath maxRetries s))
  /\ (forall filePath, refused consoleOnly (deleteFile sdk env filePath s))
  /\ (forall sourcePath destinationPath,
        refused consoleOnly (copyFile sdk env sourcePath destinationPath s))
  /\ (forall sourcePath destinationPath,
        refused consoleOnly (moveFile sdk env sourcePath destinationPath s)).
Proof.
  intros Hun.
  assert (Hcopy : forall sourcePath destinationPath,
            refused consoleOnly (copyFile sdk env sourcePath destinationPath s)).
  { intros. rewrite copyFile_eq.
    apply refused_bind; [exact Hun|]. stops_on_missing_bucket. }
  split; [|split; [|split; [|split]]].
  - intros. rewrite uploadFile_eq.
    apply refused_bind; [exact Hun|]. stops_on_missing_bucket.
  - intros. rewrite readFile_eq.
    apply refused_bind; [exact Hun|]. stops_on_missing_bucket.
  - intros. rewrite deleteFile_eq.
    apply refused_bind; [exact Hun|]. stops_on_missing_bucket.
  - exact Hcopy.
  - intros. destruct (Hcopy sourcePath destinationPath) as (e & Ho & Hrest).
    unfold moveFile, bind.
    destruct (copyFile sdk env sourcePath destinationPath s) as [[[]|t] s1 e1];
      simpl in Ho; [discriminate|].
    exists e. split; [exact Ho|exact Hrest].
Qed.

End Facts.

End StorageFacts.

(** ** app/lib/storage.ts: metadata, listing, signed URLs and visibility *)

Module Facade.
Import Storage.
Import StorageFacts.

(** [metadata.metadata]: the custom metadata of an object, which
    [uploadFile] writes. *)
Record CustomMetadata := mkCustomMetadata {
  cm_fileId : option string;
  cm_originalName : option string
}.

(** The metadata of an object, as these functions read it. *)
Record ObjectMetadata := mkObjectMetadata {
  om_metadata : option CustomMetadata;
  om_size : option string;
  om_contentType : option string;
  om_timeCreated : string;
  om_updated : string
}.

(** A file of [bucket.getFiles]: its name and, if loaded, its metadata. *)
Record ListedFile := mkListedFile {
  lf_name : string;
  lf_metadata : option ObjectMetadata
}.

(** The argument of [file.getSignedUrl]. *)
Record SignedUrlConfig := mkSignedUrlConfig {
  version : string;
  action : string;
  expires : Z
}.

(** The calls of these functions that [uploadFile], [readFile], [deleteFile]
    and [copyFile] do not make, on the same world: [getMetadata] with the
    custom metadata in its answer, [getFiles], [getSignedUrl], [makePublic],
    [makePrivate], and the clock. *)
Record Calls (sdk : Sdk) := mkCalls {
  file_getObjectMetadata : string -> World sdk -> Completion ObjectMetadata * World sdk;
  bucket_getFiles : string -> Z -> World sdk -> Completion (list ListedFile) * World sdk;
  file_getSignedUrl : string -> SignedUrlConfig -> World sdk -> Completion string * World sdk;
  file_makePublic : string -> World sdk -> Completion unit * World sdk;
  file_makePrivate : string -> World sdk -> Completion unit * World sdk;
  Date_now : World sdk -> Z * World sdk
}.
Arguments file_getObjectMetadata {sdk}.
Arguments bucket_getFiles {sdk}.
Arguments file_getSignedUrl {sdk}.
Arguments file_makePublic {sdk}.
Arguments file_makePrivate {sdk}.
Arguments Date_now {sdk}.

(** The trace: the events of [Storage], and the new calls. *)
Inductive Event :=
| EvStorage (e : Storage.Event)
| EvGetFiles (prefix : string) (maxResults : Z) (o : Outcome)
| EvGetSignedUrl (path : string) (config : SignedUrlConfig) (o : Outcome)
| EvMakePublic (path : string) (o : Outcome)
| EvMakePrivate (path : string) (o : Outcome).

Section Code.
Variable sdk : Sdk.
Variable more : Calls sdk.
Variable env : Env.

Local Notation Op := (M Event (State sdk)) (only parsing).

(** A step of [Storage], with its events. *)
Definition storageStep {A} (m : M Storage.Event (State sdk) A) : Op A := fun s =>
  match m s with
  | mkRun o s1 e1 => mkRun o s1 (map EvStorage e1)
  end.

(** One of the new calls: run it on the world and record how it ended. *)
Definition facadeCall {A} (ev : Outcome -> Event)
    (f : World sdk -> Completion A * World sdk) : Op A := fun s =>
  match f (world s) with
  | (Normal a, w) => mkRun (Normal a) (setWorld sdk s w) [ev Done]
  | (Throw t, w) => mkRun (Throw t) (setWorld sdk s w) [ev (Failed t)]
  end.

Definition fileCall (filePath : string) : Op unit :=
  storageStep (sdkCall sdk OpFile filePath (fun _ => Done) (bucket_file sdk filePath)).

Definition existsCall (filePath : string) : Op bool :=
  storageStep (sdkCall sdk OpExists filePath Answer (file_exists sdk filePath)).

(** [ensureInitialized(); if (!bucket) { throw new Error('GCS bucket not
    initialized'); }], the opening lines of each of these functions. *)
Definition guarded {A} (body : Op A) : Op A :=
  storageStep (ensureInitialized sdk env) ;;;
  s <- get ;;
  match bucket s with
  | None => throw (ThrowErr (newError "GCS bucket not initialized"))
  | Some _ => body
  end.

(** [metadata.metadata?.field] *)
Definition customField (field : CustomMetadata -> option string)
    (metadata : ObjectMetadata) : option string :=
  match om_metadata metadata with
  | Some custom => field custom
  | None => None
  end.

(** [path.split('/').pop()] *)
Definition baseName (path : string) : string := List.last (split "/" path) "".

Definition getFileMetadata (filePath : string) : Op (option FileMetadata) :=
  guarded
    (tryCatch
       (fileCall filePath ;;;
        exists_ <- existsCall filePath ;;
        if negb exists_ then ret None
        else
          metadata <- storageStep
                        (sdkCall sdk OpGetMetadata filePath (fun _ => Done)
                           (file_getObjectMetadata more filePath)) ;;
          ret (Some (mkFileMetadata
                       (orElse (customField cm_fileId metadata) filePath)
                       (orElse (customField cm_originalName metadata)
                          (orElse (Some (baseName filePath)) "unknown"))
                       filePath
                       (parseInt (orElse (om_size metadata) "0"))
                       (orElse (om_contentType metadata) "application/octet-stream")
                       ("gs://" +++ GCS_BUCKET_NAME env +++ "/" +++ filePath)
                       (NewDate (om_timeCreated metadata))
                       (NewDate (om_updated metadata)))))
       (fun error =>
          storageStep (console sdk LError [LStr "Error getting file metadata:"; LVal error]) ;;;
          ret None)).

(** [file.metadata?.field]: [undefined] when the file has no metadata. *)
Definition listedField {A} (field : ObjectMetadata -> option A) (file : ListedFile)
    : option A :=
  match lf_metadata file with
  | Some metadata => field metadata
  | None => None
  end.

(** The entry that [listFiles] makes of a file. [new Date(undefined)] is the
    invalid date, as is [new Date] of the text "undefined". *)
Definition listed (file : ListedFile) : FileMetadata :=
  mkFileMetadata
    (orElse (listedField (customField cm_fileId) file) (lf_name file))
    (orElse (listedField (customField cm_originalName) file) (baseName (lf_name file)))
    (lf_name file)
    (parseInt (orElse (listedField om_size file) "0"))
    (orElse (listedField om_contentType file) "application/octet-stream")
    ("gs://" +++ GCS_BUCKET_NAME env +++ "/" +++ lf_name file)
    (NewDate (interpolate (listedField (fun m => Some (om_timeCreated m)) file)))
    (NewDate (interpolate (listedField (fun m => Some (om_updated m)) file))).

(** The prefix that [listFiles] asks for. *)
Definition listPrefix (userId folder : option string) : string :=
  match folder with
  | Some f => if truthy f then userFolderOf userId +++ "/" +++ f +++ "/"
              else userFolderOf userId +++ "/"
  | None => userFolderOf userId +++ "/"
  end.

(** [limit || 1000] *)
Definition maxResultsOf (limit : option Z) : Z :=
  match limit with
  | Some n => if n =? 0 then 1000 else n
  | None => 1000
  end.

Definition listFiles (userId folder : option string) (limit : option Z)
    : Op (list FileMetadata) :=
  guarded
    (files <- facadeCall (EvGetFiles (listPrefix userId folder) (maxResultsOf limit))
                (bucket_getFiles more (listPrefix userId folder) (maxResultsOf limit)) ;;
     ret (map listed files)).

(** [expiresIn] defaults to 3600 seconds. *)
Definition getSignedUrl (filePath : string) (expiresIn : option Z) : Op string :=
  let expiresIn := match expiresIn with Some n => n | None => 3600 end in
  guarded
    (fileCall filePath ;;;
     exists_ <- existsCall filePath ;;
     if negb exists_ then throw (ThrowErr (newError "File not found"))
     else
       now <- call (fun s => match Date_now more (world s) with
                             | (t, w) => (Normal t, setWorld sdk s w)
                             end) ;;
       let config := mkSignedUrlConfig "v4" "read" (now + expiresIn * 1000) in
       facadeCall (EvGetSignedUrl filePath config)
         (file_getSignedUrl more filePath config)).

Definition fileExists (filePath : string) : Op bool :=
  guarded (fileCall filePath ;;; existsCall filePath).

Definition getFileSize (filePath : string) : Op Number :=
  guarded
    (fileCall filePath ;;;
     metadata <- storageStep
                   (sdkCall sdk OpGetMetadata filePath (fun _ => Done)
                      (file_getMetadata sdk filePath)) ;;
     ret (parseInt (orElse (md_size metadata) "0"))).

Definition makeFilePublic (filePath : string) : Op string :=
  guarded
    (fileCall filePath ;;;
     facadeCall (EvMakePublic filePath) (file_makePublic more filePath) ;;;
     ret ("https://storage.googleapis.com/" +++ GCS_BUCKET_NAME env +++ "/" +++ filePath)).

Definition makeFilePrivate (filePath : string) : Op unit :=
  guarded
    (fileCall filePath ;;;
     facadeCall (EvMakePrivate filePath) (file_makePrivate more filePath)).

End Code.

(** *** Reading a trace *)

(** The events of [Storage] in a trace. *)
Definition storageEvent (e : Event) : list Storage.Event :=
  match e with
  | EvStorage e => [e]
  | _ => []
  end.

Definition storageEvents (evs : list Event) : list Storage.Event :=
  flat_map storageEvent evs.

(** A trace without any call: only the console was written to. *)
Definition quiet (evs : list Event) : Prop :=
  Forall (fun e => match e with EvStorage (EvConsole _ _) => True | _ => False end) evs.

(** *** The in-memory bucket again

    The new calls on the in-memory bucket of [Storage]: the custom metadata
    is not kept by it, a listing is the objects under the prefix in the
    order of the bucket, a signed URL spells out its expiry, and the clock
    stands still. *)

Definition memCalls : Calls memSdk :=
  @mkCalls memSdk
    (fun path => scripted (fun w =>
       match lookupObject path w with
       | Some data =>
           (Normal (mkObjectMetadata None (Some (showZ (Z.of_nat (List.length data))))
                      None "2025-01-01T00:00:00.000Z" "2025-01-01T00:00:00.000Z"), w)
       | None => (Throw (ThrowErr (newError ("No such object: " +++ path))), w)
       end))
    (fun prefix maxResults => scripted (fun w =>
       (Normal (map (fun o => mkListedFile (fst o) None)
                  (firstn (Z.to_nat maxResults)
                     (filter (fun o => startsWith (fst o) prefix) (objects w)))), w)))
    (fun path config => scripted (fun w =>
       (Normal ("https://storage.example/" +++ path +++ "?expires="
                +++ showZ (expires config)), w)))
    (fun _ => scripted (fun w => (Normal tt, w)))
    (fun _ => scripted (fun w => (Normal tt, w)))
    (fun w => (1700000000000, w)).

(** *** Facts about these functions *)

Lemma storageEvents_app (a b : list Event) :
  storageEvents (a ++ b) = storageEvents a ++ storageEvents b.
Proof. apply flat_map_app. Qed.

Lemma storageEvents_map (evs : list Storage.Event) :
  storageEvents (map EvStorage evs) = evs.
Proof. induction evs as [|e evs IH]; [reflexivity|]. simpl. now rewrite IH. Qed.

Lemma quiet_map (evs : list Storage.Event) : consoleOnly evs -> quiet (map EvStorage evs).
Proof.
  unfold consoleOnly, quiet. induction 1 as [|e evs He _ IH]; [constructor|].
  simpl. constructor; [exact He|exact IH].
Qed.

Lemma quiet_app (a b : list Event) : quiet a -> quiet b -> quiet (a ++ b).
Proof. intros Ha Hb. apply Forall_app. now split. Qed.

Lemma quiet_not_In (evs : list Event) (e : Event) :
  quiet evs -> In e evs ->
  match e with EvStorage (EvConsole _ _) => True | _ => False end.
Proof. unfold quiet. rewrite Forall_forall. intros H Hin. exact (H e Hin). Qed.

Lemma quiet_storage (evs : list Event) :
  quiet evs -> consoleOnly (storageEvents evs).
Proof.
  unfold quiet, consoleOnly. induction 1 as [|e evs He _ IH]; [constructor|].
  destruct e as [[]| | | |]; try contradiction. simpl. constructor; [exact I|exact IH].
Qed.

(** An upload for a user and a folder, then a listing of that folder, on the
    in-memory bucket: the listing asks for [users/u1/resumes/] and finds the
    path of the upload. *)
Definition uploadThenList :=
  let up := uploadFile memSdk memEnv [Byte.x25; Byte.x50] "cv.pdf" "application/pdf"
              (Some "u1") (Some "resumes") 3 (memStart [] []) in
  (up, listFiles memSdk memCalls memEnv (Some "u1") (Some "resumes") None
         (final up)).

Section Facts.
Variable sdk : Sdk.
Variable more : Calls sdk.
Variable env : Env.

(** A function of these on a usable module: the run of its body from the
    initialized state, after the console output of the initialization. *)
Lemma guarded_ready {A} (body : M Event (State sdk) A) (s : State sdk) :
  storageReady sdk env s ->
  exists s0 e0,
    initialized s0 /\ world s0 = world s /\ quiet e0
    /\ guarded sdk env body s
       = match body s0 with mkRun o s2 e2 => mkRun o s2 (e0 ++ e2) end.
Proof.
  intros Hready.
  destruct (ready_run sdk env s Hready) as (s0 & e0 & Hrun & Hinit & Hw & Hc).
  exists s0, (map EvStorage e0).
  split; [exact Hinit|]. split; [exact Hw|]. split; [now apply quiet_map|].
  unfold guarded, bind, storageStep, get. rewrite Hrun.
  destruct Hinit as (_ & _ & Hb). destruct (bucket s0); [|congruence].
  destruct (body s0) as [o s2 e2]. reflexivity.
Qed.

(** Each of them is refused by a module that cannot be used, whatever its
    body. *)
Lemma guarded_refused {A} (body : M Event (State sdk) A) (s : State sdk) :
  unusable sdk env s -> refused sdk env quiet (guarded sdk env body s).
Proof.
  intros Hun. pose proof (ensureInitialized_unusable sdk env s Hun) as [Hfin Hout].
  pose proof (ensureInitialized_console sdk env s) as Hc.
  unfold guarded, bind, storageStep, get, throw.
  destruct (ensureInitialized sdk env s) as [[[]|t] s0 e0]; simpl in *.
  - destruct Hout as [Hie Hb]. rewrite Hb. simpl.
    exists (newError "GCS bucket not initialized"). simpl.
    split; [reflexivity|]. split; [|split; [exact Hfin|now right]].
    rewrite app_nil_r. now apply quiet_map.
  - destruct Hout as (e & -> & Hie). exists e. simpl.
    split; [reflexivity|]. split; [now apply quiet_map|]. split; [exact Hfin|now left].
Qed.

(** [getFileMetadata] on a usable module. *)
Lemma getFileMetadata_ready (filePath : string) (s : State sdk) :
  storageReady sdk env s ->
  let r := getFileMetadata sdk more env filePath s in
  (exists res,
     outcome r = Normal res
     /\ (forall m, res = Some m ->
           fm_path m = filePath
           /\ fm_url m = "gs://" +++ GCS_BUCKET_NAME env +++ "/" +++ filePath
           /\ In (EvStorage (EvCall OpExists filePath (Answer true))) (emitted r)
           /\ failures (storageEvents (emitted r)) = [])
     /\ (In (EvStorage (EvCall OpExists filePath (Answer false))) (emitted r) ->
           res = None /\ countOp OpGetMetadata (storageEvents (emitted r)) = 0%nat))
  /\ (forall t, In t (failures (storageEvents (emitted r))) ->
        outcome r = Normal None
        /\ In (EvStorage (EvConsole LError [LStr "Error getting file metadata:"; LVal t]))
              (emitted r)).
Proof.
  intros Hready. cbn zeta. unfold getFileMetadata.
  match goal with
  | |- context [guarded sdk env ?body s] =>
      destruct (guarded_ready body s Hready) as (s0 & e0 & Hinit & Hw & Hq & ->)
  end.
  pose proof (quiet_storage e0 Hq) as Hc.
  apply consoleOnly_facts in Hc as (_ & Hc2 & Hc3 & _).
  assert (Hno : forall e, In e e0 ->
            match e with EvStorage (EvConsole _ _) => True | _ => False end)
    by (intros e; apply quiet_not_In; exact Hq).
  unfold tryCatch, bind, fileCall, existsCall, storageStep, sdkCall, console, emit, ret.
  destruct (bucket_file sdk filePath (world s0)) as [[[]|t] w]; simpl.
  2:{ rewrite storageEvents_app, failures_app, Hc2. simpl. split.
      - exists None. split; [reflexivity|]. split; [discriminate|].
        intros Hin. split; [reflexivity|].
        rewrite countOp_app, Hc3. reflexivity.
      - intros t' [<-|[]]. split; [reflexivity|].
        apply in_or_app. right. simpl. auto. }
  destruct (file_exists sdk filePath w) as [[[]|t] w1]; simpl.
  - destruct (file_getObjectMetadata more filePath w1) as [[md|t] w2]; simpl.
    + rewrite storageEvents_app, failures_app, Hc2. simpl. split.
      * eexists. split; [reflexivity|]. split.
        -- intros m Hm. injection Hm as <-. simpl.
           split; [reflexivity|]. split; [reflexivity|]. split; [|reflexivity].
           apply in_or_app. right. simpl. auto.
        -- intros Hin. apply in_app_or in Hin as [Hin|Hin].
           ++ specialize (Hno _ Hin). contradiction.
           ++ simpl in Hin. destruct Hin as [H|[H|[H|[]]]]; discriminate.
      * intros t' [].
    + rewrite storageEvents_app, failures_app, Hc2. simpl. split.
      * exists None. split; [reflexivity|]. split; [discriminate|].
        intros Hin. apply in_app_or in Hin as [Hin|Hin].
        -- specialize (Hno _ Hin). contradiction.
        -- simpl in Hin. destruct Hin as [H|[H|[H|[H|[]]]]]; discriminate.
      * intros t' [<-|[]]. split; [reflexivity|].
        apply in_or_app. right. simpl. auto 10.
  - rewrite storageEvents_app, failures_app, Hc2. simpl. split.
    + exists None. split; [reflexivity|]. split; [discriminate|].
      intros _. split; [reflexivity|]. rewrite countOp_app, Hc3. reflexivity.
    + intros t' [].
  - rewrite storageEvents_app, failures_app, Hc2. simpl. split.
    + exists None. split; [reflexivity|]. split; [discriminate|].
      intros _. split; [reflexivity|]. rewrite countOp_app, Hc3. reflexivity.
    + intros t' [<-|[]]. split; [reflexivity|].
      apply in_or_app. right. simpl. auto 10.
Qed.

(** [getSignedUrl]: how every run of it goes. *)
Lemma getSignedUrl_runs (filePath : string) (expiresIn : option Z) (s : State sdk) :
  let r := getSignedUrl sdk more env filePath expiresIn s in
  (forall path config o,
     In (EvGetSignedUrl path config o) (emitted r) ->
     path = filePath
     /\ In (EvStorage (EvCall OpExists filePath (Answer true))) (emitted r)
     /\ version config = "v4" /\ action config = "read"
     /\ exists w, expires config
                  = fst (Date_now more w)
                    + match expiresIn with Some n => n | None => 3600 end * 1000)
  /\ (In (EvStorage (EvCall OpExists filePath (Answer false))) (emitted r) ->
      outcome r = Throw (ThrowErr (newError "File not found"))).
Proof.
  cbn zeta. unfold getSignedUrl, guarded.
  pose proof (ensureInitialized_console sdk env s) as Hc.
  unfold fileCall, existsCall.
  unfold bind, storageStep, get, throw, call, sdkCall, facadeCall.
  destruct (ensureInitialized sdk env s) as [[[]|t0] s0 e0]; simpl in Hc |- *.
  2:{ split.
      - intros path config o Hin. apply in_map_iff in Hin as (x & Hx & _). discriminate.
      - intros Hin. apply in_map_iff in Hin as (x & Hx & Hin). injection Hx as ->.
        unfold consoleOnly in Hc. rewrite Forall_forall in Hc.
        specialize (Hc _ Hin). contradiction. }
  assert (Hsign : forall path config o (l : list Event),
            In (EvGetSignedUrl path config o) (map EvStorage e0 ++ l) ->
            In (EvGetSignedUrl path config o) l).
  { intros path config o l Hin. apply in_app_or in Hin as [Hin|Hin]; [|exact Hin].
    apply in_map_iff in Hin as (x & Hx & _). discriminate. }
  assert (Hex : forall b (l : list Event),
            In (EvStorage (EvCall OpExists filePath (Answer b))) (map EvStorage e0 ++ l) ->
            In (EvStorage (EvCall OpExists filePath (Answer b))) l).
  { intros b l Hin. apply in_app_or in Hin as [Hin|Hin]; [|exact Hin].
    apply in_map_iff in Hin as (x & Hx & Hin). injection Hx as ->.
    unfold consoleOnly in Hc. rewrite Forall_forall in Hc.
    specialize (Hc _ Hin). contradiction. }
  destruct (bucket s0); simpl.
  2:{ split.
      - intros path config o Hin. apply Hsign in Hin. destruct Hin.
      - intros Hin. apply Hex in Hin. destruct Hin. }
  destruct (bucket_file sdk filePath (world s0)) as [[[]|t] w]; simpl.
  2:{ split.
      - intros path config o Hin. apply Hsign in Hin.
        destruct Hin as [H|[]]; discriminate.
      - intros Hin. apply Hex in Hin. destruct Hin as [H|[]]; discriminate. }
  destruct (file_exists sdk filePath w) as [[[]|t] w1]; simpl.
  - destruct (Date_now more w1) as [now w2] eqn:Enow; simpl.
    destruct (file_getSignedUrl more filePath _ w2) as [[url|t] w3]; simpl.
    + split.
      * intros path config o Hin. apply Hsign in Hin.
        destruct Hin as [H|[H|[H|[]]]]; try discriminate.
        injection H as <- <- <-. split; [reflexivity|].
        split; [apply in_or_app; right; simpl; auto|].
        split; [reflexivity|]. split; [reflexivity|].
        exists w1. now rewrite Enow.
      * intros Hin. apply Hex in Hin.
        destruct Hin as [H|[H|[H|[]]]]; discriminate.
    + split.
      * intros path config o Hin. apply Hsign in Hin.
        destruct Hin as [H|[H|[H|[]]]]; try discriminate.
        injection H as <- <- <-. split; [reflexivity|].
        split; [apply in_or_app; right; simpl; auto|].
        split; [reflexivity|]. split; [reflexivity|].
        exists w1. now rewrite Enow.
      * intros Hin. apply Hex in Hin.
        destruct Hin as [H|[H|[H|[]]]]; discriminate.
  - split.
    + intros path config o Hin. apply Hsign in Hin.
      destruct Hin as [H|[H|[]]]; discriminate.
    + intros _. reflexivity.
  - split.
    + intros path config o Hin. apply Hsign in Hin.
      destruct Hin as [H|[H|[]]]; discriminate.
    + intros Hin. apply Hex in Hin. destruct Hin as [H|[H|[]]]; discriminate.
Qed.

(** [listFiles] asks the bucket at most once, for its prefix. *)
Lemma listFiles_asks (userId folder : option string) (limit : option Z) (s : State sdk) :
  forall prefix maxResults o,
    In (EvGetFiles prefix maxResults o)
       (emitted (listFiles sdk more env userId folder limit s)) ->
    prefix = listPrefix userId folder /\ maxResults = maxResultsOf limit.
Proof.
  intros prefix maxResults o. unfold listFiles, guarded.
  unfold bind, storageStep, get, throw, facadeCall, ret.
  destruct (ensureInitialized sdk env s) as [[[]|t0] s0 e0]; simpl.
  2:{ intros Hin. apply in_map_iff in Hin as (x & Hx & _). discriminate. }
  assert (Hget : forall (l : list Event),
            In (EvGetFiles prefix maxResults o) (map EvStorage e0 ++ l) ->
            In (EvGetFiles prefix maxResults o) l).
  { intros l Hin. apply in_app_or in Hin as [Hin|Hin]; [|exact Hin].
    apply in_map_iff in Hin as (x & Hx & _). discriminate. }
  destruct (bucket s0); simpl; [|intros Hin; apply Hget in Hin; destruct Hin].
  destruct (bucket_getFiles more _ _ (world s0)) as [[files|t] w]; simpl;
    intros Hin; apply Hget in Hin; destruct Hin as [H|[]];
    injection H as <- <-; now split.
Qed.

(** The prefix of a listing is the folder that an upload stores under. *)
Lemma listPrefix_upload (userId folder : option string) (rest : string) :
  startsWith (userFolderOf userId +++ "/" +++ folderPathOf folder +++ rest)
    (listPrefix userId folder) = true.
Proof.
  unfold startsWith, listPrefix, folderPathOf.
  destruct folder as [f|]; [destruct (truthy f)|].
  - pose proof (prefix_append (userFolderOf userId +++ "/" +++ f +++ "/") rest) as H.
    rewrite append_assoc in H. exact H.
  - pose proof (prefix_append (userFolderOf userId +++ "/") rest) as H.
    rewrite append_assoc in H. exact H.
  - pose proof (prefix_append (userFolderOf userId +++ "/") rest) as H.
    rewrite append_assoc in H. exact H.
Qed.

(** [parseInt(size || '0')] on what the bucket reports. *)
Definition reportedSize (size : option string) : Number := parseInt (orElse size "0").

Lemma reportedSize_decimal (n : Z) : reportedSize (Some (showZ n)) = ofZ n.
Proof.
  unfold reportedSize, orElse.
  destruct (truthy (showZ n)) eqn:E; [apply parseInt_showZ|].
  unfold truthy in E. destruct (String.eqb_spec (showZ n) ""); [|discriminate].
  now destruct (showZ_nonempty n).
Qed.

Lemma reportedSize_missing : reportedSize None = ofZ 0 /\ reportedSize (Some "") = ofZ 0.
Proof. split; reflexivity. Qed.

Lemma getFileSize_ready (filePath : string) (s : State sdk) (md : GcsMetadata)
    (w1 w2 : World sdk) :
  storageReady sdk env s ->
  bucket_file sdk filePath (world s) = (Normal tt, w1) ->
  file_getMetadata sdk filePath w1 = (Normal md, w2) ->
  outcome (getFileSize sdk env filePath s) = Normal (reportedSize (md_size md)).
Proof.
  intros Hready Hfile Hmd. unfold getFileSize.
  match goal with
  | |- context [guarded sdk env ?body s] =>
      destruct (guarded_ready body s Hready) as (s0 & e0 & Hinit & Hw & Hq & ->)
  end.
  unfold bind, fileCall, storageStep, sdkCall, ret. rewrite Hw, Hfile. simpl.
  rewrite Hmd. reflexivity.
Qed.

End Facts.

End Facade.

(** ** The PDF to image helper: scale, names, the loader and the attempts *)

Module Pdf2ImgFacts.
Import Pdf2Img.

(** *** The render scale *)

(** The scale is [NaN] exactly when the width is. *)
Lemma renderScale_nan (w : Number) : isNaN (renderScale w) = isNaN w.
Proof.
  unfold renderScale. rewrite mathMin_nan, mathMax_nan, numDiv_nan.
  change (ofZ 2000) with (SpecFloat.S754_finite false 8796093022208000 (-42)).
  now destruct w.
Qed.

Lemma renderScale_bounds (w : Number) :
  isNaN w = false ->
  numLeb (ofZ 1) (renderScale w) = true /\ numLeb (renderScale w) (ofZ 4) = true.
Proof.
  intros Hw. pose proof (renderScale_nan w) as Hs. rewrite Hw in Hs.
  unfold renderScale in *. rewrite mathMin_nan in Hs. cbn [isNaN ofZ orb] in Hs.
  change (isNaN (ofZ 4)) with false in Hs. cbn [orb] in Hs.
  set (m := mathMax (ofZ 1) (numDiv (ofZ 2000) w)) in *.
  assert (Hq : isNaN (numDiv (ofZ 2000) w) = false).
  { unfold m in Hs. rewrite mathMax_nan in Hs. now apply orb_false_elim in Hs. }
  destruct (mathMax_spec (ofZ 1) (numDiv (ofZ 2000) w) eq_refl Hq) as (_ & H1 & _).
  fold m in H1.
  destruct (mathMin_spec (ofZ 4) m eq_refl Hs) as ([-> | ->] & H4 & Hm).
  - now split.
  - split; [exact H1|exact H4].
Qed.

(** *** The name of the image *)

Lemma stripPdfSuffix_suffix (base ext : string) :
  toLowerCase ext = ".pdf" -> stripPdfSuffix (base +++ ext) = base.
Proof.
  intros Hext.
  assert (Hlen : String.length ext = 4%nat)
    by (rewrite <- toLowerCase_length, Hext; reflexivity).
  induction base as [|c base IH].
  - cbn [String.append]. destruct ext as [|c ext]; [discriminate|].
    cbn [stripPdfSuffix]. now rewrite Hext.
  - cbn [String.append stripPdfSuffix]. rewrite IH.
    destruct (String.eqb_spec (toLowerCase (String c (base +++ ext))) ".pdf") as [E|_];
      [|reflexivity].
    apply (f_equal String.length) in E. rewrite toLowerCase_length in E.
    cbn [String.length] in E. rewrite append_length, Hlen in E. simpl in E. lia.
Qed.

Lemma stripPdfSuffix_other (name : string) :
  endsWith (toLowerCase name) ".pdf" = false -> stripPdfSuffix name = name.
Proof.
  induction name as [|c rest IH]; [reflexivity|].
  cbn [toLowerCase endsWith stripPdfSuffix]. fold (toLowerCase (String c rest)).
  change (String (lowerChar c) (toLowerCase rest)) with (toLowerCase (String c rest)).
  destruct (String.eqb (toLowerCase (String c rest)) ".pdf"); [discriminate|].
  intros H. now rewrite (IH H).
Qed.

(** *** Relations between the state before and after a run *)

Section Relating.
Context {T E S : Type}.
Variable R : S -> S -> Prop.
Hypothesis R_refl : forall s, R s s.
Hypothesis R_trans : forall a b c, R a b -> R b c -> R a c.

Definition relates {A} (m : MOf T E S A) : Prop := forall s, R s (final (m s)).

Lemma relates_ret {A} (a : A) : relates (ret (T := T) (E := E) a).
Proof. intro s. apply R_refl. Qed.

Lemma relates_throw {A} (t : T) : relates (A := A) (throw (E := E) t).
Proof. intro s. apply R_refl. Qed.

Lemma relates_get : relates (get (T := T) (E := E)).
Proof. intro s. apply R_refl. Qed.

Lemma relates_emit (e : E) : relates (emit (T := T) e).
Proof. intro s. apply R_refl. Qed.

Lemma relates_bind {A B} (m : MOf T E S A) (k : A -> MOf T E S B) :
  relates m -> (forall a, relates (k a)) -> relates (bind m k).
Proof.
  intros Hm Hk s. rewrite bind_final. specialize (Hm s).
  destruct (outcome (m s)); [|exact Hm].
  eapply R_trans; [exact Hm|apply Hk].
Qed.

Lemma relates_tryCatch {A} (m : MOf T E S A) (h : T -> MOf T E S A) :
  relates m -> (forall t, relates (h t)) -> relates (tryCatch m h).
Proof.
  intros Hm Hh s. rewrite tryCatch_final. specialize (Hm s).
  destruct (outcome (m s)); [exact Hm|].
  eapply R_trans; [exact Hm|apply Hh].
Qed.

End Relating.

Section Facts.
Variable pf : Platform.

(** *** What an attempt returns *)

(** The result of an attempt on [file]: a failure, or the image named after
    the file. *)
Definition attemptResult (file : option FileObj) (r : PdfConversionResult) : Prop :=
  (exists msg, r = failure msg)
  \/ (exists f url blob,
        file = Some f
        /\ r = mkResult url
                 (Some (mkImageFile (stripPdfSuffix (file_name f) +++ ".png")
                          "image/png" blob))
                 None).

Definition attemptResultOr {A} (file : option FileObj) (x : PdfConversionResult + A) : Prop :=
  match x with inl r => attemptResult file r | inr _ => True end.

Lemma ensures_bind_true {A B} (P : B -> Prop) (m : Op pf A) (k : A -> Op pf B) :
  (forall a, ensures P (k a)) -> ensures P (bind m k).
Proof.
  intros Hk. apply (ensures_bind (fun _ => True)); [apply ensures_any|auto].
Qed.

Ltac fails := apply ensures_ret; left; eexists; reflexivity.

Lemma ensures_orReturn_failure {A} (file : option FileObj) (m : Op pf A) (prefix : string) :
  ensures (attemptResultOr file) (orReturn pf m prefix).
Proof.
  unfold orReturn. apply ensures_tryCatch.
  - apply ensures_bind_true. intro a. now apply ensures_ret.
  - intro e. apply ensures_bind_true. intro msg. fails.
Qed.

Lemma ensures_attemptResult (file : option FileObj) :
  ensures (attemptResult file) (attemptPdfConversion pf file).
Proof.
  unfold attemptPdfConversion.
  apply ensures_tryCatch; [|intro err; apply ensures_bind_true; intro msg; fails].
  unfold conversionBody.
  destruct (negb (hasWindow pf) || negb (hasDocument pf))%bool; [fails|].
  destruct file as [f|]; [|fails].
  destruct (file_size f =? 0); [fails|].
  destruct (negb (includes (file_type f) "pdf")
            && negb (endsWith (toLowerCase (file_name f)) ".pdf"))%bool; [fails|].
  apply ensures_bind_true. intros _.
  apply (ensures_bind (attemptResultOr (Some f))); [apply ensures_orReturn_failure|].
  intros [r|buffer] Hr; [now apply ensures_ret|].
  destruct (Nat.eqb (List.length buffer) 0); [fails|].
  apply (ensures_bind (attemptResultOr (Some f))).
  { unfold parseDocument. apply ensures_tryCatch.
    - apply ensures_bind_true. intro s. apply ensures_bind_true. intro pdf.
      now apply ensures_ret.
    - intro e. apply ensures_bind_true. intro msg. destruct (workerTrouble msg).
      + apply ensures_bind_true. intros _. apply ensures_orReturn_failure.
      + fails. }
  intros [r|[pdf|]] Hp; [now apply ensures_ret| |fails].
  destruct (numPages pdf =? 0); [fails|].
  unfold renderFirstPage.
  apply ensures_bind_true. intro page.
  apply ensures_bind_true. intro baseViewport. cbv zeta.
  apply ensures_bind_true. intro viewport.
  apply ensures_bind_true. intro context.
  destruct (negb context); [fails|].
  apply ensures_bind_true. intros _.
  apply (ensures_bind (attemptResultOr (Some f))).
  { unfold createBlob. apply ensures_bind_true. intros [b|]; [now apply ensures_ret|].
    apply ensures_tryCatch.
    - apply ensures_bind_true. intro dataUrl. apply ensures_bind_true. intro finalBlob.
      now apply ensures_ret.
    - intros _. fails. }
  intros [r|finalBlob] Hf; [now apply ensures_ret|]. cbv zeta.
  apply ensures_bind_true. intro url. apply ensures_ret.
  right. exists f, url, finalBlob. split; reflexivity.
Qed.

(** *** The loader and the worker settings *)

(** A set [loadPromise] has been settled with the loaded library. *)
Definition loaderSettled (s : State pf) : Prop :=
  loadPromise s = true -> pdfjsLib s = true.

(** From one state of the module to a later one: a settled loader stays
    settled, a loaded library stays loaded, a worker that was turned off
    stays off. *)
Definition later (s s' : State pf) : Prop :=
  (loaderSettled s -> loaderSettled s')
  /\ (pdfjsLib s = true -> pdfjsLib s' = true)
  /\ (disableWorker (lib s) = true -> disableWorker (lib s') = true).

Lemma later_refl (s : State pf) : later s s.
Proof. now repeat split. Qed.

Lemma later_trans (a b c : State pf) : later a b -> later b c -> later a c.
Proof.
  intros (H1 & H2 & H3) (K1 & K2 & K3). split; [|split]; auto.
Qed.

Local Notation keeps := (relates later) (only parsing).

Lemma keeps_platformCall {A} (f : World pf -> Outcome pf A * World pf) :
  keeps (platformCall pf f).
Proof.
  intro s. unfold platformCall, call. destruct (f (world s)) as [c w]. simpl.
  now repeat split.
Qed.

Lemma keeps_liftC {A} (c : Outcome pf A) : keeps (liftC pf c).
Proof. intro s. apply later_refl. Qed.

Lemma keeps_withoutWorker : keeps (withoutWorker pf).
Proof. intro s. unfold withoutWorker, setLib. simpl. now repeat split. Qed.

Lemma keeps_delay (ms : Z) : keeps (delay pf ms).
Proof. intro s. unfold delay. simpl. now repeat split. Qed.

(** [loadPdfJs] from a settled loader: when it returns the library is
    loaded, and when it throws nothing is loaded and no promise is kept, so
    that the next call imports again. *)
Lemma loadPdfJs_run (s : State pf) :
  later s (final (loadPdfJs pf s))
  /\ (loaderSettled s ->
      match outcome (loadPdfJs pf s) with
      | Normal _ => pdfjsLib (final (loadPdfJs pf s)) = true
      | Throw _ => pdfjsLib (final (loadPdfJs pf s)) = false
                   /\ loadPromise (final (loadPdfJs pf s)) = false
      end).
Proof.
  unfold loadPdfJs, later, loaderSettled, withoutWorker, setLib, platformCall, liftC.
  unfold bind, tryCatch, get, put, call, ret, throw.
  destruct s as [[|] [|] cfg w]; simpl.
  - repeat split; auto.
  - repeat split; auto.
  - split; [repeat split; auto|]. intros H. now apply H.
  - destruct (hasWindow pf); simpl.
    2:{ split; [repeat split; auto|]. intros _. now split. }
    destruct (importPdfJs pf w) as [[[]|t] w1]; simpl.
    2:{ split; [repeat split; auto; discriminate|]. intros _. now split. }
    destruct (resolveWorkerSrc pf) as [src|t]; simpl;
      (split; [repeat split; auto; discriminate|]); intros _; reflexivity.
Qed.

Ltac keeping :=
  repeat first
    [ apply relates_ret; exact later_refl
    | apply relates_throw; exact later_refl
    | apply relates_get; exact later_refl
    | apply relates_emit; exact later_refl
    | apply keeps_platformCall | apply keeps_liftC | apply keeps_withoutWorker
    | apply keeps_delay
    | apply relates_bind; [exact later_trans| |intros ?]
    | apply relates_tryCatch; [exact later_trans| |intros ?]
    | match goal with
      | |- relates _ (match ?x with _ => _ end) => destruct x
      | |- relates _ (if ?x then _ else _) => destruct x
      end
    | progress cbv zeta ].

Lemma keeps_loadPdfJs : keeps (loadPdfJs pf).
Proof. intro s. apply loadPdfJs_run. Qed.

Lemma keeps_attempt (file : option FileObj) : keeps (attemptPdfConversion pf file).
Proof.
  unfold attemptPdfConversion, conversionBody, renderFirstPage, createBlob,
    parseDocument, orReturn, describe, parseTrouble, getMessage, textOf, hole,
    textOfMessage.
  pose proof keeps_loadPdfJs as Hload.
  repeat first
    [ exact Hload
    | apply relates_ret; exact later_refl
    | apply relates_throw; exact later_refl
    | apply relates_get; exact later_refl
    | apply keeps_platformCall | apply keeps_liftC | apply keeps_withoutWorker
    | apply relates_bind; [exact later_trans| |intros ?]
    | apply relates_tryCatch; [exact later_trans| |intros ?]
    | match goal with
      | |- relates _ (match ?x with _ => _ end) => destruct x
      | |- relates _ (if ?x then _ else _) => destruct x
      end
    | progress cbv zeta ].
Qed.

Lemma keeps_attemptLogged (file : option FileObj) : keeps (attemptLogged pf file).
Proof.
  intro s. pose proof (keeps_attempt file s) as H. unfold attemptLogged.
  destruct (attemptPdfConversion pf file s). exact H.
Qed.

Lemma keeps_convertLoop (file : option FileObj) (maxRetries : Z) (fuel : nat) :
  forall attempt lastError, keeps (convertLoop pf file maxRetries fuel attempt lastError).
Proof.
  induction fuel as [|fuel IH]; intros attempt lastError; cbn [convertLoop].
  - apply relates_ret. exact later_refl.
  - destruct (attempt <=? maxRetries); [|apply relates_ret; exact later_refl].
    apply relates_bind; [exact later_trans| |].
    + apply relates_tryCatch; [exact later_trans| |].
      * apply relates_bind; [exact later_trans|apply keeps_attemptLogged|].
        intros result. unfold console_warn. keeping.
      * intros err.
        unfold onThrown, messageText, getMessage, hole, console_warn. keeping.
    + intros [result|e]; [apply relates_ret; exact later_refl|apply IH].
Qed.

Lemma keeps_convertPdfToImage (file : option FileObj) (maxRetries : Z) :
  keeps (convertPdfToImage pf file maxRetries).
Proof.
  unfold convertPdfToImage. apply relates_bind; [exact later_trans|apply keeps_convertLoop|].
  intros [result|lastError]; [apply relates_ret; exact later_refl|].
  unfold lastMessage, getMessage, hole. keeping.
Qed.

(** *** The attempts of one conversion *)

(** Every attempt but the last reported an error, what is returned is a
    failure or the image named after the file, and a result with an error
    is returned only after all the attempts allowed. *)
Lemma convertPdfToImage_attempts (file : option FileObj) (maxRetries : Z) (s : State pf) :
  let c := convertPdfToImage pf file maxRetries s in
  Forall (fun r => truthyOpt (error r) = true) (removelast (results (emitted c)))
  /\ (forall r, outcome c = Normal r -> attemptResult file r)
  /\ (forall r, 1 <= maxRetries -> outcome c = Normal r -> truthyOpt (error r) = true ->
        countAttempts (emitted c) = Z.to_nat maxRetries).
Proof.
  cbn zeta.
  destruct (convertPdfToImage_summary pf file maxRetries s)
    as (_ & Hfrom & Herr & Hnone & Hsome).
  split; [exact Herr|]. split.
  - intros r Hr. destruct (Z_le_gt_dec maxRetries 0) as [Hle|Hgt].
    + destruct (Hnone Hle) as [_ Ho]. rewrite Ho in Hr. injection Hr as <-.
      left. eexists. reflexivity.
    + destruct (Hsome ltac:(lia)) as (last & Hlast & Hcase).
      destruct last as [r'|e].
      * destruct Hcase as (Ho & _). rewrite Ho in Hr. injection Hr as <-.
        rewrite Forall_forall in Hfrom.
        destruct (Hfrom (Normal r') (lastOpt_In _ _ Hlast)) as [s' Hs'].
        pose proof (ensures_attemptResult file s') as Hens. now rewrite Hs' in Hens.
      * destruct Hcase as [(_ & s' & Ho)|(x & s' & Ho & _)].
        -- rewrite Ho in Hr. destruct (outcome (lastMessage pf (Some e) s'));
             [|discriminate].
           injection Hr as <-. left. eexists. reflexivity.
        -- rewrite Ho in Hr. discriminate.
  - intros r Hm Hr Ht. destruct (Hsome Hm) as (last & Hlast & Hcase).
    destruct last as [r'|e].
    + destruct Hcase as (Ho & _ & Hcount). rewrite Ho in Hr. injection Hr as <-.
      now apply Hcount.
    + destruct Hcase as [(Hcount & _)|(x & s' & Ho & _)]; [exact Hcount|].
      rewrite Ho in Hr. discriminate.
Qed.

End Facts.

End Pdf2ImgFacts.

(** ** The OAuth callback: replies, the provider, and the encoding *)

Module OAuthFacts.
Import OAuthCallback.

(** The replies sent in a trace, oldest first. *)
Definition replyOf (e : Event) : list Reply :=
  match e with
  | EvReply r => [r]
  | _ => []
  end.

Definition replies (evs : list Event) : list Reply := flat_map replyOf evs.

(** The four CORS headers, in the order in which the handler sets them. *)
Definition corsHeaders : list Event :=
  [ EvSetHeader "Access-Control-Allow-Credentials" "true";
    EvSetHeader "Access-Control-Allow-Origin" "*";
    EvSetHeader "Access-Control-Allow-Methods" "GET, OPTIONS";
    EvSetHeader "Access-Control-Allow-Headers" "Content-Type, Authorization" ].

(** What [encodeURIComponent] writes: the characters it leaves alone, and
    the percent sign of an escape. *)
Definition uriChar (c : ascii) : bool := (unreserved c || Ascii.eqb c "%")%bool.

(** *** The encoding *)

Lemma hexDigit_unreserved (n : nat) : (n < 16)%nat -> unreserved (hexDigit n) = true.
Proof.
  intros H. do 16 (destruct n as [|n]; [reflexivity|]). lia.
Qed.

Lemma hexDigit_injective (n m : nat) :
  (n < 16)%nat -> (m < 16)%nat -> hexDigit n = hexDigit m -> n = m.
Proof.
  intros Hn Hm H. apply (f_equal nat_of_ascii) in H. unfold hexDigit in H.
  revert H. destruct (Nat.ltb_spec n 10), (Nat.ltb_spec m 10);
    rewrite !nat_ascii_embedding by lia; lia.
Qed.

Lemma percentEncode_chars (s : string) :
  Text.allChars uriChar (percentEncode s) = true.
Proof.
  induction s as [|c rest IH]; [reflexivity|].
  cbn [percentEncode]. destruct (unreserved c) eqn:Ec.
  - cbn [Text.allChars]. unfold uriChar at 1. now rewrite Ec, IH.
  - cbv zeta. cbn [Text.allChars]. rewrite IH.
    pose proof (nat_ascii_bounded c) as Hb.
    assert (H1 : (nat_of_ascii c / 16 < 16)%nat)
      by (apply Nat.Div0.div_lt_upper_bound; lia).
    assert (H2 : (nat_of_ascii c mod 16 < 16)%nat) by (apply Nat.mod_upper_bound; lia).
    unfold uriChar. rewrite (hexDigit_unreserved _ H1), (hexDigit_unreserved _ H2).
    reflexivity.
Qed.

Lemma percentEncode_unreserved (s : string) :
  Text.allChars unreserved s = true -> percentEncode s = s.
Proof.
  induction s as [|c rest IH]; [reflexivity|].
  cbn [Text.allChars percentEncode]. intros H. apply andb_prop in H as [Hc Hrest].
  now rewrite Hc, (IH Hrest).
Qed.

Lemma percentEncode_injective (s1 : string) :
  forall s2, percentEncode s1 = percentEncode s2 -> s1 = s2.
Proof.
  induction s1 as [|c1 r1 IH]; intros [|c2 r2]; cbn [percentEncode]; cbv zeta.
  - reflexivity.
  - destruct (unreserved c2); discriminate.
  - destruct (unreserved c1); discriminate.
  - destruct (unreserved c1) eqn:E1, (unreserved c2) eqn:E2.
    + intros H. injection H as -> H. now rewrite (IH r2 H).
    + intros H. injection H as -> _. discriminate.
    + intros H. injection H as <- _. discriminate.
    + pose proof (nat_ascii_bounded c1) as Hb1.
      pose proof (nat_ascii_bounded c2) as Hb2.
      pose proof (Nat.div_mod_eq (nat_of_ascii c1) 16) as Hd1.
      pose proof (Nat.div_mod_eq (nat_of_ascii c2) 16) as Hd2.
      assert (Hq1 : (nat_of_ascii c1 / 16 < 16)%nat)
        by (apply Nat.Div0.div_lt_upper_bound; lia).
      assert (Hq2 : (nat_of_ascii c2 / 16 < 16)%nat)
        by (apply Nat.Div0.div_lt_upper_bound; lia).
      assert (Hm1 : (nat_of_ascii c1 mod 16 < 16)%nat) by (apply Nat.mod_upper_bound; lia).
      assert (Hm2 : (nat_of_ascii c2 mod 16 < 16)%nat) by (apply Nat.mod_upper_bound; lia).
      remember (nat_of_ascii c1 / 16)%nat as q1.
      remember (nat_of_ascii c2 / 16)%nat as q2.
      remember (nat_of_ascii c1 mod 16)%nat as m1.
      remember (nat_of_ascii c2 mod 16)%nat as m2.
      intros H. injection H as Hhi Hlo H.
      apply hexDigit_injective in Hhi; [|exact Hq1|exact Hq2].
      apply hexDigit_injective in Hlo; [|exact Hm1|exact Hm2].
      f_equal; [|now apply IH].
      rewrite <- (ascii_nat_embedding c1), <- (ascii_nat_embedding c2).
      f_equal. lia.
Qed.

(** Text in the characters that are left alone is well formed. *)
Lemma unreserved_wellFormed (s : string) :
  Text.allChars unreserved s = true -> wellFormed s = true.
Proof.
  induction s as [|c rest IH]; [reflexivity|].
  cbn [Text.allChars wellFormed]. intros H. apply andb_prop in H as [Hc Hrest].
  assert (Ha : between 0 127 c = true)
    by (destruct c as [[] [] [] [] [] [] [] []]; try discriminate Hc; reflexivity).
  rewrite Ha. now apply IH.
Qed.

Section Facts.
Variable auth : Auth.

(** *** The replies of a run *)

Lemma processing_replies (req : Request) (w : World auth) :
  match processing auth req w with
  | mkRun (Normal r) _ evs => replies evs = [r] /\ lastOpt evs = Some (EvReply r)
  | mkRun (Throw _) _ evs => replies evs = []
  end.
Proof.
  unfold processing. cbv zeta.
  unfold bind, call, reply, lift, emit, ret.
  destruct (truthyQ (q_error (query req))); simpl.
  { destruct (encodeURIComponent _); simpl; [now split|reflexivity]. }
  destruct (codeString (q_code (query req))) as [c|]; simpl; [|now split].
  destruct (getGoogleUserInfo auth c w) as [[user|t] w1]; simpl; [|reflexivity].
  destruct (negb (truthyOpt (g_email user))); simpl; [now split|].
  destruct (createUserSession auth _ _ _ w1) as [[token|t] w2]; simpl; [|reflexivity].
  destruct (setSessionCookie auth token w2) as [[[]|t] w3]; simpl; [|reflexivity].
  destruct (verifyStateToken auth (q_state (query req))) as [sd|t]; simpl;
    [now split|reflexivity].
Qed.

(** Every run of the handler: the four headers, then whatever the
    processing did. When the handler returns, it has sent one reply, at the
    end, and returns it. It throws only what the encoding of the message
    throws in the [catch] block, after a processing that threw, and it has
    sent no reply then. *)
Lemma handler_run (req : Request) (w : World auth) :
  exists rest,
    emitted (handler auth req w) = corsHeaders ++ rest
    /\ match outcome (handler auth req w) with
       | Normal r => replies rest = [r] /\ lastOpt rest = Some (EvReply r)
       | Throw x =>
           replies rest = []
           /\ method req = "GET"
           /\ exists t, outcome (processing auth req w) = Throw t
                        /\ encodeURIComponent (errorMessage t) = Throw x
       end.
Proof.
  pose proof (processing_replies req w) as Hp.
  unfold handler, setHeader, reply, lift, bind, tryCatch, emit, ret.
  destruct (String.eqb (method req) "OPTIONS"); simpl.
  { exists [EvReply (EndWith 200)]. now repeat split. }
  destruct (String.eqb_spec (method req) "GET") as [Hm|Hm]; simpl.
  2:{ eexists. split; [reflexivity|]. now repeat split. }
  destruct (processing auth req w) as [[r|t] w1 evs]; simpl.
  - exists evs. destruct Hp as [Hr Hl]. now repeat split.
  - destruct (encodeURIComponent (errorMessage t)) as [encoded|x] eqn:Ee; simpl.
    + eexists. split; [reflexivity|]. split.
      * unfold replies in *. rewrite flat_map_app, Hp. reflexivity.
      * rewrite lastOpt_app_cons. reflexivity.
    + eexists. split; [reflexivity|]. split; [|split; [exact Hm|]].
      * unfold replies in *. rewrite flat_map_app, Hp. reflexivity.
      * exists t. now split.
Qed.

(** *** Requests that do not reach the provider *)

Lemma handler_not_GET (req : Request) (w : World auth) :
  method req <> "GET" ->
  final (handler auth req w) = w
  /\ outcome (handler auth req w)
     = Normal (if String.eqb (method req) "OPTIONS" then EndWith 200
               else JsonWith 405 [("error", "Method not allowed")]).
Proof.
  intros Hm. unfold handler, setHeader, reply, lift, bind, tryCatch, emit, ret.
  destruct (String.eqb (method req) "OPTIONS"); simpl; [now split|].
  destruct (String.eqb_spec (method req) "GET"); [congruence|]. simpl. now split.
Qed.

Lemma handler_GET_final (req : Request) (w : World auth) :
  method req = "GET" ->
  final (handler auth req w) = final (processing auth req w).
Proof.
  intros Hm. unfold handler, setHeader, reply, lift, bind, tryCatch, emit, ret.
  rewrite Hm. simpl.
  destruct (processing auth req w) as [[r|t] w1 e1]; [reflexivity|].
  cbn [outcome]. destruct (encodeURIComponent (errorMessage t)); reflexivity.
Qed.

Lemma processing_early (req : Request) (w : World auth) :
  truthyQ (q_error (query req)) = true \/ codeString (q_code (query req)) = None ->
  final (processing auth req w) = w.
Proof.
  unfold processing. cbv zeta. unfold bind, call, reply, lift, emit, ret.
  intros [H|H].
  - rewrite H. simpl. now destruct (encodeURIComponent _).
  - destruct (truthyQ (q_error (query req))).
    + simpl. now destruct (encodeURIComponent _).
    + rewrite H. reflexivity.
Qed.

(** *** A sign-in that succeeds *)

Lemma processing_signs_in (req : Request) (w w1 w2 w3 : World auth) (c token : string)
    (user : GoogleUser) (stateData : option StateData) :
  truthyQ (q_error (query req)) = false ->
  codeString (q_code (query req)) = Some c ->
  getGoogleUserInfo auth c w = (Normal user, w1) ->
  truthyOpt (g_email user) = true ->
  createUserSession auth (g_id user) (g_name user) (interpolate (g_email user)) w1
  = (Normal token, w2) ->
  setSessionCookie auth token w2 = (Normal tt, w3) ->
  verifyStateToken auth (q_state (query req)) = Normal stateData ->
  outcome (processing auth req w)
  = Normal (Redirect 302
              (orElse (match stateData with
                       | Some d => redirectTo d
                       | None => None
                       end) "/upload"))
  /\ final (processing auth req w) = w3.
Proof.
  intros He Hc Hu Hemail Hs Hk Hv.
  unfold processing. cbv zeta. rewrite He, Hc.
  unfold bind, call, reply, lift, emit, ret. rewrite Hu. simpl. rewrite Hemail. simpl.
  rewrite Hs. simpl. rewrite Hk. simpl. rewrite Hv. simpl. now split.
Qed.

End Facts.

End OAuthFacts.

(** ** The database scripts: the statements again *)

Module ScriptsFacts.
Import Scripts.

(** *** Runs that always return *)

Section Total.
Context {E S : Type}.

Lemma total_bind {A B} (m : M E S A) (k : A -> M E S B) :
  total m -> (forall a, total (k a)) -> total (bind m k).
Proof.
  intros Hm Hk s. rewrite bind_outcome. destruct (Hm s) as [a ->]. apply Hk.
Qed.

Lemma total_emit (e : E) : total (T := Thrown) (S := S) (emit e).
Proof. intro s. now exists tt. Qed.

Lemma total_get : total (T := Thrown) (E := E) (S := S) get.
Proof. intro s. now exists s. Qed.

Lemma total_forEachFrom {A} (xs : list A) (body : nat -> A -> M E S unit) :
  (forall i x, total (body i x)) -> forall i, total (forEachFrom i xs body).
Proof.
  intros Hbody. induction xs as [|x rest IH]; intros i; simpl.
  - apply total_ret.
  - apply total_bind; [apply Hbody|]. intros _. apply IH.
Qed.

(** What a run emits last, when its last step emits it. *)
Lemma bind_last {A B} (m : M E S A) (k : A -> M E S B) (e : E) :
  total m -> (forall a s, lastOpt (emitted (k a s)) = Some e) ->
  forall s, lastOpt (emitted (bind m k s)) = Some e.
Proof.
  intros Hm Hk s. rewrite bind_emitted. destruct (Hm s) as [a Ha]. rewrite Ha.
  specialize (Hk a (final (m s))).
  destruct (emitted (k a (final (m s)))) as [|x l]; [discriminate|].
  now rewrite lastOpt_app_cons.
Qed.

Lemma bind_In_left {A B} (m : M E S A) (k : A -> M E S B) (s : S) (e : E) :
  In e (emitted (m s)) -> In e (emitted (bind m k s)).
Proof. intros H. rewrite bind_emitted. apply in_or_app. now left. Qed.

Lemma bind_In_right {A B} (m : M E S A) (k : A -> M E S B) (s : S) (e : E) (a : A) :
  outcome (m s) = Normal a -> In e (emitted (k a (final (m s)))) ->
  In e (emitted (bind m k s)).
Proof. intros Ho H. rewrite bind_emitted, Ho. apply in_or_app. now right. Qed.

(** An event that one iteration emits is emitted by the loop. *)
Lemma forEachFrom_emits {A} (xs : list A) (body : nat -> A -> M E S unit) (ev : A -> E) :
  (forall i x, total (body i x)) ->
  (forall i x s, In (ev x) (emitted (body i x s))) ->
  forall x, In x xs -> forall i s, In (ev x) (emitted (forEachFrom i xs body s)).
Proof.
  intros Htotal Hev x. induction xs as [|y rest IH]; intros Hin i s; [destruct Hin|].
  simpl. rewrite bind_emitted. apply in_or_app.
  destruct Hin as [->|Hin].
  - left. apply Hev.
  - right. destruct (Htotal i y s) as [[] ->]. now apply IH.
Qed.

End Total.

(** *** The migration script *)

Section Migrating.
Variable readFileSync : string -> Completion string.
Variable other : string -> Database -> Completion unit * Database.

Lemma total_runMigration (migration : string) :
  total (runMigration readFileSync other migration).
Proof.
  unfold runMigration. apply total_bind; [apply total_emit|]. intros _.
  apply total_tryCatch. intros error.
  destruct (messageIncludes error "already exists" || messageIncludes error "duplicate")%bool;
    apply total_emit.
Qed.

Lemma runMigration_starts (migration : string) (db : Database) :
  In (EvLog ("📄 Running migration: " +++ migration))
     (emitted (runMigration readFileSync other migration db)).
Proof. unfold runMigration. apply bind_In_left. now left. Qed.

Lemma total_verifySchema : total (verifySchema).
Proof.
  unfold verifySchema. apply total_bind; [apply total_emit|]. intros _.
  apply total_bind; [apply total_get|]. intros db. cbv zeta.
  apply total_bind; [apply total_emit|]. intros _.
  apply total_bind.
  - apply total_forEachFrom. intros i c. apply total_emit.
  - intros _. destruct (hasColumn _ _); [apply total_emit|apply total_ret].
Qed.

Lemma runMigrations_run (db : Database) :
  outcome (runMigrations readFileSync other db) = Normal tt
  /\ Forall (fun migration =>
               In (EvLog ("📄 Running migration: " +++ migration))
                  (emitted (runMigrations readFileSync other db))) migrations
  /\ lastOpt (emitted (runMigrations readFileSync other db))
     = Some (EvLog (LF +++ "✅ Database is ready!")).
Proof.
  assert (Hloop : forall i, total (forEachFrom i migrations
                                     (fun _ migration => runMigration readFileSync other migration)))
    by (apply total_forEachFrom; intros i m; apply total_runMigration).
  split; [|split].
  - assert (Ht : total (runMigrations readFileSync other)).
    { unfold runMigrations. apply total_bind; [apply total_emit|]. intros _.
      apply total_bind; [apply Hloop|]. intros _.
      apply total_bind; [apply total_emit|]. intros _.
      apply total_bind; [apply total_verifySchema|]. intros _. apply total_emit. }
    destruct (Ht db) as [[] ->]. reflexivity.
  - rewrite Forall_forall. intros migration Hin.
    unfold runMigrations. apply (bind_In_right _ _ _ _ tt); [reflexivity|].
    apply bind_In_left.
    apply (forEachFrom_emits migrations _
             (fun migration => EvLog ("📄 Running migration: " +++ migration))).
    + intros i m. apply total_runMigration.
    + intros i m s. apply runMigration_starts.
    + exact Hin.
  - unfold runMigrations.
    apply bind_last; [apply total_emit|]. intros _ s1.
    apply bind_last; [apply Hloop|]. intros _ s2.
    apply bind_last; [apply total_emit|]. intros _ s3.
    apply bind_last; [apply total_verifySchema|]. intros _ s4. reflexivity.
Qed.

End Migrating.

(** A migration whose file cannot be read changes nothing. *)
Lemma runMigration_unreadable (readFileSync : string -> Completion string)
    (other : string -> Database -> Completion unit * Database)
    (migration : string) (t : Thrown) (db : Database) :
  readFileSync migration = Throw t ->
  final (runMigration readFileSync other migration db) = db.
Proof.
  intros Hread. unfold runMigration, bind, tryCatch, emit. rewrite Hread. simpl.
  destruct (messageIncludes t "already exists" || messageIncludes t "duplicate")%bool;
    reflexivity.
Qed.

Lemma runMigrations_unreadable (readFileSync : string -> Completion string)
    (other : string -> Database -> Completion unit * Database) (db : Database) :
  (forall name, exists t, readFileSync name = Throw t) ->
  final (runMigrations readFileSync other db) = db.
Proof.
  intros Hread.
  assert (Hone : forall migration,
            preserves (fun d => d) (runMigration readFileSync other migration)).
  { intros migration d. destruct (Hread migration) as [t Ht].
    now apply (runMigration_unreadable readFileSync other migration t). }
  assert (Hall : preserves (fun d => d) (runMigrations readFileSync other)).
  { unfold runMigrations, verifySchema.
    apply preserves_bind; [apply preserves_emit|]. intros _.
    apply preserves_bind.
    { apply preserves_forEachFrom. intros i m. apply Hone. }
    intros _.
    apply preserves_bind; [apply preserves_emit|]. intros _.
    apply preserves_bind; [|intros _; apply preserves_emit].
    apply preserves_bind; [apply preserves_emit|]. intros _.
    apply preserves_bind; [now intro|]. intros d. cbv zeta.
    apply preserves_bind; [apply preserves_emit|]. intros _.
    apply preserves_bind.
    { apply preserves_forEachFrom. intros i c. apply preserves_emit. }
    intros _. destruct (hasColumn _ _); [apply preserves_emit|apply preserves_ret]. }
  exact (Hall db).
Qed.

(** A directory without any migration file. *)
Definition noFiles (name : string) : Completion string := noSuchFile name.

(** *** Statements that have run *)

(** What a statement of a migration creates is there. *)
Definition present (st : Stmt) (db : Database) : bool :=
  match st with
  | CreateTableIfNotExists name _ _ => hasTable name db
  | CreateIndexIfNotExists index _ _ => existsb (String.eqb index) (indexes (schema db))
  | AddColumnIfNotExists table column =>
      match tableOf table (schema db) with
      | Some columns => hasColumn column columns
      | None => false
      end
  end.

Definition lookupTable (name : string) (ts : list (string * list string))
    : option (list string) :=
  option_map snd (find (fun t => String.eqb (fst t) name) ts).

Lemma lookupTable_app (name : string) (ts more : list (string * list string)) :
  lookupTable name (ts ++ more) =
  match lookupTable name ts with
  | Some columns => Some columns
  | None => lookupTable name more
  end.
Proof.
  unfold lookupTable. induction ts as [|t ts IH]; [reflexivity|]. simpl.
  destruct (String.eqb (fst t) name); [reflexivity|exact IH].
Qed.

Lemma lookupTable_addColumn (name table column : string) (ts : list (string * list string)) :
  lookupTable name (addColumn table column ts) =
  match lookupTable name ts with
  | Some columns =>
      if String.eqb name table
      then match lookupTable table ts with
           | Some _ => Some (columns ++ [column])
           | None => Some columns
           end
      else Some columns
  | None => None
  end.
Proof.
  unfold lookupTable. induction ts as [|[n cs] ts IH]; [reflexivity|]. simpl.
  destruct (String.eqb_spec n table) as [->|Hn]; simpl.
  - destruct (String.eqb_spec table name) as [<-|Hneq]; simpl.
    + now rewrite String.eqb_refl.
    + destruct (find _ ts) as [[n' cs']|]; simpl; [|reflexivity].
      destruct (String.eqb_spec name table); [congruence|reflexivity].
  - destruct (String.eqb_spec n name) as [->|Hneq]; simpl.
    + destruct (String.eqb_spec name table); [congruence|reflexivity].
    + exact IH.
Qed.

Lemma hasColumn_app (column : string) (columns more : list string) :
  hasColumn column columns = true -> hasColumn column (columns ++ more) = true.
Proof. unfold hasColumn. intros H. now rewrite existsb_app, H. Qed.

Lemma hasColumn_last (column : string) (columns : list string) :
  hasColumn column (columns ++ [column]) = true.
Proof.
  unfold hasColumn. rewrite existsb_app. simpl. now rewrite String.eqb_refl, orb_true_r.
Qed.

(** A statement that has what it creates does nothing. *)
Lemma execStmt_present (st : Stmt) (db : Database) :
  present st db = true -> execStmt st db = (Normal tt, db).
Proof.
  destruct st; simpl.
  - now intros ->.
  - now intros ->.
  - destruct (tableOf table (schema db)) as [columns|]; [|discriminate]. now intros ->.
Qed.

(** A statement that succeeds leaves what it creates. *)
Lemma execStmt_creates (st : Stmt) (db db1 : Database) :
  execStmt st db = (Normal tt, db1) -> present st db1 = true.
Proof.
  destruct st; simpl.
  - destruct (hasTable name db) eqn:Eh; [intros H; injection H as <-; exact Eh|].
    destruct (find _ references); [discriminate|].
    intros H. injection H as <-. unfold hasTable, tableOf in *. simpl.
    fold (lookupTable name (tables (schema db) ++ [(name, columns)])).
    rewrite lookupTable_app. fold (lookupTable name (tables (schema db))) in Eh.
    destruct (lookupTable name (tables (schema db))); [discriminate|].
    unfold lookupTable. simpl. now rewrite String.eqb_refl.
  - destruct (existsb _ (indexes (schema db))) eqn:Ei;
      [intros H; injection H as <-; exact Ei|].
    destruct (tableOf table (schema db)); [|discriminate].
    destruct (find _ columns); [discriminate|].
    intros H. injection H as <-. simpl. rewrite existsb_app. simpl.
    now rewrite String.eqb_refl, orb_true_r.
  - destruct (tableOf table (schema db)) as [columns|] eqn:Et; [|discriminate].
    destruct (hasColumn column columns) eqn:Ec.
    + intros H. injection H as <-. now rewrite Et.
    + intros H. injection H as <-. unfold tableOf in *. simpl.
      fold (lookupTable table (addColumn table column (tables (schema db)))).
      fold (lookupTable table (tables (schema db))) in Et.
      rewrite lookupTable_addColumn, Et, String.eqb_refl. apply hasColumn_last.
Qed.

(** What is there stays there when another statement succeeds. *)
Lemma execStmt_keeps (st st' : Stmt) (db db2 : Database) :
  present st db = true -> execStmt st' db = (Normal tt, db2) -> present st db2 = true.
Proof.
  intros Hp Hex.
  assert (Hsc : (tables (schema db2) = tables (schema db)
                 /\ indexes (schema db2) = indexes (schema db))
                \/ (exists name columns,
                      lookupTable name (tables (schema db)) = None
                      /\ tables (schema db2) = tables (schema db) ++ [(name, columns)]
                      /\ indexes (schema db2) = indexes (schema db))
                \/ (exists index,
                      tables (schema db2) = tables (schema db)
                      /\ indexes (schema db2) = indexes (schema db) ++ [index])
                \/ (exists table column,
                      tables (schema db2) = addColumn table column (tables (schema db))
                      /\ indexes (schema db2) = indexes (schema db))).
  { destruct st'; simpl in Hex.
    - destruct (hasTable name db) eqn:Eh; [injection Hex as <-; now left|].
      destruct (find _ references); [discriminate|]. injection Hex as <-.
      right. left. exists name, columns. simpl. split; [|now split].
      unfold hasTable, tableOf in Eh. fold (lookupTable name (tables (schema db))) in Eh.
      now destruct (lookupTable name (tables (schema db))).
    - destruct (existsb _ (indexes (schema db))); [injection Hex as <-; now left|].
      destruct (tableOf table (schema db)); [|discriminate].
      destruct (find _ columns); [discriminate|]. injection Hex as <-.
      right. right. left. exists index. now split.
    - destruct (tableOf table (schema db)) as [columns|]; [|discriminate].
      destruct (hasColumn column columns); injection Hex as <-; [now left|].
      right. right. right. exists table, column. now split. }
  assert (Htab : forall name columns,
            lookupTable name (tables (schema db)) = Some columns ->
            exists columns', lookupTable name (tables (schema db2)) = Some columns'
                             /\ forall c, hasColumn c columns = true ->
                                          hasColumn c columns' = true).
  { intros name columns Hl.
    destruct Hsc as [[-> _]|[(n & cs & _ & -> & _)|[(i & -> & _)|(t & c & -> & _)]]].
    - now exists columns.
    - rewrite lookupTable_app, Hl. now exists columns.
    - now exists columns.
    - rewrite lookupTable_addColumn, Hl.
      destruct (String.eqb name t); [destruct (lookupTable t (tables (schema db)))|];
        eexists; (split; [reflexivity|]); auto using hasColumn_app. }
  assert (Hidx : forall index,
            existsb (String.eqb index) (indexes (schema db)) = true ->
            existsb (String.eqb index) (indexes (schema db2)) = true).
  { intros index Hi.
    destruct Hsc as [[_ ->]|[(n & cs & _ & _ & ->)|[(i & _ & ->)|(t & c & _ & ->)]]];
      try exact Hi.
    now rewrite existsb_app, Hi. }
  destruct st; simpl in *.
  - unfold hasTable, tableOf in *.
    fold (lookupTable name (tables (schema db))) in Hp.
    fold (lookupTable name (tables (schema db2))).
    destruct (lookupTable name (tables (schema db))) as [columns0|] eqn:El; [|discriminate].
    destruct (Htab name columns0 El) as (columns' & -> & _). reflexivity.
  - now apply Hidx.
  - unfold tableOf in *.
    fold (lookupTable table (tables (schema db))) in Hp.
    fold (lookupTable table (tables (schema db2))).
    destruct (lookupTable table (tables (schema db))) as [columns0|] eqn:El; [|discriminate].
    destruct (Htab table columns0 El) as (columns' & -> & Hcols). now apply Hcols.
Qed.

(** *** The upsert of a user *)

(** Every column of a user but the name. *)
Definition besidesName (u : UserRow) :=
  (u_id u, u_uuid u, u_email u, u_subscription_tier u, u_trial_uses u, u_max_trial_uses u).

Lemma renameByEmail_rows (email name : string) (l l' : list UserRow) (r : UserRow) :
  renameByEmail email name l = Some (l', r) ->
  map besidesName l' = map besidesName l
  /\ u_name r = name
  /\ find (emailIs email) l' = Some r
  /\ option_map besidesName (find (emailIs email) l) = Some (besidesName r).
Proof.
  revert l'. induction l as [|u rest IH]; intros l' H; simpl in H; [discriminate|].
  destruct (emailIs email u) eqn:Eu.
  - injection H as <- <-. simpl. rewrite Eu.
    assert (Er : emailIs email (rename u name) = true) by exact Eu.
    rewrite Er. now repeat split.
  - destruct (renameByEmail email name rest) as [[rest' r']|] eqn:Er; [|discriminate].
    injection H as <- <-. destruct (IH rest' eq_refl) as (Hmap & Hname & Hfind & Hold).
    simpl. rewrite Eu, Hmap. now repeat split.
Qed.

Lemma renameByEmail_held (email name : string) (l : list UserRow) :
  idOfEmail email l <> None -> renameByEmail email name l <> None.
Proof.
  intros H E. apply renameByEmail_none in E. contradiction.
Qed.

End ScriptsFacts.

(** ** app/routes/resume.tsx: loading a resume for the review page *)

Module ResumeRoute.

Definition Blob := Pdf2Img.Blob.

(** The entry of the key-value store, parsed: the properties that the route
    reads, each of which may be missing. *)
Record ResumeData (F : Type) := mkResumeData {
  resumePath : option string;
  imagePath : option string;
  feedback : option F;
  jobTitle : option string;
  jobDescription : option string
}.
Arguments mkResumeData {F}.
Arguments resumePath {F}.
Arguments imagePath {F}.
Arguments feedback {F}.
Arguments jobTitle {F}.
Arguments jobDescription {F}.

(** What [JSON.parse] returns: [null], or a value whose properties can be
    read (for a number, a string or a boolean they are all missing). *)
Inductive Parsed (F : Type) :=
| ParsedNull
| ParsedValue (data : ResumeData F).
Arguments ParsedNull {F}.
Arguments ParsedValue {F}.

(** The store ([useApiStore]) and the browser. [Feedback] is the type of the
    analysis. A read of the file system answers [None] for any falsy value. *)
Record Platform := mkPlatform {
  World : Type;
  Feedback : Type;
  kv_get : string -> World -> Completion (option string) * World;
  JSON_parse : string -> Completion (Parsed Feedback);
  fs_read : option string -> World -> Completion (option Blob) * World;
  createObjectURL : Blob -> World -> Completion string * World;
  sleep : Z -> World -> World
}.

(** The state of the component: [useState('')], [useState(null)], ... *)
Record View (F : Type) := mkView {
  imageUrl : string;
  resumeUrl : string;
  shownFeedback : option F;
  shownJobTitle : string;
  shownJobDescription : string;
  shownResumePath : string;
  shownImagePath : string
}.
Arguments mkView {F}.
Arguments imageUrl {F}.
Arguments resumeUrl {F}.
Arguments shownFeedback {F}.
Arguments shownJobTitle {F}.
Arguments shownJobDescription {F}.
Arguments shownResumePath {F}.
Arguments shownImagePath {F}.

Definition initialView {F : Type} : View F := mkView "" "" None "" "" "" "".

Record State (pf : Platform) := mkState {
  view : View (Feedback pf);
  world : World pf
}.
Arguments mkState {pf}.
Arguments view {pf}.
Arguments world {pf}.

(** How a read ended. *)
Inductive ReadOutcome :=
| Found
| Missing
| Threw (t : Thrown).

Inductive Event :=
| EvKvGet (key : string)
| EvRead (path : option string) (o : ReadOutcome)
| EvDelay (ms : Z)
| EvConsole (lvl : Level) (args : list LogArg)
| EvNavigate (to : string).

Section Code.
Variable pf : Platform.

Local Notation F := (Feedback pf) (only parsing).
Local Notation Op := (M Event (State pf)) (only parsing).

Definition kvGet (key : string) : Op (option string) := fun s =>
  match kv_get pf key (world s) with
  | (c, w) => mkRun c (mkState (view s) w) [EvKvGet key]
  end.

Definition fsRead (path : option string) : Op (option Blob) := fun s =>
  match fs_read pf path (world s) with
  | (Normal (Some b), w) => mkRun (Normal (Some b)) (mkState (view s) w) [EvRead path Found]
  | (Normal None, w) => mkRun (Normal None) (mkState (view s) w) [EvRead path Missing]
  | (Throw t, w) => mkRun (Throw t) (mkState (view s) w) [EvRead path (Threw t)]
  end.

Definition objectUrl (b : Blob) : Op string :=
  call (fun s => match createObjectURL pf b (world s) with
                 | (c, w) => (c, mkState (view s) w)
                 end).

(** [await new Promise(r => setTimeout(r, ms))] *)
Definition delay (ms : Z) : Op unit := fun s =>
  mkRun (Normal tt) (mkState (view s) (sleep pf ms (world s))) [EvDelay ms].

Definition console (lvl : Level) (args : list LogArg) : Op unit :=
  emit (EvConsole lvl args).

(** A state setter of the component. *)
Definition setView (f : View F -> View F) : Op unit := fun s =>
  mkRun (Normal tt) (mkState (f (view s)) (world s)) [].

Definition setResumeUrl (url : string) : Op unit :=
  setView (fun v => mkView (imageUrl v) url (shownFeedback v) (shownJobTitle v)
                      (shownJobDescription v) (shownResumePath v) (shownImagePath v)).

Definition setImageUrl (url : string) : Op unit :=
  setView (fun v => mkView url (resumeUrl v) (shownFeedback v) (shownJobTitle v)
                      (shownJobDescription v) (shownResumePath v) (shownImagePath v)).

(** [setFeedback(data.feedback); setJobTitle(data.jobTitle || "");
    setJobDescription(data.jobDescription || ""); setResumePath(data.resumePath
    || ""); setImagePath(data.imagePath || "")] *)
Definition setDetails (data : ResumeData F) : Op unit :=
  setView (fun v => mkView (imageUrl v) (resumeUrl v) (feedback data)
                      (orElse (jobTitle data) "") (orElse (jobDescription data) "")
                      (orElse (resumePath data) "") (orElse (imagePath data) "")).

(** [for (let i = 0; i < 3; i++) { blob = await fs.read(path); if (blob)
    break; await new Promise(r => setTimeout(r, 500 * (i + 1))); }], from
    [i] on: the blob that the loop leaves. [fuel] bounds the iterations; 3
    is enough from 0. *)
Fixpoint readWithRetry (path : option string) (fuel : nat) (i : Z) : Op (option Blob) :=
  match fuel with
  | O => ret None
  | S fuel' =>
      if i <? 3 then
        blob <- fsRead path ;;
        match blob with
        | Some b => ret (Some b)
        | None => delay (500 * (i + 1)) ;;; readWithRetry path fuel' (i + 1)
        end
      else ret None
  end.

(** Reading a property of [null] throws. *)
Definition nullProperty {A} (name : string) : Op A :=
  throw (ThrowErr (mkErr "TypeError"
                     ("Cannot read properties of null (reading '" +++ name +++ "')"))).

(** [if (resumeBlob) { setResumeUrl(URL.createObjectURL(new Blob([resumeBlob],
    { type: 'application/pdf' }))) } else console.warn(...)], after the reads
    of the PDF. *)
Definition loadPdf (data : ResumeData F) : Op unit :=
  resumeBlob <- readWithRetry (resumePath data) 3 0 ;;
  match resumeBlob with
  | Some b =>
      url <- objectUrl (Pdf2Img.mkBlob "application/pdf" (Pdf2Img.blob_data b)) ;;
      setResumeUrl url
  | None => console LWarn [LStr "Could not load resume PDF"]
  end.

(** The same for the image, whose blob is used as it was read. *)
Definition loadImage (data : ResumeData F) : Op unit :=
  imageBlob <- readWithRetry (imagePath data) 3 0 ;;
  match imageBlob with
  | Some b => url <- objectUrl b ;; setImageUrl url
  | None => console LWarn [LStr "Could not load resume image"]
  end.

(** What follows the parse: both files, then the details. *)
Definition loadData (data : ResumeData F) : Op unit :=
  loadPdf data ;;; loadImage data ;;; setDetails data.

(** [JSON.parse(resume)] in its own [try]: the handler logs and returns. *)
Definition parseEntry (resume : option string) : Op (option (Parsed F)) :=
  tryCatch
    (data <- (fun s => mkRun (JSON_parse pf (interpolate resume)) s []) ;;
     ret (Some data))
    (fun parseError =>
       console LError [LStr "Failed to parse resume data:"; LVal parseError] ;;;
       ret None).

(** The body of the [try] block of [loadResume]. *)
Definition loadBody (id : string) : Op unit :=
  resume <- kvGet ("resume:" +++ id) ;;
  if negb (truthyOpt resume) then
    console LError [LStr "Resume not found in KV store"]
  else
    parsed <- parseEntry resume ;;
    match parsed with
    | None => ret tt
    | Some ParsedNull => nullProperty "resumePath"
    | Some (ParsedValue data) => loadData data
    end.

Definition loadResume (id : string) : Op unit :=
  tryCatch (loadBody id)
    (fun error => console LError [LStr "Error loading resume:"; LVal error]).

(** The first effect: [if (!isLoading && !auth.isAuthenticated)
    navigate(`/auth?next=/resume/${id}`)]. *)
Definition authEffect (isLoading isAuthenticated : bool) (id : option string) : Op unit :=
  if (negb isLoading && negb isAuthenticated)%bool
  then emit (EvNavigate ("/auth?next=/resume/" +++ interpolate id))
  else ret tt.

(** The second effect: [if (id && auth.isAuthenticated) loadResume()]. *)
Definition loadEffect (isAuthenticated : bool) (id : option string) : Op unit :=
  match id with
  | Some i => if (truthy i && isAuthenticated)%bool then loadResume i else ret tt
  | None => ret tt
  end.

End Code.

(** [{imageUrl && resumeUrl && (...)}]: whether the preview is rendered. *)
Definition showsPreview {F : Type} (v : View F) : bool :=
  (truthy (imageUrl v) && truthy (resumeUrl v))%bool.

(** *** Reading a trace *)

Definition isRead (e : Event) : bool :=
  match e with EvRead _ _ => true | _ => false end.

Definition countReads (evs : list Event) : nat := List.length (filter isRead evs).

Definition isError (e : Event) : bool :=
  match e with EvConsole LError _ => true | _ => false end.

(** [n] reads of [path] that found nothing, numbered from [i], each followed
    by its wait of [500 * (i + 1)] ms. *)
Fixpoint misses (path : option string) (i : Z) (n : nat) : list Event :=
  match n with
  | O => []
  | S n' => EvRead path Missing :: EvDelay (500 * (i + 1)) :: misses path (i + 1) n'
  end.

(** *** A store with one resume

    The entry of resume 42 names a PDF that is there and an image that is
    not. *)

Definition demoEntry : string := "{resume 42}".

Definition demoData : ResumeData string :=
  mkResumeData (Some "resumes/42.pdf") (Some "resumes/42.png") (Some "ATS 78")
    (Some "Backend engineer") None.

Definition demoStore : Platform := {|
  World := unit;
  Feedback := string;
  kv_get := fun key w =>
    (Normal (if String.eqb key "resume:42" then Some demoEntry else None), w);
  JSON_parse := fun text =>
    if String.eqb text demoEntry then Normal (ParsedValue demoData)
    else Throw (ThrowErr (mkErr "SyntaxError" "Unexpected token"));
  fs_read := fun path w =>
    (Normal (match path with
             | Some p => if String.eqb p "resumes/42.pdf"
                         then Some (Pdf2Img.mkBlob "" [Byte.x25; Byte.x50])
                         else None
             | None => None
             end), w);
  createObjectURL := fun b w => (Normal ("blob:" +++ Pdf2Img.blob_type b), w);
  sleep := fun _ w => w
|}.

Definition demoStart : State demoStore := @mkState demoStore initialView tt.

(** *** Facts about the route *)

Section Facts.
Variable pf : Platform.

Lemma countReads_app (a b : list Event) :
  countReads (a ++ b) = (countReads a + countReads b)%nat.
Proof. unfold countReads. now rewrite filter_app, length_app. Qed.

(** Every run of the read loop with the fuel it needs: some reads that found
    nothing, each followed by its wait, and then either nothing more (three
    reads were made, the last wait included), or one last read that found
    the file or threw. The view is not touched. *)
Lemma readWithRetry_run (path : option string) (fuel : nat) :
  forall (i : Z) (s : State pf),
  0 <= i -> fuel = Z.to_nat (3 - i) ->
  let r := readWithRetry pf path fuel i s in
  view (final r) = view s
  /\ exists k,
       (k <= fuel)%nat
       /\ ((emitted r = misses path i k /\ k = fuel /\ outcome r = Normal None)
           \/ (exists b, emitted r = misses path i k ++ [EvRead path Found]
                         /\ (k < fuel)%nat /\ outcome r = Normal (Some b))
           \/ (exists t, emitted r = misses path i k ++ [EvRead path (Threw t)]
                         /\ (k < fuel)%nat /\ outcome r = Throw t)).
Proof.
  induction fuel as [|fuel IH]; intros i s Hi Hfuel; cbn zeta.
  - simpl. split; [reflexivity|]. exists 0%nat. split; [lia|]. left. now repeat split.
  - cbn [readWithRetry]. assert (Hlt : (i <? 3) = true) by (apply Z.ltb_lt; lia).
    rewrite Hlt. unfold bind, fsRead, delay, ret.
    destruct (fs_read pf path (world s)) as [[[b|]|t] w]; simpl.
    + split; [reflexivity|]. exists 0%nat. split; [lia|]. right. left.
      exists b. split; [reflexivity|]. split; [lia|reflexivity].
    + specialize (IH (i + 1) (mkState (view s) (sleep pf (500 * (i + 1)) w))
                    ltac:(lia) ltac:(lia)).
      cbn zeta in IH.
      destruct (readWithRetry pf path fuel (i + 1) _) as [o s2 e2]. simpl in IH |- *.
      destruct IH as (Hv & k & Hk & Hcases). split; [exact Hv|].
      exists (S k). split; [lia|].
      destruct Hcases as [(-> & -> & ->)|[(b & -> & Hlt' & ->)|(t & -> & Hlt' & ->)]].
      * left. now repeat split.
      * right. left. exists b. split; [reflexivity|]. split; [lia|reflexivity].
      * right. right. exists t. split; [reflexivity|]. split; [lia|reflexivity].
    + split; [reflexivity|]. exists 0%nat. split; [lia|]. right. right.
      exists t. split; [reflexivity|]. split; [lia|reflexivity].
Qed.

Lemma countReads_misses (path : option string) (n : nat) :
  forall i, countReads (misses path i n) = n.
Proof.
  induction n as [|n IH]; intros i; [reflexivity|].
  unfold countReads in *. simpl. now rewrite IH.
Qed.

Lemma misses_no_error (path : option string) (n : nat) :
  forall i, Forall (fun e => isError e = false) (misses path i n).
Proof.
  induction n as [|n IH]; intros i; [constructor|].
  simpl. constructor; [reflexivity|]. constructor; [reflexivity|apply IH].
Qed.

(** The read loop as the route starts it: at most three reads, and a found
    file exactly when the loop says so. *)
Lemma readWithRetry_reads (path : option string) (s : State pf) :
  let r := readWithRetry pf path 3 0 s in
  view (final r) = view s
  /\ (countReads (emitted r) <= 3)%nat
  /\ Forall (fun e => isError e = false) (emitted r).
Proof.
  cbn zeta.
  destruct (readWithRetry_run path 3 0 s ltac:(lia) eq_refl) as (Hv & k & Hk & Hcases).
  split; [exact Hv|].
  destruct Hcases as [(-> & _ & _)|[(b & -> & Hlt & _)|(t & -> & Hlt & _)]].
  - rewrite countReads_misses. split; [exact Hk|apply misses_no_error].
  - rewrite countReads_app, countReads_misses.
    change (countReads [EvRead path Found]) with 1%nat.
    split; [lia|]. apply Forall_app. split; [apply misses_no_error|now constructor].
  - rewrite countReads_app, countReads_misses.
    change (countReads [EvRead path (Threw t)]) with 1%nat.
    split; [lia|]. apply Forall_app. split; [apply misses_no_error|now constructor].
Qed.

(** The data that a completed [kv.get] leads to: none when the call threw,
    when the entry is falsy, when it does not parse, or when it parses to
    [null]. *)
Definition entryOf (c : Completion (option string)) : option (ResumeData (Feedback pf)) :=
  match c with
  | Normal resume =>
      if truthyOpt resume then
        match JSON_parse pf (interpolate resume) with
        | Normal (ParsedValue data) => Some data
        | _ => None
        end
      else None
  | Throw _ => None
  end.

Definition errorFree (evs : list Event) : Prop := Forall (fun e => isError e = false) evs.

Lemma errorFree_app (a b : list Event) : errorFree a -> errorFree b -> errorFree (a ++ b).
Proof. intros Ha Hb. apply Forall_app. now split. Qed.

Lemma errorFree_not_In (evs : list Event) (args : list LogArg) :
  errorFree evs -> ~ In (EvConsole LError args) evs.
Proof.
  intros Hq Hin. unfold errorFree in Hq. rewrite Forall_forall in Hq.
  specialize (Hq _ Hin). discriminate.
Qed.

Lemma readWithRetry_found (path : option string) (s : State pf) (b : Blob) :
  outcome (readWithRetry pf path 3 0 s) = Normal (Some b) ->
  In (EvRead path Found) (emitted (readWithRetry pf path 3 0 s)).
Proof.
  intros Ho.
  destruct (readWithRetry_run path 3 0 s ltac:(lia) eq_refl) as (_ & k & _ & Hcases).
  destruct Hcases as [(_ & _ & Hn)|[(b' & He & _ & _)|(t & _ & _ & Ht)]].
  - rewrite Hn in Ho. discriminate.
  - rewrite He. apply in_or_app. right. now left.
  - rewrite Ht in Ho. discriminate.
Qed.

(** The PDF: at most three reads, no error logged, the image URL kept, and a
    new resume URL only after a read that found the file. *)
Lemma loadPdf_run (d : ResumeData (Feedback pf)) (s : State pf) :
  let r := loadPdf pf d s in
  (countReads (emitted r) <= 3)%nat
  /\ errorFree (emitted r)
  /\ imageUrl (view (final r)) = imageUrl (view s)
  /\ (resumeUrl (view (final r)) = resumeUrl (view s)
      \/ In (EvRead (resumePath d) Found) (emitted r)).
Proof.
  cbn zeta. unfold loadPdf.
  pose proof (readWithRetry_reads (resumePath d) s) as (Hv & Hc & Hq).
  pose proof (readWithRetry_found (resumePath d) s) as Hf.
  unfold bind.
  destruct (readWithRetry pf (resumePath d) 3 0 s) as [[[b|]|t] s1 e1];
    cbn [outcome final emitted] in *.
  - unfold objectUrl, call, setResumeUrl, setView.
    destruct (createObjectURL pf _ (world s1)) as [[u|t] w]; cbn [outcome final emitted view].
    + rewrite !app_nil_r. rewrite Hv. cbn [imageUrl].
      split; [exact Hc|]. split; [exact Hq|]. split; [reflexivity|].
      right. exact (Hf b eq_refl).
    + rewrite !app_nil_r. rewrite Hv.
      split; [exact Hc|]. split; [exact Hq|]. split; [reflexivity|]. now left.
  - unfold console, emit. cbn [outcome final emitted].
    rewrite countReads_app. change (countReads [EvConsole _ _]) with 0%nat.
    rewrite Hv. split; [lia|]. split; [|split; [reflexivity|now left]].
    apply errorFree_app; [exact Hq|]. now constructor.
  - rewrite Hv. split; [exact Hc|]. split; [exact Hq|]. split; [reflexivity|now left].
Qed.

(** The image, likewise. *)
Lemma loadImage_run (d : ResumeData (Feedback pf)) (s : State pf) :
  let r := loadImage pf d s in
  (countReads (emitted r) <= 3)%nat
  /\ errorFree (emitted r)
  /\ resumeUrl (view (final r)) = resumeUrl (view s)
  /\ (imageUrl (view (final r)) = imageUrl (view s)
      \/ In (EvRead (imagePath d) Found) (emitted r)).
Proof.
  cbn zeta. unfold loadImage.
  pose proof (readWithRetry_reads (imagePath d) s) as (Hv & Hc & Hq).
  pose proof (readWithRetry_found (imagePath d) s) as Hf.
  unfold bind.
  destruct (readWithRetry pf (imagePath d) 3 0 s) as [[[b|]|t] s1 e1];
    cbn [outcome final emitted] in *.
  - unfold objectUrl, call, setImageUrl, setView.
    destruct (createObjectURL pf _ (world s1)) as [[u|t] w]; cbn [outcome final emitted view].
    + rewrite !app_nil_r. rewrite Hv. cbn [resumeUrl].
      split; [exact Hc|]. split; [exact Hq|]. split; [reflexivity|].
      right. exact (Hf b eq_refl).
    + rewrite !app_nil_r. rewrite Hv.
      split; [exact Hc|]. split; [exact Hq|]. split; [reflexivity|]. now left.
  - unfold console, emit. cbn [outcome final emitted].
    rewrite countReads_app. change (countReads [EvConsole _ _]) with 0%nat.
    rewrite Hv. split; [lia|]. split; [|split; [reflexivity|now left]].
    apply errorFree_app; [exact Hq|]. now constructor.
  - rewrite Hv. split; [exact Hc|]. split; [exact Hq|]. split; [reflexivity|now left].
Qed.

(** What the details of [d] look like in a view. *)
Definition shows (v : View (Feedback pf)) (d : ResumeData (Feedback pf)) : Prop :=
  shownFeedback v = feedback d
  /\ shownJobTitle v = orElse (jobTitle d) ""
  /\ shownJobDescription v = orElse (jobDescription d) ""
  /\ shownResumePath v = orElse (resumePath d) ""
  /\ shownImagePath v = orElse (imagePath d) "".

(** The three steps on parsed data: at most six reads and no error logged;
    they throw, or they end with the details in the view. *)
Lemma loadData_run (d : ResumeData (Feedback pf)) (s : State pf) :
  let r := loadData pf d s in
  (countReads (emitted r) <= 6)%nat
  /\ errorFree (emitted r)
  /\ ((exists t, outcome r = Throw t)
      \/ (outcome r = Normal tt
          /\ shows (view (final r)) d
          /\ (resumeUrl (view (final r)) = resumeUrl (view s)
              \/ In (EvRead (resumePath d) Found) (emitted r))
          /\ (imageUrl (view (final r)) = imageUrl (view s)
              \/ In (EvRead (imagePath d) Found) (emitted r)))).
Proof.
  cbn zeta.
  pose proof (loadPdf_run d s) as (Hc1 & Hq1 & Hi1 & Hr1).
  unfold loadData, bind.
  destruct (loadPdf pf d s) as [[[]|t] s1 e1]; cbn [outcome final emitted] in *.
  2:{ split; [lia|]. split; [exact Hq1|]. left. now exists t. }
  pose proof (loadImage_run d s1) as (Hc2 & Hq2 & Hr2 & Hi2).
  destruct (loadImage pf d s1) as [[[]|t] s2 e2]; cbn [outcome final emitted] in *.
  2:{ rewrite countReads_app. split; [lia|]. split; [now apply errorFree_app|].
      left. now exists t. }
  unfold setDetails, setView. cbn [outcome final emitted view].
  rewrite !app_nil_r, countReads_app. split; [lia|]. split; [now apply errorFree_app|].
  right. split; [reflexivity|]. split; [now repeat split|].
  cbn [resumeUrl imageUrl]. split.
  - destruct Hr1 as [Hr1|Hr1]; [left; congruence|right; apply in_or_app; now left].
  - destruct Hi2 as [Hi2|Hi2]; [left; congruence|right; apply in_or_app; now right].
Qed.

(** The body of [loadResume], by what [kv.get] led to. *)
Lemma loadBody_run (id : string) (s : State pf) (c : Completion (option string))
    (w : World pf) :
  kv_get pf ("resume:" +++ id) (world s) = (c, w) ->
  let r := loadBody pf id s in
  (countReads (emitted r) <= 6)%nat
  /\ match entryOf c with
     | None =>
         view (final r) = view s
         /\ countReads (emitted r) = 0%nat
         /\ ((exists t, outcome r = Throw t)
             \/ (outcome r = Normal tt
                 /\ exists args, In (EvConsole LError args) (emitted r)))
     | Some d =>
         errorFree (emitted r)
         /\ ((exists t, outcome r = Throw t)
             \/ (outcome r = Normal tt
                 /\ shows (view (final r)) d
                 /\ (resumeUrl (view (final r)) = resumeUrl (view s)
                     \/ In (EvRead (resumePath d) Found) (emitted r))
                 /\ (imageUrl (view (final r)) = imageUrl (view s)
                     \/ In (EvRead (imagePath d) Found) (emitted r))))
     end.
Proof.
  intros Hkv. cbn zeta.
  pose proof (fun d => loadData_run d (mkState (view s) w)) as Hdata. cbn zeta in Hdata.
  unfold loadBody, parseEntry, tryCatch, bind, kvGet in *. rewrite Hkv.
  destruct c as [resume|t]; cbn [entryOf].
  2:{ cbn. split; [lia|]. split; [reflexivity|]. split; [reflexivity|]. left. now exists t. }
  destruct (truthyOpt resume) eqn:Etruthy; cbn [negb].
  2:{ cbn. split; [lia|]. split; [reflexivity|]. split; [reflexivity|]. right.
      split; [reflexivity|]. eexists. right. now left. }
  destruct (JSON_parse pf (interpolate resume)) as [[|d]|t].
  - cbn. split; [lia|]. split; [reflexivity|]. split; [reflexivity|]. left. eauto.
  - cbn [ret app]. specialize (Hdata d). rename Hdata into H.
    destruct (loadData pf d (mkState (view s) w)) as [o s2 e2];
      cbn [outcome final emitted view] in *.
    change (countReads (EvKvGet ("resume:" +++ id) :: e2)) with (countReads e2).
    destruct H as (Hc & Hq & H). split; [exact Hc|]. split.
    + constructor; [reflexivity|exact Hq].
    + destruct H as [H|(Ho & Hs & Hr & Hi)]; [now left|right].
      split; [exact Ho|]. split; [exact Hs|]. split.
      * destruct Hr as [Hr|Hr]; [now left|right; now right].
      * destruct Hi as [Hi|Hi]; [now left|right; now right].
  - cbn. split; [lia|]. split; [reflexivity|]. split; [reflexivity|]. right.
    split; [reflexivity|]. eexists. right. now left.
Qed.

End Facts.

End ResumeRoute.

(** * The properties of the specification *)

Import Storage.

(** ** Retry loops *)

(** [500 * 2^(attempt - 1)], [300 * attempt] and [500 * attempt] all grow
    with the attempt number. *)
Lemma backoff_increasing (a b : Z) :
  1 <= a < b ->
  uploadBackoff a < uploadBackoff b
  /\ readBackoff a < readBackoff b
  /\ Pdf2Img.convertBackoff a < Pdf2Img.convertBackoff b.
Proof.
  intros H. unfold uploadBackoff, readBackoff, Pdf2Img.convertBackoff.
  repeat split; try lia.
  apply Z.mul_lt_mono_pos_l; [lia|]. apply Z.pow_lt_mono_r; lia.
Qed.

(** C1. For every call of [uploadFile], [readFile] or [convertPdfToImage],
    whatever the platform does, the underlying operation (the GCS save, the
    GCS download, the conversion attempt) is attempted at most [maxRetries]
    times before the call completes, and so is the loop body as a whole (its
    opening [bucket.file] call); an omitted [maxRetries] is a call with 3. *)
Theorem retry_count_never_exceeds_maximum :
  (forall sdk env file fileName contentType userId folder maxRetries s,
     (countOp OpSave
        (emitted (uploadFile sdk env file fileName contentType userId folder
                    maxRetries s)) <= Z.to_nat maxRetries)%nat
     /\ (countOp OpFile
           (emitted (uploadFile sdk env file fileName contentType userId folder
                       maxRetries s)) <= Z.to_nat maxRetries)%nat)
  /\ (forall sdk env filePath maxRetries s,
        (countOp OpDownload (emitted (readFile sdk env filePath maxRetries s))
         <= Z.to_nat maxRetries)%nat
        /\ (countOp OpFile (emitted (readFile sdk env filePath maxRetries s))
            <= Z.to_nat maxRetries)%nat)
  /\ (forall pf file maxRetries s,
        (Pdf2Img.countAttempts
           (emitted (Pdf2Img.convertPdfToImage pf file maxRetries s))
         <= Z.to_nat maxRetries)%nat).
Proof.
  split; [|split].
  - intros. destruct (uploadFile_summary sdk env file fileName contentType userId
                        folder maxRetries s) as ((k & Hk & _ & Hkf) & Hsave & _).
    split; [exact Hsave|]. now rewrite Hkf.
  - intros. destruct (readFile_summary sdk env filePath maxRetries s)
      as ((k & Hk & _ & Hkf) & Hdown & _).
    split; [exact Hdown|]. now rewrite Hkf.
  - intros. destruct (Pdf2Img.convertPdfToImage_summary pf file maxRetries s)
      as ((k & Hk & _ & Hkf) & _).
    now rewrite Hkf.
Qed.

(** C2. In every run of [readFile]: an event that is not retried (a call
    that threw a value whose message contains "not found", or an existence
    check that answered that the file does not exist) is the last event of
    the run: no further call, timer or log follows it, however many retries
    remain, and [readFile] throws that very error. *)
Theorem readFile_not_found_short_circuits :
  forall sdk env filePath maxRetries s pre e post err,
    emitted (readFile sdk env filePath maxRetries s) = pre ++ e :: post ->
    notFoundError e = Some err ->
    post = [] /\ outcome (readFile sdk env filePath maxRetries s) = Throw (ThrowErr err).
Proof.
  intros sdk env filePath maxRetries s.
  exact (proj2 (proj2 (readFile_summary sdk env filePath maxRetries s))).
Qed.

(** A run with five retries allowed: the first attempt fails on a broken
    connection and is retried, the second finds no file and ends the call. *)
Lemma readFile_not_found_short_circuits_witness :
  @nil Event = []
  /\ outcome (readFile memSdk memEnv "users/u1/cv.pdf" 5
                (memStart [] [None; Some "socket hang up"]))
     = Throw (ThrowErr (newError "File not found: users/u1/cv.pdf")).
Proof.
  apply (readFile_not_found_short_circuits memSdk memEnv "users/u1/cv.pdf" 5
           (memStart [] [None; Some "socket hang up"])
           [EvConsole LLog [LStr "✅ Google Cloud Storage initialized"];
            EvCall OpFile "users/u1/cv.pdf" Done;
            EvCall OpExists "users/u1/cv.pdf"
              (Failed (ThrowErr (newError "socket hang up")));
            EvConsole LWarn [LStr "Read attempt 1/5 failed:"; LStr "socket hang up"];
            EvSetTimeout 300;
            EvCall OpFile "users/u1/cv.pdf" Done]
           (EvCall OpExists "users/u1/cv.pdf" (Answer false))
           []
           (newError "File not found: users/u1/cv.pdf")).
  - reflexivity.
  - reflexivity.
Defined.






(** The aggregated text is reached when the attempts throw. In a browser
    whose [getPage] rejects with [Object.create(null)], the [catch] block
    of each attempt throws a [TypeError] on [String(err)], and after three
    attempts the error field names the count and that error's message. *)
Lemma convertPdfToImage_aggregates_thrown_attempts :
  Pdf2Img.attempts (emitted Pdf2Img.threeBarePages)
  = [Throw (Pdf2Img.OfError
              (mkErr "TypeError" "Cannot convert object to primitive value"));
     Throw (Pdf2Img.OfError
              (mkErr "TypeError" "Cannot convert object to primitive value"));
     Throw (Pdf2Img.OfError
              (mkErr "TypeError" "Cannot convert object to primitive value"))]
  /\ outcome Pdf2Img.threeBarePages
     = Normal (Pdf2Img.failure
                 "Failed after 3 attempts: Cannot convert object to primitive value").
Proof. split; vm_compute; reflexivity. Qed.

(** ** Swallowed deletion failures *)

(** C7. Whenever the storage layer is initialized, [deleteFile] resolves for
    every path and every behaviour of the bucket; a value thrown by the
    lookup, the existence check or the deletion is logged with
    [console.error] and goes no further. *)
Theorem deleteFile_swallows_failures :
  forall sdk env filePath s,
    storageReady sdk env s ->
    outcome (deleteFile sdk env filePath s) = Normal tt
    /\ forall t, In t (failures (emitted (deleteFile sdk env filePath s))) ->
         In (EvConsole LError [LStr "Error deleting file:"; LVal t])
            (emitted (deleteFile sdk env filePath s)).
Proof. intros sdk env filePath s H. exact (deleteFile_ready sdk env filePath s H). Qed.

(** A deletion refused by the bucket: [deleteFile] resolves and logs it. *)
Lemma deleteFile_swallows_failures_witness :
  outcome (deleteFile memSdk memEnv "users/u1/cv.pdf"
             (memStart [("users/u1/cv.pdf", [Byte.x25])] [None; None; Some "denied"]))
  = Normal tt
  /\ In (EvConsole LError [LStr "Error deleting file:";
                           LVal (ThrowErr (newError "denied"))])
        (emitted (deleteFile memSdk memEnv "users/u1/cv.pdf"
                    (memStart [("users/u1/cv.pdf", [Byte.x25])]
                       [None; None; Some "denied"]))).
Proof.
  destruct (deleteFile_swallows_failures memSdk memEnv "users/u1/cv.pdf"
              (memStart [("users/u1/cv.pdf", [Byte.x25])] [None; None; Some "denied"]))
    as [Ho Hlog].
  - split; [reflexivity|discriminate].
  - split; [exact Ho|]. apply Hlog. simpl. auto.
Defined.

(** C10. [moveFile] is [copyFile] followed by [deleteFile]; whenever the
    copy succeeds the move resolves, whatever the deletion does. In
    particular a move can succeed and leave the source in place: in the
    in-memory bucket below the deletion is refused, the move resolves, and
    the source object is still there. *)
Theorem moveFile_resolves_when_copy_succeeds :
  (forall sdk env sourcePath destinationPath,
     moveFile sdk env sourcePath destinationPath
     = bind (copyFile sdk env sourcePath destinationPath)
         (fun _ => deleteFile sdk env sourcePath))
  /\ (forall sdk env sourcePath destinationPath s,
        outcome (copyFile sdk env sourcePath destinationPath s) = Normal tt ->
        outcome (moveFile sdk env sourcePath destinationPath s) = Normal tt)
  /\ (outcome (moveFile memSdk memEnv "a.pdf" "b.pdf"
                 (memStart [("a.pdf", [Byte.x25])]
                    [None; None; None; None; None; None; Some "denied"]))
      = Normal tt
      /\ failures (emitted (moveFile memSdk memEnv "a.pdf" "b.pdf"
                              (memStart [("a.pdf", [Byte.x25])]
                                 [None; None; None; None; None; None; Some "denied"])))
         = [ThrowErr (newError "denied")]
      /\ lookupObject "a.pdf"
           (world (final (moveFile memSdk memEnv "a.pdf" "b.pdf"
                            (memStart [("a.pdf", [Byte.x25])]
                               [None; None; None; None; None; None; Some "denied"]))))
         = Some [Byte.x25]).
Proof.
  split; [reflexivity|]. split.
  - intros sdk env sourcePath destinationPath s.
    apply moveFile_resolves.
  - repeat split.
Qed.

(** A copy that succeeds in the in-memory bucket, followed by a deletion
    that is refused: the move resolves. *)
Lemma moveFile_resolves_when_copy_succeeds_witness :
  outcome (moveFile memSdk memEnv "a.pdf" "b.pdf"
             (memStart [("a.pdf", [Byte.x25])]
                [None; None; None; None; None; None; Some "denied"]))
  = Normal tt.
Proof.
  apply (proj1 (proj2 moveFile_resolves_when_copy_succeeds) memSdk memEnv).
  reflexivity.
Defined.

(** ** The conversion helper and what it throws *)




(** ** The OAuth callback *)

Import OAuthCallback.




(** ** The trial display *)

Import Trial.

(** C5 as stated fails: the component shows the [remaining] field of the
    store as it is. With a store holding 1 used, 0 remaining, 3 max it shows
    0, not 3 - 1; with a store holding -2 remaining it shows -2. *)
Lemma trial_display_is_not_computed :
  (exists v,
     TrialTracker (mkProps None None) (mkStore (mkTrial 1 0 3) (Trial.mkAuth true)) = Some v
     /\ displayedRemaining v = 0
     /\ displayedRemaining v <> 3 - 1)
  /\ (exists v,
        TrialTracker (mkProps None None) (mkStore (mkTrial 5 (-2) 3) (Trial.mkAuth true))
        = Some v
        /\ displayedRemaining v = -2
        /\ displayedRemaining v < 0).
Proof.
  split; eexists; (split; [reflexivity|]); simpl; split; (reflexivity || discriminate).
Qed.

(** C5, as the code has it. For every authenticated store state the
    component renders, and the remaining count it displays is the
    [remaining] field of the store, unchanged, next to the label "used/max
    used"; the component neither subtracts nor clamps. So the displayed
    count is [max - used] exactly when the store's field is, and is
    non-negative exactly when the store's field is. *)
Theorem trial_display_shows_store_remaining :
  forall props store,
    isAuthenticated (auth store) = true ->
    exists v,
      TrialTracker props store = Some v
      /\ displayedRemaining v = remaining (trial store)
      /\ view_label v
         = showZ (used (trial store)) +++ "/" +++ showZ (max (trial store)) +++ " used"
      /\ (displayedRemaining v = max (trial store) - used (trial store)
          <-> remaining (trial store) = max (trial store) - used (trial store))
      /\ (0 <= displayedRemaining v <-> 0 <= remaining (trial store)).
Proof.
  intros props store Hauth.
  destruct (TrialTracker props store) as [v|] eqn:Ev.
  - destruct (TrialTracker_displayed props store v Ev) as [Hshown Hlabel].
    exists v. rewrite Hshown. repeat split; auto.
  - unfold TrialTracker in Ev. cbv zeta in Ev. rewrite Hauth in Ev. discriminate.
Qed.

(** A store with 1 used of 3 and 2 remaining: 2 is displayed. *)
Lemma trial_display_shows_store_remaining_witness :
  exists v,
    TrialTracker (mkProps None None) (mkStore (mkTrial 1 2 3) (Trial.mkAuth true)) = Some v
    /\ displayedRemaining v = 2.
Proof.
  destruct (trial_display_shows_store_remaining (mkProps None None)
              (mkStore (mkTrial 1 2 3) (Trial.mkAuth true)) eq_refl)
    as (v & Hv & Hshown & _).
  exists v. split; [exact Hv|exact Hshown].
Defined.

(** ** Re-running the database scripts *)

Import Scripts.

(** C6 as stated fails for the seed script: on a migrated, empty database
    two runs both complete, and the second run doubles the rows of
    [resumes] and of [sessions] (3 to 6) while [users] stays at 3 rows and
    [kv_store] at 2. *)
Lemma seed_rerun_duplicates_resumes_and_sessions :
  outcome firstRun = Normal 0
  /\ outcome secondRun = Normal 0
  /\ rowCounts (final firstRun) = (3, 3, 3, 2)%nat
  /\ rowCounts (final secondRun) = (3, 6, 6, 2)%nat.
Proof. vm_compute. repeat split. Qed.

(** The migration script sends to the database what its files hold, be it
    an insert: with such a file, and a database that runs it, every run of
    the script adds a row. *)
Lemma migration_with_insert_adds_a_row :
  rowCounts (final (runMigrations versionFile inserting migratedDatabase))
  = (0, 0, 0, 1)%nat
  /\ rowCounts (final (runMigrations versionFile inserting
                         (final (runMigrations versionFile inserting migratedDatabase))))
     = (0, 0, 0, 2)%nat.
Proof. split; vm_compute; reflexivity. Qed.

(** C6, as the code has it. When a run of the seed script has completed,
    a second run that completes adds no row to [users] and none to
    [kv_store] (their inserts are upserts on the email and on the key and
    user), and adds three rows to [resumes] and three to [sessions] (plain
    inserts, the session tokens drawn afresh). The migration script sends
    the database the queries that it cuts out of its files. A query that
    the database reads as [CREATE TABLE IF NOT EXISTS], [CREATE INDEX IF
    NOT EXISTS] or [ALTER TABLE ... ADD COLUMN IF NOT EXISTS] changes no
    row; so a run over files whose queries change no row, those that can
    be read, changes no row and no sequence of a table, on any database.
    The two files at hand, 000 and 003, hold such statements only: with
    them, and the other two absent, no run changes a row, whatever the
    database does with other queries. *)
Theorem rerunning_scripts_row_counts :
  (forall env1 env2 db,
     outcome (seedData env1 db) = Normal 0 ->
     outcome (seedData env2 (final (seedData env1 db))) = Normal 0 ->
     List.length (users (final (seedData env2 (final (seedData env1 db)))))
     = List.length (users (final (seedData env1 db)))
     /\ List.length (kv_store (final (seedData env2 (final (seedData env1 db)))))
        = List.length (kv_store (final (seedData env1 db)))
     /\ List.length (resumes (final (seedData env2 (final (seedData env1 db)))))
        = (List.length (resumes (final (seedData env1 db))) + 3)%nat
     /\ List.length (sessions (final (seedData env2 (final (seedData env1 db)))))
        = (List.length (sessions (final (seedData env1 db))) + 3)%nat)
  /\ (forall other text, readStmt text <> None -> harmless other text)
  /\ (forall readFileSync other db,
        Forall (harmlessFile readFileSync other) migrations ->
        rowsOf (final (runMigrations readFileSync other db)) = rowsOf db
        /\ rowCounts (final (runMigrations readFileSync other db)) = rowCounts db)
  /\ (map readStmt (MigrationText.queriesOf MigrationText.initialSchemaSql)
      = map Some initialSchema
      /\ map readStmt (MigrationText.queriesOf MigrationText.addTrialTrackingSql)
         = map Some addTrialTracking)
  /\ (forall other db,
        rowsOf (final (runMigrations filesAtHand other db)) = rowsOf db
        /\ rowCounts (final (runMigrations filesAtHand other db)) = rowCounts db).
Proof.
  assert (Hcounts : forall db db', rowsOf db' = rowsOf db -> rowCounts db' = rowCounts db).
  { intros db db' H. unfold rowsOf in H. unfold rowCounts. congruence. }
  split; [|split; [|split; [|split]]].
  - intros env1 env2 db H1 H2.
    destruct (seedData_normal env1 db H1) as (Hseeded & _).
    destruct (seedData_normal env2 _ H2) as (_ & Hr & Hs & Hsame).
    destruct (Hsame Hseeded) as [Hu Hk].
    repeat split; assumption.
  - intros other text. apply schema_harmless.
  - intros readFileSync other db Hfiles.
    pose proof (runMigrations_rows readFileSync other Hfiles db) as H.
    split; [exact H|now apply Hcounts].
  - split; [exact initialSchema_read|exact addTrialTracking_read].
  - intros other db.
    pose proof (runMigrations_rows filesAtHand other (filesAtHand_harmless other) db) as H.
    split; [exact H|now apply Hcounts].
Qed.

(** The two runs above, on the migrated database. *)
Lemma rerunning_scripts_row_counts_witness :
  List.length (users (final secondRun)) = List.length (users (final firstRun))
  /\ List.length (kv_store (final secondRun)) = List.length (kv_store (final firstRun))
  /\ List.length (resumes (final secondRun))
     = (List.length (resumes (final firstRun)) + 3)%nat
  /\ List.length (sessions (final secondRun))
     = (List.length (sessions (final firstRun)) + 3)%nat.
Proof.
  apply (proj1 rerunning_scripts_row_counts firstEnv secondEnv migratedDatabase).
  - vm_compute. reflexivity.
  - vm_compute. reflexivity.
Defined.

(** * Further properties of the code *)

(** ** The storage facade *)

Import StorageFacts.



(** X2. On a usable module [uploadFile] and [readFile] check their arguments
    before they touch the bucket: empty data, then an empty name, and an
    empty path are refused with an [Error] of their own, no call is made on
    the bucket (the trace holds console output at most), and the world is as
    it was: not even a file id is drawn. *)
Theorem arguments_are_checked_before_any_call :
  forall sdk env s,
    storageReady sdk env s ->
    (forall fileName contentType userId folder maxRetries,
       outcome (uploadFile sdk env [] fileName contentType userId folder maxRetries s)
       = Throw (ThrowErr (newError "File data is empty or invalid"))
       /\ consoleOnly
            (emitted (uploadFile sdk env [] fileName contentType userId folder
                        maxRetries s))
       /\ world (final (uploadFile sdk env [] fileName contentType userId folder
                          maxRetries s)) = world s)
    /\ (forall file contentType userId folder maxRetries,
          file <> [] ->
          outcome (uploadFile sdk env file "" contentType userId folder maxRetries s)
          = Throw (ThrowErr (newError "File name is required"))
          /\ consoleOnly
               (emitted (uploadFile sdk env file "" contentType userId folder
                           maxRetries s))
          /\ world (final (uploadFile sdk env file "" contentType userId folder
                             maxRetries s)) = world s)
    /\ (forall maxRetries,
          outcome (readFile sdk env "" maxRetries s)
          = Throw (ThrowErr (newError "File path is required"))
          /\ consoleOnly (emitted (readFile sdk env "" maxRetries s))
          /\ world (final (readFile sdk env "" maxRetries s)) = world s).
Proof.
  intros sdk env s Hready. split; [|split].
  - intros. rewrite uploadFile_eq.
    destruct (ready_bind sdk env (uploadGuarded sdk env [] fileName contentType userId
                                    folder maxRetries) s Hready)
      as (s0 & e0 & (_ & _ & Hb) & Hw & Hc & ->).
    unfold uploadGuarded, bind, get, throw. destruct (bucket s0); [|congruence]. simpl.
    rewrite app_nil_r. split; [reflexivity|]. split; [exact Hc|exact Hw].
  - intros file contentType userId folder maxRetries Hfile. rewrite uploadFile_eq.
    destruct (ready_bind sdk env (uploadGuarded sdk env file "" contentType userId
                                    folder maxRetries) s Hready)
      as (s0 & e0 & (_ & _ & Hb) & Hw & Hc & ->).
    unfold uploadGuarded, bind, get, throw. destruct (bucket s0); [|congruence].
    rewrite (length_nonempty file Hfile). simpl.
    rewrite app_nil_r. split; [reflexivity|]. split; [exact Hc|exact Hw].
  - intros. rewrite readFile_eq.
    destruct (ready_bind sdk env (readGuarded sdk "" maxRetries) s Hready)
      as (s0 & e0 & (_ & _ & Hb) & Hw & Hc & ->).
    unfold readGuarded, bind, get, throw. destruct (bucket s0); [|congruence]. simpl.
    rewrite app_nil_r. split; [reflexivity|]. split; [exact Hc|exact Hw].
Qed.

(** An upload of no data to the in-memory bucket: refused, nothing stored. *)
Lemma arguments_are_checked_before_any_call_witness :
  outcome (uploadFile memSdk memEnv [] "cv.pdf" "application/pdf" (Some "u1") None 3
             (memStart [] []))
  = Throw (ThrowErr (newError "File data is empty or invalid"))
  /\ world (final (uploadFile memSdk memEnv [] "cv.pdf" "application/pdf" (Some "u1")
                     None 3 (memStart [] [])))
     = world (memStart [] []).
Proof.
  destruct (arguments_are_checked_before_any_call memSdk memEnv (memStart [] []))
    as [Hup _].
  - split; [reflexivity|discriminate].
  - destruct (Hup "cv.pdf" "application/pdf" (Some "u1") None 3) as (Ho & _ & Hw).
    split; [exact Ho|exact Hw].
Defined.



(** What every run of [uploadFile] does: all its calls on the bucket are on
    the path made of the folders, the file id it drew and the extension, and
    what it returns is the metadata of that path. *)
Lemma uploadFile_result sdk env file fileName contentType userId folder maxRetries s :
  exists fileId,
    Forall (onPath (userFolderOf userId +++ "/" +++ folderPathOf folder
                    +++ fileId +++ "." +++ extensionOf fileName))
      (emitted (uploadFile sdk env file fileName contentType userId folder maxRetries s))
    /\ forall m,
         outcome (uploadFile sdk env file fileName contentType userId folder
                    maxRetries s) = Normal m ->
         uploaded env fileId (sanitizeName fileName)
           (userFolderOf userId +++ "/" +++ folderPathOf folder
            +++ fileId +++ "." +++ extensionOf fileName) m.
Proof.
  rewrite uploadFile_eq.
  pose proof (ensureInitialized_console sdk env s) as Hc.
  unfold bind.
  destruct (ensureInitialized sdk env s) as [[[]|t0] s0 e0]; simpl in Hc.
  2:{ exists "". split; [now apply consoleOnly_onPath|discriminate]. }
  unfold uploadGuarded, bind, get, throw, call, ret.
  destruct (bucket s0); simpl.
  2:{ exists "". rewrite app_nil_r. split; [now apply consoleOnly_onPath|discriminate]. }
  destruct (Nat.eqb (List.length file) 0); simpl.
  { exists "". rewrite app_nil_r. split; [now apply consoleOnly_onPath|discriminate]. }
  destruct (negb (truthy fileName)); simpl.
  { exists "". rewrite app_nil_r. split; [now apply consoleOnly_onPath|discriminate]. }
  destruct (uuidv4 sdk (world s0)) as [fileId w1]; simpl.
  exists fileId.
  match goal with
  | |- context [uploadLoop sdk env ?a ?b ?c ?d ?e ?f ?g ?h ?fuel 1 None ?st] =>
      pose proof (uploadLoop_result sdk env a b c d e f g h fuel 1 None st) as Hr;
      destruct (uploadLoop sdk env a b c d e f g h fuel 1 None st) as [o s2 e2]
  end.
  cbn zeta in Hr. simpl in Hr. destruct Hr as [Hev Hm].
  destruct o as [[m|lastError]|t]; simpl; rewrite ?app_nil_r;
    (split; [apply Forall_app; split; [now apply consoleOnly_onPath|exact Hev]|]);
    intros m' Hm'; try discriminate.
  injection Hm' as <-. exact Hm.
Qed.

(** X4. One call of [uploadFile] works on one object: every call it makes on
    the bucket, in every attempt, is on the same path, so that a retry
    writes again where the attempt before it wrote. When the upload
    succeeds, that path is the one returned: the user's folder ([public]
    without a user), the folder if one is given, the file id and the
    extension, which is never empty and holds no dot; and the URL returned
    is [gs://], the bucket name and that path. *)
Theorem uploadFile_works_on_one_path :
  forall sdk env file fileName contentType userId folder maxRetries s,
  exists path,
    Forall (onPath path)
      (emitted (uploadFile sdk env file fileName contentType userId folder maxRetries s))
    /\ forall m,
         outcome (uploadFile sdk env file fileName contentType userId folder
                    maxRetries s) = Normal m ->
         fm_path m = path
         /\ fm_path m = userFolderOf userId +++ "/" +++ folderPathOf folder
                        +++ fm_id m +++ "." +++ extensionOf fileName
         /\ fm_url m = "gs://" +++ GCS_BUCKET_NAME env +++ "/" +++ fm_path m
         /\ extensionOf fileName <> ""
         /\ includes (extensionOf fileName) "." = false.
Proof.
  intros.
  destruct (uploadFile_result sdk env file fileName contentType userId folder
              maxRetries s) as (fileId & Hev & Hres).
  eexists. split; [exact Hev|]. intros m Hm.
  destruct (Hres m Hm) as (Hid & _ & Hpath & Hurl).
  pose proof (extensionOf_plain fileName) as [Hext1 Hext2].
  rewrite Hpath, Hurl, Hid. repeat split; assumption.
Qed.

(** An upload whose first save is refused and whose second attempt
    succeeds: both attempts are on the path that is returned. *)
Lemma uploadFile_works_on_one_path_witness :
  exists m,
    outcome (uploadFile memSdk memEnv [Byte.x25; Byte.x50] "cv.pdf" "application/pdf"
               (Some "u1") None 3 (memStart [] [None; Some "connection reset"]))
    = Normal m
    /\ fm_path m = "users/u1/uuid-0.pdf"
    /\ countOp OpSave
         (emitted (uploadFile memSdk memEnv [Byte.x25; Byte.x50] "cv.pdf"
                     "application/pdf" (Some "u1") None 3
                     (memStart [] [None; Some "connection reset"]))) = 2%nat
    /\ Forall (onPath (fm_path m))
         (emitted (uploadFile memSdk memEnv [Byte.x25; Byte.x50] "cv.pdf"
                     "application/pdf" (Some "u1") None 3
                     (memStart [] [None; Some "connection reset"]))).
Proof.
  destruct (uploadFile_works_on_one_path memSdk memEnv [Byte.x25; Byte.x50] "cv.pdf"
              "application/pdf" (Some "u1") None 3
              (memStart [] [None; Some "connection reset"])) as (path & Hev & Hres).
  eexists. split; [vm_compute; reflexivity|]. split; [reflexivity|].
  split; [vm_compute; reflexivity|].
  destruct (Hres _ ltac:(vm_compute; reflexivity)) as (Hpath & _).
  simpl in Hpath. rewrite Hpath. exact Hev.
Defined.

(** X5. The name that [uploadFile] returns is the file name with every
    UTF-16 code unit outside [[a-zA-Z0-9._-]] replaced by an underscore: it
    holds only such characters, it has as many of them as the file name has
    code units (one for a character of the basic plane, two for any other),
    and a file name that holds only such characters is returned as it is. *)
Theorem uploaded_name_is_sanitized :
  forall sdk env file fileName contentType userId folder maxRetries s m,
    outcome (uploadFile sdk env file fileName contentType userId folder maxRetries s)
    = Normal m ->
    fm_name m = sanitizeName fileName
    /\ allChars safeChar (fm_name m) = true
    /\ String.length (fm_name m) = codeUnits fileName
    /\ (allChars safeChar fileName = true -> fm_name m = fileName).
Proof.
  intros sdk env file fileName contentType userId folder maxRetries s m Hm.
  destruct (uploadFile_result sdk env file fileName contentType userId folder
              maxRetries s) as (fileId & _ & Hres).
  destruct (Hres m Hm) as (_ & Hname & _). rewrite Hname.
  split; [reflexivity|]. split; [apply sanitized_safe|].
  split; [apply sanitized_length|apply sanitized_fixed].
Qed.

(** An upload to the in-memory bucket under a name with a space, an
    accented letter (one code unit, two bytes) and an emoji (two code
    units, four bytes). *)
Lemma uploaded_name_is_sanitized_witness :
  exists m,
    outcome (uploadFile memSdk memEnv [Byte.x25; Byte.x50] "my résumé 📄.pdf"
               "application/pdf" (Some "u1") None 3 (memStart [] []))
    = Normal m
    /\ fm_name m = "my_r_sum____.pdf"
    /\ String.length (fm_name m) = codeUnits "my résumé 📄.pdf".
Proof.
  eexists. split; [vm_compute; reflexivity|].
  destruct (uploaded_name_is_sanitized memSdk memEnv [Byte.x25; Byte.x50]
              "my résumé 📄.pdf" "application/pdf" (Some "u1") None 3 (memStart [] [])
              _ ltac:(vm_compute; reflexivity)) as (Hname & _ & Hlength & _).
  split; [exact Hname|exact Hlength].
Defined.

(** X6. [getFileSize] reads the size that the bucket reports with
    [parseInt], and returns a double: on a usable module, when the lookup
    and [getMetadata] succeed, a reported size that is the decimal text of
    [n] is returned as the double nearest to [n], and a size that is
    missing or empty as 0. So 2^53 + 1 is read as 2^53; and [parseInt]
    reads a size that starts with [0x] in base 16, stops at the first
    character that is no digit, and gives [NaN] when there is none. *)
Theorem getFileSize_reads_the_reported_size :
  forall sdk env filePath s md w1 w2,
    storageReady sdk env s ->
    bucket_file sdk filePath (world s) = (Normal tt, w1) ->
    file_getMetadata sdk filePath w1 = (Normal md, w2) ->
    outcome (Facade.getFileSize sdk env filePath s) = Normal (parseInt (orElse (md_size md) "0"))
    /\ (forall n, md_size md = Some (showZ n) ->
          outcome (Facade.getFileSize sdk env filePath s) = Normal (ofZ n))
    /\ (md_size md = None \/ md_size md = Some "" ->
        outcome (Facade.getFileSize sdk env filePath s) = Normal (ofZ 0))
    /\ (parseInt "9007199254740993" = ofZ 9007199254740992
        /\ parseInt "0x1F" = ofZ 31
        /\ parseInt "  42 bytes" = ofZ 42
        /\ parseInt "1e3" = ofZ 1
        /\ parseInt "unknown" = NaN).
Proof.
  intros sdk env filePath s md w1 w2 Hready Hfile Hmd.
  rewrite (Facade.getFileSize_ready sdk env filePath s md w1 w2 Hready Hfile Hmd).
  split; [reflexivity|]. split; [|split].
  - intros n ->. now rewrite Facade.reportedSize_decimal.
  - intros [->| ->]; reflexivity.
  - repeat split; vm_compute; reflexivity.
Qed.

(** An object of three bytes in the in-memory bucket. *)
Lemma getFileSize_reads_the_reported_size_witness :
  outcome (Facade.getFileSize memSdk memEnv "a.pdf"
             (memStart [("a.pdf", [Byte.x25; Byte.x50; Byte.x44])] []))
  = Normal (ofZ 3).
Proof.
  refine (proj1 (proj2 (getFileSize_reads_the_reported_size memSdk memEnv "a.pdf"
                   (memStart [("a.pdf", [Byte.x25; Byte.x50; Byte.x44])] [])
                   (mkGcsMetadata (Some (showZ 3)) None "2025-01-01T00:00:00.000Z"
                      "2025-01-01T00:00:00.000Z")
                   (mkMemWorld [("a.pdf", [Byte.x25; Byte.x50; Byte.x44])] [] 0)
                   (mkMemWorld [("a.pdf", [Byte.x25; Byte.x50; Byte.x44])] [] 0)
                   _ _ _)) 3 _).
  - split; [reflexivity|discriminate].
  - reflexivity.
  - reflexivity.
  - reflexivity.
Defined.

(** X7. A module that cannot be used refuses every call. When the
    initialization has failed once ([initializationError] is set, and
    nothing ever clears it, not even a later initialization that succeeds)
    or no bucket is configured, each function of the facade throws an
    [Error] (the initialization error, or one that says "GCS bucket not
    initialized"), makes no call on the bucket, and leaves the module as
    unusable as it was, so that every later call is refused as well. *)
Theorem unusable_module_refuses_every_call :
  forall sdk more env s,
    unusable sdk env s ->
    (forall file fileName contentType userId folder maxRetries,
       refused sdk env consoleOnly
         (uploadFile sdk env file fileName contentType userId folder maxRetries s))
    /\ (forall filePath maxRetries,
          refused sdk env consoleOnly (readFile sdk env filePath maxRetries s))
    /\ (forall filePath, refused sdk env consoleOnly (deleteFile sdk env filePath s))
    /\ (forall sourcePath destinationPath,
          refused sdk env consoleOnly (copyFile sdk env sourcePath destinationPath s))
    /\ (forall sourcePath destinationPath,
          refused sdk env consoleOnly (moveFile sdk env sourcePath destinationPath s))
    /\ (forall filePath,
          refused sdk env Facade.quiet (Facade.getFileMetadata sdk more env filePath s))
    /\ (forall userId folder limit,
          refused sdk env Facade.quiet (Facade.listFiles sdk more env userId folder limit s))
    /\ (forall filePath expiresIn,
          refused sdk env Facade.quiet
            (Facade.getSignedUrl sdk more env filePath expiresIn s))
    /\ (forall filePath, refused sdk env Facade.quiet (Facade.fileExists sdk env filePath s))
    /\ (forall filePath, refused sdk env Facade.quiet (Facade.getFileSize sdk env filePath s))
    /\ (forall filePath,
          refused sdk env Facade.quiet (Facade.makeFilePublic sdk more env filePath s))
    /\ (forall filePath,
          refused sdk env Facade.quiet (Facade.makeFilePrivate sdk more env filePath s)).
Proof.
  intros sdk more env s Hun.
  destruct (storage_refused sdk env s Hun) as (H1 & H2 & H3 & H4 & H5).
  split; [exact H1|]. split; [exact H2|]. split; [exact H3|].
  split; [exact H4|]. split; [exact H5|].
  repeat split; intros; apply Facade.guarded_refused; exact Hun.
Qed.

(** A deployment without [GCS_BUCKET_NAME]: the existence check is refused
    before the bucket is asked. *)
Lemma unusable_module_refuses_every_call_witness :
  refused memSdk (mkEnv "" "demo-project" None) Facade.quiet
    (Facade.fileExists memSdk (mkEnv "" "demo-project" None) "a.pdf"
       (memStart [("a.pdf", [Byte.x25])] [])).
Proof.
  apply (unusable_module_refuses_every_call memSdk Facade.memCalls
           (mkEnv "" "demo-project" None) (memStart [("a.pdf", [Byte.x25])] [])).
  right. split; reflexivity.
Defined.

(** X8. [getFileMetadata] never throws on a usable module. It answers [null]
    when the file does not exist, without asking for its metadata, and also
    when the lookup, the existence check or [getMetadata] throws: the value
    thrown is logged with [console.error] and goes no further, so that the
    caller cannot tell a failure from a missing file. Metadata that is
    returned is that of the path asked for, after the existence check
    answered yes and no call failed. *)
Theorem getFileMetadata_answers_null_on_failure :
  forall sdk more env filePath s,
    storageReady sdk env s ->
    (exists res,
       outcome (Facade.getFileMetadata sdk more env filePath s) = Normal res
       /\ (forall m, res = Some m ->
             fm_path m = filePath
             /\ fm_url m = "gs://" +++ GCS_BUCKET_NAME env +++ "/" +++ filePath
             /\ In (Facade.EvStorage (EvCall OpExists filePath (Answer true)))
                   (emitted (Facade.getFileMetadata sdk more env filePath s))
             /\ failures (Facade.storageEvents
                            (emitted (Facade.getFileMetadata sdk more env filePath s)))
                = [])
       /\ (In (Facade.EvStorage (EvCall OpExists filePath (Answer false)))
              (emitted (Facade.getFileMetadata sdk more env filePath s)) ->
           res = None
           /\ countOp OpGetMetadata
                (Facade.storageEvents
                   (emitted (Facade.getFileMetadata sdk more env filePath s))) = 0%nat))
    /\ (forall t,
          In t (failures (Facade.storageEvents
                            (emitted (Facade.getFileMetadata sdk more env filePath s)))) ->
          outcome (Facade.getFileMetadata sdk more env filePath s) = Normal None
          /\ In (Facade.EvStorage
                   (EvConsole LError [LStr "Error getting file metadata:"; LVal t]))
                (emitted (Facade.getFileMetadata sdk more env filePath s))).
Proof.
  intros sdk more env filePath s Hready.
  exact (Facade.getFileMetadata_ready sdk more env filePath s Hready).
Qed.

(** A [getMetadata] that the bucket refuses: the answer is [null]. *)
Lemma getFileMetadata_answers_null_on_failure_witness :
  outcome (Facade.getFileMetadata memSdk Facade.memCalls memEnv "a.pdf"
             (memStart [("a.pdf", [Byte.x25])] [None; None; Some "permission denied"]))
  = Normal None.
Proof.
  refine (proj1 (proj2 (getFileMetadata_answers_null_on_failure memSdk Facade.memCalls
                          memEnv "a.pdf"
                          (memStart [("a.pdf", [Byte.x25])]
                             [None; None; Some "permission denied"]) _)
                   (ThrowErr (newError "permission denied")) _)).
  - split; [reflexivity|discriminate].
  - simpl. auto.
Defined.

(** X9. [getSignedUrl] signs only for a file that the bucket says exists: in
    every run, a call of [file.getSignedUrl] is on the path asked for and
    comes after an existence check that answered yes; it asks for a v4 read
    URL that expires [expiresIn] seconds (3600 when omitted) after the
    current time in milliseconds. When the check answers no, the function
    throws "File not found". *)
Theorem getSignedUrl_signs_existing_files_only :
  forall sdk more env filePath expiresIn s,
    (forall path config o,
       In (Facade.EvGetSignedUrl path config o)
          (emitted (Facade.getSignedUrl sdk more env filePath expiresIn s)) ->
       path = filePath
       /\ In (Facade.EvStorage (EvCall OpExists filePath (Answer true)))
             (emitted (Facade.getSignedUrl sdk more env filePath expiresIn s))
       /\ Facade.version config = "v4" /\ Facade.action config = "read"
       /\ exists w, Facade.expires config
                    = fst (Facade.Date_now more w)
                      + match expiresIn with Some n => n | None => 3600 end * 1000)
    /\ (In (Facade.EvStorage (EvCall OpExists filePath (Answer false)))
           (emitted (Facade.getSignedUrl sdk more env filePath expiresIn s)) ->
        outcome (Facade.getSignedUrl sdk more env filePath expiresIn s)
        = Throw (ThrowErr (newError "File not found"))).
Proof.
  intros. exact (Facade.getSignedUrl_runs sdk more env filePath expiresIn s).
Qed.

(** A file that is not in the in-memory bucket: no URL is signed. *)
Lemma getSignedUrl_signs_existing_files_only_witness :
  outcome (Facade.getSignedUrl memSdk Facade.memCalls memEnv "gone.pdf" None
             (memStart [] []))
  = Throw (ThrowErr (newError "File not found")).
Proof.
  apply (proj2 (getSignedUrl_signs_existing_files_only memSdk Facade.memCalls memEnv
                  "gone.pdf" None (memStart [] []))).
  simpl. auto.
Defined.

(** X10. What [uploadFile] stores for a user and a folder lies under the prefix
    that [listFiles] asks the bucket for with the same user and folder: the
    path returned by a successful upload starts with the prefix of every
    [getFiles] call of such a listing. *)
Theorem uploads_lie_under_the_listing_prefix :
  forall sdk more env file fileName contentType userId folder maxRetries s m
         limit s' prefix maxResults o,
    outcome (uploadFile sdk env file fileName contentType userId folder maxRetries s)
    = Normal m ->
    In (Facade.EvGetFiles prefix maxResults o)
       (emitted (Facade.listFiles sdk more env userId folder limit s')) ->
    startsWith (fm_path m) prefix = true.
Proof.
  intros sdk more env file fileName contentType userId folder maxRetries s m
         limit s' prefix maxResults o Hm Hin.
  destruct (uploadFile_result sdk env file fileName contentType userId folder
              maxRetries s) as (fileId & _ & Hres).
  destruct (Hres m Hm) as (_ & _ & Hpath & _).
  destruct (Facade.listFiles_asks sdk more env userId folder limit s' _ _ _ Hin)
    as [-> _].
  rewrite Hpath. apply Facade.listPrefix_upload.
Qed.

Lemma uploads_lie_under_the_listing_prefix_witness :
  exists m,
    outcome (fst Facade.uploadThenList) = Normal m
    /\ startsWith (fm_path m) "users/u1/resumes/" = true
    /\ option_map (map fm_path)
         (match outcome (snd Facade.uploadThenList) with
          | Normal l => Some l
          | Throw _ => None
          end)
       = Some [fm_path m].
Proof.
  eexists. split; [vm_compute; reflexivity|]. split; [|vm_compute; reflexivity].
  apply (uploads_lie_under_the_listing_prefix memSdk Facade.memCalls memEnv
           [Byte.x25; Byte.x50] "cv.pdf" "application/pdf" (Some "u1") (Some "resumes")
           3 (memStart [] []) _ None
           (final (fst Facade.uploadThenList)) "users/u1/resumes/" 1000 Done).
  - vm_compute. reflexivity.
  - vm_compute. auto.
Defined.

(** ** The PDF to image helper *)

Import Pdf2ImgFacts.

(** X11. The scale at which the first page is rendered,
    [Math.min(4, Math.max(1, 2000 / width))], is computed in doubles. It is
    [NaN] exactly when the width is, and for every other width, a zero, a
    negative and an infinite one included, it lies between 1 and 4. The
    width +0 gives 4 and -0 gives 1; a page 2000 or 4000 units wide is
    rendered at its own size, one 1000 wide twice as large, one 500 or 100
    wide four times as large. The quotient is rounded: a page 531 wide
    times its scale falls just short of 2000, so that the canvas, whose
    width is floored, is 1999 wide; for an A4 page, 595 wide, it is 2000. *)
Theorem render_scale_is_clamped :
  (forall w : Number,
     isNaN (Pdf2Img.renderScale w) = isNaN w
     /\ (isNaN w = false ->
         numLeb (ofZ 1) (Pdf2Img.renderScale w) = true
         /\ numLeb (Pdf2Img.renderScale w) (ofZ 4) = true))
  /\ (Pdf2Img.renderScale (SpecFloat.S754_zero false) = ofZ 4
      /\ Pdf2Img.renderScale (SpecFloat.S754_zero true) = ofZ 1
      /\ Pdf2Img.renderScale (ofZ (-100)) = ofZ 1)
  /\ (Pdf2Img.renderScale (ofZ 4000) = ofZ 1
      /\ Pdf2Img.renderScale (ofZ 2000) = ofZ 1
      /\ Pdf2Img.renderScale (ofZ 1000) = ofZ 2
      /\ Pdf2Img.renderScale (ofZ 500) = ofZ 4
      /\ Pdf2Img.renderScale (ofZ 100) = ofZ 4)
  /\ (numLtb (numMul (ofZ 531) (Pdf2Img.renderScale (ofZ 531))) (ofZ 2000) = true
      /\ mathFloor (numMul (ofZ 531) (Pdf2Img.renderScale (ofZ 531))) = ofZ 1999
      /\ mathFloor (numMul (ofZ 595) (Pdf2Img.renderScale (ofZ 595))) = ofZ 2000).
Proof.
  split; [|split; [|split]].
  - intros w. split; [apply renderScale_nan|apply renderScale_bounds].
  - repeat split; vm_compute; reflexivity.
  - repeat split; vm_compute; reflexivity.
  - repeat split; vm_compute; reflexivity.
Qed.

(** A page of infinite width is rendered at its own size. *)
Lemma render_scale_is_clamped_witness :
  numLeb (ofZ 1) (Pdf2Img.renderScale (SpecFloat.S754_infinity false)) = true
  /\ numLeb (Pdf2Img.renderScale (SpecFloat.S754_infinity false)) (ofZ 4) = true.
Proof.
  apply (proj2 (proj1 render_scale_is_clamped (SpecFloat.S754_infinity false))).
  reflexivity.
Defined.

(** X12. The image that [convertPdfToImage] returns is named after the PDF: a
    result with a file has no error, its file is of type [image/png], and
    its name is the name of the PDF with a final [.pdf] (in any case)
    replaced by [.png], or with [.png] added when the name does not end so. *)
Theorem image_is_named_after_the_pdf :
  forall pf file maxRetries s r img,
    outcome (Pdf2Img.convertPdfToImage pf file maxRetries s) = Normal r ->
    Pdf2Img.file r = Some img ->
    exists f,
      file = Some f
      /\ Pdf2Img.error r = None
      /\ Pdf2Img.img_type img = "image/png"
      /\ Pdf2Img.img_name img = Pdf2Img.stripPdfSuffix (Pdf2Img.file_name f) +++ ".png"
      /\ (forall base ext,
            Pdf2Img.file_name f = base +++ ext -> toLowerCase ext = ".pdf" ->
            Pdf2Img.img_name img = base +++ ".png")
      /\ (endsWith (toLowerCase (Pdf2Img.file_name f)) ".pdf" = false ->
          Pdf2Img.img_name img = Pdf2Img.file_name f +++ ".png").
Proof.
  intros pf file maxRetries s r img Hr Himg.
  destruct (convertPdfToImage_attempts pf file maxRetries s) as (_ & Hres & _).
  destruct (Hres r Hr) as [(msg & ->)|(f & url & blob & -> & ->)]; [discriminate|].
  simpl in Himg. injection Himg as <-. exists f. simpl.
  split; [reflexivity|]. split; [reflexivity|]. split; [reflexivity|].
  split; [reflexivity|]. split.
  - intros base ext -> Hext. now rewrite stripPdfSuffix_suffix.
  - intros Hend. now rewrite stripPdfSuffix_other.
Qed.

(** A conversion that works at once, of [Resume.PDF]. *)
Lemma image_is_named_after_the_pdf_witness :
  exists r img,
    outcome (Pdf2Img.convertPdfToImage Pdf2Img.browser
               (Some (Pdf2Img.mkFileObj "Resume.PDF" "application/pdf" 4 0)) 3
               (Pdf2Img.start Pdf2Img.browser [])) = Normal r
    /\ Pdf2Img.file r = Some img
    /\ Pdf2Img.img_name img = "Resume.png".
Proof.
  eexists. eexists. split; [vm_compute; reflexivity|]. split; [reflexivity|].
  destruct (image_is_named_after_the_pdf Pdf2Img.browser
              (Some (Pdf2Img.mkFileObj "Resume.PDF" "application/pdf" 4 0)) 3
              (Pdf2Img.start Pdf2Img.browser []) _ _
              ltac:(vm_compute; reflexivity) eq_refl)
    as (f & Hf & _ & _ & _ & Hname & _).
  injection Hf as <-. exact (Hname "Resume" ".PDF" eq_refl eq_refl).
Defined.

(** X13. The loader keeps its word across conversions. If a set [loadPromise] has
    been settled with the loaded library before a call of
    [convertPdfToImage], so it has after it; a library that was loaded stays
    loaded; and a worker that was turned off stays off. [loadPdfJs] itself,
    from such a state, leaves the library loaded when it returns, and when
    it throws it leaves nothing loaded and no promise behind, so that the
    next attempt imports again. *)
Theorem loader_state_persists :
  forall pf,
    (forall file maxRetries s,
       (loaderSettled pf s ->
        loaderSettled pf (final (Pdf2Img.convertPdfToImage pf file maxRetries s)))
       /\ (Pdf2Img.pdfjsLib s = true ->
           Pdf2Img.pdfjsLib (final (Pdf2Img.convertPdfToImage pf file maxRetries s)) = true)
       /\ (Pdf2Img.disableWorker (Pdf2Img.lib s) = true ->
           Pdf2Img.disableWorker
             (Pdf2Img.lib (final (Pdf2Img.convertPdfToImage pf file maxRetries s))) = true))
    /\ (forall s,
          loaderSettled pf s ->
          match outcome (Pdf2Img.loadPdfJs pf s) with
          | Normal _ => Pdf2Img.pdfjsLib (final (Pdf2Img.loadPdfJs pf s)) = true
          | Throw _ => Pdf2Img.pdfjsLib (final (Pdf2Img.loadPdfJs pf s)) = false
                       /\ Pdf2Img.loadPromise (final (Pdf2Img.loadPdfJs pf s)) = false
          end).
Proof.
  intros pf. split.
  - intros file maxRetries s. exact (keeps_convertPdfToImage pf file maxRetries s).
  - intros s. exact (proj2 (loadPdfJs_run pf s)).
Qed.

(** On the server no library is loaded, and no promise is left behind. *)
Lemma loader_state_persists_witness :
  Pdf2Img.pdfjsLib (final (Pdf2Img.loadPdfJs Pdf2Img.serverSide
                             (Pdf2Img.start Pdf2Img.serverSide tt))) = false
  /\ Pdf2Img.loadPromise (final (Pdf2Img.loadPdfJs Pdf2Img.serverSide
                                   (Pdf2Img.start Pdf2Img.serverSide tt))) = false.
Proof.
  apply (proj2 (loader_state_persists Pdf2Img.serverSide)
           (Pdf2Img.start Pdf2Img.serverSide tt)).
  intros H. discriminate.
Defined.

(** X14. [convertPdfToImage] stops at the first attempt that reports no error:
    every attempt before the last one of a run reported an error, and a
    result with an error is returned only after all [maxRetries] attempts
    were made. *)
Theorem conversion_stops_at_the_first_success :
  forall pf file maxRetries s,
    Forall (fun r => truthyOpt (Pdf2Img.error r) = true)
      (removelast (Pdf2Img.results
                     (emitted (Pdf2Img.convertPdfToImage pf file maxRetries s))))
    /\ (forall r,
          1 <= maxRetries ->
          outcome (Pdf2Img.convertPdfToImage pf file maxRetries s) = Normal r ->
          truthyOpt (Pdf2Img.error r) = true ->
          Pdf2Img.countAttempts (emitted (Pdf2Img.convertPdfToImage pf file maxRetries s))
          = Z.to_nat maxRetries).
Proof.
  intros pf file maxRetries s.
  destruct (convertPdfToImage_attempts pf file maxRetries s) as (Herr & _ & Hcount).
  split; [exact Herr|exact Hcount].
Qed.

(** A parse that fails once and then works: two attempts of the five
    allowed, the first with an error. *)
Lemma conversion_stops_at_the_first_success_witness :
  Pdf2Img.countAttempts
    (emitted (Pdf2Img.convertPdfToImage Pdf2Img.browser (Some Pdf2Img.resumePdf) 5
                (Pdf2Img.start Pdf2Img.browser [Some "bad xref"]))) = 2%nat
  /\ Forall (fun r => truthyOpt (Pdf2Img.error r) = true)
       (removelast (Pdf2Img.results
                      (emitted (Pdf2Img.convertPdfToImage Pdf2Img.browser
                                  (Some Pdf2Img.resumePdf) 5
                                  (Pdf2Img.start Pdf2Img.browser [Some "bad xref"]))))).
Proof.
  split; [vm_compute; reflexivity|].
  exact (proj1 (conversion_stops_at_the_first_success Pdf2Img.browser
                  (Some Pdf2Img.resumePdf) 5
                  (Pdf2Img.start Pdf2Img.browser [Some "bad xref"]))).
Defined.

(** ** The OAuth callback *)

Import OAuthFacts.

(** X15. The handler answers a request at most once, whatever the method,
    the query and the behaviour of the provider. It sets the four CORS
    headers first. When it returns, it has sent one reply, which is the
    last thing it did and is what it returns. It throws in one case only:
    on a GET whose processing threw an [Error] with a message that is no
    well-formed text, it throws the [URIError] of [encodeURIComponent] and
    has sent no reply. When the processing does not throw such an error,
    the handler returns. *)
Theorem handler_replies_once_unless_it_throws :
  forall auth req w,
    (exists rest,
       emitted (handler auth req w) = corsHeaders ++ rest
       /\ match outcome (handler auth req w) with
          | Normal r => replies rest = [r] /\ lastOpt rest = Some (EvReply r)
          | Throw x =>
              replies rest = []
              /\ x = uriError
              /\ method req = "GET"
              /\ exists t, outcome (processing auth req w) = Throw t
                           /\ wellFormed (errorMessage t) = false
          end)
    /\ ((forall t, outcome (processing auth req w) = Throw t ->
                   wellFormed (errorMessage t) = true) ->
        exists r, outcome (handler auth req w) = Normal r).
Proof.
  intros auth req w.
  destruct (handler_run auth req w) as (rest & Hemitted & Hcase).
  assert (Hthrow : forall x,
            outcome (handler auth req w) = Throw x ->
            x = uriError
            /\ exists t, outcome (processing auth req w) = Throw t
                         /\ wellFormed (errorMessage t) = false).
  { intros x Hx. rewrite Hx in Hcase. destruct Hcase as (_ & _ & t & Ht & Hencode).
    unfold encodeURIComponent in Hencode.
    destruct (wellFormed (errorMessage t)) eqn:Ewf; [discriminate|].
    injection Hencode as <-. split; [reflexivity|]. now exists t. }
  split.
  - exists rest. split; [exact Hemitted|].
    destruct (outcome (handler auth req w)) as [r|x]; [exact Hcase|].
    destruct (Hthrow x eq_refl) as (-> & t & Ht & Hwf).
    destruct Hcase as (Hreplies & Hm & _).
    split; [exact Hreplies|]. split; [reflexivity|]. split; [exact Hm|]. now exists t.
  - intros Hfine. destruct (outcome (handler auth req w)) as [r|x]; [now exists r|].
    destruct (Hthrow x eq_refl) as (_ & t & Ht & Hwf).
    rewrite (Hfine t Ht) in Hwf. discriminate.
Qed.

(** A code that the provider refuses with a plain message: the handler
    returns. *)
Lemma handler_replies_once_unless_it_throws_witness :
  exists r,
    outcome (handler demoAuth
               (mkRequest "GET" (mkQuery (Some (QStr "expired")) None None)) 0%nat)
    = Normal r.
Proof.
  apply (proj2 (handler_replies_once_unless_it_throws demoAuth
                  (mkRequest "GET" (mkQuery (Some (QStr "expired")) None None)) 0%nat)).
  intros t Ht. vm_compute in Ht. injection Ht as <-. reflexivity.
Defined.

(** X16. A request that is not a GET, one that carries an OAuth error, and one
    without a usable code are answered without any call to the provider or
    the session helpers: the world is as it was. [OPTIONS] is answered with
    an empty 200, any other method but [GET] with a 405 and the JSON body
    [{ error: 'Method not allowed' }]. *)
Theorem early_replies_leave_the_provider_alone :
  forall auth req w,
    (method req <> "GET" ->
     final (handler auth req w) = w
     /\ outcome (handler auth req w)
        = Normal (if String.eqb (method req) "OPTIONS" then EndWith 200
                  else JsonWith 405 [("error", "Method not allowed")]))
    /\ (method req = "GET" ->
        truthyQ (q_error (query req)) = true \/ codeString (q_code (query req)) = None ->
        final (handler auth req w) = w).
Proof.
  intros auth req w. split.
  - apply handler_not_GET.
  - intros Hm He. rewrite (handler_GET_final auth req w Hm). now apply processing_early.
Qed.

(** A POST with a good code: refused with 405, no session is created. *)
Lemma early_replies_leave_the_provider_alone_witness :
  final (handler demoAuth (mkRequest "POST" (mkQuery (Some (QStr "good")) None None)) 0%nat)
  = 0%nat
  /\ outcome (handler demoAuth
                (mkRequest "POST" (mkQuery (Some (QStr "good")) None None)) 0%nat)
     = Normal (JsonWith 405 [("error", "Method not allowed")]).
Proof.
  apply (proj1 (early_replies_leave_the_provider_alone demoAuth
                  (mkRequest "POST" (mkQuery (Some (QStr "good")) None None)) 0%nat)).
  discriminate.
Defined.

(** X17. A sign-in that succeeds. On a GET without an OAuth error and with a
    code, when the provider gives a user with an email, the session is
    created for that user's id, name and email, the cookie is set to the
    token of that session, and the state token verifies, the handler
    redirects with 302 to the [redirectTo] of the state, and to [/upload]
    when the state holds none (or an empty one); the world is the one that
    setting the cookie left. *)
Theorem sign_in_redirects_to_the_state_or_upload :
  forall auth req w w1 w2 w3 c token user stateData,
    method req = "GET" ->
    truthyQ (q_error (query req)) = false ->
    codeString (q_code (query req)) = Some c ->
    getGoogleUserInfo auth c w = (Normal user, w1) ->
    truthyOpt (g_email user) = true ->
    createUserSession auth (g_id user) (g_name user) (interpolate (g_email user)) w1
    = (Normal token, w2) ->
    setSessionCookie auth token w2 = (Normal tt, w3) ->
    verifyStateToken auth (q_state (query req)) = Normal stateData ->
    outcome (handler auth req w)
    = Normal (Redirect 302
                (orElse (match stateData with
                         | Some d => redirectTo d
                         | None => None
                         end) "/upload"))
    /\ final (handler auth req w) = w3.
Proof.
  intros auth req w w1 w2 w3 c token user stateData Hm He Hc Hu Hemail Hs Hk Hv.
  destruct (processing_signs_in auth req w w1 w2 w3 c token user stateData
              He Hc Hu Hemail Hs Hk Hv) as [Ho Hf].
  rewrite (handler_GET auth req w Hm), (handler_GET_final auth req w Hm), Ho.
  split; [reflexivity|exact Hf].
Qed.

(** A good code without a state: one session is created, and the user is
    sent to [/upload]. *)
Lemma sign_in_redirects_to_the_state_or_upload_witness :
  outcome (handler demoAuth (mkRequest "GET" (mkQuery (Some (QStr "good")) None None)) 0%nat)
  = Normal (Redirect 302 "/upload")
  /\ final (handler demoAuth
              (mkRequest "GET" (mkQuery (Some (QStr "good")) None None)) 0%nat)
     = 1%nat.
Proof.
  apply (sign_in_redirects_to_the_state_or_upload demoAuth
           (mkRequest "GET" (mkQuery (Some (QStr "good")) None None))
           0%nat 0%nat 1%nat 1%nat "good" "session-0"
           (mkGoogleUser "g-1" "Ada" (Some "ada@example.com")) None);
    reflexivity.
Defined.

(** X18. The error in the [Location] of a redirect is encoded without loss and
    without a character that could end the parameter. [encodeURIComponent]
    returns for a well-formed text, and for no other; what it returns is
    the percent-encoding of the bytes of the text, which holds only
    letters, digits, the marks [-_.!~*'()] and percent signs; two messages
    with the same encoding are the same message; and a message made of
    letters, digits and those marks is its own encoding. *)
Theorem encoded_error_is_safe_and_lossless :
  (forall s, encodeURIComponent s
             = if wellFormed s then Normal (percentEncode s) else Throw uriError)
  /\ (forall s, Text.allChars uriChar (percentEncode s) = true)
  /\ (forall s1 s2, percentEncode s1 = percentEncode s2 -> s1 = s2)
  /\ (forall s encoded, encodeURIComponent s = Normal encoded ->
        Text.allChars uriChar encoded = true)
  /\ (forall s1 s2 encoded,
        encodeURIComponent s1 = Normal encoded ->
        encodeURIComponent s2 = Normal encoded -> s1 = s2)
  /\ (forall s, Text.allChars unreserved s = true -> encodeURIComponent s = Normal s).
Proof.
  split; [reflexivity|]. split; [exact percentEncode_chars|].
  split; [exact percentEncode_injective|]. split; [|split].
  - intros s encoded. unfold encodeURIComponent.
    destruct (wellFormed s); [|discriminate]. intros H. injection H as <-.
    apply percentEncode_chars.
  - intros s1 s2 encoded. unfold encodeURIComponent.
    destruct (wellFormed s1); [|discriminate]. destruct (wellFormed s2); [|discriminate].
    intros H1 H2. injection H1 as <-. injection H2 as H2.
    apply percentEncode_injective. now symmetry.
  - intros s Hs. unfold encodeURIComponent. rewrite (unreserved_wellFormed s Hs).
    now rewrite (percentEncode_unreserved s Hs).
Qed.

(** [access_denied], the error of a consent that was refused, is its own
    encoding. *)
Lemma encoded_error_is_safe_and_lossless_witness :
  encodeURIComponent "access_denied" = Normal "access_denied".
Proof.
  apply (proj2 (proj2 (proj2 (proj2 (proj2 encoded_error_is_safe_and_lossless))))
           "access_denied").
  reflexivity.
Defined.

(** ** The trial display *)

(** X19. What the component shows follows the [remaining] field alone. With 0
    remaining the box and the bar are red and the status says that the
    trial is exhausted; with 1 they are orange and one analysis remains; in
    every other case, a negative count included, they are green and the
    status counts "analyses" in the plural. The link to the plans is shown
    exactly when it was not turned off and at most 1 remains. *)
Theorem trial_display_follows_remaining :
  forall props store v,
    TrialTracker props store = Some v ->
    (remaining (trial store) = 0 ->
       view_status v = TrialExhausted
       /\ view_progressColor v = "bg-red-500"
       /\ startsWith (view_class v)
            "rounded-lg border p-3 text-red-600 bg-red-50 border-red-200 " = true)
    /\ (remaining (trial store) = 1 ->
          view_status v = OnlyOneRemaining
          /\ view_progressColor v = "bg-orange-500"
          /\ startsWith (view_class v)
               "rounded-lg border p-3 text-orange-600 bg-orange-50 border-orange-200 "
             = true)
    /\ (remaining (trial store) <> 0 -> remaining (trial store) <> 1 ->
          view_status v = FreeRemaining (remaining (trial store)) "analyses"
          /\ view_progressColor v = "bg-green-500"
          /\ startsWith (view_class v)
               "rounded-lg border p-3 text-green-600 bg-green-50 border-green-200 "
             = true)
    /\ (view_upgradeLink v = true
        <-> showUpgradeLink props <> Some false /\ remaining (trial store) <= 1).
Proof.
  intros props store v. unfold TrialTracker. cbv zeta.
  destruct (negb (isAuthenticated (Trial.auth store))); [discriminate|].
  intros H. injection H as <-.
  cbn [view_status view_progressColor view_class view_upgradeLink].
  unfold getColorClass, getProgressColor.
  split; [|split; [|split]].
  - intros ->. simpl. repeat split. now destruct (className props) as [[|]|].
  - intros ->. simpl. repeat split. now destruct (className props) as [[|]|].
  - intros H0 H1. apply Z.eqb_neq in H0, H1. rewrite H0, H1. simpl.
    repeat split. now destruct (className props) as [[|]|].
  - destruct (showUpgradeLink props) as [[|]|]; simpl;
      destruct (Z.leb_spec (remaining (trial store)) 1); split;
      try (intros _; split; [discriminate|assumption]);
      try (intros [_ Hle]; (reflexivity || lia));
      try discriminate;
      try (intros [Hs _]; congruence).
Qed.

(** A store that holds a negative count: the box is green, the count is
    shown as it is, and the link to the plans is there. *)
Lemma trial_display_follows_remaining_witness :
  exists v,
    TrialTracker (mkProps None None) (mkStore (mkTrial 5 (-2) 3) (Trial.mkAuth true))
    = Some v
    /\ view_status v = FreeRemaining (-2) "analyses"
    /\ view_progressColor v = "bg-green-500"
    /\ view_upgradeLink v = true.
Proof.
  eexists. split; [reflexivity|].
  destruct (trial_display_follows_remaining (mkProps None None)
              (mkStore (mkTrial 5 (-2) 3) (Trial.mkAuth true)) _ eq_refl)
    as (_ & _ & Hgreen & Hlink).
  destruct (Hgreen ltac:(discriminate) ltac:(discriminate)) as (Hs & Hc & _).
  split; [exact Hs|]. split; [exact Hc|].
  apply Hlink. split; [discriminate|simpl; lia].
Defined.

(** X20. The width of the progress bar is the double [(used / max) * 100],
    and the component does not clamp it. With a [max] of 0 it is no finite
    number: [NaN] when nothing is used, infinite otherwise. Three analyses
    used of three give 100, and four of three a width above 100, the
    double 133.33333333333331. *)
Theorem progress_bar_width_is_not_clamped :
  forall props store v,
    TrialTracker props store = Some v ->
    view_width v = percentUsed (used (trial store)) (max (trial store))
    /\ (max (trial store) = 0 -> isFinite (view_width v) = false)
    /\ (max (trial store) = 0 -> used (trial store) = 0 -> view_width v = NaN)
    /\ (max (trial store) = 3 -> used (trial store) = 3 -> view_width v = ofZ 100)
    /\ (max (trial store) = 3 -> used (trial store) = 4 ->
        view_width v = SpecFloat.S754_finite false 4691249611844266 (-45)
        /\ numLtb (ofZ 100) (view_width v) = true).
Proof.
  intros props store v. unfold TrialTracker. cbv zeta.
  destruct (negb (isAuthenticated (Trial.auth store))); [discriminate|].
  intros H. injection H as <-. cbn [view_width].
  split; [reflexivity|]. split; [|split; [|split]].
  - intros ->. unfold percentUsed. apply numMul_not_finite.
    change (ofZ 0) with (SpecFloat.S754_zero false). apply numDiv_zero.
  - intros -> ->. reflexivity.
  - intros -> ->. vm_compute. reflexivity.
  - intros -> ->. split; vm_compute; reflexivity.
Qed.

(** Four analyses used of three: the bar is a third wider than its track. *)
Lemma progress_bar_width_is_not_clamped_witness :
  exists v,
    TrialTracker (mkProps None None) (mkStore (mkTrial 4 0 3) (Trial.mkAuth true)) = Some v
    /\ numLtb (ofZ 100) (view_width v) = true.
Proof.
  eexists. split; [reflexivity|].
  apply (proj2 (proj2 (proj2 (proj2
           (progress_bar_width_is_not_clamped (mkProps None None)
              (mkStore (mkTrial 4 0 3) (Trial.mkAuth true)) _ eq_refl)))));
    reflexivity.
Defined.

(** ** The database scripts *)

Import ScriptsFacts.



(** X22. The statements of the migrations are idempotent. A statement that has
    succeeded succeeds again without changing the database, at once and
    also after any other statement of a migration has succeeded in between:
    what [CREATE TABLE IF NOT EXISTS], [CREATE INDEX IF NOT EXISTS] and [ADD
    COLUMN IF NOT EXISTS] have created is found there the next time. And a
    second run of the script over the two migration files at hand changes
    nothing, whatever the database does with other queries. *)
Theorem migration_statements_are_idempotent :
  (forall st db db1,
     execStmt st db = (Normal tt, db1) ->
     execStmt st db1 = (Normal tt, db1)
     /\ forall st' db2,
          execStmt st' db1 = (Normal tt, db2) -> execStmt st db2 = (Normal tt, db2))
  /\ (forall other,
        final (runMigrations filesAtHand other migratedDatabase) = migratedDatabase).
Proof.
  split; [|intros other; vm_compute; reflexivity].
  intros st db db1 Hex. pose proof (execStmt_creates st db db1 Hex) as Hp.
  split; [now apply execStmt_present|].
  intros st' db2 Hex'. apply execStmt_present.
  exact (execStmt_keeps st st' db1 db2 Hp Hex').
Qed.

(** Creating the users table in an empty database, twice. *)
Lemma migration_statements_are_idempotent_witness :
  exists db1,
    execStmt (CreateTableIfNotExists "users" ["id"; "email"] []) emptyDatabase
    = (Normal tt, db1)
    /\ execStmt (CreateTableIfNotExists "users" ["id"; "email"] []) db1 = (Normal tt, db1).
Proof.
  eexists. split; [reflexivity|].
  apply (proj1 migration_statements_are_idempotent
           (CreateTableIfNotExists "users" ["id"; "email"] []) emptyDatabase).
  reflexivity.
Defined.

(** X23. Seeding a user whose email is already there updates the name and
    nothing else. The upsert returns the id of the row that holds the
    email, and in the table every column of every row but the name is as it
    was: the uuid, the subscription tier and the trial counters given in the
    statement are dropped, so that a user's trial usage is not reset. *)
Theorem reseeding_a_user_updates_only_the_name :
  forall uuid name email tier trial_uses max_trial_uses db,
    hasTable "users" db = true ->
    idOfEmail email (users db) <> None ->
    exists r db' row,
      upsertUser uuid name email tier trial_uses max_trial_uses db = (Normal r, db')
      /\ Some (ret_id r) = idOfEmail email (users db)
      /\ ret_name r = name
      /\ map besidesName (users db') = map besidesName (users db)
      /\ find (emailIs email) (users db') = Some row
      /\ u_name row = name
      /\ option_map besidesName (find (emailIs email) (users db))
         = Some (besidesName row).
Proof.
  intros uuid name email tier trial_uses max_trial_uses db Htable Hheld.
  unfold upsertUser. rewrite Htable. simpl.
  destruct (renameByEmail email name (users db)) as [[users' row]|] eqn:Er;
    [|now apply renameByEmail_held in Er].
  destruct (renameByEmail_rows _ _ _ _ _ Er) as (Hmap & Hname & Hfind & Hold).
  destruct (renameByEmail_some _ _ _ _ _ Er) as (_ & Hid & _).
  exists (mkReturning (u_id row) (u_name row) (u_email row)),
         (setUsers db users' (users_seq db + 1)), row.
  simpl. split; [reflexivity|]. split; [now rewrite Hid|].
  split; [exact Hname|]. split; [exact Hmap|]. split; [exact Hfind|].
  split; [exact Hname|exact Hold].
Qed.

(** After a first run of the seed script, John has used one trial; seeding
    him again under another name and with no trial used leaves that count
    at one. *)
Lemma reseeding_a_user_updates_only_the_name_witness :
  exists r db',
    upsertUser "a93e-0" "Johnny" "john@example.com" "pro" 0 3 (final firstRun)
    = (Normal r, db')
    /\ map u_name (users db') = ["Johnny"; "Jane Engineer"; "Test User"]
    /\ map u_trial_uses (users db') = [1; 3; 0]
    /\ map u_subscription_tier (users db') = ["free"; "pro"; "free"].
Proof.
  destruct (reseeding_a_user_updates_only_the_name "a93e-0" "Johnny" "john@example.com"
              "pro" 0 3 (final firstRun)) as (r & db' & row & Hup & _).
  - vm_compute. reflexivity.
  - vm_compute. discriminate.
  - exists r, db'. split; [exact Hup|].
    vm_compute in Hup. injection Hup as <- <-. vm_compute. repeat split.
Defined.

(** X24. The seed script needs the tables. On a database without a [users]
    table it inserts nothing: the first statement fails, the error is
    logged, the database is as it was, and the exit code is 1. *)
Theorem seeding_needs_the_tables :
  forall env db,
    hasTable "users" db = false ->
    outcome (seedData env db) = Normal 1
    /\ final (seedData env db) = db
    /\ In (EvError [LStr "❌ Error seeding database:";
                    LStr ("relation " +++ quoted "users" +++ " does not exist")])
          (emitted (seedData env db)).
Proof.
  intros env db Htable.
  unfold seedData, seedBody, createUsers, testUsers, collectEach, sql, log.
  unfold bind, tryCatch, call, emit, ret. unfold upsertUser. rewrite Htable. simpl.
  split; [reflexivity|]. split; [reflexivity|]. auto.
Qed.

(** The seed script before the migrations. *)
Lemma seeding_needs_the_tables_witness :
  outcome (seedData firstEnv emptyDatabase) = Normal 1
  /\ final (seedData firstEnv emptyDatabase) = emptyDatabase.
Proof.
  destruct (seeding_needs_the_tables firstEnv emptyDatabase eq_refl) as (Ho & Hf & _).
  split; [exact Ho|exact Hf].
Defined.

(** ** The text of a migration *)

Import MigrationText.

(** X25. scripts/run-migrations.mjs, from the text of a file to its
    statements: whatever the text is, no line of the cleaned text starts
    with two dashes after trimming, and every statement kept is non-empty
    and has no white space at either end, so that trimming it again changes
    nothing. White space is what [trim] removes: the ASCII white space, the
    no-break space, the byte order mark and the other space characters of
    Unicode. *)
Theorem statements_are_trimmed_and_uncommented (sqlContent : string) :
  Forall (fun line => isCommentLine line = false)
    (split lineFeed (cleanedContent sqlContent))
  /\ Forall (fun statement =>
               statement <> "" /\ trim statement = statement
               /\ spaceWidth statement = 0%nat /\ trimEnd statement = statement)
       (statementsOf sqlContent)
  /\ (isCommentLine (String (ascii_of_nat 239) (String (ascii_of_nat 187)
                       (String (ascii_of_nat 191) "-- after a byte order mark")))
      = true
      /\ isCommentLine (String (ascii_of_nat 194) (String (ascii_of_nat 160)
                          "-- after a no-break space")) = true
      /\ isCommentLine "SELECT 1 -- not at the start" = false).
Proof.
  split; [apply cleanedContent_lines|]. split; [apply statementsOf_trimmed|].
  repeat split; vm_compute; reflexivity.
Qed.

(** X26. scripts/run-migrations.mjs splits statements only where a
    semicolon ends a line: a text without a line feed gives at most one
    statement, however many semicolons it holds. *)
Theorem one_line_is_one_statement (sqlContent : string) :
  includes sqlContent LF = false ->
  (List.length (statementsOf sqlContent) <= 1)%nat.
Proof. apply statementsOf_line. Qed.

Lemma one_line_is_one_statement_witness :
  includes "SELECT 1; SELECT 2;" LF = false
  /\ statementsOf "SELECT 1; SELECT 2;" = ["SELECT 1; SELECT 2"]
  /\ (List.length (statementsOf "SELECT 1; SELECT 2;") <= 1)%nat.
Proof.
  split; [reflexivity|]. split; [reflexivity|].
  apply (one_line_is_one_statement "SELECT 1; SELECT 2;"). reflexivity.
Defined.

(** ** The review page *)

Import ResumeRoute.

(** X27. app/routes/resume.tsx, the read loop of a file: a run is some reads
    that found nothing, each followed by its wait of 500 ms times the number
    of the read, and then either one read that found the file or threw, or
    nothing more after the third read; the loop waits 1500 ms after the
    third failed read as well, before giving up. *)
Theorem every_missed_read_is_followed_by_its_wait
    (pf : Platform) (path : option string) (s : State pf) :
  let r := readWithRetry pf path 3 0 s in
  (exists k,
     (k <= 3)%nat
     /\ ((emitted r = misses path 0 k /\ k = 3%nat /\ outcome r = Normal None)
         \/ (exists b, emitted r = misses path 0 k ++ [EvRead path Found]
                       /\ (k < 3)%nat /\ outcome r = Normal (Some b))
         \/ (exists t, emitted r = misses path 0 k ++ [EvRead path (Threw t)]
                       /\ (k < 3)%nat /\ outcome r = Throw t)))
  /\ misses path 0 3 =
     [EvRead path Missing; EvDelay 500; EvRead path Missing; EvDelay 1000;
      EvRead path Missing; EvDelay 1500].
Proof.
  cbn zeta. split; [|reflexivity].
  destruct (readWithRetry_run pf path 3 0 s ltac:(lia) eq_refl) as (_ & k & Hk & H).
  exists k. split; [exact Hk|exact H].
Qed.

(** X28. app/routes/resume.tsx: [loadResume] never throws, whatever the
    store, the parser and the file system do, and it reads the file system
    at most six times. *)
Theorem loadResume_never_throws (pf : Platform) (id : string) (s : State pf) :
  let r := loadResume pf id s in
  outcome r = Normal tt /\ (countReads (emitted r) <= 6)%nat.
Proof.
  cbn zeta. unfold loadResume, tryCatch.
  destruct (kv_get pf ("resume:" +++ id) (world s)) as [c w] eqn:Hkv.
  pose proof (loadBody_run pf id s c w Hkv) as [Hc _]. cbn zeta in Hc.
  destruct (loadBody pf id s) as [[[]|t] s1 e1]; cbn [outcome final emitted] in *.
  - split; [reflexivity|exact Hc].
  - unfold console, emit. cbn [outcome emitted].
    rewrite countReads_app. change (countReads [EvConsole _ _]) with 0%nat.
    split; [reflexivity|lia].
Qed.

(** X29. app/routes/resume.tsx: when [kv.get] throws, or gives a falsy
    entry, or one that does not parse, or one that parses to null,
    [loadResume] reads no file, leaves the state of the page as it was and
    logs an error. *)
Theorem unusable_entry_loads_nothing
    (pf : Platform) (id : string) (s : State pf)
    (c : Completion (option string)) (w : World pf) :
  kv_get pf ("resume:" +++ id) (world s) = (c, w) ->
  entryOf pf c = None ->
  let r := loadResume pf id s in
  view (final r) = view s
  /\ countReads (emitted r) = 0%nat
  /\ exists args, In (EvConsole LError args) (emitted r).
Proof.
  intros Hkv Hentry. cbn zeta. unfold loadResume, tryCatch.
  pose proof (loadBody_run pf id s c w Hkv) as [_ H]. cbn zeta in H.
  rewrite Hentry in H.
  destruct (loadBody pf id s) as [[[]|t] s1 e1]; cbn [outcome final emitted] in *.
  - destruct H as (Hv & Hc & [(t & Ht)|(_ & Hlog)]); [discriminate|].
    split; [exact Hv|]. split; [exact Hc|exact Hlog].
  - destruct H as (Hv & Hc & _). unfold console, emit. cbn [outcome final emitted].
    rewrite countReads_app, Hc. split; [exact Hv|]. split; [reflexivity|].
    eexists. apply in_or_app. right. now left.
Qed.

Lemma unusable_entry_loads_nothing_witness :
  let r := loadResume demoStore "7" demoStart in
  view (final r) = initialView
  /\ countReads (emitted r) = 0%nat
  /\ exists args, In (EvConsole LError args) (emitted r).
Proof.
  apply (unusable_entry_loads_nothing demoStore "7" demoStart (Normal None) tt);
    reflexivity.
Defined.

(** X30. app/routes/resume.tsx: when the entry parses to data, [loadResume]
    either logs the error of a step that threw, or logs no error and ends
    with the feedback, the job title, the job description and the two paths
    of the data in the state of the page (the empty string for a missing
    text), whether or not the files were found; a URL changes only after a
    read that found its file. *)
Theorem details_are_shown_unless_a_step_throws
    (pf : Platform) (id : string) (s : State pf)
    (c : Completion (option string)) (w : World pf) (d : ResumeData (Feedback pf)) :
  kv_get pf ("resume:" +++ id) (world s) = (c, w) ->
  entryOf pf c = Some d ->
  let r := loadResume pf id s in
  (exists t, In (EvConsole LError [LStr "Error loading resume:"; LVal t]) (emitted r))
  \/ (errorFree (emitted r)
      /\ shows pf (view (final r)) d
      /\ (resumeUrl (view (final r)) = resumeUrl (view s)
          \/ In (EvRead (resumePath d) Found) (emitted r))
      /\ (imageUrl (view (final r)) = imageUrl (view s)
          \/ In (EvRead (imagePath d) Found) (emitted r))).
Proof.
  intros Hkv Hentry. cbn zeta. unfold loadResume, tryCatch.
  pose proof (loadBody_run pf id s c w Hkv) as [_ H]. cbn zeta in H.
  rewrite Hentry in H.
  destruct (loadBody pf id s) as [[[]|t] s1 e1]; cbn [outcome final emitted] in *.
  - right. destruct H as (Hq & [(t & Ht)|(_ & Hs & Hr & Hi)]); [discriminate|].
    split; [exact Hq|]. split; [exact Hs|]. split; [exact Hr|exact Hi].
  - left. exists t. unfold console, emit. cbn [emitted].
    apply in_or_app. right. now left.
Qed.

Lemma details_are_shown_unless_a_step_throws_witness :
  let v := view (final (loadResume demoStore "42" demoStart)) in
  shownFeedback v = Some "ATS 78"
  /\ shownJobTitle v = "Backend engineer"
  /\ shownJobDescription v = ""
  /\ resumeUrl v = "blob:application/pdf"
  /\ imageUrl v = ""
  /\ showsPreview v = false.
Proof.
  pose proof (details_are_shown_unless_a_step_throws demoStore "42" demoStart
                (Normal (Some demoEntry)) tt demoData eq_refl eq_refl) as H.
  cbn zeta in H. destruct H as [(t & Hin)|(_ & (Hf & Ht & Hd & _) & _)].
  - exfalso. vm_compute in Hin. repeat (destruct Hin as [Hin|Hin]; [discriminate|]).
    exact Hin.
  - cbn zeta. split; [exact Hf|]. split; [exact Ht|]. split; [exact Hd|].
    repeat split; reflexivity.
Defined.

